(* ===== verification/_CoqProject ===== *)
-Q . S2P
Prelude.v
BitUtils.v
Bitmapset.v
BitmapsetFacts.v
CLib.v
CdbHash.v
CdbHashFacts.v
Qsort.v
QsortFacts.v
FtsConfig.v
CdbComponents.v
CdbComponentsFacts.v
SegConfigDump.v
QEPool.v
QEPoolFacts.v
Libpq.v
PqProtocol.v
PqProtocolFacts.v
FtsProbe.v
FtsProbeSafety.v
FtsProbeCycle.v
FtsProbeTheorems.v
FtsLoop.v
FtsLoopFacts.v
FtsNotify.v
GpReplication.v
GpReplicationFacts.v
WalSender.v
WalSenderFacts.v
ReplSlot.v
FtsHandler.v
FtsHandlerFacts.v
FtsPromotion.v
Elog.v
Dtm.v
DtxInfo.v
CdbTm.v
TwoPhase.v
Xact.v
Session.v
CdbTmQE.v
DtxRecovery.v
Protocol.v
DtmFacts.v
DtmWorld.v
XactFacts.v
SessionFacts.v
RecoveryFacts.v
Lifetime.v
DtxCheckpoint.v
