(* ===== verification/Prelude.v ===== *)
(** * Greengage verification library

    Greengage is a distributed database derived from PostgreSQL: a coordinator plans
    queries and sends them to segments, each a PostgreSQL server with a mirror.  This
    library models the parts of it that decide whether the cluster stays consistent when
    segments or the coordinator fail (distributed transactions and their recovery, fault
    detection), the parts of a session that find the segments, and the placement of rows,
    as functions of Rocq, and proves what they promise.  It is a shallow embedding:
    a C function is a definition of the same name where Rocq allows it, and the theorems
    are about those definitions.

    ** The program and its model

    - Fault tolerance (FTS), coordinator side.  [src/backend/fts/fts.c] runs a loop that
      reads gp_segment_configuration, probes every primary over libpq
      ([src/backend/fts/ftsprobe.c]), marks segments up or down, promotes mirrors, and
      publishes a status array, a version and a dump file.  [FtsConfig.v] has the catalog
      rows, the shared status and the routines that write the catalogs; [FtsProbe.v] has
      ftsprobe.c, one definition per function; [FtsLoop.v] has FtsLoop and
      readCdbComponentInfoAndUpdateStatus, and [FtsNotify.v] the wait of a backend for a
      cycle (FtsNotifyProber of [src/backend/cdb/cdbfts.c]).
    - FTS, segment side.  [FtsHandler.v] has [src/backend/fts/ftsmessagehandler.c], from
      the text of a message to the bytes of the answer; it calls [GpReplication.v]
      (what a primary knows of its mirror, [src/backend/replication/gp_replication.c]),
      [WalSender.v] (the slots of walsenders, [walsender.c]) and [ReplSlot.v] (creating and
      saving a replication slot, [slot.c]).
    - The wire between them.  [PqProtocol.v] builds the messages of a segment as
      [pqformat.c], [pqcomm.c] and [dest.c] do and takes them apart as libpq does
      ([fe-misc.c], [fe-protocol3.c], [fe-exec.c]); [Libpq.v] is the interface the prober
      sees.
    - Distributed transactions, coordinator side.  [Dtm.v] has the data: the states, the
      commands, the transaction stack, the process and the server (log, commit log,
      prepared transactions, counters).  [DtxInfo.v] is the context sent with a statement
      ([cdbdtxcontextinfo.c], [cdbdistributedsnapshot.c]).  [CdbTm.v] is two-phase commit
      ([src/backend/cdb/cdbtm.c], [cdbtmutils.c]); [TwoPhase.v] the prepared transactions
      and the records of the log ([twophase.c], parts of [xact.c], [distributedlog.c]);
      [Xact.v] the transactions, subtransactions and the block state machine
      ([src/backend/access/transam/xact.c]), which calls both; [Session.v] runs the
      messages of a client through it ([postgres.c], [utility.c]: the simple query
      protocol, the transaction statements, the error recovery of the main loop).
    - Distributed transactions, segment side.  [CdbTmQE.v] takes up the context and
      performs the commands of the protocol with the same [Xact.v] and [TwoPhase.v].
    - Crash and recovery.  [DtxRecovery.v] has redo of the transaction records
      (StartupXLOG, xact_redo, xlog_redo) and the process that finishes distributed
      transactions ([src/backend/cdb/cdbdtxrecovery.c]); [DtxCheckpoint.v] has the steps of
      an online checkpoint (CreateCheckPoint, getDtxCheckPointInfo) among those of the
      sessions.
    - A session and its segments.  [CdbComponents.v] reads, resolves, checks and looks up the configuration
      and [QEPool.v] manages the query executors (QEs) of each segment
      ([src/backend/cdb/cdbutil.c], [dispatcher/cdbconn.c]); the configuration is sorted by
      pg_qsort, which is [Qsort.v].
    - Placement of rows.  [CdbHash.v] has the hash of a row and its reduction to a segment
      ([src/backend/cdb/cdbhash.c], [cdblegacyhash.c], evalHashKey of [nodeMotion.c]).
    - Libraries.  [Bitmapset.v] and [BitUtils.v] are [src/backend/nodes/bitmapset.c] and the
      portable routines of [src/port/pg_bitutils.c]; [CLib.v] has the C text functions the
      sources use (sscanf, snprintf, strstr and others).

    This file holds what they share: results and the state monad, weakest preconditions,
    frames, machine integers, and lemmas on lists.

    ** How C is modelled

    An integer is a [Z]; where overflow can matter its width is written out with [wrap]
    (unsigned) or [swrap] (signed).  NULL is [None].  elog(ERROR) and ereport(ERROR) are
    [ElogError]; reading through NULL or a freed address, or outside of an array, is
    [SegFault], so that a theorem that a function raises no fault is a theorem about
    memory safety.  Code with state is in one of two monads.  In [M S A := S -> res (A * S)]
    an error ends the operation and its state with it; it is used where nothing catches
    the error within the model.  (cdbhash returns the global it leaves behind.)  In the
    monad of [Elog.v], [X S A := S -> outcome A * S], the state at the error is kept and
    errors have levels: PG_TRY, critical sections (an ERROR inside is a PANIC), the abort
    of a transaction and a crash of the server are what happens next in that state.
    Transactions, sessions and recovery are written in it, with the weakest precondition
    [xwp] for both outcomes.

    What the code does not control is an environment, a type class of operations on a
    state that the theorems quantify over: [Libpq] (libpq, poll(), the clock),
    [SegmentEnv] (recovery, disk and processes of a segment), [ComponentsEnv] (catalog
    scans, name service, files), [QEEnv] (connections to QEs), [LoopEnv] (all of
    these for the FTS process), [Backend] (settings and role of a process) and [XactEnv]
    (the dispatcher, the clock, and the parts of a backend that a transaction calls).
    What the dispatcher promises about segments is the class [Segments] of [Protocol.v]:
    what a segment may do and has done with a transaction only grows, a segment does only
    what it was told, and a success that it reports has happened.  [CalmEnv] says that the
    modules below raise nothing worse than ERROR unless the server crashes, and that the
    clock goes forward; [PreparedView] of [RecoveryFacts.v] says that the set of segments
    is fixed and that pg_prepared_xacts lists only what was prepared and is not committed.
    [DtmWorld.v] is an instance of all of them, with failing segments.  A theorem that needs something of its environment
    states it as a hypothesis, and its witness has a concrete environment in which
    it holds.

    Records keep the fields the modelled code uses: a SegmentDatabaseDescriptor, a WalSnd or
    a ReplicationSlot has further fields in C.

    ** What the theorems show

    - [Protocol.v], [DtmFacts.v], [XactFacts.v], [SessionFacts.v]: an invariant relates the
      state of a transaction on the coordinator, the log and what the segments may have
      done; every operation keeps it, at errors and PANIC too.  Hence commitment is atomic
      wherever a session ends, and a message of statements refines a small machine of
      transaction blocks (idle, open, failed, with savepoints).
    - [RecoveryFacts.v], [Lifetime.v]: redo rebuilds the table of unfinished transactions;
      through any sequence of sessions, crashes with loss of the unflushed log, restarts,
      and runs of the recovery process, commitment stays atomic; a session that answers has
      finished what it decided; recovery that completes has finished all that was decided.
    - [DtxCheckpoint.v]: a checkpoint fits every log that a later crash leaves, which is
      what the theorems of [Lifetime.v] ask of the checkpoint they start from.
    - [DtxInfo.v]: the context of a transaction is read back as it was sent.

    - [FtsProbeSafety.v], [FtsProbeCycle.v], [FtsProbeTheorems.v]: in every environment a probe
      cycle reaches no internal error and no NULL pointer, keeps each primary/mirror pair
      of the catalog well formed, promotes only mirrors that are in sync, refines an
      abstract round, and makes a bounded number of transitions.  A response that stays
      incomplete keeps a cycle from ending.
    - [FtsLoopFacts.v]: iterations of the loop compose these guarantees with those of
      cdbutil.c: catalog, status array, dump file, version and counters stay in agreement.
      [FtsNotify.v]: a backend returns from FtsNotifyProber only after a cycle that began
      after its call, in every interleaving and with counters that wrap around.
    - [GpReplicationFacts.v], [WalSenderFacts.v]: what GetMirrorStatus reports, through
      histories of walsenders; a case in which it misses a mirror that reconnected.
    - [FtsHandlerFacts.v], [FtsPromotion.v], [PqProtocolFacts.v]: every message gets one
      truthful answer, messages and answers survive the wire in any pieces, promotion can
      be repeated, the disk check repairs its file, the parser of libpq stops.
    - [CdbComponentsFacts.v], [SegConfigDump.v], [QsortFacts.v]: the configuration of a
      session is exactly the catalog, sorted, with primaries first; the dump file is read
      back as it was written; pg_qsort stays inside the array, ends, permutes and sorts.
    - [QEPoolFacts.v]: any order of pool calls keeps every QE in one list once, the
      counters right and the identifiers distinct, and uses no freed descriptor.
    - [CdbHashFacts.v]: every row has a segment inside of the cluster, growing a cluster
      moves rows to new segments only, the legacy hash is FNV-1 and agrees on equal values
      of most types, and not on intervals.
    - [BitmapsetFacts.v]: the operations of bitmapsets are those of sets of natural numbers.

    ** Loops and fuel

    A loop over data is a recursion over that data.  Others take fuel: the byte loops of
    [BitUtils.v] (8, the bytes of a word), the parser of libpq (the length of its input),
    ReplicationSlotReserveWal (one round, when no checkpoint removes WAL meanwhile),
    pg_qsort (the length of the array) and the jump hash (the number of segments) are
    shown to end within the fuel their definitions pass or the theorem names.  The retry
    loops of the second phase get [phase2_rounds], which is enough because every round
    sleeps a tenth of a second and dtx_phase2_retry_second bounds the time; a loop out of
    fuel would raise [LOOPING], which their specifications exclude.  The walks over the
    transaction stack recurse on the stack, and recovery of prepared transactions takes
    the number of entries.  A
    probe cycle and the main loop need not end; their theorems hold for each number of
    rounds and iterations.

    ** What is not modelled

    Logging, fault injection, memory contexts, interrupts and assertions (what the
    assertions of the prober claim is proved).  Operations under a lock are single
    steps.  Of transactions: one session of the coordinator at a time ([DtxCheckpoint.v]
    alone interleaves sessions), no parallel workers, no waits for synchronous
    replication, no exhaustion of memory, local transaction ids without wrap-around, no
    snapshots and visibility, no extended query protocol, no state files of prepared
    transactions, no redo on a standby; a crash happens where the code calls into another
    module or raises PANIC.  Of the segment side of a transaction there are definitions,
    and the coordinator's theorems rest on the interface [Segments], not on them.  Of
    checkpoints: the flushing of buffers and shutdown checkpoints.  The rest of the server
    (planner, executor, storage, interconnect, resource management, GPORCA) and the tools
    around it: they are either too far from the state modelled here, or code of which
    only an interface is visible to it. *)

From Stdlib Require Export Ascii ZArith Lia Btauto.
From Stdlib Require String.
From stdpp Require Export base option numbers strings gmap sorting list.

#[global] Open Scope Z_scope.

(** ** Faults, results and the state monad *)

(** [elog(ERROR, ..)]/[ereport(ERROR, ..)] aborts the current operation with a
    message; dereferencing a NULL pointer or leaving an array kills the process. *)
Inductive fault :=
  | ElogError (msg : string)
  | SegFault (what : string).

#[export] Instance fault_eq_dec : EqDecision fault.
Proof. solve_decision. Defined.

Inductive res (A : Type) :=
  | Ok (a : A)
  | Err (e : fault).
Arguments Ok {A} _.
Arguments Err {A} _.

#[export] Instance res_ret : MRet res := λ A a, Ok a.
#[export] Instance res_bind : MBind res := λ A B f m,
  match m with Ok a => f a | Err e => Err e end.

Definition M (S A : Type) : Type := S → res (A * S).

#[export] Instance M_ret S : MRet (M S) := λ A a s, Ok (a, s).
#[export] Instance M_bind S : MBind (M S) := λ A B f m s,
  match m s with Ok (a, s') => f a s' | Err e => Err e end.

Definition get {S} : M S S := λ s, Ok (s, s).
Definition put {S} (s : S) : M S unit := λ _, Ok (tt, s).
Definition modify {S} (f : S → S) : M S unit := λ s, Ok (tt, f s).
Definition throw {S A} (e : fault) : M S A := λ _, Err e.
Definition elog_ERROR {S A} (msg : string) : M S A := throw (ElogError msg).
(** [deref what p] reads through the pointer [p]; [None] is NULL. *)
Definition deref {S A} (what : string) (p : option A) : M S A :=
  match p with Some a => mret a | None => throw (SegFault what) end.

(** ** Weakest preconditions

    [wp m Q E s]: run from the state [s], [m] either returns with [Q] or raises a
    fault allowed by [E]. *)
Definition wp {S A} (m : M S A) (Q : A → S → Prop) (E : fault → Prop) (s : S) : Prop :=
  match m s with Ok (a, s') => Q a s' | Err e => E e end.

Section wp_rules.
Context {S : Type}.
Implicit Types E : fault → Prop.

Lemma wp_ret {A} (a : A) (Q : A → S → Prop) E s : Q a s → wp (mret a) Q E s.
Proof. done. Qed.

Lemma wp_bind {A B} (m : M S A) (f : A → M S B) (Q : B → S → Prop) E s :
  wp m (λ a, wp (f a) Q E) E s → wp (m ≫= f) Q E s.
Proof. unfold wp, mbind, M_bind. by destruct (m s) as [[a s']|e]. Qed.

Lemma wp_modify (f : S → S) (Q : unit → S → Prop) E s : Q tt (f s) → wp (modify f) Q E s.
Proof. done. Qed.

Lemma wp_mono {A} (m : M S A) (Q Q' : A → S → Prop) (E E' : fault → Prop) s :
  wp m Q' E' s → (∀ a s', Q' a s' → Q a s') → (∀ e, E' e → E e) → wp m Q E s.
Proof. unfold wp. destruct (m s) as [[a s']|e]; eauto. Qed.

Lemma wp_post {A} (m : M S A) (Q Q' : A → S → Prop) E s :
  wp m Q' E s → (∀ a s', Q' a s' → Q a s') → wp m Q E s.
Proof. intros H HQ. by eapply wp_mono. Qed.

(** sequencing with a known specification of the first part *)
Lemma wp_seq {A B} (m : M S A) (f : A → M S B) (R : A → S → Prop) (Q : B → S → Prop) E s :
  wp m R E s → (∀ a s', R a s' → wp (f a) Q E s') → wp (m ≫= f) Q E s.
Proof. intros Hm Hf. apply wp_bind. by eapply wp_post. Qed.

Lemma wp_throw {A} e (Q : A → S → Prop) E s : E e → wp (throw e) Q E s.
Proof. done. Qed.

Lemma wp_deref {A} what (p : option A) (a : A) (Q : A → S → Prop) E s :
  p = Some a → Q a s → wp (deref what p) Q E s.
Proof. by intros ->. Qed.

Lemma wp_conj {A} (m : M S A) (Q Q' : A → S → Prop) E s :
  wp m Q E s → wp m Q' E s → wp m (λ a s', Q a s' ∧ Q' a s') E s.
Proof. unfold wp. by destruct (m s) as [[a s']|e]. Qed.

Lemma wp_and {A} (m : M S A) (Q Q' : A → S → Prop) E s :
  wp m Q E s → wp m Q' (λ _, True) s → wp m (λ a s', Q a s' ∧ Q' a s') E s.
Proof. unfold wp. by destruct (m s) as [[a s']|e]. Qed.

Lemma wp_Ok {A} (m : M S A) (Q : A → S → Prop) E s a s' :
  wp m Q E s → m s = Ok (a, s') → Q a s'.
Proof. unfold wp. intros H Heq. by rewrite Heq in H. Qed.
End wp_rules.

(** ** Frames

    Computations that change the state along [R] only, whether or not they fail. *)
Section framed.
Context {S : Type} (R : relation S) `{!PreOrder R}.

Definition framed {A} (m : M S A) : Prop := ∀ s, wp m (λ _ s', R s s') (λ _, True) s.

Lemma framed_ret {A} (a : A) : framed (mret a).
Proof. intros s. by apply wp_ret. Qed.
Lemma framed_bind {A B} (m : M S A) (f : A → M S B) :
  framed m → (∀ a, framed (f a)) → framed (m ≫= f).
Proof.
  intros Hm Hf s. eapply wp_seq; [apply Hm|]. intros a s1 H1.
  eapply wp_post; [apply Hf|]. intros b s2 H2. by transitivity s1.
Qed.
Lemma framed_throw {A} e : framed (throw (A := A) e).
Proof. intros s. by apply wp_throw. Qed.
Lemma framed_get : framed get.
Proof. intros s. unfold wp, get. reflexivity. Qed.
Lemma framed_deref {A} what (o : option A) : framed (deref what o).
Proof. intros s. destruct o; [by apply wp_ret|done]. Qed.
Lemma framed_modify f : (∀ s, R s (f s)) → framed (modify f).
Proof. intros Hf s. by apply wp_modify. Qed.
End framed.

Create HintDb framed.

(** one step of a proof that a computation is framed *)
Ltac frame_step :=
  first
    [ progress intros
    | match goal with |- PreOrder _ => apply _ end
    | solve [auto with framed nocore]
    | apply framed_ret
    | apply framed_throw
    | apply framed_get
    | apply framed_deref
    | apply framed_bind
    | match goal with
      | |- framed _ (match ?x with _ => _ end) => destruct x
      | |- framed _ (if ?x then _ else _) => destruct x
      end ].

(** ** Machine integers

    C integers are kept as [Z] with their wrap-around written out. *)
Definition wrap (n z : Z) : Z := z mod 2 ^ n.
(** signed reading of the low [n] bits *)
Definition swrap (n z : Z) : Z :=
  let u := z mod 2 ^ n in if u <? 2 ^ (n - 1) then u else u - 2 ^ n.
Lemma swrap_id n z : 0 < n → - 2 ^ (n - 1) ≤ z < 2 ^ (n - 1) → swrap n z = z.
Proof.
  intros Hn Hz. unfold swrap.
  assert (2 ^ n = 2 * 2 ^ (n - 1)) as Hp by (rewrite <-Z.pow_succ_r by lia; f_equal; lia).
  destruct (Z.ltb_spec z 0).
  - rewrite <-(Z.mod_add z 1), Z.mod_small by lia. rewrite (proj2 (Z.ltb_ge _ _)) by lia. lia.
  - rewrite Z.mod_small by lia. by rewrite (proj2 (Z.ltb_lt _ _)) by lia.
Qed.
Lemma swrap_mod n z : 0 ≤ n → swrap n z mod 2 ^ n = z mod 2 ^ n.
Proof.
  intros Hn. unfold swrap. case_match.
  - by rewrite Z.mod_mod by (apply Z.pow_nonzero; lia).
  - rewrite <-(Z.mod_add _ 1) by (apply Z.pow_nonzero; lia).
    replace (z mod 2 ^ n - 2 ^ n + 1 * 2 ^ n) with (z mod 2 ^ n) by lia.
    by rewrite Z.mod_mod by (apply Z.pow_nonzero; lia).
Qed.
Lemma swrap_add n a b : 0 ≤ n → swrap n (swrap n a + b) = swrap n (a + b).
Proof.
  intros Hn. unfold swrap at 1 3. rewrite Zplus_mod, swrap_mod, <-Zplus_mod by done. done.
Qed.
Definition int32_of (z : Z) : Z := swrap 32 z.

Definition is_word (n w : Z) : Prop := 0 ≤ w < 2 ^ n.

(** ** Bits *)

Create Rewrite HintDb zbits.

Lemma testbit_mod_pow2 a n i :
  0 ≤ n → Z.testbit (a mod 2 ^ n) i = (i <? n) && Z.testbit a i.
Proof.
  intros Hn. destruct (Z.ltb_spec i n) as [Hi|Hi]; simpl.
  - destruct (Z.lt_ge_cases i 0); [by rewrite !Z.testbit_neg_r|].
    by rewrite Z.mod_pow2_bits_low.
  - by rewrite Z.mod_pow2_bits_high.
Qed.

Lemma testbit_ones n i :
  0 ≤ n → Z.testbit (Z.ones n) i = (0 <=? i) && (i <? n).
Proof.
  intros Hn. destruct (Z.leb_spec 0 i) as [Hi|Hi]; simpl.
  - destruct (Z.ltb_spec i n); [by rewrite Z.ones_spec_low|by rewrite Z.ones_spec_high].
  - by rewrite Z.testbit_neg_r.
Qed.

Lemma testbit_shiftl a n i :
  0 ≤ n → Z.testbit (Z.shiftl a n) i = (0 <=? i) && Z.testbit a (i - n).
Proof.
  intros Hn. destruct (Z.leb_spec 0 i) as [Hi|Hi]; simpl.
  - by rewrite Z.shiftl_spec.
  - by rewrite Z.testbit_neg_r.
Qed.

Lemma testbit_shiftr a n i :
  Z.testbit (Z.shiftr a n) i = (0 <=? i) && Z.testbit a (i + n).
Proof.
  destruct (Z.leb_spec 0 i) as [Hi|Hi]; simpl.
  - by rewrite Z.shiftr_spec.
  - by rewrite Z.testbit_neg_r.
Qed.

Lemma testbit_pow2 n i : 0 ≤ n → Z.testbit (2 ^ n) i = (i =? n).
Proof. intros Hn. rewrite Z.pow2_bits_eqb by done. apply Z.eqb_sym. Qed.

Lemma testbit_lnot a i : 0 ≤ i → Z.testbit (Z.lnot a) i = negb (Z.testbit a i).
Proof. apply Z.lnot_spec. Qed.

Lemma testbit_word_high n w i : is_word n w → n ≤ i → Z.testbit w i = false.
Proof.
  intros [Hw1 Hw2] Hi. destruct (Z.lt_ge_cases n 0).
  { rewrite Z.pow_neg_r in Hw2 by done. lia. }
  rewrite <-(Z.mod_small w (2 ^ n)) by done. by apply Z.mod_pow2_bits_high.
Qed.

#[export] Hint Rewrite Z.lor_spec Z.land_spec Z.ldiff_spec Z.lxor_spec Z.testbit_0_l
  testbit_shiftr : zbits.
#[export] Hint Rewrite testbit_mod_pow2 testbit_ones testbit_shiftl testbit_pow2
  testbit_lnot using lia : zbits.

(** Split the remaining comparisons on bit positions. *)
Ltac split_cmp :=
  repeat match goal with
  | |- context [?a <? ?b] => destruct (Z.ltb_spec a b); try lia; cbn [andb orb negb]
  | |- context [?a <=? ?b] => destruct (Z.leb_spec a b); try lia; cbn [andb orb negb]
  | |- context [?a =? ?b] => destruct (Z.eqb_spec a b); try lia; cbn [andb orb negb]
  end.
(** Prove an equality of integers bit by bit. *)
Ltac by_bits :=
  apply Z.bits_inj'; intros ?i ?Hi; autorewrite with zbits;
  split_cmp; try btauto; try (f_equal; lia).

Lemma lor_add a b : Z.land a b = 0 → Z.lor a b = a + b.
Proof. intros H. symmetry. by apply Z.add_nocarry_lor. Qed.

(** A non-negative integer is a word when its high bits are clear. *)
Lemma is_word_bits n w :
  0 ≤ n → 0 ≤ w → (∀ i, n ≤ i → Z.testbit w i = false) → is_word n w.
Proof.
  intros Hn Hw Hbits. split; [done|].
  assert (w = w mod 2 ^ n) as ->; [|apply Z.mod_pos_bound; lia].
  apply Z.bits_inj'. intros i Hi. rewrite testbit_mod_pow2 by done.
  destruct (Z.ltb_spec i n); [done|]. by rewrite Hbits.
Qed.

Lemma is_word_mod n z : 0 ≤ n → is_word n (z mod 2 ^ n).
Proof. intros ?. apply Z.mod_pos_bound. lia. Qed.
Lemma is_word_lor n a b : 0 ≤ n → is_word n a → is_word n b → is_word n (Z.lor a b).
Proof.
  intros Hn Ha Hb. apply is_word_bits; [done|apply Z.lor_nonneg; unfold is_word in *; lia|].
  intros i Hi. by rewrite Z.lor_spec, !(testbit_word_high n).
Qed.
Lemma is_word_land_l n a b : 0 ≤ n → is_word n a → is_word n (Z.land a b).
Proof.
  intros Hn Ha. apply is_word_bits; [done|apply Z.land_nonneg; unfold is_word in *; lia|].
  intros i Hi. by rewrite Z.land_spec, (testbit_word_high n).
Qed.
Lemma is_word_ldiff n a b : 0 ≤ n → is_word n a → is_word n (Z.ldiff a b).
Proof.
  intros Hn Ha. apply is_word_bits; [done|apply Z.ldiff_nonneg; unfold is_word in *; lia|].
  intros i Hi. by rewrite Z.ldiff_spec, (testbit_word_high n).
Qed.
Lemma is_word_shiftr n w k : 0 ≤ k → is_word n w → is_word n (Z.shiftr w k).
Proof.
  intros Hk [H1 H2]. split; [by apply Z.shiftr_nonneg|].
  rewrite Z.shiftr_div_pow2 by done.
  apply Z.le_lt_trans with w; [|done]. apply Z.div_le_upper_bound; nia.
Qed.
Create HintDb words.
#[export] Hint Resolve is_word_mod is_word_lor is_word_land_l is_word_ldiff
  is_word_shiftr : words.
#[export] Hint Extern 1 (_ ≤ _) => lia : words.

(** ** Sets of bits as ascending lists *)

(** the positions below [n] that are set in [z], ascending *)
Definition bitlist (z n : Z) : list Z := filter (λ i, Z.testbit z i = true) (seqZ 0 n).

Lemma elem_of_bitlist z n i : i ∈ bitlist z n ↔ 0 ≤ i < n ∧ Z.testbit z i = true.
Proof. unfold bitlist. rewrite list_elem_of_filter, elem_of_seqZ. intuition lia. Qed.

Lemma seqZ_split k n : 0 ≤ k → 0 ≤ n → seqZ 0 (k + n) = seqZ 0 k ++ ((λ i, k + i) <$> seqZ 0 n).
Proof.
  intros Hk Hn. rewrite seqZ_app by done. f_equal.
  rewrite fmap_add_seqZ. f_equal; lia.
Qed.

Lemma bitlist_ext z z' n :
  (∀ i, 0 ≤ i < n → Z.testbit z i = Z.testbit z' i) → bitlist z n = bitlist z' n.
Proof.
  intros H. unfold bitlist.
  assert (Forall (λ i, 0 ≤ i < n) (seqZ 0 n)) as HF.
  { apply Forall_forall. intros i. rewrite elem_of_seqZ. lia. }
  induction HF as [|i l Hi HF IH]; [done|].
  rewrite !filter_cons, IH, H by done. done.
Qed.

Lemma bitlist_add z k n :
  0 ≤ k → 0 ≤ n → bitlist z (k + n) = bitlist z k ++ ((λ i, k + i) <$> bitlist (Z.shiftr z k) n).
Proof.
  intros Hk Hn. unfold bitlist. rewrite seqZ_split, filter_app by done. f_equal.
  assert (Forall (λ i, 0 ≤ i) (seqZ 0 n)) as HF.
  { apply Forall_forall. intros i. rewrite elem_of_seqZ. lia. }
  induction HF as [|i l Hi HF IH]; [done|].
  rewrite fmap_cons, !filter_cons, IH, Z.shiftr_spec, (Z.add_comm i k) by done.
  by case_decide.
Qed.

Lemma bitlist_nonpos z n : n ≤ 0 → bitlist z n = [].
Proof. intros. unfold bitlist. by rewrite seqZ_nil by lia. Qed.

Lemma bitlist_nil z n : (∀ i, 0 ≤ i < n → Z.testbit z i = false) → bitlist z n = [].
Proof.
  intros H. destruct (bitlist z n) as [|i l] eqn:E; [done|].
  assert (i ∈ bitlist z n) as [Hi Hb]%elem_of_bitlist by (rewrite E; left).
  rewrite H in Hb by done. done.
Qed.

Lemma seqZ_sorted m (n : nat) : StronglySorted Z.lt (seqZ m (Z.of_nat n)).
Proof.
  revert m. induction n as [|n IH]; intros m; [constructor|].
  rewrite seqZ_cons by lia. constructor.
  - replace (Z.pred (Z.of_nat (S n))) with (Z.of_nat n) by lia. apply IH.
  - apply Forall_seqZ. lia.
Qed.

Lemma StronglySorted_filter_sub {A} (R : relation A) (P : A → Prop) `{∀ x, Decision (P x)} l :
  StronglySorted R l → StronglySorted R (filter P l).
Proof.
  induction 1 as [|x l Hl IH Hx]; [constructor|]. rewrite filter_cons.
  case_decide; [|done]. constructor; [done|].
  apply Forall_forall. intros y [_ Hy]%list_elem_of_filter. rewrite Forall_forall in Hx. auto.
Qed.

Lemma bitlist_sorted z n : StronglySorted Z.lt (bitlist z n).
Proof.
  destruct (Z.lt_ge_cases 0 n); [|rewrite bitlist_nonpos by lia; constructor].
  apply StronglySorted_filter_sub. rewrite <-(Z2Nat.id n) by lia. apply seqZ_sorted.
Qed.

(** ** Options *)

Lemma Some_exists {A} (x : A) (P : A → Prop) : (∃ y, Some x = Some y ∧ P y) ↔ P x.
Proof. split; [by intros (y & [= <-] & ?)|by exists x]. Qed.
Lemma None_exists {A} (P : A → Prop) : (∃ y, None = Some y ∧ P y) ↔ False.
Proof. split; [by intros (y & ? & ?)|done]. Qed.

(** ** Lists *)

Lemma NoDup_fmap_elem {A B} (f : A → B) (l : list A) x y :
  NoDup (f <$> l) → x ∈ l → y ∈ l → f x = f y → x = y.
Proof.
  intros Hnd [i Hi]%list_elem_of_lookup [j Hj]%list_elem_of_lookup Heq.
  assert (i = j) as ->; [|congruence].
  eapply (NoDup_lookup _ i j (f x)); [exact Hnd|..]; rewrite list_lookup_fmap.
  - by rewrite Hi.
  - rewrite Hj. simpl. by rewrite Heq.
Qed.

Lemma filter_none {A} (P : A → Prop) `{∀ x, Decision (P x)} (l : list A) :
  (∀ x, x ∈ l → ¬ P x) → filter P l = [].
Proof.
  induction l as [|x l IH]; intros Hl; [done|]. rewrite filter_cons_False by (apply Hl; left).
  apply IH. intros y Hy. apply Hl. by right.
Qed.

Lemma filter_every {A} (P : A → Prop) `{∀ x, Decision (P x)} (l : list A) :
  (∀ x, x ∈ l → P x) → filter P l = l.
Proof.
  induction l as [|x l IH]; intros Hl; [done|]. rewrite filter_cons_True by (apply Hl; left).
  f_equal. apply IH. intros y Hy. apply Hl. by right.
Qed.

Lemma filter_fmap_comm {A B} (P : B → Prop) (Q : A → Prop) `{∀ x, Decision (P x)}
    `{∀ x, Decision (Q x)} (f : A → B) (l : list A) :
  (∀ x, x ∈ l → P (f x) ↔ Q x) → filter P (f <$> l) = f <$> filter Q l.
Proof.
  induction l as [|x l IH]; intros HPQ; [done|]. rewrite fmap_cons, !filter_cons, IH.
  - pose proof (HPQ x ltac:(left)). repeat case_decide; naive_solver.
  - intros y Hy. apply HPQ. by right.
Qed.
