(* ===== verification/BitUtils.v ===== *)
(** * Bit scanning and population count ([src/port/pg_bitutils.c],
    [src/include/port/pg_bitutils.h])

    The three 256-entry tables of the source and the byte-at-a-time loops that
    use them (the portable branch of each function, compiled when the
    corresponding compiler builtin is absent).  Each loop is given fuel 8, the
    number of bytes in a 64-bit word; the theorems show that this is enough for
    every word in range. *)

From S2P Require Import Prelude.

Definition pg_leftmost_one_pos : list Z :=
  [0; 0; 1; 1; 2; 2; 2; 2; 3; 3; 3; 3; 3; 3; 3; 3;
   4; 4; 4; 4; 4; 4; 4; 4; 4; 4; 4; 4; 4; 4; 4; 4;
   5; 5; 5; 5; 5; 5; 5; 5; 5; 5; 5; 5; 5; 5; 5; 5;
   5; 5; 5; 5; 5; 5; 5; 5; 5; 5; 5; 5; 5; 5; 5; 5;
   6; 6; 6; 6; 6; 6; 6; 6; 6; 6; 6; 6; 6; 6; 6; 6;
   6; 6; 6; 6; 6; 6; 6; 6; 6; 6; 6; 6; 6; 6; 6; 6;
   6; 6; 6; 6; 6; 6; 6; 6; 6; 6; 6; 6; 6; 6; 6; 6;
   6; 6; 6; 6; 6; 6; 6; 6; 6; 6; 6; 6; 6; 6; 6; 6;
   7; 7; 7; 7; 7; 7; 7; 7; 7; 7; 7; 7; 7; 7; 7; 7;
   7; 7; 7; 7; 7; 7; 7; 7; 7; 7; 7; 7; 7; 7; 7; 7;
   7; 7; 7; 7; 7; 7; 7; 7; 7; 7; 7; 7; 7; 7; 7; 7;
   7; 7; 7; 7; 7; 7; 7; 7; 7; 7; 7; 7; 7; 7; 7; 7;
   7; 7; 7; 7; 7; 7; 7; 7; 7; 7; 7; 7; 7; 7; 7; 7;
   7; 7; 7; 7; 7; 7; 7; 7; 7; 7; 7; 7; 7; 7; 7; 7;
   7; 7; 7; 7; 7; 7; 7; 7; 7; 7; 7; 7; 7; 7; 7; 7;
   7; 7; 7; 7; 7; 7; 7; 7; 7; 7; 7; 7; 7; 7; 7; 7].

Definition pg_rightmost_one_pos : list Z :=
  [0; 0; 1; 0; 2; 0; 1; 0; 3; 0; 1; 0; 2; 0; 1; 0;
   4; 0; 1; 0; 2; 0; 1; 0; 3; 0; 1; 0; 2; 0; 1; 0;
   5; 0; 1; 0; 2; 0; 1; 0; 3; 0; 1; 0; 2; 0; 1; 0;
   4; 0; 1; 0; 2; 0; 1; 0; 3; 0; 1; 0; 2; 0; 1; 0;
   6; 0; 1; 0; 2; 0; 1; 0; 3; 0; 1; 0; 2; 0; 1; 0;
   4; 0; 1; 0; 2; 0; 1; 0; 3; 0; 1; 0; 2; 0; 1; 0;
   5; 0; 1; 0; 2; 0; 1; 0; 3; 0; 1; 0; 2; 0; 1; 0;
   4; 0; 1; 0; 2; 0; 1; 0; 3; 0; 1; 0; 2; 0; 1; 0;
   7; 0; 1; 0; 2; 0; 1; 0; 3; 0; 1; 0; 2; 0; 1; 0;
   4; 0; 1; 0; 2; 0; 1; 0; 3; 0; 1; 0; 2; 0; 1; 0;
   5; 0; 1; 0; 2; 0; 1; 0; 3; 0; 1; 0; 2; 0; 1; 0;
   4; 0; 1; 0; 2; 0; 1; 0; 3; 0; 1; 0; 2; 0; 1; 0;
   6; 0; 1; 0; 2; 0; 1; 0; 3; 0; 1; 0; 2; 0; 1; 0;
   4; 0; 1; 0; 2; 0; 1; 0; 3; 0; 1; 0; 2; 0; 1; 0;
   5; 0; 1; 0; 2; 0; 1; 0; 3; 0; 1; 0; 2; 0; 1; 0;
   4; 0; 1; 0; 2; 0; 1; 0; 3; 0; 1; 0; 2; 0; 1; 0].

Definition pg_number_of_ones : list Z :=
  [0; 1; 1; 2; 1; 2; 2; 3; 1; 2; 2; 3; 2; 3; 3; 4;
   1; 2; 2; 3; 2; 3; 3; 4; 2; 3; 3; 4; 3; 4; 4; 5;
   1; 2; 2; 3; 2; 3; 3; 4; 2; 3; 3; 4; 3; 4; 4; 5;
   2; 3; 3; 4; 3; 4; 4; 5; 3; 4; 4; 5; 4; 5; 5; 6;
   1; 2; 2; 3; 2; 3; 3; 4; 2; 3; 3; 4; 3; 4; 4; 5;
   2; 3; 3; 4; 3; 4; 4; 5; 3; 4; 4; 5; 4; 5; 5; 6;
   2; 3; 3; 4; 3; 4; 4; 5; 3; 4; 4; 5; 4; 5; 5; 6;
   3; 4; 4; 5; 4; 5; 5; 6; 4; 5; 5; 6; 5; 6; 6; 7;
   1; 2; 2; 3; 2; 3; 3; 4; 2; 3; 3; 4; 3; 4; 4; 5;
   2; 3; 3; 4; 3; 4; 4; 5; 3; 4; 4; 5; 4; 5; 5; 6;
   2; 3; 3; 4; 3; 4; 4; 5; 3; 4; 4; 5; 4; 5; 5; 6;
   3; 4; 4; 5; 4; 5; 5; 6; 4; 5; 5; 6; 5; 6; 6; 7;
   2; 3; 3; 4; 3; 4; 4; 5; 3; 4; 4; 5; 4; 5; 5; 6;
   3; 4; 4; 5; 4; 5; 5; 6; 4; 5; 5; 6; 5; 6; 6; 7;
   3; 4; 4; 5; 4; 5; 5; 6; 4; 5; 5; 6; 5; 6; 6; 7;
   4; 5; 5; 6; 5; 6; 6; 7; 5; 6; 6; 7; 6; 7; 7; 8].

(** [table[word & 255]] *)
Definition table_at (table : list Z) (word : Z) : Z :=
  table !!! Z.to_nat (Z.land word 255).

(** [while ((word >> shift) == 0) shift -= 8;] *)
Fixpoint leftmost_shift (fuel : nat) (word shift : Z) : Z :=
  match fuel with
  | O => shift
  | S fuel' =>
      if Z.shiftr word shift =? 0 then leftmost_shift fuel' word (shift - 8) else shift
  end.

Definition pg_leftmost_one_pos64 (word : Z) : Z :=
  let shift := leftmost_shift 8 word (64 - 8) in
  shift + table_at pg_leftmost_one_pos (Z.shiftr word shift).

(** [while ((word & 255) == 0) { word >>= 8; result += 8; }] followed by the
    table lookup; [-1] when the fuel runs out, which is when [word] is 0. *)
Fixpoint rightmost_loop (fuel : nat) (word result : Z) : Z :=
  match fuel with
  | O => -1
  | S fuel' =>
      if Z.land word 255 =? 0 then rightmost_loop fuel' (Z.shiftr word 8) (result + 8)
      else result + table_at pg_rightmost_one_pos word
  end.

Definition pg_rightmost_one_pos64 (word : Z) : Z := rightmost_loop 8 word 0.

(** [while (word != 0) { result += pg_number_of_ones[word & 255]; word >>= 8; }] *)
Fixpoint popcount_loop (fuel : nat) (word result : Z) : Z :=
  match fuel with
  | O => result
  | S fuel' =>
      if word =? 0 then result
      else popcount_loop fuel' (Z.shiftr word 8) (result + table_at pg_number_of_ones word)
  end.

Definition pg_popcount64_slow (word : Z) : Z := popcount_loop 8 word 0.

(** ** Correctness *)

(** [p] is the position of the least significant set bit of [w] *)
Definition is_rightmost (w p : Z) : Prop :=
  0 ≤ p ∧ Z.testbit w p = true ∧ ∀ i, i < p → Z.testbit w i = false.

Lemma is_rightmost_unique w p q : is_rightmost w p → is_rightmost w q → p = q.
Proof.
  intros (?&Hp&Hp') (?&Hq&Hq').
  destruct (Z.lt_trichotomy p q) as [Hlt|[?|Hlt]]; [|done|].
  - rewrite Hq' in Hp by done. done.
  - rewrite Hp' in Hq by done. done.
Qed.

(** The facts about single bytes are decided by running through the tables. *)
Definition byte_ok (b : Z) : bool :=
  let r := pg_rightmost_one_pos !!! Z.to_nat b in
  let l := pg_leftmost_one_pos !!! Z.to_nat b in
  ((b =? 0) || (l =? Z.log2 b)) &&
  ((b =? 0) || (Z.testbit b r && (0 <=? r) && forallb (λ i, negb (Z.testbit b i)) (seqZ 0 r))) &&
  (pg_number_of_ones !!! Z.to_nat b =? Z.of_nat (length (bitlist b 8))).

Lemma bytes_ok : forallb byte_ok (seqZ 0 256) = true.
Proof. vm_compute. reflexivity. Qed.

Lemma byte_ok_all b : is_word 8 b → byte_ok b = true.
Proof.
  intros Hb. pose proof bytes_ok as H. rewrite forallb_forall in H. apply H.
  apply list_elem_of_In, elem_of_seqZ. unfold is_word in Hb. lia.
Qed.

Lemma land_255 w : Z.land w 255 = w mod 2 ^ 8.
Proof. change 255 with (Z.ones 8). by apply Z.land_ones. Qed.

Lemma byte_rightmost w :
  Z.land w 255 ≠ 0 → is_rightmost w (table_at pg_rightmost_one_pos w).
Proof.
  rewrite land_255. intros Hw. unfold table_at. rewrite land_255.
  assert (is_word 8 (w mod 2 ^ 8)) as Hb by auto with words.
  pose proof (byte_ok_all _ Hb) as Hok. unfold byte_ok in Hok.
  rewrite (proj2 (Z.eqb_neq _ 0)) in Hok by done. simpl in Hok.
  apply andb_true_iff in Hok as [Hok _]. apply andb_true_iff in Hok as [_ Hok].
  apply andb_true_iff in Hok as [Hok Hlow]. apply andb_true_iff in Hok as [Hbit Hpos].
  set (r := pg_rightmost_one_pos !!! _) in *.
  rewrite Z.leb_le in Hpos. rewrite testbit_mod_pow2 in Hbit by lia.
  apply andb_true_iff in Hbit as [Hlt Hbit]. rewrite Z.ltb_lt in Hlt.
  split; [done|split; [done|]]. intros i Hi.
  destruct (Z.lt_ge_cases i 0); [by apply Z.testbit_neg_r|].
  rewrite forallb_forall in Hlow. specialize (Hlow i).
  rewrite testbit_mod_pow2, (proj2 (Z.ltb_lt i 8)) in Hlow by lia. simpl in Hlow.
  apply negb_true_iff, Hlow, list_elem_of_In, elem_of_seqZ. lia.
Qed.

Lemma byte_popcount w :
  table_at pg_number_of_ones w = Z.of_nat (length (bitlist w 8)).
Proof.
  unfold table_at. rewrite land_255.
  assert (is_word 8 (w mod 2 ^ 8)) as Hb by auto with words.
  pose proof (byte_ok_all _ Hb) as Hok. unfold byte_ok in Hok.
  apply andb_true_iff in Hok as [_ Hok]. apply Z.eqb_eq in Hok. rewrite Hok.
  f_equal. f_equal. apply bitlist_ext. intros i Hi.
  rewrite testbit_mod_pow2 by lia. by rewrite (proj2 (Z.ltb_lt i 8)) by lia.
Qed.

Lemma byte_leftmost w :
  0 < w < 256 → table_at pg_leftmost_one_pos w = Z.log2 w.
Proof.
  intros Hw. unfold table_at. rewrite land_255, Z.mod_small by lia.
  pose proof (byte_ok_all w ltac:(unfold is_word; lia)) as Hok. unfold byte_ok in Hok.
  rewrite (proj2 (Z.eqb_neq w 0)) in Hok by lia. simpl in Hok.
  apply andb_true_iff in Hok as [Hok _]. apply andb_true_iff in Hok as [Hok _].
  by apply Z.eqb_eq.
Qed.

Lemma low_byte_zero_bits w i : Z.land w 255 = 0 → i < 8 → Z.testbit w i = false.
Proof.
  rewrite land_255. intros H Hi. destruct (Z.lt_ge_cases i 0); [by apply Z.testbit_neg_r|].
  assert (Z.testbit (w mod 2 ^ 8) i = false) as H' by (rewrite H; apply Z.testbit_0_l).
  rewrite testbit_mod_pow2, (proj2 (Z.ltb_lt i 8)) in H' by lia. done.
Qed.

Lemma shiftr_word_byte n w : 0 ≤ n → is_word (n + 8) w → is_word n (Z.shiftr w 8).
Proof.
  intros Hn [H1 H2]. split; [by apply Z.shiftr_nonneg|].
  rewrite Z.shiftr_div_pow2 by lia. apply Z.div_lt_upper_bound; [lia|].
  rewrite <-Z.pow_add_r by lia. by rewrite Z.add_comm.
Qed.

Lemma rightmost_loop_spec fuel w r :
  is_word (8 * Z.of_nat fuel) w → w ≠ 0 →
  ∃ p, rightmost_loop fuel w r = r + p ∧ is_rightmost w p.
Proof.
  revert w r. induction fuel as [|fuel IH]; intros w r Hw Hnz.
  { unfold is_word in Hw. simpl in Hw. lia. }
  cbn [rightmost_loop]. destruct (Z.eqb_spec (Z.land w 255) 0) as [Hz|Hz].
  - destruct (IH (Z.shiftr w 8) (r + 8)) as (p&->&Hp&Hbit&Hlow).
    + apply shiftr_word_byte; [lia|]. by replace (8 * Z.of_nat fuel + 8) with (8 * Z.of_nat (S fuel)) by lia.
    + intros Hz'. apply Hnz. apply Z.bits_inj'. intros i Hi. rewrite Z.testbit_0_l.
      destruct (Z.lt_ge_cases i 8); [by apply low_byte_zero_bits|].
      assert (Z.testbit (Z.shiftr w 8) (i - 8) = false) as H' by (rewrite Hz'; apply Z.testbit_0_l).
      rewrite Z.shiftr_spec in H' by lia. by replace (i - 8 + 8) with i in H' by lia.
    + exists (p + 8). split; [lia|]. split; [lia|].
      rewrite Z.shiftr_spec in Hbit by done. split; [done|]. intros i Hi.
      destruct (Z.lt_ge_cases i 8); [by apply low_byte_zero_bits|].
      specialize (Hlow (i - 8) ltac:(lia)). rewrite Z.shiftr_spec in Hlow by lia.
      by replace (i - 8 + 8) with i in Hlow by lia.
  - eexists. split; [reflexivity|]. by apply byte_rightmost.
Qed.

(** The scan for the lowest set bit is right for every non-zero 64-bit word. *)
Lemma pg_rightmost_one_pos64_spec w :
  is_word 64 w → w ≠ 0 → is_rightmost w (pg_rightmost_one_pos64 w).
Proof.
  intros Hw Hnz. unfold pg_rightmost_one_pos64.
  by destruct (rightmost_loop_spec 8 w 0 Hw Hnz) as (p&->&?).
Qed.

Lemma popcount_loop_spec fuel w r :
  is_word (8 * Z.of_nat fuel) w →
  popcount_loop fuel w r = r + Z.of_nat (length (bitlist w (8 * Z.of_nat fuel))).
Proof.
  revert w r. induction fuel as [|fuel IH]; intros w r Hw.
  { simpl. lia. }
  cbn [popcount_loop]. destruct (Z.eqb_spec w 0) as [->|Hz].
  - rewrite bitlist_nil; [simpl; lia|]. intros i _. apply Z.testbit_0_l.
  - rewrite IH.
    2:{ apply shiftr_word_byte; [lia|].
        by replace (8 * Z.of_nat fuel + 8) with (8 * Z.of_nat (S fuel)) by lia. }
    replace (8 * Z.of_nat (S fuel)) with (8 + 8 * Z.of_nat fuel) by lia.
    rewrite bitlist_add, length_app, length_fmap, byte_popcount by lia. lia.
Qed.

(** The population count is the number of set bits. *)
Lemma pg_popcount64_slow_spec w :
  is_word 64 w → pg_popcount64_slow w = Z.of_nat (length (bitlist w 64)).
Proof. intros Hw. unfold pg_popcount64_slow. by rewrite (popcount_loop_spec 8). Qed.

Lemma leftmost_shift_spec (fuel : nat) w :
  (0 < fuel)%nat → 0 < w < 2 ^ (8 * Z.of_nat fuel) →
  let s := leftmost_shift fuel w (8 * Z.of_nat fuel - 8) in
  0 ≤ s ∧ 0 < Z.shiftr w s < 256.
Proof.
  induction fuel as [|fuel IH]; [lia|]. intros _ Hw. cbn [leftmost_shift].
  replace (8 * Z.of_nat (S fuel) - 8) with (8 * Z.of_nat fuel) by lia.
  destruct (Z.eqb_spec (Z.shiftr w (8 * Z.of_nat fuel)) 0) as [Hz|Hz].
  - destruct fuel as [|fuel']; [rewrite Z.shiftr_0_r in Hz; lia|].
    apply IH; [lia|]. split; [lia|].
    rewrite Z.shiftr_div_pow2 in Hz by lia.
    apply Z.div_small_iff in Hz; [|lia]. lia.
  - split; [lia|]. rewrite Z.shiftr_div_pow2 in * by lia.
    assert (0 ≤ w / 2 ^ (8 * Z.of_nat fuel)) by (apply Z.div_pos; lia).
    split; [lia|]. apply Z.div_lt_upper_bound; [lia|].
    replace (8 * Z.of_nat (S fuel)) with (8 * Z.of_nat fuel + 8) in Hw by lia.
    rewrite Z.pow_add_r in Hw by lia. lia.
Qed.

(** The scan for the highest set bit computes the integer logarithm. *)
Lemma pg_leftmost_one_pos64_spec w :
  is_word 64 w → w ≠ 0 → pg_leftmost_one_pos64 w = Z.log2 w.
Proof.
  intros Hw Hnz. unfold pg_leftmost_one_pos64.
  pose proof (leftmost_shift_spec 8 w) as Hs. cbv zeta in Hs.
  change (8 * Z.of_nat 8 - 8) with (64 - 8) in Hs.
  destruct Hs as [Hs1 Hs2]; [lia|unfold is_word in Hw; lia|].
  set (s := leftmost_shift 8 w (64 - 8)) in *.
  rewrite byte_leftmost by done. rewrite Z.log2_shiftr by (unfold is_word in Hw; lia).
  rewrite Z.shiftr_div_pow2 in Hs2 by done.
  assert (s ≤ Z.log2 w); [|lia].
  apply Z.log2_le_pow2; [unfold is_word in Hw; lia|].
  destruct (Z.lt_ge_cases w (2 ^ s)); [|done].
  rewrite Z.div_small in Hs2; unfold is_word in Hw; lia.
Qed.
