(* ===== verification/Bitmapset.v ===== *)
(** * Bitmapsets ([src/backend/nodes/bitmapset.c], [src/include/nodes/bitmapset.h])

    A [Bitmapset *] is a pointer to a word count and that many 64-bit words;
    NULL is the empty set.  The model is [option (list Z)]: the list is the word
    array and its length is [nwords].  Operations that recycle their input are
    modelled by the value they return, which is how every caller uses them
    ([foo = bms_add_member(foo, x)]).  [elog(ERROR)] is an [Err] result.

    Word loops are recursions over the word list; a loop that runs downwards is a
    recursion over the reversed list. *)

From S2P Require Import Prelude BitUtils.

Definition BITS_PER_BITMAPWORD : Z := 64.
Definition Bitmapset := option (list Z).

Inductive BMS_Comparison := BMS_EQUAL | BMS_SUBSET1 | BMS_SUBSET2 | BMS_DIFFERENT.
Inductive BMS_Membership := BMS_EMPTY_SET | BMS_SINGLETON | BMS_MULTIPLE.

#[export] Instance BMS_Comparison_eq_dec : EqDecision BMS_Comparison.
Proof. solve_decision. Defined.
#[export] Instance BMS_Membership_eq_dec : EqDecision BMS_Membership.
Proof. solve_decision. Defined.

(** C division truncates towards zero. *)
Definition WORDNUM (x : Z) : Z := Z.quot x BITS_PER_BITMAPWORD.
Definition BITNUM (x : Z) : Z := Z.rem x BITS_PER_BITMAPWORD.

(** operations of [uint64] *)
Definition not64 (w : Z) : Z := Z.lnot w mod 2 ^ 64.
Definition shl64 (w n : Z) : Z := Z.shiftl w n mod 2 ^ 64.
Definition neg64 (w : Z) : Z := (- w) mod 2 ^ 64.
Definition all_ones64 : Z := not64 0.

(** [(signedbitmapword) x & -((signedbitmapword) x)], read back as a [bitmapword] *)
Definition RIGHTMOST_ONE (x : Z) : Z := Z.land x (neg64 x).
Definition HAS_MULTIPLE_ONES (x : Z) : bool := negb (RIGHTMOST_ONE x =? x).

Definition bmw_leftmost_one_pos : Z → Z := pg_leftmost_one_pos64.
Definition bmw_rightmost_one_pos : Z → Z := pg_rightmost_one_pos64.
Definition bmw_popcount : Z → Z := pg_popcount64_slow.

Definition neg_member_msg : string := "negative bitmapset member not allowed".

Definition nwords (ws : list Z) : Z := Z.of_nat (length ws).
(** [a->words[i]], [i] in range *)
Definition word_at (ws : list Z) (i : Z) : Z := default 0 (ws !! Z.to_nat i).
(** [a->words[i] = w], [i] in range *)
Definition set_word (ws : list Z) (i w : Z) : list Z := <[Z.to_nat i := w]> ws.

Definition bms_copy (a : Bitmapset) : Bitmapset := a.

(** [for (..; i < nwords; i++) if (words[i] != 0) return false;] then [true] *)
Fixpoint all_zero_words (ws : list Z) : bool :=
  match ws with
  | [] => true
  | w :: ws' => if negb (w =? 0) then false else all_zero_words ws'
  end.

Definition bms_is_empty (a : Bitmapset) : bool :=
  match a with None => true | Some ws => all_zero_words ws end.

Fixpoint equal_loop (shorter longer : list Z) : bool :=
  match shorter, longer with
  | s :: ss, l :: ls => if negb (s =? l) then false else equal_loop ss ls
  | _, rest => all_zero_words rest
  end.

Definition bms_equal (a b : Bitmapset) : bool :=
  match a, b with
  | None, None => true
  | None, Some _ => bms_is_empty b
  | Some _, None => bms_is_empty a
  | Some wa, Some wb =>
      if nwords wa <=? nwords wb then equal_loop wa wb else equal_loop wb wa
  end.

(** the words in common, from the highest down *)
Fixpoint compare_loop (ps : list (Z * Z)) : Z :=
  match ps with
  | [] => 0
  | (aw, bw) :: ps' =>
      if negb (aw =? bw) then (if bw <? aw then 1 else -1) else compare_loop ps'
  end.

Definition bms_compare (a b : Bitmapset) : Z :=
  match a, b with
  | None, _ => if bms_is_empty b then 0 else -1
  | Some _, None => if bms_is_empty a then 0 else 1
  | Some wa, Some wb =>
      let shortlen := Nat.min (length wa) (length wb) in
      if negb (all_zero_words (drop shortlen wa)) then 1
      else if negb (all_zero_words (drop shortlen wb)) then -1
      else compare_loop (reverse (zip (take shortlen wa) (take shortlen wb)))
  end.

Definition bms_make_singleton (x : Z) : res Bitmapset :=
  if x <? 0 then Err (ElogError neg_member_msg)
  else
    let wordnum := WORDNUM x in
    let bitnum := BITNUM x in
    let zeros := replicate (Z.to_nat (wordnum + 1)) 0 in
    Ok (Some (set_word zeros wordnum (shl64 1 bitnum))).

(** [for (i = 0; i < len; i++) result[i] = f(result[i], other[i]);] over the words
    the two arrays have in common *)
Fixpoint update_prefix (f : Z → Z → Z) (result other : list Z) : list Z :=
  match result, other with
  | r :: rs, o :: os => f r o :: update_prefix f rs os
  | _, _ => result
  end.

Definition or_word (r o : Z) : Z := Z.lor r o.
Definition and_word (r o : Z) : Z := Z.land r o.
Definition andnot_word (r o : Z) : Z := Z.land r (not64 o).

Definition bms_union (a b : Bitmapset) : Bitmapset :=
  match a, b with
  | None, _ => bms_copy b
  | _, None => bms_copy a
  | Some wa, Some wb =>
      if nwords wa <=? nwords wb then Some (update_prefix or_word wb wa)
      else Some (update_prefix or_word wa wb)
  end.

Definition bms_intersect (a b : Bitmapset) : Bitmapset :=
  match a, b with
  | None, _ | _, None => None
  | Some wa, Some wb =>
      if nwords wa <=? nwords wb then Some (update_prefix and_word wa wb)
      else Some (update_prefix and_word wb wa)
  end.

Definition bms_difference (a b : Bitmapset) : Bitmapset :=
  match a, b with
  | None, _ => None
  | Some _, None => bms_copy a
  | Some wa, Some wb => Some (update_prefix andnot_word wa wb)
  end.

(** the common words of [bms_is_subset], then the extra words of [a] *)
Fixpoint subset_loop (wa wb : list Z) : bool :=
  match wa, wb with
  | a :: wa', b :: wb' =>
      if negb (Z.land a (not64 b) =? 0) then false else subset_loop wa' wb'
  | _, _ => all_zero_words wa
  end.

Definition bms_is_subset (a b : Bitmapset) : bool :=
  match a, b with
  | None, _ => true
  | Some _, None => bms_is_empty a
  | Some wa, Some wb => subset_loop wa wb
  end.

(** "a is not a subset of b": [None] is the early return of [BMS_DIFFERENT] *)
Definition a_not_subset (result : BMS_Comparison) : option BMS_Comparison :=
  if decide (result = BMS_SUBSET1) then None else Some BMS_SUBSET2.
Definition b_not_subset (result : BMS_Comparison) : option BMS_Comparison :=
  if decide (result = BMS_SUBSET2) then None else Some BMS_SUBSET1.

Definition subset_compare_word (result : BMS_Comparison) (aword bword : Z)
    : option BMS_Comparison :=
  r ← (if negb (Z.land aword (not64 bword) =? 0) then a_not_subset result else Some result);
  if negb (Z.land bword (not64 aword) =? 0) then b_not_subset r else Some r.

Fixpoint extra_loop (note : BMS_Comparison → option BMS_Comparison)
    (result : BMS_Comparison) (ws : list Z) : option BMS_Comparison :=
  match ws with
  | [] => Some result
  | w :: ws' =>
      r ← (if negb (w =? 0) then note result else Some result); extra_loop note r ws'
  end.

Fixpoint subset_compare_loop (result : BMS_Comparison) (wa wb : list Z)
    : option BMS_Comparison :=
  match wa, wb with
  | a :: wa', b :: wb' => r ← subset_compare_word result a b; subset_compare_loop r wa' wb'
  | wa, [] => extra_loop a_not_subset result wa
  | [], wb => extra_loop b_not_subset result wb
  end.

Definition bms_subset_compare (a b : Bitmapset) : BMS_Comparison :=
  match a, b with
  | None, None => BMS_EQUAL
  | None, Some _ => if bms_is_empty b then BMS_EQUAL else BMS_SUBSET1
  | Some _, None => if bms_is_empty a then BMS_EQUAL else BMS_SUBSET2
  | Some wa, Some wb => default BMS_DIFFERENT (subset_compare_loop BMS_EQUAL wa wb)
  end.

Definition bms_is_member (x : Z) (a : Bitmapset) : res bool :=
  if x <? 0 then Err (ElogError neg_member_msg)
  else
    match a with
    | None => Ok false
    | Some ws =>
        let wordnum := WORDNUM x in
        let bitnum := BITNUM x in
        if nwords ws <=? wordnum then Ok false
        else Ok (negb (Z.land (word_at ws wordnum) (shl64 1 bitnum) =? 0))
    end.

Fixpoint count_words (ws : list Z) (result : Z) : Z :=
  match ws with
  | [] => result
  | w :: ws' => count_words ws' (if negb (w =? 0) then result + bmw_popcount w else result)
  end.

Definition bms_member_index (a : Bitmapset) (x : Z) : res Z :=
  m ← bms_is_member x a;
  match m, a with
  | true, Some ws =>
      let wordnum := WORDNUM x in
      let bitnum := BITNUM x in
      let result := count_words (take (Z.to_nat wordnum) ws) 0 in
      let mask := wrap 64 (shl64 1 bitnum - 1) in
      Ok (result + bmw_popcount (Z.land (word_at ws wordnum) mask))
  | _, _ => Ok (-1)
  end.

Fixpoint overlap_loop (wa wb : list Z) : bool :=
  match wa, wb with
  | a :: wa', b :: wb' => if negb (Z.land a b =? 0) then true else overlap_loop wa' wb'
  | _, _ => false
  end.

Definition bms_overlap (a b : Bitmapset) : bool :=
  match a, b with
  | Some wa, Some wb => overlap_loop wa wb
  | _, _ => false
  end.

Fixpoint overlap_list_loop (ws : list Z) (b : list Z) : res bool :=
  match b with
  | [] => Ok false
  | x :: b' =>
      if x <? 0 then Err (ElogError neg_member_msg)
      else
        let wordnum := WORDNUM x in
        let bitnum := BITNUM x in
        if (wordnum <? nwords ws) && negb (Z.land (word_at ws wordnum) (shl64 1 bitnum) =? 0)
        then Ok true else overlap_list_loop ws b'
  end.

Definition bms_overlap_list (a : Bitmapset) (b : list Z) : res bool :=
  match a, b with
  | None, _ | _, [] => Ok false
  | Some ws, _ => overlap_list_loop ws b
  end.

Fixpoint nonempty_difference_loop (wa wb : list Z) : bool :=
  match wa, wb with
  | a :: wa', b :: wb' =>
      if negb (Z.land a (not64 b) =? 0) then true else nonempty_difference_loop wa' wb'
  | _, _ => negb (all_zero_words wa)
  end.

Definition bms_nonempty_difference (a b : Bitmapset) : bool :=
  match a, b with
  | None, _ => false
  | Some _, None => negb (bms_is_empty a)
  | Some wa, Some wb => nonempty_difference_loop wa wb
  end.

Definition empty_msg : string := "bitmapset is empty".
Definition multiple_msg : string := "bitmapset has multiple members".

(** The scan shared by [bms_singleton_member] and [bms_get_singleton_member]:
    [None] is the exit taken at a second member, [Some result] the value of
    [result] after the loop. *)
Fixpoint singleton_loop (ws : list Z) (wordnum result : Z) : option Z :=
  match ws with
  | [] => Some result
  | w :: ws' =>
      if negb (w =? 0) then
        if (0 <=? result) || HAS_MULTIPLE_ONES w then None
        else singleton_loop ws' (wordnum + 1)
               (wordnum * BITS_PER_BITMAPWORD + bmw_rightmost_one_pos w)
      else singleton_loop ws' (wordnum + 1) result
  end.

Definition bms_singleton_member (a : Bitmapset) : res Z :=
  match a with
  | None => Err (ElogError empty_msg)
  | Some ws =>
      match singleton_loop ws 0 (-1) with
      | None => Err (ElogError multiple_msg)
      | Some result => if result <? 0 then Err (ElogError empty_msg) else Ok result
      end
  end.

(** [Some m]: returns true and stores [m] in [*member]; [None]: returns false *)
Definition bms_get_singleton_member (a : Bitmapset) : option Z :=
  match a with
  | None => None
  | Some ws =>
      result ← singleton_loop ws 0 (-1);
      if result <? 0 then None else Some result
  end.

Definition bms_num_members (a : Bitmapset) : Z :=
  match a with None => 0 | Some ws => count_words ws 0 end.

Fixpoint membership_loop (ws : list Z) (result : BMS_Membership) : BMS_Membership :=
  match ws with
  | [] => result
  | w :: ws' =>
      if negb (w =? 0) then
        if negb (bool_decide (result = BMS_EMPTY_SET)) || HAS_MULTIPLE_ONES w
        then BMS_MULTIPLE
        else membership_loop ws' BMS_SINGLETON
      else membership_loop ws' result
  end.

Definition bms_membership (a : Bitmapset) : BMS_Membership :=
  match a with None => BMS_EMPTY_SET | Some ws => membership_loop ws BMS_EMPTY_SET end.

(** [repalloc] to [n] words with the added words zeroed *)
Definition enlarge (ws : list Z) (n : Z) : list Z :=
  ws ++ replicate (Z.to_nat (n - nwords ws)) 0.

Definition bms_add_member (a : Bitmapset) (x : Z) : res Bitmapset :=
  if x <? 0 then Err (ElogError neg_member_msg)
  else
    match a with
    | None => bms_make_singleton x
    | Some ws =>
        let wordnum := WORDNUM x in
        let bitnum := BITNUM x in
        let ws := if nwords ws <=? wordnum then enlarge ws (wordnum + 1) else ws in
        Ok (Some (set_word ws wordnum (Z.lor (word_at ws wordnum) (shl64 1 bitnum))))
    end.

Definition bms_covers_member (a : Bitmapset) (x : Z) : res bool :=
  if x <? 0 then Err (ElogError neg_member_msg)
  else
    match a with
    | None => Ok false
    | Some ws => Ok (WORDNUM x <? nwords ws)
    end.

Definition bms_resize (a : Bitmapset) (wc : Z) : Bitmapset :=
  match a with
  | Some ws => if wc <=? nwords ws then a else Some (enlarge ws wc)
  | None => Some (replicate (Z.to_nat wc) 0)
  end.

Definition bms_del_member (a : Bitmapset) (x : Z) : res Bitmapset :=
  if x <? 0 then Err (ElogError neg_member_msg)
  else
    match a with
    | None => Ok None
    | Some ws =>
        let wordnum := WORDNUM x in
        let bitnum := BITNUM x in
        if wordnum <? nwords ws
        then Ok (Some (set_word ws wordnum
                         (Z.land (word_at ws wordnum) (not64 (shl64 1 bitnum)))))
        else Ok (Some ws)
    end.

Definition bms_add_members (a b : Bitmapset) : Bitmapset :=
  match a, b with
  | None, _ => bms_copy b
  | _, None => a
  | Some wa, Some wb =>
      if nwords wa <? nwords wb then Some (update_prefix or_word wb wa)
      else Some (update_prefix or_word wa wb)
  end.

(** [while (wordnum < uwordnum) a->words[wordnum++] = ~(bitmapword) 0;], [n] words *)
Fixpoint fill_words (n : nat) (wordnum : Z) (ws : list Z) : list Z :=
  match n with
  | O => ws
  | S n' => fill_words n' (wordnum + 1) (set_word ws wordnum all_ones64)
  end.

Definition bms_add_range (a : Bitmapset) (lower upper : Z) : res Bitmapset :=
  if upper <? lower then Ok a
  else if lower <? 0 then Err (ElogError neg_member_msg)
  else
    let uwordnum := WORDNUM upper in
    let ws :=
      match a with
      | None => replicate (Z.to_nat (uwordnum + 1)) 0
      | Some ws => if nwords ws <=? uwordnum then enlarge ws (uwordnum + 1) else ws
      end in
    let lwordnum := WORDNUM lower in
    let lbitnum := BITNUM lower in
    let ushiftbits := BITS_PER_BITMAPWORD - (BITNUM upper + 1) in
    let lmask := not64 (wrap 64 (shl64 1 lbitnum - 1)) in
    let umask := Z.shiftr all_ones64 ushiftbits in
    if lwordnum =? uwordnum then
      Ok (Some (set_word ws lwordnum (Z.lor (word_at ws lwordnum) (Z.land lmask umask))))
    else
      let ws := set_word ws lwordnum (Z.lor (word_at ws lwordnum) lmask) in
      let ws := fill_words (Z.to_nat (uwordnum - (lwordnum + 1))) (lwordnum + 1) ws in
      Ok (Some (set_word ws uwordnum (Z.lor (word_at ws uwordnum) umask))).

(** [words[i] &= b[i]] over the common words, then zeroes *)
Fixpoint int_members_loop (wa wb : list Z) : list Z :=
  match wa, wb with
  | a :: wa', b :: wb' => Z.land a b :: int_members_loop wa' wb'
  | _ :: wa', [] => 0 :: int_members_loop wa' []
  | [], _ => []
  end.

Definition bms_int_members (a b : Bitmapset) : Bitmapset :=
  match a, b with
  | None, _ => None
  | Some _, None => None
  | Some wa, Some wb => Some (int_members_loop wa wb)
  end.

Definition bms_del_members (a b : Bitmapset) : Bitmapset :=
  match a, b with
  | None, _ => None
  | Some _, None => a
  | Some wa, Some wb => Some (update_prefix andnot_word wa wb)
  end.

Definition bms_join (a b : Bitmapset) : Bitmapset :=
  match a, b with
  | None, _ => b
  | _, None => a
  | Some wa, Some wb =>
      if nwords wa <? nwords wb then Some (update_prefix or_word wb wa)
      else Some (update_prefix or_word wa wb)
  end.

(** the member found (or -1) and the words left behind *)
Fixpoint first_member_loop (ws : list Z) (wordnum : Z) : Z * list Z :=
  match ws with
  | [] => (-1, [])
  | w :: ws' =>
      if negb (w =? 0) then
        let w1 := RIGHTMOST_ONE w in
        (wordnum * BITS_PER_BITMAPWORD + bmw_rightmost_one_pos w1,
         Z.land w (not64 w1) :: ws')
      else
        let '(r, rest) := first_member_loop ws' (wordnum + 1) in (r, w :: rest)
  end.

Definition bms_first_member (a : Bitmapset) : Z * Bitmapset :=
  match a with
  | None => (-1, None)
  | Some ws => let '(r, ws') := first_member_loop ws 0 in (r, Some ws')
  end.

(** the words from [wordnum] up *)
Fixpoint next_member_loop (ws : list Z) (wordnum mask : Z) : Z :=
  match ws with
  | [] => -2
  | w :: ws' =>
      let w := Z.land w mask in
      if negb (w =? 0) then wordnum * BITS_PER_BITMAPWORD + bmw_rightmost_one_pos w
      else next_member_loop ws' (wordnum + 1) all_ones64
  end.

Definition bms_next_member (a : Bitmapset) (prevbit : Z) : Z :=
  match a with
  | None => -2
  | Some ws =>
      let prevbit := prevbit + 1 in
      let mask := shl64 all_ones64 (BITNUM prevbit) in
      let wordnum := WORDNUM prevbit in
      next_member_loop (drop (Z.to_nat wordnum) ws) wordnum mask
  end.

(** the words from [wordnum] down *)
Fixpoint prev_member_loop (ws : list Z) (wordnum mask : Z) : Z :=
  match ws with
  | [] => -2
  | w :: ws' =>
      let w := Z.land w mask in
      if negb (w =? 0) then wordnum * BITS_PER_BITMAPWORD + bmw_leftmost_one_pos w
      else prev_member_loop ws' (wordnum - 1) all_ones64
  end.

Definition bms_prev_member (a : Bitmapset) (prevbit : Z) : Z :=
  match a with
  | None => -2
  | Some ws =>
      if prevbit =? 0 then -2
      else
        let prevbit :=
          if prevbit =? -1 then nwords ws * BITS_PER_BITMAPWORD - 1 else prevbit - 1 in
        let ushiftbits := BITS_PER_BITMAPWORD - (BITNUM prevbit + 1) in
        let mask := Z.shiftr all_ones64 ushiftbits in
        let wordnum := WORDNUM prevbit in
        prev_member_loop (reverse (take (Z.to_nat (wordnum + 1)) ws)) wordnum mask
  end.

(** the bytes of a word in memory, little-endian *)
Fixpoint word_bytes (n : nat) (w : Z) : list Z :=
  match n with O => [] | S n' => w mod 256 :: word_bytes n' (Z.shiftr w 8) end.

(** [for (lastword = nwords; --lastword >= 0;) if (words[lastword] != 0) break;]:
    the words up to [lastword], highest first *)
Fixpoint strip_zero_words (ws : list Z) : list Z :=
  match ws with
  | [] => []
  | w :: ws' => if negb (w =? 0) then ws else strip_zero_words ws'
  end.

Definition bms_hash_value (hash_any : list Z → Z) (a : Bitmapset) : Z :=
  match a with
  | None => 0
  | Some ws =>
      match strip_zero_words (reverse ws) with
      | [] => 0
      | kept => hash_any (reverse kept ≫= word_bytes 8)
      end
  end.

Definition bitmap_match (key1 key2 : Bitmapset) : bool := negb (bms_equal key1 key2).
