(* ===== verification/BitmapsetFacts.v ===== *)
(** * Bitmapsets implement sets of natural numbers

    The set a bitmapset stands for is read off one integer, [bms_set a]: [x] is a
    member exactly when bit [x] of that integer is set.  Every operation of
    [Bitmapset.v] is characterised by its effect on that integer, and keeps the
    representation invariant [bms_wf] (every word in 64-bit range, at least one
    word). *)

From S2P Require Import Prelude BitUtils Bitmapset.

(** ** Denotation *)

Fixpoint den (ws : list Z) : Z :=
  match ws with [] => 0 | w :: ws' => Z.lor w (Z.shiftl (den ws') 64) end.

Definition bms_set (a : Bitmapset) : Z := match a with None => 0 | Some ws => den ws end.
Definition words_ok (ws : list Z) : Prop := Forall (is_word 64) ws.
Definition bms_wf (a : Bitmapset) : Prop :=
  match a with None => True | Some ws => words_ok ws ∧ ws ≠ [] end.
(** [x] is a member of [a] *)
Definition bms_in (x : Z) (a : Bitmapset) : Prop := Z.testbit (bms_set a) x = true.

Lemma den_nonneg ws : words_ok ws → 0 ≤ den ws.
Proof.
  induction 1 as [|w ws Hw _ IH]; simpl; [done|].
  apply Z.lor_nonneg. split; [apply Hw|]. by apply Z.shiftl_nonneg.
Qed.

Lemma den_cons_testbit w ws i :
  is_word 64 w → 0 ≤ i →
  Z.testbit (den (w :: ws)) i = if i <? 64 then Z.testbit w i else Z.testbit (den ws) (i - 64).
Proof.
  intros Hw Hi. simpl. rewrite Z.lor_spec, testbit_shiftl by lia.
  rewrite (proj2 (Z.leb_le 0 i)) by done. simpl.
  destruct (Z.ltb_spec i 64).
  - rewrite (Z.testbit_neg_r (den ws)) by lia. apply orb_false_r.
  - by rewrite (testbit_word_high 64 w).
Qed.

Lemma word_at_cons w ws i : 0 < i → word_at (w :: ws) i = word_at ws (i - 1).
Proof.
  intros Hi. unfold word_at. replace (Z.to_nat i) with (S (Z.to_nat (i - 1))) by lia. done.
Qed.

(** membership is a bit of the word [x / 64] *)
Lemma den_testbit ws x :
  words_ok ws → 0 ≤ x →
  Z.testbit (den ws) x = (x <? 64 * nwords ws) && Z.testbit (word_at ws (x / 64)) (x mod 64).
Proof.
  intros Hws. revert x. induction Hws as [|w ws Hw Hws IH]; intros x Hx.
  { rewrite (proj2 (Z.ltb_ge x _)) by (unfold nwords; simpl; lia). apply Z.testbit_0_l. }
  rewrite den_cons_testbit by done. unfold nwords in *. simpl length.
  destruct (Z.ltb_spec x 64) as [Hlt|Hge].
  - rewrite Z.div_small, Z.mod_small by lia.
    rewrite (proj2 (Z.ltb_lt x _)) by lia. done.
  - rewrite IH by lia.
    assert (x / 64 = (x - 64) / 64 + 1) as Hq.
    { rewrite <-Z.div_add by lia. f_equal. lia. }
    assert (x mod 64 = (x - 64) mod 64) as ->.
    { rewrite <-(Z.mod_add (x - 64) 1) by lia. f_equal. lia. }
    rewrite Hq, word_at_cons by (assert (0 ≤ (x - 64) / 64) by (apply Z.div_pos; lia); lia).
    replace ((x - 64) / 64 + 1 - 1) with ((x - 64) / 64) by lia. f_equal.
    destruct (Z.ltb_spec (x - 64) (64 * Z.of_nat (length ws)));
      destruct (Z.ltb_spec x (64 * Z.of_nat (S (length ws)))); lia.
Qed.

Lemma WORDNUM_div x : 0 ≤ x → WORDNUM x = x / 64.
Proof. intros. unfold WORDNUM, BITS_PER_BITMAPWORD. by apply Z.quot_div_nonneg. Qed.
Lemma BITNUM_mod x : 0 ≤ x → BITNUM x = x mod 64.
Proof. intros. unfold BITNUM, BITS_PER_BITMAPWORD. by apply Z.rem_mod_nonneg. Qed.
Lemma bitnum_range x : 0 ≤ x → 0 ≤ BITNUM x < 64.
Proof. intros. rewrite BITNUM_mod by done. apply Z.mod_pos_bound. lia. Qed.
Lemma wordnum_nonneg x : 0 ≤ x → 0 ≤ WORDNUM x.
Proof. intros. rewrite WORDNUM_div by done. apply Z.div_pos; lia. Qed.

(** ** Words *)

Lemma shl64_one n : 0 ≤ n < 64 → shl64 1 n = 2 ^ n.
Proof.
  intros Hn. unfold shl64. rewrite Z.shiftl_1_l. apply Z.mod_small.
  split; [lia|]. apply Z.pow_lt_mono_r; lia.
Qed.

Lemma testbit_not64 w i : Z.testbit (not64 w) i = (0 <=? i) && (i <? 64) && negb (Z.testbit w i).
Proof.
  unfold not64. destruct (Z.leb_spec 0 i) as [Hi|Hi]; simpl.
  - by rewrite testbit_mod_pow2, testbit_lnot by lia.
  - by rewrite Z.testbit_neg_r.
Qed.

Lemma testbit_all_ones i : Z.testbit all_ones64 i = (0 <=? i) && (i <? 64).
Proof. unfold all_ones64. rewrite testbit_not64, Z.testbit_0_l. apply andb_true_r. Qed.

#[export] Hint Rewrite testbit_not64 testbit_all_ones : zbits.

Lemma is_word_not64 w : is_word 64 (not64 w).
Proof. by apply is_word_mod. Qed.
Lemma is_word_shl64 w n : is_word 64 (shl64 w n).
Proof. by apply is_word_mod. Qed.
Lemma is_word_0 : is_word 64 0.
Proof. done. Qed.
Lemma is_word_land_r n a b : 0 ≤ n → is_word n b → is_word n (Z.land a b).
Proof. rewrite Z.land_comm. apply is_word_land_l. Qed.
#[export] Hint Resolve is_word_not64 is_word_shl64 is_word_0 : words.

(** [a & ~b] on words is set difference *)
Lemma land_not64 a b : is_word 64 a → Z.land a (not64 b) = Z.ldiff a b.
Proof.
  intros Ha. apply Z.bits_inj'. intros i Hi. autorewrite with zbits.
  destruct (Z.ltb_spec i 64).
  - rewrite (proj2 (Z.leb_le 0 i)) by done. done.
  - rewrite (testbit_word_high 64 a) by done. done.
Qed.

Lemma word_testbit_inj a b :
  is_word 64 a → is_word 64 b → (∀ i, 0 ≤ i < 64 → Z.testbit a i = Z.testbit b i) → a = b.
Proof.
  intros Ha Hb H. apply Z.bits_inj'. intros i Hi. destruct (Z.lt_ge_cases i 64); [auto|].
  by rewrite !(testbit_word_high 64).
Qed.

(** the single-bit test used by [bms_is_member] and [bms_overlap_list] *)
Lemma test_bit_word w n :
  0 ≤ n < 64 → negb (Z.land w (shl64 1 n) =? 0) = Z.testbit w n.
Proof.
  intros Hn. rewrite shl64_one by done.
  destruct (Z.testbit w n) eqn:Hb.
  - apply negb_true_iff, Z.eqb_neq. intros H.
    assert (Z.testbit (Z.land w (2 ^ n)) n = false) as H' by (rewrite H; apply Z.testbit_0_l).
    rewrite Z.land_spec, Hb, testbit_pow2, Z.eqb_refl in H' by lia. done.
  - apply negb_false_iff, Z.eqb_eq. apply Z.bits_inj'. intros i Hi.
    rewrite Z.land_spec, testbit_pow2, Z.testbit_0_l by lia.
    destruct (Z.eqb_spec i n) as [->|]; [by rewrite Hb|by rewrite andb_false_r].
Qed.

Lemma RIGHTMOST_ONE_spec w p :
  is_word 64 w → is_rightmost w p → RIGHTMOST_ONE w = 2 ^ p.
Proof.
  intros Hw (Hp&Hbit&Hlow). unfold RIGHTMOST_ONE, neg64.
  assert (p < 64).
  { destruct (Z.lt_ge_cases p 64); [done|]. by rewrite (testbit_word_high 64) in Hbit. }
  (* w = 2^p * (1 + 2 q), hence -w has the same bit p and the complement above *)
  assert (∀ i, 0 ≤ i → Z.testbit (- w) i = if i <? p then false else if i =? p then true
                                   else negb (Z.testbit w i)) as Hneg.
  { intros i Hi. replace (- w) with (Z.lnot (w - 1)) by (unfold Z.lnot; lia).
    rewrite testbit_lnot by done.
    assert (w - 1 = Z.lor (Z.ldiff w (2 ^ p)) (Z.ones p)) as ->.
    { assert (w = Z.lor (Z.ldiff w (2 ^ p)) (2 ^ p)) as Hsplit.
      { by_bits; subst; rewrite ?Hbit; btauto. }
      rewrite lor_add in Hsplit by by_bits.
      rewrite lor_add; [rewrite Z.ones_equiv; lia|].
      by_bits. rewrite (Hlow i0) by lia. done. }
    rewrite Z.lor_spec, Z.ldiff_spec, testbit_pow2, testbit_ones by lia.
    split_cmp; btauto. }
  apply Z.bits_inj'. intros i Hi.
  rewrite Z.land_spec, testbit_mod_pow2, Hneg, testbit_pow2 by lia.
  split_cmp; subst; rewrite ?Hbit, ?(Hlow i) by lia; try done; try btauto.
Qed.

Lemma has_multiple_ones_false w p :
  is_word 64 w → is_rightmost w p → HAS_MULTIPLE_ONES w = false ↔ w = 2 ^ p.
Proof.
  intros Hw Hp. unfold HAS_MULTIPLE_ONES. rewrite (RIGHTMOST_ONE_spec w p) by done.
  rewrite negb_false_iff, Z.eqb_eq. naive_solver.
Qed.

(** ** Word-wise combination *)

Lemma words_ok_cons w ws : words_ok (w :: ws) ↔ is_word 64 w ∧ words_ok ws.
Proof. apply Forall_cons. Qed.
Lemma words_ok_app ws ws' : words_ok (ws ++ ws') ↔ words_ok ws ∧ words_ok ws'.
Proof. apply Forall_app. Qed.
Lemma words_ok_zeros n : words_ok (replicate n 0).
Proof. apply Forall_replicate. done. Qed.
Lemma words_ok_drop n ws : words_ok ws → words_ok (drop n ws).
Proof. apply Forall_drop. Qed.
Lemma words_ok_take n ws : words_ok ws → words_ok (take n ws).
Proof. apply Forall_take. Qed.
Lemma words_ok_set ws i w : words_ok ws → is_word 64 w → words_ok (set_word ws i w).
Proof. intros. by apply Forall_insert. Qed.
Lemma word_at_ok ws i : words_ok ws → is_word 64 (word_at ws i).
Proof.
  intros H. unfold word_at. destruct (ws !! Z.to_nat i) as [w|] eqn:E; [|done].
  by apply (Forall_lookup_1 _ _ _ _ H E).
Qed.
#[export] Hint Resolve words_ok_zeros words_ok_drop words_ok_take words_ok_set word_at_ok : words.

Section combine.
Context (f : Z → Z → Z) (op : bool → bool → bool).
Hypothesis f_word : ∀ a b, is_word 64 a → is_word 64 b → is_word 64 (f a b).
Hypothesis f_bits : ∀ a b i, is_word 64 a → is_word 64 b → 0 ≤ i →
  Z.testbit (f a b) i = op (Z.testbit a i) (Z.testbit b i).

Lemma update_prefix_ok r o : words_ok r → words_ok o → words_ok (update_prefix f r o).
Proof.
  intros Hr. revert o. induction Hr as [|w r Hw Hr IH]; intros o Ho; [by constructor|].
  destruct Ho as [|w' o Hw' Ho]; [by constructor|]. constructor; [by apply f_word|by apply IH].
Qed.

(** where one array ends, the operator must absorb what is left of the other *)
Lemma update_prefix_bits r o i :
  words_ok r → words_ok o →
  ((length o ≤ length r)%nat ∨ ∀ b, op false b = false) →
  ((length r ≤ length o)%nat ∨ ∀ b, op b false = b) →
  op false false = false → 0 ≤ i →
  Z.testbit (den (update_prefix f r o)) i = op (Z.testbit (den r) i) (Z.testbit (den o) i).
Proof.
  intros Hr. revert o i. induction Hr as [|w r Hw Hr IH]; intros o i Ho Hlen1 Hlen2 Hff Hi.
  { simpl in *. rewrite Z.testbit_0_l. destruct Hlen1 as [Hlen1|Hop]; [|by rewrite Hop].
    destruct o; [|simpl in Hlen1; lia]. simpl. by rewrite Z.testbit_0_l. }
  destruct Ho as [|w' o Hw' Ho].
  { simpl update_prefix. rewrite (Z.testbit_0_l i : Z.testbit (den []) i = false).
    destruct Hlen2 as [Hlen2|Hop]; [simpl in Hlen2; lia|by rewrite Hop]. }
  simpl update_prefix. rewrite !den_cons_testbit by auto.
  destruct (Z.ltb_spec i 64); [by apply f_bits|].
  apply IH; [done|simpl in *..|done|lia].
  - destruct Hlen1; [left; lia|by right].
  - destruct Hlen2; [left; lia|by right].
Qed.
End combine.

Lemma or_word_ok a b : is_word 64 a → is_word 64 b → is_word 64 (or_word a b).
Proof. unfold or_word. auto with words. Qed.
Lemma and_word_ok a b : is_word 64 a → is_word 64 b → is_word 64 (and_word a b).
Proof. unfold and_word. auto with words. Qed.
Lemma andnot_word_ok a b : is_word 64 a → is_word 64 b → is_word 64 (andnot_word a b).
Proof. unfold andnot_word. auto with words. Qed.
#[export] Hint Resolve or_word_ok and_word_ok andnot_word_ok update_prefix_ok : words.

Lemma update_prefix_length f r o : length (update_prefix f r o) = length r.
Proof. revert o. induction r as [|w r IH]; intros [|w' o]; simpl; auto. Qed.

Lemma update_prefix_nonempty f r o : r ≠ [] → update_prefix f r o ≠ [].
Proof. destruct r, o; done. Qed.

Lemma den_or r o :
  words_ok r → words_ok o → (length o ≤ length r)%nat →
  den (update_prefix or_word r o) = Z.lor (den r) (den o).
Proof.
  intros Hr Ho Hlen. apply Z.bits_inj'. intros i Hi.
  rewrite (update_prefix_bits _ orb or_word_ok), Z.lor_spec; try done; auto.
  - intros. apply Z.lor_spec.
  - right. apply orb_false_r.
Qed.

Lemma den_and r o :
  words_ok r → words_ok o → (length r ≤ length o)%nat →
  den (update_prefix and_word r o) = Z.land (den r) (den o).
Proof.
  intros Hr Ho Hlen. apply Z.bits_inj'. intros i Hi.
  rewrite (update_prefix_bits _ andb and_word_ok), Z.land_spec; try done; auto.
  intros. apply Z.land_spec.
Qed.

Lemma den_andnot r o :
  words_ok r → words_ok o →
  den (update_prefix andnot_word r o) = Z.ldiff (den r) (den o).
Proof.
  intros Hr Ho. apply Z.bits_inj'. intros i Hi.
  rewrite (update_prefix_bits _ (λ x y, x && negb y) andnot_word_ok), Z.ldiff_spec;
    try done; auto.
  - intros a b j Ha Hb Hj. unfold andnot_word. by rewrite land_not64, Z.ldiff_spec.
  - right. intros b. simpl. apply andb_true_r.
Qed.

Lemma int_members_loop_nil wa : den (int_members_loop wa []) = 0 ∧ words_ok (int_members_loop wa []).
Proof.
  induction wa as [|w wa [IH1 IH2]]; [by split; [|constructor]|]. simpl. rewrite IH1.
  split; [done|]. by constructor.
Qed.

Lemma den_int_members wa wb :
  words_ok wa → words_ok wb →
  den (int_members_loop wa wb) = Z.land (den wa) (den wb) ∧ words_ok (int_members_loop wa wb).
Proof.
  intros Ha. revert wb. induction Ha as [|w wa Hw Ha IH]; intros wb Hb;
    [by split; [|constructor]|].
  destruct Hb as [|w' wb Hw' Hb].
  { change (den []) with 0. rewrite Z.land_0_r. apply (int_members_loop_nil (w :: wa)). }
  destruct (IH wb Hb) as [IH1 IH2]. split.
  - apply Z.bits_inj'. intros i Hi. simpl int_members_loop.
    rewrite Z.land_spec, !den_cons_testbit by auto with words. rewrite IH1, !Z.land_spec.
    by destruct (i <? 64).
  - constructor; auto with words.
Qed.

(** ** Updating single words *)

Lemma nwords_set ws i w : nwords (set_word ws i w) = nwords ws.
Proof. unfold nwords, set_word. by rewrite length_insert. Qed.

Lemma word_at_set ws k w j :
  0 ≤ k < nwords ws → 0 ≤ j → word_at (set_word ws k w) j = if j =? k then w else word_at ws j.
Proof.
  unfold nwords, word_at, set_word. intros Hk Hj. destruct (Z.eqb_spec j k) as [->|Hne].
  - by rewrite list_lookup_insert_eq by lia.
  - by rewrite list_lookup_insert_ne by lia.
Qed.

Lemma word_at_high ws j : nwords ws ≤ j → word_at ws j = 0.
Proof.
  unfold nwords, word_at. intros Hj. by rewrite lookup_ge_None_2 by lia.
Qed.

(** the word-wise view of membership, with no bound *)
Lemma den_testbit' ws x :
  words_ok ws → 0 ≤ x → Z.testbit (den ws) x = Z.testbit (word_at ws (x / 64)) (x mod 64).
Proof.
  intros Hws Hx. rewrite den_testbit by done.
  destruct (Z.ltb_spec x (64 * nwords ws)); [done|].
  rewrite word_at_high, Z.testbit_0_l; [done|]. apply Z.div_le_lower_bound; lia.
Qed.

Lemma den_ext ws ws' :
  words_ok ws → words_ok ws' → (∀ j, 0 ≤ j → word_at ws j = word_at ws' j) → den ws = den ws'.
Proof.
  intros H H' Hw. apply Z.bits_inj'. intros i Hi. rewrite !den_testbit' by done.
  by rewrite Hw by (apply Z.div_pos; lia).
Qed.

Lemma word_at_app_zeros ws n j : 0 ≤ j → word_at (ws ++ replicate n 0) j = word_at ws j.
Proof.
  intros Hj. unfold word_at. destruct (decide (Z.to_nat j < length ws)%nat).
  - by rewrite lookup_app_l.
  - rewrite lookup_app_r by lia. rewrite (lookup_ge_None_2 ws) by lia.
    by destruct (replicate n 0 !! _) eqn:E; [apply lookup_replicate in E as [-> _]|].
Qed.

Lemma enlarge_ok ws n : words_ok ws → words_ok (enlarge ws n).
Proof. intros. apply words_ok_app. auto with words. Qed.
Lemma nwords_enlarge ws n : nwords ws ≤ n → nwords (enlarge ws n) = n.
Proof. unfold nwords, enlarge. rewrite length_app, length_replicate. unfold nwords. lia. Qed.
Lemma den_enlarge ws n : words_ok ws → den (enlarge ws n) = den ws.
Proof.
  intros. apply den_ext; [by apply enlarge_ok|done|]. intros. by apply word_at_app_zeros.
Qed.
#[export] Hint Resolve enlarge_ok : words.

Lemma den_zeros n : den (replicate n 0) = 0.
Proof. induction n as [|n IH]; [done|]. simpl. by rewrite IH. Qed.

Lemma nwords_nonempty ws : ws ≠ [] ↔ 0 < nwords ws.
Proof. unfold nwords. destruct ws; simpl; split; try done; lia. Qed.

(** what one masked word update does to the set *)
Lemma den_set_word ws k w i :
  words_ok ws → is_word 64 w → 0 ≤ k < nwords ws → 0 ≤ i →
  Z.testbit (den (set_word ws k w)) i =
    if i / 64 =? k then Z.testbit w (i mod 64) else Z.testbit (den ws) i.
Proof.
  intros Hws Hw Hk Hi. rewrite !den_testbit' by auto with words.
  assert (0 ≤ i / 64) by (apply Z.div_pos; lia). rewrite word_at_set by done.
  by destruct (i / 64 =? k).
Qed.

(** the bit [x] and no other is touched when word [x / 64] is masked at [x mod 64] *)
Lemma bit_split x i : (i / 64 =? x / 64) = true → (i mod 64 =? x mod 64) = (i =? x).
Proof.
  rewrite Z.eqb_eq. intros Hq. pose proof (Z.div_mod i 64). pose proof (Z.div_mod x 64).
  destruct (Z.eqb_spec (i mod 64) (x mod 64)), (Z.eqb_spec i x); lia.
Qed.

Lemma den_or_bit ws x :
  words_ok ws → 0 ≤ x < 64 * nwords ws →
  den (set_word ws (WORDNUM x) (Z.lor (word_at ws (WORDNUM x)) (shl64 1 (BITNUM x)))) =
  Z.setbit (den ws) x.
Proof.
  intros Hws Hx. apply Z.bits_inj'. intros i Hi.
  assert (0 ≤ WORDNUM x < nwords ws) as Hk.
  { rewrite WORDNUM_div by lia. split; [apply Z.div_pos; lia|]. apply Z.div_lt_upper_bound; lia. }
  rewrite den_set_word by auto with words. rewrite Z.setbit_eqb by lia.
  rewrite shl64_one by (apply bitnum_range; lia). rewrite WORDNUM_div, BITNUM_mod by lia.
  destruct (i / 64 =? x / 64) eqn:Hq.
  - rewrite Z.lor_spec, testbit_pow2 by (apply Z.mod_pos_bound; lia).
    rewrite (bit_split x i Hq), den_testbit' by done. apply Z.eqb_eq in Hq. rewrite Hq.
    rewrite (Z.eqb_sym x i). btauto.
  - destruct (Z.eqb_spec x i) as [->|]; [by rewrite Z.eqb_refl in Hq|done].
Qed.

Lemma den_clear_bit ws x :
  words_ok ws → 0 ≤ x < 64 * nwords ws →
  den (set_word ws (WORDNUM x) (Z.land (word_at ws (WORDNUM x)) (not64 (shl64 1 (BITNUM x))))) =
  Z.clearbit (den ws) x.
Proof.
  intros Hws Hx. apply Z.bits_inj'. intros i Hi.
  assert (0 ≤ WORDNUM x < nwords ws) as Hk.
  { rewrite WORDNUM_div by lia. split; [apply Z.div_pos; lia|]. apply Z.div_lt_upper_bound; lia. }
  rewrite den_set_word by auto with words. rewrite Z.clearbit_eqb by lia.
  rewrite land_not64 by auto with words.
  rewrite shl64_one by (apply bitnum_range; lia). rewrite WORDNUM_div, BITNUM_mod by lia.
  destruct (i / 64 =? x / 64) eqn:Hq.
  - rewrite Z.ldiff_spec, testbit_pow2 by (apply Z.mod_pos_bound; lia).
    rewrite (bit_split x i Hq), den_testbit' by done. apply Z.eqb_eq in Hq. rewrite Hq.
    by rewrite (Z.eqb_sym x i).
  - destruct (Z.eqb_spec x i) as [->|]; [by rewrite Z.eqb_refl in Hq|]. simpl.
    by rewrite andb_true_r.
Qed.

(** ** The set algebra *)

(** C39: The binary operations compute union, intersection and difference of the
    sets they are given, whichever operand is longer and whether or not one of
    them is NULL, and their results are well formed. *)
Theorem bms_set_algebra a b :
  bms_wf a → bms_wf b →
  (bms_set (bms_union a b) = Z.lor (bms_set a) (bms_set b) ∧ bms_wf (bms_union a b)) ∧
  (bms_set (bms_intersect a b) = Z.land (bms_set a) (bms_set b) ∧ bms_wf (bms_intersect a b)) ∧
  (bms_set (bms_difference a b) = Z.ldiff (bms_set a) (bms_set b) ∧ bms_wf (bms_difference a b)) ∧
  (bms_set (bms_add_members a b) = Z.lor (bms_set a) (bms_set b) ∧ bms_wf (bms_add_members a b)) ∧
  (bms_set (bms_int_members a b) = Z.land (bms_set a) (bms_set b) ∧ bms_wf (bms_int_members a b)) ∧
  (bms_set (bms_del_members a b) = Z.ldiff (bms_set a) (bms_set b) ∧ bms_wf (bms_del_members a b)) ∧
  (bms_set (bms_join a b) = Z.lor (bms_set a) (bms_set b) ∧ bms_wf (bms_join a b)).
Proof.
  destruct a as [wa|], b as [wb|];
    unfold bms_union, bms_intersect, bms_difference, bms_add_members, bms_int_members,
      bms_del_members, bms_join, bms_copy, nwords; simpl;
    rewrite ?Z.lor_0_r, ?Z.land_0_r, ?Z.ldiff_0_r, ?Z.ldiff_0_l; [|by intuition..].
  intros [Ha Hna] [Hb Hnb]. rewrite (Z.lor_comm (den wa)).
  destruct (den_int_members wa wb Ha Hb) as [Hint Hintok].
  assert (int_members_loop wa wb ≠ []) by (destruct wa, wb; done).
  rewrite Hint, den_andnot by done. split_and!; auto with words.
  all: repeat match goal with
    | |- context [?x <=? ?y] => destruct (Z.leb_spec x y)
    | |- context [?x <? ?y] => destruct (Z.ltb_spec x y)
    end; simpl; split_and?; auto using update_prefix_nonempty with words.
  all: rewrite ?den_or, ?den_and by (done || lia); try done; apply Z.lor_comm || apply Z.land_comm.
Qed.

Lemma bms_is_member_eq a x :
  bms_wf a → 0 ≤ x → bms_is_member x a = Ok (Z.testbit (bms_set a) x).
Proof.
  intros Hwf Hx. unfold bms_is_member. rewrite (proj2 (Z.ltb_ge x 0)) by done.
  destruct a as [ws|]; [|simpl; by rewrite Z.testbit_0_l].
  destruct Hwf as [Hws _]. simpl. rewrite den_testbit, WORDNUM_div, BITNUM_mod by done.
  destruct (Z.leb_spec (nwords ws) (x / 64)) as [Hge|Hlt].
  - rewrite (proj2 (Z.ltb_ge x _)); [done|]. pose proof (Z.div_mod x 64).
    pose proof (Z.mod_pos_bound x 64). lia.
  - rewrite (proj2 (Z.ltb_lt x _)).
    + rewrite test_bit_word by (apply Z.mod_pos_bound; lia). done.
    + pose proof (Z.div_mod x 64). pose proof (Z.mod_pos_bound x 64). lia.
Qed.

Lemma bms_make_singleton_eq x :
  0 ≤ x → ∃ a, bms_make_singleton x = Ok a ∧ bms_wf a ∧ bms_set a = 2 ^ x.
Proof.
  intros Hx. unfold bms_make_singleton. rewrite (proj2 (Z.ltb_ge x 0)) by done.
  pose proof (wordnum_nonneg x Hx) as Hn. pose proof (bitnum_range x Hx) as Hb.
  set (zs := replicate _ 0). assert (nwords zs = WORDNUM x + 1) as Hzs.
  { unfold nwords, zs. rewrite length_replicate. lia. }
  assert (words_ok zs) by apply words_ok_zeros.
  eexists. split; [done|]. split.
  - split; [auto with words|]. apply nwords_nonempty. rewrite nwords_set. lia.
  - simpl. rewrite <-(Z.lor_0_l (shl64 1 (BITNUM x))).
    replace 0 with (word_at zs (WORDNUM x)) at 1.
    2:{ unfold zs. rewrite <-(app_nil_l (replicate _ _)), word_at_app_zeros by done. done. }
    rewrite den_or_bit; [|done|].
    + unfold zs. rewrite den_zeros. unfold Z.setbit. by rewrite Z.shiftl_1_l, Z.lor_0_l.
    + rewrite Hzs, WORDNUM_div by done. pose proof (Z.div_mod x 64).
      pose proof (Z.mod_pos_bound x 64). lia.
Qed.

Lemma bms_add_member_eq a x :
  bms_wf a → 0 ≤ x →
  ∃ a', bms_add_member a x = Ok a' ∧ bms_wf a' ∧ bms_set a' = Z.setbit (bms_set a) x.
Proof.
  intros Hwf Hx. unfold bms_add_member. rewrite (proj2 (Z.ltb_ge x 0)) by done.
  destruct a as [ws|].
  2:{ destruct (bms_make_singleton_eq x Hx) as (a'&->&?&Hs). eexists. split_and!; [done..|].
      rewrite Hs. simpl. unfold Z.setbit. by rewrite Z.shiftl_1_l, Z.lor_0_l. }
  destruct Hwf as [Hws Hne]. pose proof (wordnum_nonneg x Hx) as Hn.
  set (ws' := if nwords ws <=? WORDNUM x then enlarge ws (WORDNUM x + 1) else ws).
  assert (words_ok ws' ∧ WORDNUM x < nwords ws' ∧ den ws' = den ws) as (Hok&Hlen&Hden).
  { unfold ws'. destruct (Z.leb_spec (nwords ws) (WORDNUM x)).
    - rewrite nwords_enlarge, den_enlarge by (done || lia). auto with words lia.
    - split_and!; [done|lia|done]. }
  eexists. split; [done|]. split.
  - split; [auto with words|]. apply nwords_nonempty. rewrite nwords_set. lia.
  - simpl. rewrite <-Hden. apply den_or_bit; [done|]. rewrite WORDNUM_div in Hlen by done.
    pose proof (Z.div_mod x 64). pose proof (Z.mod_pos_bound x 64). lia.
Qed.

Lemma clearbit_high z x : Z.testbit z x = false → Z.clearbit z x = z.
Proof.
  intros H. apply Z.bits_inj'. intros i Hi. destruct (Z.eq_dec x i) as [->|].
  - by rewrite Z.clearbit_eq.
  - by rewrite Z.clearbit_neq.
Qed.

Lemma bms_del_member_eq a x :
  bms_wf a → 0 ≤ x →
  ∃ a', bms_del_member a x = Ok a' ∧ bms_wf a' ∧ bms_set a' = Z.clearbit (bms_set a) x.
Proof.
  intros Hwf Hx. unfold bms_del_member. rewrite (proj2 (Z.ltb_ge x 0)) by done.
  pose proof (Z.div_mod x 64). pose proof (Z.mod_pos_bound x 64).
  destruct a as [ws|].
  2:{ eexists. split_and!; [done..|]. rewrite clearbit_high; [done|apply Z.testbit_0_l]. }
  destruct Hwf as [Hws Hne]. destruct (Z.ltb_spec (WORDNUM x) (nwords ws)) as [Hlt|Hge].
  - eexists. split; [done|]. split.
    + split; [auto with words|]. apply nwords_nonempty. rewrite nwords_set.
      apply nwords_nonempty in Hne. lia.
    + simpl. rewrite WORDNUM_div in Hlt by done. apply den_clear_bit; [done|]. lia.
  - eexists. split_and!; [done..|]. simpl. rewrite clearbit_high; [done|].
    rewrite WORDNUM_div in Hge by done. rewrite den_testbit by done.
    rewrite (proj2 (Z.ltb_ge x _)); [done|]. lia.
Qed.

(** Point operations: membership test, insertion, deletion and singleton
    construction succeed on every non-negative member with the expected effect on
    the set (growing the word array when needed), and raise the documented error
    on a negative one, leaving nothing behind. *)
Theorem bms_point_operations a x :
  bms_wf a →
  (x < 0 →
     let neg := ElogError neg_member_msg in
     bms_is_member x a = Err neg ∧ bms_add_member a x = Err neg ∧
     bms_del_member a x = Err neg ∧ bms_make_singleton x = Err neg) ∧
  (0 ≤ x →
     bms_is_member x a = Ok (Z.testbit (bms_set a) x) ∧
     (∃ a', bms_add_member a x = Ok a' ∧ bms_wf a' ∧ bms_set a' = Z.setbit (bms_set a) x) ∧
     (∃ a', bms_del_member a x = Ok a' ∧ bms_wf a' ∧ bms_set a' = Z.clearbit (bms_set a) x) ∧
     (∃ a', bms_make_singleton x = Ok a' ∧ bms_wf a' ∧ bms_set a' = 2 ^ x)).
Proof.
  intros Hwf. split; intros Hx.
  - unfold bms_is_member, bms_add_member, bms_del_member, bms_make_singleton.
    by rewrite (proj2 (Z.ltb_lt x 0)).
  - auto using bms_is_member_eq, bms_add_member_eq, bms_del_member_eq, bms_make_singleton_eq.
Qed.

(** ** Ranges *)

Lemma fill_words_ok n k ws : words_ok ws → words_ok (fill_words n k ws).
Proof.
  revert k ws. induction n as [|n IH]; intros k ws Hws; simpl; [done|].
  apply IH. unfold all_ones64. auto with words.
Qed.
Lemma nwords_fill n k ws : nwords (fill_words n k ws) = nwords ws.
Proof.
  revert k ws. induction n as [|n IH]; intros k ws; simpl; [done|].
  by rewrite IH, nwords_set.
Qed.
Lemma word_at_fill n k ws j :
  0 ≤ k → k + Z.of_nat n ≤ nwords ws → 0 ≤ j →
  word_at (fill_words n k ws) j =
    if (k <=? j) && (j <? k + Z.of_nat n) then all_ones64 else word_at ws j.
Proof.
  revert k ws. induction n as [|n IH]; intros k ws Hk Hlen Hj.
  { destruct (Z.leb_spec k j), (Z.ltb_spec j (k + Z.of_nat 0)); done || lia. }
  cbn [fill_words]. rewrite IH; [|lia|rewrite nwords_set; lia|done].
  rewrite word_at_set by lia. split_cmp; done.
Qed.
#[export] Hint Resolve fill_words_ok : words.

(** the masks of [bms_add_range] *)
Lemma lower_mask_bit n i :
  0 ≤ n < 64 → 0 ≤ i < 64 → Z.testbit (not64 (wrap 64 (shl64 1 n - 1))) i = (n <=? i).
Proof.
  intros Hn Hi. rewrite testbit_not64, shl64_one by done. unfold wrap.
  replace (2 ^ n - 1) with (Z.ones n) by (rewrite Z.ones_equiv; lia).
  rewrite testbit_mod_pow2, testbit_ones by lia. split_cmp; done.
Qed.
Lemma upper_mask_bit n i :
  0 ≤ n < 64 → 0 ≤ i < 64 →
  Z.testbit (Z.shiftr all_ones64 (64 - (n + 1))) i = (i <=? n).
Proof. intros Hn Hi. autorewrite with zbits. split_cmp; done. Qed.

(** the word array [bms_add_range] works on: at least [n] words, same set *)
Lemma range_words a n :
  bms_wf a → 0 < n →
  let ws := match a with
            | None => replicate (Z.to_nat n) 0
            | Some ws => if nwords ws <=? n - 1 then enlarge ws n else ws
            end in
  words_ok ws ∧ n ≤ nwords ws ∧ den ws = bms_set a.
Proof.
  intros Hwf Hn. destruct a as [ws|]; simpl.
  - destruct Hwf as [Hws _]. destruct (Z.leb_spec (nwords ws) (n - 1)).
    + rewrite nwords_enlarge, den_enlarge by (done || lia). auto with words lia.
    + split_and!; [done|lia|done].
  - unfold nwords. rewrite length_replicate, den_zeros. split_and!; [apply words_ok_zeros|lia|done].
Qed.

Lemma range_result ws ws' (P : Z → bool) :
  words_ok ws → 0 < nwords ws → words_ok ws' → nwords ws' = nwords ws →
  (∀ j b, 0 ≤ j → 0 ≤ b < 64 →
     Z.testbit (word_at ws' j) b = Z.testbit (word_at ws j) b || P (64 * j + b)) →
  ∃ a', Ok (Some ws') = Ok a' ∧ bms_wf a' ∧
    ∀ i, 0 ≤ i → Z.testbit (bms_set a') i = Z.testbit (den ws) i || P i.
Proof.
  intros Hok Hpos Hok' Hn' Hbits. eexists. split; [done|]. split.
  - split; [done|]. apply nwords_nonempty. lia.
  - intros i Hi. simpl. rewrite !den_testbit' by done.
    rewrite Hbits by (apply Z.div_pos || apply Z.mod_pos_bound; lia).
    pose proof (Z.div_mod i 64 ltac:(lia)). by replace (64 * (i / 64) + i mod 64) with i by lia.
Qed.

Definition range_lmask (lb : Z) : Z := not64 (wrap 64 (shl64 1 lb - 1)).
Definition range_umask (ub : Z) : Z := Z.shiftr all_ones64 (64 - (ub + 1)).

Lemma range_masks_ok lb ub :
  0 ≤ ub < 64 → is_word 64 (range_lmask lb) ∧ is_word 64 (range_umask ub).
Proof. unfold range_lmask, range_umask, all_ones64. auto with words lia. Qed.

(** both ends in the same word *)
Lemma range_one_word ws w lb ub j b :
  0 ≤ w < nwords ws → 0 ≤ lb < 64 → 0 ≤ ub < 64 → 0 ≤ j → 0 ≤ b < 64 →
  Z.testbit (word_at (set_word ws w
    (Z.lor (word_at ws w) (Z.land (range_lmask lb) (range_umask ub)))) j) b =
  Z.testbit (word_at ws j) b || (64 * w + lb <=? 64 * j + b) && (64 * j + b <=? 64 * w + ub).
Proof.
  intros Hw Hlb Hub Hj Hb. rewrite word_at_set by lia. destruct (Z.eqb_spec j w) as [->|].
  - rewrite Z.lor_spec, Z.land_spec. unfold range_lmask, range_umask.
    rewrite lower_mask_bit, upper_mask_bit by lia. f_equal. split_cmp; done.
  - split_cmp; btauto.
Qed.

(** the ends in different words *)
Lemma range_many_words ws lw uw lb ub j b :
  0 ≤ lw → lw < uw < nwords ws → 0 ≤ lb < 64 → 0 ≤ ub < 64 → 0 ≤ j → 0 ≤ b < 64 →
  let ws1 := set_word ws lw (Z.lor (word_at ws lw) (range_lmask lb)) in
  let ws2 := fill_words (Z.to_nat (uw - (lw + 1))) (lw + 1) ws1 in
  Z.testbit (word_at (set_word ws2 uw (Z.lor (word_at ws2 uw) (range_umask ub))) j) b =
  Z.testbit (word_at ws j) b || (64 * lw + lb <=? 64 * j + b) && (64 * j + b <=? 64 * uw + ub).
Proof.
  intros Hlw Huw Hlb Hub Hj Hb ws1 ws2. unfold ws2, ws1.
  rewrite word_at_set; [|rewrite nwords_fill, nwords_set; lia|done].
  rewrite !word_at_fill, !word_at_set by (rewrite ?nwords_set; lia).
  destruct (Z.eqb_spec j uw) as [->|].
  { rewrite Z.lor_spec. unfold range_umask. rewrite upper_mask_bit by lia. split_cmp; btauto. }
  destruct (Z.eqb_spec j lw) as [->|].
  { rewrite (proj2 (Z.leb_gt (lw + 1) lw)) by lia. cbn [andb].
    rewrite Z.lor_spec. unfold range_lmask. rewrite lower_mask_bit by lia. split_cmp; btauto. }
  destruct (Z.leb_spec (lw + 1) j); cbn [andb]; [|split_cmp; btauto].
  destruct (Z.ltb_spec j (lw + 1 + Z.of_nat (Z.to_nat (uw - (lw + 1))))).
  - autorewrite with zbits. split_cmp; btauto.
  - split_cmp; btauto.
Qed.

(** Adding the range [lower..upper] adds exactly the members of that range,
    for every placement of the two ends within and across words; an empty range
    is a no-op and a negative lower end is an error. *)
Theorem bms_add_range_spec a lower upper :
  bms_wf a →
  (upper < lower → bms_add_range a lower upper = Ok a) ∧
  (lower ≤ upper → lower < 0 → bms_add_range a lower upper = Err (ElogError neg_member_msg)) ∧
  (0 ≤ lower ≤ upper →
     ∃ a', bms_add_range a lower upper = Ok a' ∧ bms_wf a' ∧
       ∀ i, 0 ≤ i → Z.testbit (bms_set a') i =
         Z.testbit (bms_set a) i || (lower <=? i) && (i <=? upper)).
Proof.
  intros Hwf. unfold bms_add_range. split_and!.
  { intros H. by rewrite (proj2 (Z.ltb_lt upper lower)). }
  { intros H Hneg. by rewrite (proj2 (Z.ltb_ge upper lower)), (proj2 (Z.ltb_lt lower 0)) by lia. }
  intros Hr. rewrite (proj2 (Z.ltb_ge upper lower)), (proj2 (Z.ltb_ge lower 0)) by lia.
  rewrite !WORDNUM_div, !BITNUM_mod by lia. unfold BITS_PER_BITMAPWORD.
  pose proof (Z.div_mod lower 64 ltac:(lia)) as Hl. pose proof (Z.mod_pos_bound lower 64 ltac:(lia)).
  pose proof (Z.div_mod upper 64 ltac:(lia)) as Hu. pose proof (Z.mod_pos_bound upper 64 ltac:(lia)).
  destruct (range_words a (upper / 64 + 1) Hwf) as (Hok&Hlen&Hden); [lia|].
  replace (upper / 64 + 1 - 1) with (upper / 64) in * by lia.
  set (ws := match a with None => _ | Some _ => _ end) in *. rewrite <-Hden.
  change (not64 (wrap 64 (shl64 1 (lower mod 64) - 1))) with (range_lmask (lower mod 64)).
  change (Z.shiftr all_ones64 (64 - (upper mod 64 + 1))) with (range_umask (upper mod 64)).
  destruct (range_masks_ok (lower mod 64) (upper mod 64)) as [Hlm Hum]; [lia|].
  assert (0 < nwords ws) as Hpos by lia.
  destruct (Z.eqb_spec (lower / 64) (upper / 64)) as [Heq|Hne];
    apply (range_result ws _ (λ i, (lower <=? i) && (i <=? upper))); try done.
  - auto with words.
  - by rewrite nwords_set.
  - intros j b Hj Hb. rewrite range_one_word by lia. by rewrite <-Hl, Heq, <-Hu.
  - auto 10 with words.
  - by rewrite nwords_set, nwords_fill, nwords_set.
  - intros j b Hj Hb. etrans; [apply range_many_words; lia|]. by rewrite <-Hl, <-Hu.
Qed.

(** ** Comparisons *)

Lemma word_add_lor w d : is_word 64 w → w + 2 ^ 64 * d = Z.lor w (Z.shiftl d 64).
Proof.
  intros Hw. rewrite lor_add; [rewrite Z.shiftl_mul_pow2; lia|].
  apply Z.bits_inj'. intros i Hi. rewrite Z.land_spec, testbit_shiftl, Z.testbit_0_l by lia.
  destruct (Z.lt_ge_cases i 64).
  - rewrite (Z.testbit_neg_r d) by lia. btauto.
  - by rewrite (testbit_word_high 64 w).
Qed.

Lemma word_add_testbit w d i :
  is_word 64 w → 0 ≤ i →
  Z.testbit (w + 2 ^ 64 * d) i = if i <? 64 then Z.testbit w i else Z.testbit d (i - 64).
Proof.
  intros Hw Hi. rewrite word_add_lor, Z.lor_spec, testbit_shiftl by (done || lia).
  rewrite (proj2 (Z.leb_le 0 i)) by done. destruct (Z.ltb_spec i 64); simpl.
  - rewrite (Z.testbit_neg_r d) by lia. btauto.
  - by rewrite (testbit_word_high 64 w).
Qed.

Lemma den_cons_add w ws : is_word 64 w → den (w :: ws) = w + 2 ^ 64 * den ws.
Proof. intros Hw. by rewrite word_add_lor. Qed.

Lemma den_cons_zero w ws : words_ok (w :: ws) → den (w :: ws) = 0 ↔ w = 0 ∧ den ws = 0.
Proof.
  intros [Hw Hws]%words_ok_cons. rewrite den_cons_add by done.
  pose proof (den_nonneg ws Hws). unfold is_word in Hw. lia.
Qed.

Lemma all_zero_words_den ws : words_ok ws → all_zero_words ws = (den ws =? 0).
Proof.
  intros Hws. induction ws as [|w ws IH]; [done|]. pose proof (den_cons_zero w ws Hws) as Hz.
  apply words_ok_cons in Hws as [Hw Hws]. cbn [all_zero_words]. rewrite IH by done.
  destruct (Z.eqb_spec w 0), (Z.eqb_spec (den ws) 0), (Z.eqb_spec (den (w :: ws)) 0);
    simpl; tauto.
Qed.

Lemma bms_is_empty_eq a : bms_wf a → bms_is_empty a = (bms_set a =? 0).
Proof. destruct a as [ws|]; [|done]. intros [Hws _]. by apply all_zero_words_den. Qed.

Lemma equal_loop_den ss ls :
  words_ok ss → words_ok ls → (length ss ≤ length ls)%nat →
  equal_loop ss ls = (den ss =? den ls).
Proof.
  intros Hss. revert ls. induction Hss as [|s ss Hs Hss IH]; intros ls Hls Hlen.
  { simpl. rewrite all_zero_words_den by done. simpl. apply Z.eqb_sym. }
  destruct Hls as [|l ls Hl Hls]; [simpl in Hlen; lia|]. cbn [equal_loop].
  rewrite IH by (done || (simpl in Hlen; lia)). rewrite !den_cons_add by done.
  unfold is_word in *. split_cmp; done.
Qed.

(** a bitwise operator without carries works word by word *)
Lemma den_cons_land a b wa wb :
  is_word 64 a → is_word 64 b →
  Z.land (den (a :: wa)) (den (b :: wb)) = Z.land a b + 2 ^ 64 * Z.land (den wa) (den wb).
Proof.
  intros Ha Hb. apply Z.bits_inj'. intros i Hi.
  rewrite word_add_testbit, !Z.land_spec, !den_cons_testbit by auto with words.
  by destruct (i <? 64).
Qed.

Lemma den_cons_ldiff a b wa wb :
  is_word 64 a → is_word 64 b →
  Z.ldiff (den (a :: wa)) (den (b :: wb)) = Z.ldiff a b + 2 ^ 64 * Z.ldiff (den wa) (den wb).
Proof.
  intros Ha Hb. apply Z.bits_inj'. intros i Hi.
  rewrite word_add_testbit, !Z.ldiff_spec, !den_cons_testbit by auto with words.
  by destruct (i <? 64).
Qed.

(** such a sum vanishes only when both parts do *)
Lemma word_add_zero w d :
  is_word 64 w → 0 ≤ d → (w + 2 ^ 64 * d =? 0) = (w =? 0) && (d =? 0).
Proof. intros [H1 H2] Hd. split_cmp; done. Qed.

Lemma ldiff_nonneg_l a b : 0 ≤ a → 0 ≤ Z.ldiff a b.
Proof. intros. apply Z.ldiff_nonneg. by left. Qed.

Lemma subset_loop_den wa wb :
  words_ok wa → words_ok wb → subset_loop wa wb = (Z.ldiff (den wa) (den wb) =? 0).
Proof.
  intros Ha. revert wb. induction Ha as [|a wa Hwa Ha IH]; intros wb Hb.
  { rewrite (Z.ldiff_0_l _ : Z.ldiff (den []) _ = 0). by destruct wb. }
  destruct Hb as [|b wb Hwb Hb].
  { cbn [subset_loop]. rewrite all_zero_words_den by (by constructor).
    by rewrite (Z.ldiff_0_r _ : Z.ldiff _ (den []) = _). }
  cbn [subset_loop]. rewrite IH, land_not64, den_cons_ldiff by done.
  rewrite word_add_zero by auto using ldiff_nonneg_l, den_nonneg with words.
  by destruct (Z.ldiff a b =? 0).
Qed.

Lemma nonempty_difference_loop_den wa wb :
  nonempty_difference_loop wa wb = negb (subset_loop wa wb).
Proof.
  revert wb. induction wa as [|a wa IH]; intros [|b wb]; try done.
  cbn [nonempty_difference_loop subset_loop]. by destruct (negb _).
Qed.

Lemma overlap_loop_den wa wb :
  words_ok wa → words_ok wb → overlap_loop wa wb = negb (Z.land (den wa) (den wb) =? 0).
Proof.
  intros Ha. revert wb. induction Ha as [|a wa Hwa Ha IH]; intros wb Hb; [by destruct wb|].
  destruct Hb as [|b wb Hwb Hb].
  { by rewrite (Z.land_0_r _ : Z.land _ (den []) = 0). }
  cbn [overlap_loop]. rewrite IH, den_cons_land by done.
  rewrite word_add_zero; [by destruct (Z.land a b =? 0)|auto with words|].
  apply Z.land_nonneg. left. by apply den_nonneg.
Qed.

Lemma subset_empty z z' : 0 ≤ z → (Z.ldiff z z' =? 0) = true ↔ ∀ i, Z.testbit z i = true → Z.testbit z' i = true.
Proof.
  intros Hz. rewrite Z.eqb_eq. split.
  - intros H i Hi. assert (Z.testbit (Z.ldiff z z') i = false) as H' by (rewrite H; apply Z.testbit_0_l).
    rewrite Z.ldiff_spec, Hi in H'. by destruct (Z.testbit z' i).
  - intros H. apply Z.bits_inj'. intros i Hi. rewrite Z.ldiff_spec, Z.testbit_0_l.
    specialize (H i). destruct (Z.testbit z i); [|done]. by rewrite H.
Qed.

Lemma nonzero_has_bit z : 0 ≤ z → negb (z =? 0) = true ↔ ∃ i, Z.testbit z i = true.
Proof.
  intros Hz. rewrite negb_true_iff, Z.eqb_neq. split.
  - intros Hnz. exists (Z.log2 z). apply Z.bit_log2. lia.
  - intros [i Hi] ->. by rewrite Z.testbit_0_l in Hi.
Qed.

Lemma bms_set_nonneg a : bms_wf a → 0 ≤ bms_set a.
Proof. destruct a; [|done]. intros [? _]. by apply den_nonneg. Qed.
#[export] Hint Resolve bms_set_nonneg : words.

Lemma bms_is_subset_eq a b :
  bms_wf a → bms_wf b → bms_is_subset a b = (Z.ldiff (bms_set a) (bms_set b) =? 0).
Proof.
  destruct a as [wa|], b as [wb|]; intros Ha Hb; simpl.
  - destruct Ha, Hb. by apply subset_loop_den.
  - destruct Ha. by rewrite all_zero_words_den, Z.ldiff_0_r.
  - done.
  - done.
Qed.

Lemma bms_equal_eq a b : bms_wf a → bms_wf b → bms_equal a b = (bms_set a =? bms_set b).
Proof.
  intros Ha Hb. destruct a as [wa|], b as [wb|]; simpl; [|destruct Ha|destruct Hb|done].
  - destruct Ha, Hb. destruct (Z.leb_spec (nwords wa) (nwords wb)); unfold nwords in *.
    + apply equal_loop_den; done || lia.
    + rewrite equal_loop_den by (done || lia). apply Z.eqb_sym.
  - by rewrite all_zero_words_den.
  - rewrite all_zero_words_den by done. apply Z.eqb_sym.
Qed.

(** The boolean tests decide what they are named for: emptiness, equality of
    sets (whatever the word counts, and NULL against a set of zero words), the
    subset relation, overlap, and a non-empty difference. *)
Theorem bms_tests_decide a b :
  bms_wf a → bms_wf b →
  (bms_is_empty a = true ↔ ∀ x, ¬ bms_in x a) ∧
  (bms_equal a b = true ↔ ∀ x, bms_in x a ↔ bms_in x b) ∧
  (bms_is_subset a b = true ↔ ∀ x, bms_in x a → bms_in x b) ∧
  (bms_overlap a b = true ↔ ∃ x, bms_in x a ∧ bms_in x b) ∧
  (bms_nonempty_difference a b = true ↔ ∃ x, bms_in x a ∧ ¬ bms_in x b).
Proof.
  intros Ha Hb. unfold bms_in. pose proof (bms_set_nonneg a Ha). pose proof (bms_set_nonneg b Hb).
  split_and!.
  - rewrite bms_is_empty_eq by done. split.
    + intros ->%Z.eqb_eq x. by rewrite Z.testbit_0_l.
    + intros Hx. destruct (bms_set a =? 0) eqn:E; [done|].
      apply negb_true_iff, nonzero_has_bit in E as [i Hi]; [|done]. by destruct (Hx i).
  - rewrite bms_equal_eq by done.
    rewrite Z.eqb_eq. split; [by intros ->|]. intros Hx. apply Z.bits_inj'. intros i _.
    specialize (Hx i). destruct (Z.testbit (bms_set a) i), (Z.testbit (bms_set b) i); intuition congruence.
  - rewrite bms_is_subset_eq by done. by apply subset_empty.
  - assert (bms_overlap a b = negb (Z.land (bms_set a) (bms_set b) =? 0)) as ->.
    { destruct a as [wa|], b as [wb|]; simpl; rewrite ?Z.land_0_r; try done.
      destruct Ha, Hb. by apply overlap_loop_den. }
    rewrite nonzero_has_bit by (apply Z.land_nonneg; by left).
    apply exist_proper. intros i. rewrite Z.land_spec. apply andb_true_iff.
  - assert (bms_nonempty_difference a b = negb (bms_is_subset a b)) as ->.
    { destruct a as [wa|], b as [wb|]; simpl; try done. apply nonempty_difference_loop_den. }
    rewrite bms_is_subset_eq by done. rewrite nonzero_has_bit by (apply Z.ldiff_nonneg; by left).
    apply exist_proper. intros i. rewrite Z.ldiff_spec, andb_true_iff, negb_true_iff.
    by rewrite not_true_iff_false.
Qed.

(** [bms_subset_compare]'s accumulator as the pair "some word of [a] is not within
    [b]", "some word of [b] is not within [a]" *)
Definition sc_code (ab ba : bool) : option BMS_Comparison :=
  match ab, ba with
  | false, false => Some BMS_EQUAL
  | true, false => Some BMS_SUBSET2
  | false, true => Some BMS_SUBSET1
  | true, true => None
  end.

Lemma subset_compare_word_code r ab ba a b :
  sc_code ab ba = Some r →
  subset_compare_word r a b =
    sc_code (ab || negb (Z.land a (not64 b) =? 0)) (ba || negb (Z.land b (not64 a) =? 0)).
Proof.
  intros Hr. unfold subset_compare_word.
  destruct (negb (Z.land a (not64 b) =? 0)), (negb (Z.land b (not64 a) =? 0));
    destruct ab, ba; inversion Hr; subst; reflexivity.
Qed.

Lemma extra_loop_a_code r ab ba ws :
  sc_code ab ba = Some r → words_ok ws →
  extra_loop a_not_subset r ws = sc_code (ab || negb (den ws =? 0)) ba.
Proof.
  intros Hr Hws. rewrite <-all_zero_words_den by done. clear Hws.
  revert r ab Hr. induction ws as [|w ws IH]; intros r ab Hr.
  { simpl. by rewrite orb_false_r. }
  cbn [extra_loop all_zero_words]. destruct (w =? 0); simpl; [by apply IH|].
  destruct ab, ba; inversion Hr; subst; simpl; (done || by rewrite (IH _ true)).
Qed.

Lemma extra_loop_b_code r ab ba ws :
  sc_code ab ba = Some r → words_ok ws →
  extra_loop b_not_subset r ws = sc_code ab (ba || negb (den ws =? 0)).
Proof.
  intros Hr Hws. rewrite <-all_zero_words_den by done. clear Hws.
  revert r ba Hr. induction ws as [|w ws IH]; intros r ba Hr.
  { simpl. by rewrite orb_false_r. }
  cbn [extra_loop all_zero_words]. destruct (w =? 0); simpl; [by apply IH|].
  destruct ab, ba; inversion Hr; subst; simpl; (done || by rewrite (IH _ true)).
Qed.

Lemma subset_compare_loop_code wa wb r ab ba :
  words_ok wa → words_ok wb → sc_code ab ba = Some r →
  subset_compare_loop r wa wb =
    sc_code (ab || negb (Z.ldiff (den wa) (den wb) =? 0))
            (ba || negb (Z.ldiff (den wb) (den wa) =? 0)).
Proof.
  intros Ha. revert wb r ab ba. induction Ha as [|a wa Hwa Ha IH]; intros wb r ab ba Hb Hr.
  { change (den []) with 0. rewrite Z.ldiff_0_l, Z.ldiff_0_r. simpl. rewrite orb_false_r.
    destruct wb; [simpl; by rewrite orb_false_r|]. by apply extra_loop_b_code. }
  destruct Hb as [|b wb Hwb Hb].
  { change (den []) with 0. rewrite Z.ldiff_0_l, Z.ldiff_0_r.
    change (negb (0 =? 0)) with false. rewrite (orb_false_r ba).
    apply extra_loop_a_code; [done|by constructor]. }
  cbn [subset_compare_loop]. rewrite (subset_compare_word_code r ab ba) by done.
  rewrite !land_not64, !den_cons_ldiff by done.
  rewrite !word_add_zero by auto using ldiff_nonneg_l, den_nonneg with words.
  rewrite !negb_andb, !orb_assoc.
  set (x := ab || _). set (y := ba || _).
  destruct (sc_code x y) as [r'|] eqn:E; simpl; [by apply IH|].
  destruct x, y; done.
Qed.

(** The four answers of [bms_subset_compare] mean: equal sets, [a] a proper
    subset of [b], [b] a proper subset of [a], neither within the other. *)
Theorem bms_subset_compare_spec a b :
  bms_wf a → bms_wf b →
  bms_subset_compare a b =
    match bms_is_subset a b, bms_is_subset b a with
    | true, true => BMS_EQUAL
    | true, false => BMS_SUBSET1
    | false, true => BMS_SUBSET2
    | false, false => BMS_DIFFERENT
    end.
Proof.
  intros Ha Hb. destruct a as [wa|], b as [wb|]; simpl; try done; try by destruct (all_zero_words _).
  destruct Ha as [Ha _], Hb as [Hb _]. rewrite (subset_compare_loop_code _ _ _ false false) by done.
  rewrite !subset_loop_den by done. simpl. by destruct (_ =? 0), (_ =? 0).
Qed.

Lemma den_app ws ws' : words_ok ws → den (ws ++ ws') = den ws + 2 ^ (64 * nwords ws) * den ws'.
Proof.
  unfold nwords. induction 1 as [|w ws Hw Hws IH].
  { simpl app. simpl length. change (den []) with 0. lia. }
  cbn [app length]. rewrite !den_cons_add, IH by done.
  replace (64 * Z.of_nat (S (length ws))) with (64 + 64 * Z.of_nat (length ws)) by lia.
  rewrite Z.pow_add_r by lia. lia.
Qed.

Lemma den_bound ws : words_ok ws → 0 ≤ den ws < 2 ^ (64 * nwords ws).
Proof.
  unfold nwords. induction 1 as [|w ws Hw Hws IH]; [done|].
  rewrite den_cons_add by done. cbn [length].
  replace (64 * Z.of_nat (S (length ws))) with (64 + 64 * Z.of_nat (length ws)) by lia.
  rewrite Z.pow_add_r by lia. unfold is_word in Hw. nia.
Qed.

Definition cmp_int (c : comparison) : Z := match c with Eq => 0 | Lt => -1 | Gt => 1 end.

Lemma compare_loop_den wa wb :
  words_ok wa → words_ok wb → length wa = length wb →
  compare_loop (reverse (zip wa wb)) = cmp_int (den wa ?= den wb).
Proof.
  revert wb. induction wa as [|a wa IH] using rev_ind; intros wb Ha Hb Hlen.
  { destruct wb; done. }
  destruct wb as [|b wb _] using rev_ind; [rewrite length_app in Hlen; simpl in Hlen; lia|].
  rewrite !length_app in Hlen. simpl in Hlen.
  apply words_ok_app in Ha as [Ha Ha']. apply words_ok_app in Hb as [Hb Hb'].
  rewrite zip_with_app by lia. simpl zip_with. rewrite reverse_snoc. cbn [compare_loop].
  rewrite IH by (done || lia). rewrite !den_app by done.
  assert (nwords wa = nwords wb) as Hn by (unfold nwords; lia).
  apply words_ok_cons in Ha' as [Ha' _]. apply words_ok_cons in Hb' as [Hb' _].
  pose proof (den_bound wa Ha). pose proof (den_bound wb Hb). rewrite Hn in *.
  rewrite !den_cons_add by done. change (den []) with 0.
  set (P := 2 ^ (64 * nwords wb)) in *. set (da := den wa) in *. set (db := den wb) in *.
  unfold is_word in *. destruct (Z.eqb_spec a b) as [->|Hne]; simpl negb; cbn iota.
  - destruct (Z.compare_spec da db), (Z.compare_spec (da + P * (b + 2 ^ 64 * 0)) (db + P * (b + 2 ^ 64 * 0))); try done; lia.
  - destruct (Z.ltb_spec b a), (Z.compare_spec (da + P * (a + 2 ^ 64 * 0)) (db + P * (b + 2 ^ 64 * 0))); try done; nia.
Qed.

Lemma den_take_drop n ws :
  words_ok ws → (n ≤ length ws)%nat →
  den ws = den (take n ws) + 2 ^ (64 * Z.of_nat n) * den (drop n ws) ∧
  0 ≤ den (take n ws) < 2 ^ (64 * Z.of_nat n) ∧ 0 ≤ den (drop n ws).
Proof.
  intros Hws Hlen. rewrite <-(take_drop n ws) at 1. rewrite den_app by auto with words.
  pose proof (den_bound (take n ws) ltac:(auto with words)) as Hbd.
  unfold nwords in *. rewrite length_take, Nat.min_l in * by done.
  split_and!; try done; try lia. apply den_nonneg. auto with words.
Qed.

Lemma compare_words wa wb :
  words_ok wa → words_ok wb →
  bms_compare (Some wa) (Some wb) = cmp_int (den wa ?= den wb).
Proof.
  intros Ha Hb. cbn [bms_compare]. set (n := Nat.min (length wa) (length wb)).
  rewrite !all_zero_words_den by auto with words.
  rewrite compare_loop_den by (auto with words || (rewrite !length_take; lia)).
  assert (den (drop n wa) = 0 ∨ den (drop n wb) = 0) as He.
  { destruct (Nat.min_spec (length wa) (length wb)) as [[_ Hm]|[_ Hm]]; fold n in Hm.
    - left. by rewrite drop_ge by lia.
    - right. by rewrite drop_ge by lia. }
  destruct (den_take_drop n wa Ha) as (->&?&?); [unfold n; lia|].
  destruct (den_take_drop n wb Hb) as (->&?&?); [unfold n; lia|].
  set (P := 2 ^ (64 * Z.of_nat n)) in *. set (da := den (take n wa)) in *.
  set (db := den (take n wb)) in *. set (ea := den (drop n wa)) in *.
  set (eb := den (drop n wb)) in *.
  destruct (Z.eqb_spec ea 0) as [->|], (Z.eqb_spec eb 0) as [->|]; simpl negb; cbn iota.
  - by rewrite Z.mul_0_r, !Z.add_0_r.
  - destruct (Z.compare_spec (da + P * 0) (db + P * eb)); try done; nia.
  - destruct (Z.compare_spec (da + P * ea) (db + P * 0)); try done; nia.
  - lia.
Qed.

(** [bms_compare] is the three-way comparison of the sets read as binary
    numbers: it returns 0 exactly on equal sets and otherwise follows the highest
    bit in which they differ, so it is a total order fit for sorting. *)
Theorem bms_compare_spec a b :
  bms_wf a → bms_wf b → bms_compare a b = cmp_int (bms_set a ?= bms_set b).
Proof.
  intros Ha Hb. pose proof (bms_set_nonneg a Ha) as Hna. pose proof (bms_set_nonneg b Hb) as Hnb.
  destruct a as [wa|].
  - destruct b as [wb|].
    + destruct Ha, Hb. by apply compare_words.
    + cbn [bms_compare]. rewrite bms_is_empty_eq by done. cbn [bms_set] in *.
      destruct (Z.eqb_spec (den wa) 0), (Z.compare_spec (den wa) 0); done || lia.
  - cbn [bms_compare]. rewrite bms_is_empty_eq by done. cbn [bms_set].
    destruct (Z.eqb_spec (bms_set b) 0), (Z.compare_spec 0 (bms_set b)); done || lia.
Qed.

(** ** Iteration *)

(** [r] is the least member of [z] that is at least [k], counted from [base];
    [none] when there is none *)
Definition least_from (z k base none r : Z) : Prop :=
  (r = none ∧ ∀ i, k ≤ i → Z.testbit z i = false) ∨
  (∃ p, r = base + p ∧ k ≤ p ∧ Z.testbit z p = true ∧ ∀ i, k ≤ i < p → Z.testbit z i = false).

Lemma mask_from_bit k i :
  0 ≤ k < 64 → 0 ≤ i < 64 → Z.testbit (shl64 all_ones64 k) i = (k <=? i).
Proof.
  intros Hk Hi. unfold shl64. autorewrite with zbits. split_cmp; done.
Qed.

Lemma shl64_ones_0 : shl64 all_ones64 0 = all_ones64.
Proof. reflexivity. Qed.

Lemma next_member_loop_spec ws wn k :
  words_ok ws → 0 ≤ k < 64 →
  least_from (den ws) k (64 * wn) (-2) (next_member_loop ws wn (shl64 all_ones64 k)).
Proof.
  intros Hws. revert wn k. induction Hws as [|w ws Hw Hws IH]; intros wn k Hk.
  { left. split; [done|]. intros i _. apply Z.testbit_0_l. }
  cbn [next_member_loop]. set (w' := Z.land w _).
  assert (is_word 64 w') as Hw' by (unfold w'; auto with words).
  assert (∀ i, 0 ≤ i < 64 → Z.testbit w' i = Z.testbit w i && (k <=? i)) as Hbits.
  { intros i Hi. unfold w'. by rewrite Z.land_spec, mask_from_bit. }
  destruct (Z.eqb_spec w' 0) as [Hz|Hnz]; cbn [negb].
  - assert (∀ i, k ≤ i < 64 → Z.testbit w i = false) as Hlow.
    { intros i Hi. specialize (Hbits i ltac:(lia)). rewrite Hz, Z.testbit_0_l in Hbits.
      rewrite (proj2 (Z.leb_le k i)), andb_true_r in Hbits by lia. done. }
    destruct (IH (wn + 1) 0 ltac:(lia)) as [[Hr Hno]|(p&Hr&Hp&Hb&Hno)];
      rewrite shl64_ones_0 in Hr; [left|right].
    + split; [done|]. intros i Hi. rewrite den_cons_testbit by (done || lia).
      destruct (Z.ltb_spec i 64); [apply Hlow|apply Hno]; lia.
    + exists (64 + p). split; [lia|]. split; [lia|]. split.
      * rewrite den_cons_testbit by (done || lia). rewrite (proj2 (Z.ltb_ge _ 64)) by lia.
        by replace (64 + p - 64) with p by lia.
      * intros i Hi. rewrite den_cons_testbit by (done || lia).
        destruct (Z.ltb_spec i 64); [apply Hlow|apply Hno]; lia.
  - right. destruct (pg_rightmost_one_pos64_spec w' Hw' Hnz) as (Hp&Hb&Hno).
    unfold bmw_rightmost_one_pos, BITS_PER_BITMAPWORD. set (p := pg_rightmost_one_pos64 w') in *.
    assert (p < 64).
    { destruct (Z.lt_ge_cases p 64); [done|]. by rewrite (testbit_word_high 64) in Hb. }
    rewrite Hbits in Hb by lia. apply andb_true_iff in Hb as [Hb Hkp%Z.leb_le].
    exists p. split; [lia|]. split; [done|]. split.
    + rewrite den_cons_testbit by (done || lia). by rewrite (proj2 (Z.ltb_lt p 64)).
    + intros i Hi. rewrite den_cons_testbit by (done || lia). rewrite (proj2 (Z.ltb_lt i 64)) by lia.
      specialize (Hno i ltac:(lia)). rewrite Hbits in Hno by lia.
      by rewrite (proj2 (Z.leb_le k i)), andb_true_r in Hno by lia.
Qed.

Lemma den_drop n ws i :
  words_ok ws → 0 ≤ i → Z.testbit (den (drop n ws)) i = Z.testbit (den ws) (64 * Z.of_nat n + i).
Proof.
  intros Hws. revert n i. induction Hws as [|w ws Hw Hws IH]; intros n i Hi.
  { rewrite drop_nil. by rewrite !(Z.testbit_0_l _ : Z.testbit (den []) _ = false). }
  destruct n as [|n]; [f_equal; lia|]. simpl drop. rewrite IH by done.
  rewrite den_cons_testbit, (proj2 (Z.ltb_ge _ 64)) by (done || lia). f_equal. lia.
Qed.

Lemma bms_next_member_least a prevbit :
  bms_wf a → -1 ≤ prevbit →
  let r := bms_next_member a prevbit in
  (r = -2 ∧ ∀ x, prevbit < x → ¬ bms_in x a) ∨
  (prevbit < r ∧ bms_in r a ∧ ∀ x, prevbit < x < r → ¬ bms_in x a).
Proof.
  intros Hwf Hp. unfold bms_in. destruct a as [ws|]; cbn [bms_next_member bms_set].
  2:{ left. split; [done|]. intros x _. by rewrite Z.testbit_0_l. }
  destruct Hwf as [Hws _]. set (q := prevbit + 1).
  assert (0 ≤ q) as Hq by lia. pose proof (Z.div_mod q 64 ltac:(lia)) as Hdm.
  assert (0 ≤ q / 64) as Hqd by (apply Z.div_pos; lia).
  pose proof (next_member_loop_spec (drop (Z.to_nat (WORDNUM q)) ws) (WORDNUM q) (BITNUM q)
    ltac:(auto with words) (bitnum_range q Hq)) as Hspec.
  rewrite WORDNUM_div, BITNUM_mod in * by done.
  destruct Hspec as [[Hr Hno]|(p&Hr&Hkp&Hb&Hno)]; [left|right]; cbv zeta; rewrite Hr.
  - split; [done|]. intros x Hx. pose proof (Z.mod_pos_bound q 64 ltac:(lia)).
    specialize (Hno (x - 64 * (q / 64)) ltac:(lia)). rewrite den_drop in Hno by (done || lia).
    replace (64 * Z.of_nat (Z.to_nat (q / 64)) + (x - 64 * (q / 64))) with x in Hno by lia.
    by rewrite Hno.
  - pose proof (Z.mod_pos_bound q 64 ltac:(lia)). rewrite den_drop in Hb by (done || lia).
    replace (64 * Z.of_nat (Z.to_nat (q / 64)) + p) with (64 * (q / 64) + p) in Hb by lia.
    split; [lia|]. split; [done|]. intros x Hx.
    specialize (Hno (x - 64 * (q / 64)) ltac:(lia)). rewrite den_drop in Hno by (done || lia).
    replace (64 * Z.of_nat (Z.to_nat (q / 64)) + (x - 64 * (q / 64))) with x in Hno by lia.
    by rewrite Hno.
Qed.

Definition bms_nwords (a : Bitmapset) : Z := match a with None => 0 | Some ws => nwords ws end.
(** the members in ascending order *)
Definition bms_elements (a : Bitmapset) : list Z := bitlist (bms_set a) (64 * bms_nwords a).

(** [x = -1; while ((x = bms_next_member(a, x)) >= 0) process member x;] *)
Fixpoint bms_foreach (fuel : nat) (a : Bitmapset) (x : Z) : option (list Z) :=
  match fuel with
  | O => None
  | S fuel' =>
      let x := bms_next_member a x in
      if x <? 0 then Some [] else (x ::.) <$> bms_foreach fuel' a x
  end.

Lemma bms_in_bound a x : bms_wf a → bms_in x a → 0 ≤ x < 64 * bms_nwords a.
Proof.
  unfold bms_in. intros Hwf Hx. assert (0 ≤ x) as Hpos.
  { destruct (Z.lt_ge_cases x 0); [|done]. by rewrite Z.testbit_neg_r in Hx. }
  split; [done|]. destruct a as [ws|]; simpl in *; [|by rewrite Z.testbit_0_l in Hx].
  destruct Hwf as [Hws _]. rewrite den_testbit in Hx by done.
  by apply andb_true_iff in Hx as [Hx%Z.ltb_lt _].
Qed.

Lemma elem_of_bms_elements a x : bms_wf a → x ∈ bms_elements a ↔ bms_in x a.
Proof.
  intros Hwf. unfold bms_elements. rewrite elem_of_bitlist. split; [tauto|].
  intros Hx. split; [by apply bms_in_bound|done].
Qed.

(** the part of [bitlist z n] above [x] *)
Definition bits_after (z n x : Z) : list Z :=
  filter (λ i, Z.testbit z i = true) (seqZ (x + 1) (n - (x + 1))).

Lemma bits_after_none z n x :
  (∀ i, x < i → Z.testbit z i = false) → bits_after z n x = [].
Proof.
  intros H. unfold bits_after. destruct (filter _ _) as [|i l] eqn:E; [done|].
  assert (i ∈ filter (λ i, Z.testbit z i = true) (seqZ (x + 1) (n - (x + 1)))) as Hi
    by (rewrite E; left).
  apply list_elem_of_filter in Hi as [Hb Hi%elem_of_seqZ]. rewrite H in Hb by lia. done.
Qed.

Lemma bits_after_next z n x r :
  x < r < n → Z.testbit z r = true → (∀ i, x < i < r → Z.testbit z i = false) →
  bits_after z n x = r :: bits_after z n r.
Proof.
  intros Hr Hb Hno. unfold bits_after.
  replace (n - (x + 1)) with ((r - (x + 1)) + (1 + (n - (r + 1)))) by lia.
  rewrite seqZ_app, seqZ_app by lia. replace (x + 1 + (r - (x + 1))) with r by lia.
  rewrite !filter_app.
  assert (filter (λ i, Z.testbit z i = true) (seqZ (x + 1) (r - (x + 1))) = []) as ->.
  { destruct (filter _ _) as [|i l] eqn:E; [done|].
    assert (i ∈ filter (λ i, Z.testbit z i = true) (seqZ (x + 1) (r - (x + 1)))) as Hi
      by (rewrite E; left).
    apply list_elem_of_filter in Hi as [Hbi Hi%elem_of_seqZ]. rewrite Hno in Hbi by lia. done. }
  rewrite (seqZ_cons r 1), seqZ_nil by lia. by rewrite filter_cons_True.
Qed.

Lemma bms_foreach_after a x fuel :
  bms_wf a → -1 ≤ x → 64 * bms_nwords a < x + 1 + Z.of_nat fuel →
  bms_foreach fuel a x = Some (bits_after (bms_set a) (64 * bms_nwords a) x) ∨
  64 * bms_nwords a ≤ x.
Proof.
  intros Hwf. revert x. induction fuel as [|fuel IH]; intros x Hx Hfuel; [right; lia|].
  cbn [bms_foreach]. left. destruct (bms_next_member_least a x Hwf Hx) as [[Hr Hno]|(Hlt&Hin&Hno)].
  - rewrite Hr. simpl. rewrite bits_after_none; [done|]. intros i Hi. specialize (Hno i Hi).
    unfold bms_in in Hno. by apply not_true_is_false.
  - set (r := bms_next_member a x) in *. rewrite (proj2 (Z.ltb_ge r 0)) by lia.
    pose proof (bms_in_bound a r Hwf Hin) as Hrb.
    destruct (IH r) as [->|Hge]; [lia|lia| |lia]. simpl. f_equal. symmetry.
    apply bits_after_next; [lia|done|]. intros i Hi. specialize (Hno i Hi).
    by apply not_true_is_false.
Qed.


(** ** Counting *)

Lemma den_cons_bitlist w ws n :
  is_word 64 w → 0 ≤ n →
  bitlist (den (w :: ws)) (64 + n) = bitlist w 64 ++ ((λ i, 64 + i) <$> bitlist (den ws) n).
Proof.
  intros Hw Hn. rewrite bitlist_add by lia. f_equal.
  - apply bitlist_ext. intros i Hi. rewrite den_cons_testbit by (done || lia).
    by rewrite (proj2 (Z.ltb_lt i 64)) by lia.
  - f_equal. apply bitlist_ext. intros i Hi. rewrite Z.shiftr_spec by lia.
    rewrite den_cons_testbit, (proj2 (Z.ltb_ge _ 64)) by (done || lia). f_equal. lia.
Qed.

Lemma count_words_spec ws r :
  words_ok ws → count_words ws r = r + Z.of_nat (length (bitlist (den ws) (64 * nwords ws))).
Proof.
  intros Hws. revert r. induction Hws as [|w ws Hw Hws IH]; intros r.
  { rewrite bitlist_nonpos by (unfold nwords; simpl; lia). simpl. lia. }
  cbn [count_words]. rewrite IH.
  assert (64 * nwords (w :: ws) = 64 + 64 * nwords ws) as -> by (unfold nwords; simpl length; lia).
  rewrite den_cons_bitlist, length_app, length_fmap by (done || (unfold nwords; lia)).
  destruct (Z.eqb_spec w 0) as [->|]; simpl negb; cbn iota.
  - rewrite (bitlist_nil 0 64) by (intros; apply Z.testbit_0_l). simpl. lia.
  - unfold bmw_popcount. rewrite pg_popcount64_slow_spec by done. lia.
Qed.

Lemma bitlist_word_at ws wn b :
  words_ok ws → 0 ≤ wn → 0 ≤ b ≤ 64 →
  bitlist (den ws) (64 * wn + b) =
    bitlist (den ws) (64 * wn) ++ ((λ i, 64 * wn + i) <$> bitlist (word_at ws wn) b).
Proof.
  intros Hws Hwn Hb. rewrite bitlist_add by lia. f_equal. f_equal. apply bitlist_ext.
  intros i Hi. rewrite Z.shiftr_spec, den_testbit' by (done || lia).
  replace ((i + 64 * wn) / 64) with wn.
  2:{ apply (Z.div_unique_pos _ _ _ i); lia. }
  f_equal. symmetry. apply (Z.mod_unique_pos _ _ wn); lia.
Qed.

Lemma bitlist_take ws (n : nat) :
  words_ok ws → (n ≤ length ws)%nat →
  bitlist (den (take n ws)) (64 * nwords (take n ws)) = bitlist (den ws) (64 * Z.of_nat n).
Proof.
  intros Hws Hn. unfold nwords. rewrite length_take, Nat.min_l by done. apply bitlist_ext.
  intros i Hi. rewrite !den_testbit' by (auto with words || lia). f_equal. unfold word_at.
  rewrite lookup_take_lt; [done|]. assert (i / 64 < Z.of_nat n) by (apply Z.div_lt_upper_bound; lia).
  assert (0 ≤ i / 64) by (apply Z.div_pos; lia). lia.
Qed.

Lemma popcount_below w b :
  is_word 64 w → 0 ≤ b < 64 →
  bmw_popcount (Z.land w (wrap 64 (shl64 1 b - 1))) = Z.of_nat (length (bitlist w b)).
Proof.
  intros Hw Hb. unfold bmw_popcount. rewrite pg_popcount64_slow_spec by auto with words.
  rewrite shl64_one by done. unfold wrap.
  replace (2 ^ b - 1) with (Z.ones b) by (rewrite Z.ones_equiv; lia).
  replace 64 with (b + (64 - b)) at 2 by lia. rewrite bitlist_add, length_app, length_fmap by lia.
  rewrite (bitlist_nil (Z.shiftr _ b)).
  - simpl. rewrite Nat.add_0_r. do 2 f_equal. apply bitlist_ext. intros i Hi.
    rewrite Z.land_spec, testbit_mod_pow2, testbit_ones by lia. split_cmp; btauto.
  - intros i Hi. rewrite Z.shiftr_spec, Z.land_spec, testbit_mod_pow2, testbit_ones by lia.
    split_cmp; btauto.
Qed.

Lemma member_index_rank ws x :
  words_ok ws → 0 ≤ x < 64 * nwords ws →
  count_words (take (Z.to_nat (WORDNUM x)) ws) 0 +
    bmw_popcount (Z.land (word_at ws (WORDNUM x)) (wrap 64 (shl64 1 (BITNUM x) - 1))) =
  Z.of_nat (length (bitlist (den ws) x)).
Proof.
  intros Hws Hx. pose proof (bitnum_range x ltac:(lia)) as Hb.
  assert (0 ≤ x / 64 < nwords ws) as Hq.
  { split; [apply Z.div_pos; lia|apply Z.div_lt_upper_bound; lia]. }
  rewrite popcount_below, count_words_spec by auto with words.
  rewrite WORDNUM_div, BITNUM_mod in * by lia. unfold nwords in Hq.
  rewrite bitlist_take, Z2Nat.id by (done || lia).
  rewrite (Z.div_mod x 64) at 4 by lia. rewrite bitlist_word_at by (done || lia).
  rewrite length_app, length_fmap. lia.
Qed.

Lemma bitlist_lookup z n x :
  0 ≤ x < n → Z.testbit z x = true → bitlist z n !! length (bitlist z x) = Some x.
Proof.
  intros Hx Hb. replace n with (x + (1 + (n - x - 1))) by lia.
  rewrite bitlist_add, lookup_app_r, Nat.sub_diag by lia.
  rewrite bitlist_add, fmap_app by lia. unfold bitlist at 1. rewrite (seqZ_cons 0 1), seqZ_nil by lia.
  rewrite filter_cons_True by (rewrite Z.shiftr_spec by lia; done). simpl. f_equal. lia.
Qed.

(** Counting: [bms_num_members] is the number of members, [bms_member_index]
    is the position of a member in the ascending enumeration and -1 for a
    non-member. *)
Theorem bms_counting a x :
  bms_wf a → 0 ≤ x →
  bms_num_members a = Z.of_nat (length (bms_elements a)) ∧
  ∃ i, bms_member_index a x = Ok i ∧
    (bms_in x a → 0 ≤ i ∧ bms_elements a !! Z.to_nat i = Some x) ∧ (¬ bms_in x a → i = -1).
Proof.
  intros Hwf Hx. split.
  { destruct a as [ws|]; [|done]. destruct Hwf as [Hws _]. simpl. by rewrite count_words_spec. }
  unfold bms_member_index. rewrite bms_is_member_eq by done. simpl.
  destruct (Z.testbit (bms_set a) x) eqn:Hin.
  - pose proof (bms_in_bound a x Hwf Hin) as Hb. destruct a as [ws|]; simpl in *; [|lia].
    destruct Hwf as [Hws _]. rewrite member_index_rank by done. eexists. split; [done|].
    unfold bms_in. simpl. rewrite Hin. split; [|done]. intros _. split; [lia|].
    rewrite Nat2Z.id. by apply bitlist_lookup.
  - eexists. split; [by destruct a|]. unfold bms_in. by rewrite Hin.
Qed.

(** ** Singletons *)

Lemma word_bitlist_nonzero w :
  is_word 64 w → w ≠ 0 →
  let p := bmw_rightmost_one_pos w in
  if HAS_MULTIPLE_ONES w then (∃ x y l, bitlist w 64 = x :: y :: l) else bitlist w 64 = [p].
Proof.
  intros Hw Hnz p. pose proof (pg_rightmost_one_pos64_spec w Hw Hnz) as Hp.
  change (is_rightmost w p) in Hp. pose proof Hp as (Hp0&Hb&Hlow).
  assert (p < 64) as Hp64.
  { destruct (Z.lt_ge_cases p 64); [done|]. by rewrite (testbit_word_high 64) in Hb. }
  assert (p ∈ bitlist w 64) as Hpin by (by apply elem_of_bitlist).
  assert (∀ q, Z.testbit w q = true → q ∈ bitlist w 64) as Hall.
  { intros q Hq. apply elem_of_bitlist. split; [|done]. split.
    - destruct (Z.lt_ge_cases q 0); [|done]. by rewrite Z.testbit_neg_r in Hq.
    - destruct (Z.lt_ge_cases q 64); [done|]. by rewrite (testbit_word_high 64) in Hq. }
  destruct (HAS_MULTIPLE_ONES w) eqn:Hm.
  - destruct (bitlist w 64) as [|x [|y l]] eqn:E; [by apply elem_of_nil in Hpin| |eauto].
    exfalso. apply not_false_iff_true in Hm. apply Hm, (has_multiple_ones_false w p); [done..|].
    apply Z.bits_inj'. intros i Hi. rewrite testbit_pow2 by done.
    destruct (Z.eqb_spec i p) as [->|Hne]; [done|].
    destruct (Z.testbit w i) eqn:Hbi; [|done]. apply Hall in Hbi.
    apply list_elem_of_singleton in Hbi, Hpin. congruence.
  - apply (has_multiple_ones_false w p) in Hm; [|done..].
    assert (∀ q, q ∈ bitlist w 64 → q = p) as Honly.
    { intros q [_ Hq]%elem_of_bitlist. rewrite Hm, testbit_pow2 in Hq by done.
      by apply Z.eqb_eq in Hq. }
    pose proof (NoDup_filter (λ i, Z.testbit w i = true) _ (NoDup_seqZ 0 64)) as Hnd.
    change (NoDup (bitlist w 64)) in Hnd.
    destruct (bitlist w 64) as [|x [|y l]]; [by apply elem_of_nil in Hpin| |].
    + rewrite (Honly x) by left. done.
    + exfalso. apply NoDup_cons in Hnd as [Hnd _]. apply Hnd.
      rewrite (Honly x), (Honly y) by (repeat constructor). left.
Qed.

Lemma singleton_loop_spec ws wn r :
  words_ok ws → 0 ≤ wn →
  singleton_loop ws wn r =
    match bitlist (den ws) (64 * nwords ws) with
    | [] => Some r
    | [p] => if 0 <=? r then None else Some (64 * wn + p)
    | _ => None
    end.
Proof.
  intros Hws. revert wn r. induction Hws as [|w ws Hw Hws IH]; intros wn r Hwn; [done|].
  assert (64 * nwords (w :: ws) = 64 + 64 * nwords ws) as -> by (unfold nwords; simpl length; lia).
  rewrite den_cons_bitlist by (done || (unfold nwords; lia)). cbn [singleton_loop].
  destruct (Z.eqb_spec w 0) as [->|Hnz]; cbn [negb].
  - rewrite (bitlist_nil 0 64) by (intros; apply Z.testbit_0_l). simpl app. rewrite IH by lia.
    destruct (bitlist (den ws) _) as [|p [|]]; simpl; try done.
    destruct (0 <=? r); [done|]. f_equal. lia.
  - pose proof (word_bitlist_nonzero w Hw Hnz) as Hbl. cbv zeta in Hbl.
    destruct (HAS_MULTIPLE_ONES w).
    + destruct Hbl as (x&y&l&->). by rewrite orb_true_r.
    + rewrite Hbl, orb_false_r. simpl app.
      pose proof (pg_rightmost_one_pos64_spec w Hw Hnz) as (Hp0&_).
      destruct (0 <=? r) eqn:Hr.
      { by destruct (_ <$> bitlist (den ws) _). }
      rewrite IH by lia. unfold BITS_PER_BITMAPWORD, bmw_rightmost_one_pos.
      rewrite (proj2 (Z.leb_le 0 (wn * 64 + _))) by lia.
      destruct (bitlist (den ws) _) as [|p [|]]; simpl; try done. f_equal. lia.
Qed.

Lemma membership_loop_spec ws r :
  words_ok ws →
  membership_loop ws r =
    match bitlist (den ws) (64 * nwords ws) with
    | [] => r
    | [p] => if bool_decide (r = BMS_EMPTY_SET) then BMS_SINGLETON else BMS_MULTIPLE
    | _ => BMS_MULTIPLE
    end.
Proof.
  intros Hws. revert r. induction Hws as [|w ws Hw Hws IH]; intros r; [done|].
  assert (64 * nwords (w :: ws) = 64 + 64 * nwords ws) as -> by (unfold nwords; simpl length; lia).
  rewrite den_cons_bitlist by (done || (unfold nwords; lia)). cbn [membership_loop].
  destruct (Z.eqb_spec w 0) as [->|Hnz]; cbn [negb].
  - rewrite (bitlist_nil 0 64) by (intros; apply Z.testbit_0_l). simpl app. rewrite IH.
    by destruct (bitlist (den ws) _) as [|p [|]].
  - pose proof (word_bitlist_nonzero w Hw Hnz) as Hbl. cbv zeta in Hbl.
    destruct (HAS_MULTIPLE_ONES w).
    + destruct Hbl as (x&y&l&->). by rewrite orb_true_r.
    + rewrite Hbl, orb_false_r, IH. simpl app.
      destruct r; simpl; destruct (bitlist (den ws) _) as [|p [|]]; done.
Qed.

(** The singleton tests classify the set by its number of members and return
    the sole member: [bms_membership] never misreports, [bms_singleton_member]
    raises the right error on empty and larger sets, and
    [bms_get_singleton_member] succeeds exactly on singletons. *)
Theorem bms_singleton_spec a :
  bms_wf a →
  bms_membership a =
    match bms_elements a with [] => BMS_EMPTY_SET | [_] => BMS_SINGLETON | _ => BMS_MULTIPLE end ∧
  bms_singleton_member a =
    match bms_elements a with
    | [] => Err (ElogError empty_msg)
    | [x] => Ok x
    | _ => Err (ElogError multiple_msg)
    end ∧
  bms_get_singleton_member a = match bms_elements a with [x] => Some x | _ => None end.
Proof.
  intros Hwf. destruct a as [ws|]; [|done]. destruct Hwf as [Hws Hne].
  unfold bms_elements. cbn [bms_set bms_nwords bms_membership bms_singleton_member bms_get_singleton_member].
  rewrite membership_loop_spec, singleton_loop_spec by done.
  pose proof (elem_of_bitlist (den ws) (64 * nwords ws)) as Hin.
  destruct (bitlist (den ws) _) as [|p [|]]; [done| |done].
  destruct (proj1 (Hin p)) as [Hp _]; [left|].
  change (0 <=? -1) with false. cbn iota. rewrite Z.mul_0_r, Z.add_0_l. simpl.
  by rewrite (proj2 (Z.ltb_ge p 0)) by lia.
Qed.

(** ** Destructive and backward iteration *)

Lemma pow2_rightmost p : 0 ≤ p < 64 → bmw_rightmost_one_pos (2 ^ p) = p.
Proof.
  intros Hp. assert (is_word 64 (2 ^ p)) as Hw.
  { split; [lia|]. apply Z.pow_lt_mono_r; lia. }
  apply (is_rightmost_unique (2 ^ p)).
  - apply pg_rightmost_one_pos64_spec; [done|lia].
  - split; [lia|]. split; [by rewrite testbit_pow2, Z.eqb_refl by lia|].
    intros i Hi. rewrite testbit_pow2 by lia. by apply Z.eqb_neq; lia.
Qed.

Lemma first_member_loop_spec ws wn :
  words_ok ws →
  let '(r, ws') := first_member_loop ws wn in
  words_ok ws' ∧ length ws' = length ws ∧
  ((r = -1 ∧ ws' = ws ∧ den ws = 0) ∨
   ∃ p, r = 64 * wn + p ∧ is_rightmost (den ws) p ∧ den ws' = Z.clearbit (den ws) p).
Proof.
  intros Hws. revert wn. induction Hws as [|w ws Hw Hws IH]; intros wn.
  { simpl. split_and!; [constructor|done|by left]. }
  cbn [first_member_loop]. destruct (Z.eqb_spec w 0) as [->|Hnz]; cbn [negb].
  - specialize (IH (wn + 1)). destruct (first_member_loop ws (wn + 1)) as [r ws'].
    destruct IH as (Hok&Hlen&IH). split_and!; [by constructor|simpl; lia|].
    destruct IH as [(->&->&Hz)|(p&->&(Hp&Hb&Hlow)&Hden)]; [left|right].
    + split_and!; [done..|]. by apply den_cons_zero; [constructor|].
    + exists (64 + p). split; [lia|]. split.
      * split; [lia|]. split.
        -- rewrite den_cons_testbit, (proj2 (Z.ltb_ge _ 64)) by (done || lia).
           by replace (64 + p - 64) with p by lia.
        -- intros i Hi. destruct (Z.lt_ge_cases i 0); [by apply Z.testbit_neg_r|].
           rewrite den_cons_testbit by done. destruct (Z.ltb_spec i 64).
           ++ apply Z.testbit_0_l. ++ apply Hlow. lia.
      * apply Z.bits_inj'. intros i Hi. rewrite Z.clearbit_eqb, !den_cons_testbit by (done || lia).
        rewrite Hden, Z.clearbit_eqb by lia. rewrite Z.testbit_0_l. split_cmp; btauto.
  - pose proof (pg_rightmost_one_pos64_spec w Hw Hnz) as Hr. pose proof Hr as (Hp&Hb&Hlow).
    set (p := pg_rightmost_one_pos64 w) in *. assert (p < 64).
    { destruct (Z.lt_ge_cases p 64); [done|]. by rewrite (testbit_word_high 64) in Hb. }
    rewrite (RIGHTMOST_ONE_spec w p), pow2_rightmost, land_not64 by (done || lia).
    split_and!; [constructor; auto with words|done|]. right. exists p. unfold BITS_PER_BITMAPWORD.
    split; [lia|]. split.
    + split; [done|]. split.
      * by rewrite den_cons_testbit, (proj2 (Z.ltb_lt p 64)).
      * intros i Hi. destruct (Z.lt_ge_cases i 0); [by apply Z.testbit_neg_r|].
        rewrite den_cons_testbit, (proj2 (Z.ltb_lt i 64)) by (done || lia). by apply Hlow.
    + apply Z.bits_inj'. intros i Hi.
      rewrite Z.clearbit_eqb, !den_cons_testbit by (auto with words || lia).
      rewrite Z.ldiff_spec, testbit_pow2 by lia. rewrite (Z.eqb_sym i p). split_cmp; btauto.
Qed.

(** [bms_first_member] removes and returns the least member; on the empty set
    it returns -1 and changes nothing.  Repeating it therefore drains the set in
    ascending order. *)
Theorem bms_first_member_spec a :
  bms_wf a →
  let '(r, a') := bms_first_member a in
  bms_wf a' ∧
  ((r = -1 ∧ a' = a ∧ ∀ x, ¬ bms_in x a) ∨
   (bms_in r a ∧ (∀ x, bms_in x a → r ≤ x) ∧ bms_set a' = Z.clearbit (bms_set a) r)).
Proof.
  intros Hwf. unfold bms_in. destruct a as [ws|]; simpl.
  2:{ split; [done|]. left. split_and!; [done..|]. intros x. by rewrite Z.testbit_0_l. }
  destruct Hwf as [Hws Hne]. pose proof (first_member_loop_spec ws 0 Hws) as H.
  destruct (first_member_loop ws 0) as [r ws']. destruct H as (Hok&Hlen&H).
  split; [split; [done|]; destruct ws, ws'; done|].
  destruct H as [(->&->&Hz)|(p&->&(Hp&Hb&Hlow)&Hden)]; [left|right].
  - split_and!; [done..|]. intros x. by rewrite Hz, Z.testbit_0_l.
  - rewrite Z.mul_0_r, Z.add_0_l. split_and!; [done| |done].
    intros x Hx. destruct (Z.lt_ge_cases x p); [|done]. by rewrite Hlow in Hx.
Qed.

Lemma mask_upto_bit k i :
  0 ≤ k < 64 → 0 ≤ i < 64 → Z.testbit (Z.shiftr all_ones64 (64 - (k + 1))) i = (i <=? k).
Proof. apply upper_mask_bit. Qed.

(** [r] is the greatest member of [z] that is at most [k]; -2 when there is none *)
Definition greatest_upto (z k r : Z) : Prop :=
  (r = -2 ∧ ∀ i, i ≤ k → Z.testbit z i = false) ∨
  (0 ≤ r ≤ k ∧ Z.testbit z r = true ∧ ∀ i, r < i ≤ k → Z.testbit z i = false).

Lemma den_snoc_testbit ws w i :
  words_ok ws → is_word 64 w → 0 ≤ i < 64 * (nwords ws + 1) →
  Z.testbit (den (ws ++ [w])) i =
    if i <? 64 * nwords ws then Z.testbit (den ws) i else Z.testbit w (i - 64 * nwords ws).
Proof.
  intros Hws Hw Hi.
  assert (words_ok (ws ++ [w])) as Hok.
  { apply words_ok_app. split; [done|]. constructor; [done|constructor]. }
  destruct (Z.ltb_spec i (64 * nwords ws)) as [Hlt|Hge].
  - rewrite !den_testbit' by (auto with words || lia). f_equal. unfold word_at, nwords in *.
    assert (i / 64 < Z.of_nat (length ws)) by (apply Z.div_lt_upper_bound; lia).
    assert (0 ≤ i / 64) by (apply Z.div_pos; lia). by rewrite lookup_app_l by lia.
  - rewrite den_testbit' by (done || lia).
    assert (i / 64 = nwords ws) as Hq.
    { symmetry. apply (Z.div_unique_pos _ _ _ (i - 64 * nwords ws)); lia. }
    rewrite Hq. unfold word_at, nwords. rewrite Nat2Z.id, lookup_app_r, Nat.sub_diag by lia. simpl.
    f_equal. symmetry. apply (Z.mod_unique_pos _ _ (nwords ws)); unfold nwords in *; lia.
Qed.

Lemma prev_member_loop_spec ws k :
  words_ok ws → ws ≠ [] → 0 ≤ k < 64 →
  greatest_upto (den ws) (64 * (nwords ws - 1) + k)
    (prev_member_loop (reverse ws) (nwords ws - 1) (Z.shiftr all_ones64 (64 - (k + 1)))).
Proof.
  revert k. induction ws as [|w ws IH] using rev_ind; intros k Hws Hne Hk; [done|].
  apply words_ok_app in Hws as [Hws [Hw _]%words_ok_cons].
  rewrite reverse_snoc. cbn [prev_member_loop].
  assert (nwords (ws ++ [w]) = nwords ws + 1) as -> by (unfold nwords; rewrite length_app; simpl; lia).
  replace (nwords ws + 1 - 1) with (nwords ws) by lia. assert (0 ≤ nwords ws) by (unfold nwords; lia).
  set (w' := Z.land w _). assert (is_word 64 w') as Hw' by (unfold w'; auto with words).
  assert (∀ i, 0 ≤ i < 64 → Z.testbit w' i = Z.testbit w i && (i <=? k)) as Hbits.
  { intros i Hi. unfold w'. by rewrite Z.land_spec, mask_upto_bit. }
  destruct (Z.eqb_spec w' 0) as [Hz|Hnz]; cbn [negb].
  - assert (∀ i, 64 * nwords ws ≤ i ≤ 64 * nwords ws + k → Z.testbit (den (ws ++ [w])) i = false) as Hhigh.
    { intros i Hi. rewrite den_snoc_testbit, (proj2 (Z.ltb_ge _ _)) by (done || lia).
      specialize (Hbits (i - 64 * nwords ws) ltac:(lia)). rewrite Hz, Z.testbit_0_l in Hbits.
      rewrite (proj2 (Z.leb_le _ k)), andb_true_r in Hbits by lia. done. }
    destruct (decide (ws = [])) as [->|Hne'].
    { left. split; [done|]. intros i Hi. destruct (Z.lt_ge_cases i 0); [by apply Z.testbit_neg_r|].
      apply Hhigh. unfold nwords in *. simpl in *. lia. }
    pose proof (IH 63 Hws Hne' ltac:(lia)) as Hrec.
    replace (Z.shiftr all_ones64 (64 - (63 + 1))) with all_ones64 in Hrec by reflexivity.
    apply nwords_nonempty in Hne'.
    assert (∀ i, i < 64 * nwords ws → Z.testbit (den (ws ++ [w])) i = Z.testbit (den ws) i) as Hlow.
    { intros i Hi. destruct (Z.lt_ge_cases i 0); [by rewrite !Z.testbit_neg_r|].
      by rewrite den_snoc_testbit, (proj2 (Z.ltb_lt _ _)) by (done || lia). }
    destruct Hrec as [[-> Hno]|(Hr&Hb&Hno)]; [left|right].
    + split; [done|]. intros i Hi. destruct (Z.lt_ge_cases i (64 * nwords ws)); [|apply Hhigh; lia].
      rewrite Hlow by done. apply Hno. lia.
    + split; [lia|]. rewrite Hlow by lia. split; [done|]. intros i Hi.
      destruct (Z.lt_ge_cases i (64 * nwords ws)); [|apply Hhigh; lia].
      rewrite Hlow by done. apply Hno. lia.
  - right. unfold bmw_leftmost_one_pos, BITS_PER_BITMAPWORD. rewrite pg_leftmost_one_pos64_spec by done.
    assert (0 < w') as Hpos by (unfold is_word in Hw'; lia).
    pose proof (Z.bit_log2 w' Hpos) as Hb. pose proof (Z.log2_nonneg w') as Hl0.
    set (p := Z.log2 w') in *. assert (p < 64).
    { destruct (Z.lt_ge_cases p 64); [done|]. by rewrite (testbit_word_high 64) in Hb. }
    rewrite Hbits in Hb by lia. apply andb_true_iff in Hb as [Hb Hpk%Z.leb_le]. split; [lia|].
    split.
    + rewrite den_snoc_testbit, (proj2 (Z.ltb_ge _ _)) by (done || lia).
      by replace (nwords ws * 64 + p - 64 * nwords ws) with p by lia.
    + intros i Hi. rewrite den_snoc_testbit, (proj2 (Z.ltb_ge _ _)) by (done || lia).
      assert (Z.testbit w' (i - 64 * nwords ws) = false) as Hf.
      { apply Z.bits_above_log2; [lia|]. change (p < i - 64 * nwords ws). lia. }
      rewrite Hbits in Hf by lia. by rewrite (proj2 (Z.leb_le _ k)), andb_true_r in Hf by lia.
Qed.

Lemma den_take_testbit n ws i :
  words_ok ws → 0 ≤ i < 64 * Z.of_nat n → Z.testbit (den (take n ws)) i = Z.testbit (den ws) i.
Proof.
  intros Hws Hi. rewrite !den_testbit' by (auto with words || lia). f_equal. unfold word_at.
  assert (i / 64 < Z.of_nat n) by (apply Z.div_lt_upper_bound; lia).
  assert (0 ≤ i / 64) by (apply Z.div_pos; lia). by rewrite lookup_take_lt by lia.
Qed.

(** [bms_prev_member] returns the greatest member below [prevbit] (below the
    end of the word array for the start value -1), and -2 when there is none, for
    every [prevbit] within its documented precondition. *)
Theorem bms_prev_member_spec a prevbit :
  bms_wf a → -1 ≤ prevbit ≤ 64 * bms_nwords a →
  let bound := if prevbit =? -1 then 64 * bms_nwords a else prevbit in
  let r := bms_prev_member a prevbit in
  (r = -2 ∧ ∀ x, x < bound → ¬ bms_in x a) ∨
  (0 ≤ r < bound ∧ bms_in r a ∧ ∀ x, r < x < bound → ¬ bms_in x a).
Proof.
  intros Hwf Hp bound. unfold bms_in. destruct a as [ws|]; cbn [bms_prev_member bms_set bms_nwords] in *.
  2:{ left. split; [done|]. intros x _. by rewrite Z.testbit_0_l. }
  destruct Hwf as [Hws Hne]. pose proof (proj1 (nwords_nonempty ws) Hne) as Hn.
  destruct (Z.eqb_spec prevbit 0) as [->|Hnz].
  { left. split; [done|]. intros x Hx. unfold bound in Hx. simpl in Hx.
    by rewrite Z.testbit_neg_r. }
  unfold BITS_PER_BITMAPWORD. replace (nwords ws * 64) with (64 * nwords ws) by lia.
  set (q := if prevbit =? -1 then 64 * nwords ws - 1 else prevbit - 1).
  assert (q = bound - 1 ∧ 0 ≤ q < 64 * nwords ws) as [Hqb Hq].
  { unfold q, bound. destruct (Z.eqb_spec prevbit (-1)); lia. }
  rewrite WORDNUM_div, BITNUM_mod by lia. pose proof (Z.div_mod q 64 ltac:(lia)) as Hdm.
  pose proof (Z.mod_pos_bound q 64 ltac:(lia)) as Hm.
  assert (0 ≤ q / 64 < nwords ws) as Hqd by lia. set (n := Z.to_nat (q / 64 + 1)).
  assert (nwords (take n ws) = q / 64 + 1) as Hlen.
  { unfold nwords, n in *. rewrite length_take. lia. }
  pose proof (prev_member_loop_spec (take n ws) (q mod 64) ltac:(auto with words)) as Hspec.
  rewrite Hlen in Hspec. replace (q / 64 + 1 - 1) with (q / 64) in Hspec by lia.
  replace (64 * (q / 64) + q mod 64) with q in Hspec by lia.
  assert (∀ i, 0 ≤ i ≤ q → Z.testbit (den (take n ws)) i = Z.testbit (den ws) i) as Htake.
  { intros i Hi. apply den_take_testbit; [done|]. unfold n. lia. }
  destruct Hspec as [[-> Hno]|(Hr&Hb&Hno)]; [|done|left|right].
  - intros E. rewrite E in Hlen. unfold nwords in Hlen. simpl in Hlen. lia.
  - split; [done|]. intros x Hx. destruct (Z.lt_ge_cases x 0); [by rewrite Z.testbit_neg_r|].
    rewrite <-Htake by lia. by rewrite Hno by lia.
  - split; [lia|]. rewrite Htake in Hb by lia. split; [done|]. intros x Hx.
    rewrite <-Htake by lia. by rewrite Hno by lia.
Qed.

(** ** Hashing *)

Lemma equal_den_pad ss ls :
  words_ok ss → words_ok ls → (length ss ≤ length ls)%nat → den ss = den ls →
  ls = ss ++ replicate (length ls - length ss) 0.
Proof.
  intros Hss. revert ls. induction Hss as [|s ss Hs Hss IH]; intros ls Hls Hlen Hden.
  { simpl. rewrite Nat.sub_0_r. clear Hlen. simpl in Hden. symmetry in Hden.
    induction ls as [|l ls IH]; [done|]. apply den_cons_zero in Hden as [-> Hden]; [|done].
    simpl. f_equal. apply IH; [|done]. by apply words_ok_cons in Hls as [_ ?]. }
  destruct Hls as [|l ls Hl Hls]; [simpl in Hlen; lia|].
  rewrite !den_cons_add in Hden by done. unfold is_word in *.
  pose proof (den_nonneg ss Hss). pose proof (den_nonneg ls Hls).
  assert (s = l) as -> by lia. simpl. f_equal. apply IH; [done|simpl in Hlen; lia|lia].
Qed.

Lemma strip_zero_words_pad n ws : strip_zero_words (replicate n 0 ++ ws) = strip_zero_words ws.
Proof. by induction n. Qed.

Lemma hash_value_pad h ws n :
  bms_hash_value h (Some (ws ++ replicate n 0)) = bms_hash_value h (Some ws).
Proof. cbn [bms_hash_value]. by rewrite reverse_app, reverse_replicate, strip_zero_words_pad. Qed.

Lemma hash_value_empty h ws : words_ok ws → den ws = 0 → bms_hash_value h (Some ws) = 0.
Proof.
  intros Hws Hz. rewrite (equal_den_pad [] ws) by (done || constructor || simpl; lia).
  rewrite hash_value_pad. done.
Qed.

(** Sets that [bms_equal] reports equal have the same hash value, whatever the
    byte hash function is: trailing zero words do not reach it. *)
Theorem bms_hash_respects_equal hash_any a b :
  bms_wf a → bms_wf b → bms_equal a b = true →
  bms_hash_value hash_any a = bms_hash_value hash_any b.
Proof.
  intros Ha Hb Heq. rewrite bms_equal_eq, Z.eqb_eq in Heq by done.
  destruct a as [wa|], b as [wb|]; simpl in Heq.
  - destruct Ha as [Ha _], Hb as [Hb _]. destruct (Nat.le_ge_cases (length wa) (length wb)).
    + rewrite (equal_den_pad wa wb) by done. by rewrite hash_value_pad.
    + rewrite (equal_den_pad wb wa) by done. by rewrite hash_value_pad.
  - destruct Ha. by apply hash_value_empty.
  - destruct Hb. symmetry. by apply hash_value_empty.
  - done.
Qed.

(** Growing a set with [bms_resize] keeps its members and makes room for every
    member below [64 * wc], which is what [bms_covers_member] reports; the overlap
    test against an integer list is membership of some listed element. *)
Theorem bms_storage_spec a wc xs :
  bms_wf a → 0 < wc → Forall (λ x, 0 ≤ x) xs →
  bms_wf (bms_resize a wc) ∧ bms_set (bms_resize a wc) = bms_set a ∧
  (∀ x, 0 ≤ x < 64 * wc → bms_covers_member (bms_resize a wc) x = Ok true) ∧
  bms_overlap_list a xs = Ok (existsb (Z.testbit (bms_set a)) xs).
Proof.
  intros Hwf Hwc Hxs. destruct (range_words a wc Hwf Hwc) as (Hok&Hlen&Hden).
  assert (bms_resize a wc = Some (match a with
      | None => replicate (Z.to_nat wc) 0
      | Some ws => if nwords ws <=? wc - 1 then enlarge ws wc else ws end)) as ->.
  { destruct a as [ws|]; [|done]. simpl.
    destruct (Z.leb_spec wc (nwords ws)), (Z.leb_spec (nwords ws) (wc - 1)); done || lia. }
  split_and!.
  - split; [done|]. apply nwords_nonempty. lia.
  - done.
  - intros x Hx. unfold bms_covers_member. rewrite (proj2 (Z.ltb_ge x 0)), WORDNUM_div by lia.
    f_equal. apply Z.ltb_lt. assert (x / 64 < wc) by (apply Z.div_lt_upper_bound; lia). lia.
  - destruct a as [ws|]; [|simpl; f_equal; symmetry; induction xs; [done|]; simpl;
      rewrite Z.testbit_0_l; by apply IHxs; inversion Hxs].
    destruct Hwf as [Hws _]. assert (bms_overlap_list (Some ws) xs = overlap_list_loop ws xs) as ->
      by (by destruct xs). clear -Hws Hxs.
    induction Hxs as [|x xs Hx Hxs IH]; [done|]. cbn [overlap_list_loop existsb bms_set].
    rewrite (proj2 (Z.ltb_ge x 0)) by done. rewrite test_bit_word by (by apply bitnum_range).
    rewrite WORDNUM_div, BITNUM_mod, IH, den_testbit by done.
    replace (x / 64 <? nwords ws) with (x <? 64 * nwords ws); [by destruct (_ && _)|].
    pose proof (Z.div_mod x 64 ltac:(lia)). pose proof (Z.mod_pos_bound x 64 ltac:(lia)).
    split_cmp; done.
Qed.

(** ** Witnesses: the theorems at concrete sets *)

Definition ex_a : Bitmapset := Some [5; 2 ^ 63].
Definition ex_b : Bitmapset := Some [4].

Lemma ex_a_wf : bms_wf ex_a.
Proof. repeat constructor; done. Defined.
Lemma ex_b_wf : bms_wf ex_b.
Proof. repeat constructor; done. Defined.

Example bms_set_algebra_witness :
  bms_set (bms_union ex_a ex_b) = Z.lor (bms_set ex_a) (bms_set ex_b) ∧
  bms_elements (bms_union ex_a ex_b) = [0; 2; 127] ∧
  bms_elements (bms_intersect ex_a ex_b) = [2] ∧
  bms_elements (bms_difference ex_a ex_b) = [0; 127].
Proof.
  split; [exact (proj1 (proj1 (bms_set_algebra ex_a ex_b ex_a_wf ex_b_wf)))|].
  vm_compute. auto.
Defined.

Example bms_point_operations_witness :
  bms_is_member 127 ex_a = Ok true ∧ bms_add_member ex_b 200 = Ok (Some [4; 0; 0; 256]).
Proof.
  split; [|reflexivity].
  exact (proj1 (proj2 (bms_point_operations ex_a 127 ex_a_wf) ltac:(lia))).
Defined.

Example bms_add_range_witness :
  ∃ a', bms_add_range ex_b 60 130 = Ok a' ∧ bms_wf a' ∧
    ∀ i, 0 ≤ i → Z.testbit (bms_set a') i =
      Z.testbit (bms_set ex_b) i || (60 <=? i) && (i <=? 130).
Proof. exact (proj2 (proj2 (bms_add_range_spec ex_b 60 130 ex_b_wf)) ltac:(lia)). Defined.

Example bms_tests_decide_witness :
  bms_is_subset ex_b ex_a = true ∧ ∀ x, bms_in x ex_b → bms_in x ex_a.
Proof.
  split; [reflexivity|].
  by apply (proj1 (proj1 (proj2 (proj2 (bms_tests_decide ex_b ex_a ex_b_wf ex_a_wf))))).
Defined.

Example bms_subset_compare_witness : bms_subset_compare ex_a ex_b = BMS_SUBSET2.
Proof. rewrite (bms_subset_compare_spec ex_a ex_b ex_a_wf ex_b_wf). reflexivity. Defined.

Example bms_compare_witness : bms_compare ex_a ex_b = 1.
Proof. rewrite (bms_compare_spec ex_a ex_b ex_a_wf ex_b_wf). reflexivity. Defined.


Example bms_counting_witness :
  bms_num_members ex_a = 3 ∧
  ∃ i, bms_member_index ex_a 127 = Ok i ∧
    (bms_in 127 ex_a → 0 ≤ i ∧ bms_elements ex_a !! Z.to_nat i = Some 127) ∧
    (¬ bms_in 127 ex_a → i = -1).
Proof.
  destruct (bms_counting ex_a 127 ex_a_wf ltac:(lia)) as [H1 H2]. rewrite H1.
  split; [reflexivity|exact H2].
Defined.

Example bms_singleton_witness : bms_singleton_member ex_b = Ok 2.
Proof. rewrite (proj1 (proj2 (bms_singleton_spec ex_b ex_b_wf))). reflexivity. Defined.

Example bms_first_member_witness : bms_wf (snd (bms_first_member ex_a)) ∧ fst (bms_first_member ex_a) = 0.
Proof.
  pose proof (bms_first_member_spec ex_a ex_a_wf) as H. split; [exact (proj1 H)|reflexivity].
Defined.

Example bms_prev_member_witness :
  bms_prev_member ex_a 127 = 2 ∧ bms_in 2 ex_a.
Proof.
  assert (bms_prev_member ex_a 127 = 2) as E by reflexivity. split; [exact E|].
  destruct (bms_prev_member_spec ex_a 127 ex_a_wf) as [[H _]|[_ [H _]]].
  - unfold bms_nwords, nwords, ex_a. simpl. lia.
  - rewrite E in H. discriminate H.
  - rewrite E in H. exact H.
Defined.

Definition ex_hash (l : list Z) : Z := foldr Z.add 7 l.
Example bms_hash_witness :
  bms_hash_value ex_hash (Some [4; 0; 0]) = bms_hash_value ex_hash ex_b.
Proof.
  apply (bms_hash_respects_equal ex_hash (Some [4; 0; 0]) ex_b); [|exact ex_b_wf|reflexivity].
  repeat constructor; done.
Defined.

Example bms_storage_witness : bms_covers_member (bms_resize ex_b 3) 190 = Ok true.
Proof.
  apply (proj1 (proj2 (proj2 (bms_storage_spec ex_b 3 [] ex_b_wf ltac:(lia) (Forall_nil_2 _))))).
  lia.
Defined.
