(* ===== verification/CLib.v ===== *)
(** * The C library text functions the sources use

    [strstr], [strncmp], [snprintf]'s size limit, and the conversions [%s], [%c],
    [%d] and [%X] of [sscanf].  C strings are Rocq strings without their NUL. *)

From stdpp Require Import pretty.
From S2P Require Import Prelude.

(** the size of a name field, with its terminator *)
Definition NAMEDATALEN : nat := 64.

Definition is_space (c : ascii) : bool :=
  let n := Z.of_nat (nat_of_ascii c) in (n =? 32) || ((9 <=? n) && (n <=? 13)).

Fixpoint strip_spaces (s : string) : string :=
  match s with
  | String c s' => if is_space c then strip_spaces s' else s
  | EmptyString => EmptyString
  end.

(** [Some t]: the needle occurs and [t] is the text from its first occurrence *)
Fixpoint strstr (hay needle : string) : option string :=
  if String.prefix needle hay then Some hay
  else match hay with
       | EmptyString => None
       | String _ hay' => strstr hay' needle
       end.

(** [strncmp(a, b, strlen(b)) == 0] *)
Definition starts_with (a b : string) : bool := String.prefix b a.

(** what [snprintf] leaves in a buffer of [size] bytes *)
Definition snprintf (size : nat) (s : string) : string := String.substring 0 (size - 1) s.

Definition digit_value (c : ascii) : option Z :=
  let n := Z.of_nat (nat_of_ascii c) in
  if (48 <=? n) && (n <=? 57) then Some (n - 48)
  else if (97 <=? n) && (n <=? 102) then Some (n - 87)
  else if (65 <=? n) && (n <=? 70) then Some (n - 55)
  else None.

(** the longest run of digits in base [base]: value, number of digits, rest *)
Fixpoint scan_digits (base acc : Z) (count : nat) (s : string) : Z * nat * string :=
  match s with
  | String c s' =>
      match digit_value c with
      | Some d => if d <? base then scan_digits base (acc * base + d) (S count) s'
                  else (acc, count, s)
      | None => (acc, count, s)
      end
  | EmptyString => (acc, count, s)
  end.

(** the sign and the digits [strtol]/[strtoul] read; [None] when there is no digit *)
Definition scan_number (base : Z) (s : string) : option (Z * string) :=
  let '(neg, s) :=
    match s with
    | String "-" s' => (true, s')
    | String "+" s' => (false, s')
    | _ => (false, s)
    end in
  let s :=
    match s with
    | String "0" (String c (String d s')) =>
        if (base =? 16) && (bool_decide (c = "x"%char) || bool_decide (c = "X"%char))
           && bool_decide (is_Some (digit_value d))
        then String d s' else s
    | _ => s
    end in
  let '(v, count, rest) := scan_digits base 0 0 s in
  if Nat.eqb count 0 then None else Some (if neg then - v else v, rest).

(** conversion directives of a [sscanf] format *)
Inductive scan_dir :=
  | SLit (c : ascii)
  | SSpace
  | SStr
  | SChar
  | SDec
  | SHex.
Inductive scan_val :=
  | VStr (s : string)
  | VChar (c : ascii)
  | VInt (z : Z).

Fixpoint scan_word (s : string) : string * string :=
  match s with
  | String c s' => if is_space c then (EmptyString, s)
                   else let '(w, r) := scan_word s' in (String c w, r)
  | EmptyString => (EmptyString, EmptyString)
  end.

Definition clamp (lo hi z : Z) : Z := Z.max lo (Z.min hi z).

(** the values assigned before the first mismatch *)
Fixpoint sscanf (ds : list scan_dir) (s : string) : list scan_val :=
  match ds with
  | [] => []
  | SLit c :: ds' =>
      match s with
      | String c' s' => if bool_decide (c = c') then sscanf ds' s' else []
      | EmptyString => []
      end
  | SSpace :: ds' => sscanf ds' (strip_spaces s)
  | SStr :: ds' =>
      let '(w, r) := scan_word (strip_spaces s) in
      match w with
      | EmptyString => []
      | _ => VStr w :: sscanf ds' r
      end
  | SChar :: ds' =>
      match s with
      | String c s' => VChar c :: sscanf ds' s'
      | EmptyString => []
      end
  | SDec :: ds' =>
      match scan_number 10 (strip_spaces s) with
      | Some (v, r) => VInt (swrap 32 (clamp (- 2 ^ 63) (2 ^ 63 - 1) v)) :: sscanf ds' r
      | None => []
      end
  | SHex :: ds' =>
      match scan_number 16 (strip_spaces s) with
      | Some (v, r) => VInt (wrap 32 (clamp (- (2 ^ 64 - 1)) (2 ^ 64 - 1) v)) :: sscanf ds' r
      | None => []
      end
  end.

(** a literal stretch of a format; white space in it matches any white space *)
Fixpoint lit (s : string) : list scan_dir :=
  match s with
  | EmptyString => []
  | String c s' => (if is_space c then SSpace else SLit c) :: lit s'
  end.

(** [printf]'s [%d] *)
Definition fmt_d (z : Z) : string := pretty z.
Definition fmt_c (c : ascii) : string := String c EmptyString.

Example sscanf_hex :
  sscanf (lit "at " ++ [SHex; SLit "/"; SHex] ++ lit (String "010" EmptyString)) "at 1A/ff
" = [VInt 26; VInt 255].
Proof. reflexivity. Qed.

Example sscanf_message :
  sscanf ([SStr] ++ lit " dbid=" ++ [SDec] ++ lit " contid=" ++ [SDec])
    ("PROBE dbid=" ++ fmt_d 2 ++ " contid=" ++ fmt_d (-1)) = [VStr "PROBE"; VInt 2; VInt (-1)].
Proof. reflexivity. Qed.

(** ** Printed numbers are scanned back *)

(** scanning in base [base] stops at [s] *)
Definition stops (base : Z) (s : string) : Prop :=
  match s with
  | EmptyString => True
  | String c _ => match digit_value c with Some d => base ≤ d | None => True end
  end.

Lemma scan_digits_stops base acc count s :
  stops base s → scan_digits base acc count s = (acc, count, s).
Proof.
  destruct s as [|c s]; simpl; [done|]. destruct (digit_value c) as [d|]; [|done].
  intros Hd. by rewrite (proj2 (Z.ltb_ge _ _)).
Qed.

Lemma digit_value_pretty x : (x < 10)%N → digit_value (pretty_N_char x) = Some (Z.of_N x).
Proof.
  intros Hx.
  assert (x = 0 ∨ x = 1 ∨ x = 2 ∨ x = 3 ∨ x = 4 ∨ x = 5 ∨ x = 6 ∨ x = 7 ∨ x = 8 ∨ x = 9)%N
    as Hcases by lia. by destruct_or! Hcases; subst.
Qed.

Lemma scan_digits_pretty_go x s :
  ∃ k, (0 < x → 0 < k)%N ∧ ∀ acc count,
    scan_digits 10 acc count (pretty_N_go x s) =
    scan_digits 10 (acc * 10 ^ Z.of_N k + Z.of_N x) (count + N.to_nat k) s.
Proof.
  revert s. induction (N.lt_wf_0 x) as [x _ IH]; intros s.
  destruct (decide (x = 0)%N) as [->|Hx].
  { exists 0%N. split; [done|]. intros acc count. rewrite pretty_N_go_0. f_equal; lia. }
  destruct (IH (x / 10)%N ltac:(apply N.div_lt; lia) (String (pretty_N_char (x mod 10)) s))
    as (k & _ & Hk).
  exists (k + 1)%N. split; [lia|]. intros acc count. rewrite pretty_N_go_step by lia. rewrite Hk.
  cbn [scan_digits]. rewrite digit_value_pretty by (apply N.mod_lt; lia).
  pose proof (N.mod_lt x 10 ltac:(lia)). pose proof (N.div_mod x 10 ltac:(lia)) as Hdm.
  rewrite (proj2 (Z.ltb_lt _ _)) by lia.
  f_equal; [|lia]. rewrite N2Z.inj_add, Z.pow_add_r by lia. nia.
Qed.

Lemma pretty_N_go_app x s t : pretty_N_go x s +:+ t = pretty_N_go x (s +:+ t).
Proof.
  revert s. induction (N.lt_wf_0 x) as [x _ IH]; intros s.
  destruct (decide (x = 0)%N) as [->|Hx]; [by rewrite !pretty_N_go_0|].
  rewrite !(pretty_N_go_step x) by lia. rewrite IH by (apply N.div_lt; lia). done.
Qed.

Lemma scan_digits_pretty (x : N) rest :
  stops 10 rest →
  ∃ k, (0 < k)%nat ∧ scan_digits 10 0 0 (pretty x +:+ rest) = (Z.of_N x, k, rest).
Proof.
  intros Hs. unfold pretty, pretty_N. case_decide as Hx.
  - subst. exists 1%nat. split; [lia|]. by apply (scan_digits_stops 10 0 1).
  - rewrite pretty_N_go_app. destruct (scan_digits_pretty_go x rest) as (k & Hk & Heq).
    exists (N.to_nat k). split; [lia|]. simpl. rewrite Heq, scan_digits_stops by done. f_equal.
Qed.

Lemma pretty_first_char (x : N) rest :
  ∃ d t, pretty x +:+ rest = String (pretty_N_char d) t ∧ (d < 10)%N.
Proof.
  assert (∀ x s, (∃ d t, s = String (pretty_N_char d) t ∧ (d < 10)%N) →
    ∃ d t, pretty_N_go x s = String (pretty_N_char d) t ∧ (d < 10)%N) as Hgo.
  { clear. intros x. induction (N.lt_wf_0 x) as [x _ IH]; intros s Hs.
    destruct (decide (x = 0)%N) as [->|Hx]; [by rewrite pretty_N_go_0|].
    rewrite pretty_N_go_step by lia. apply IH; [apply N.div_lt; lia|].
    do 2 eexists. split; [done|]. apply N.mod_lt. lia. }
  unfold pretty, pretty_N. case_decide as Hx; [by exists 0%N, rest|].
  rewrite pretty_N_go_app, pretty_N_go_step by lia. apply Hgo.
  do 2 eexists. split; [done|]. apply N.mod_lt. lia.
Qed.

Lemma pretty_not_space (x : N) rest : strip_spaces (pretty x +:+ rest) = pretty x +:+ rest.
Proof.
  destruct (pretty_first_char x rest) as (d & t & -> & Hd). simpl.
  assert (is_space (pretty_N_char d) = false) as ->; [|done].
  assert (d = 0 ∨ d = 1 ∨ d = 2 ∨ d = 3 ∨ d = 4 ∨ d = 5 ∨ d = 6 ∨ d = 7 ∨ d = 8 ∨ d = 9)%N
    as Hcases by lia. by destruct_or! Hcases; subst.
Qed.

Lemma scan_number_pretty (x : N) rest :
  stops 10 rest → scan_number 10 (pretty x +:+ rest) = Some (Z.of_N x, rest).
Proof.
  intros Hs. destruct (scan_digits_pretty x rest Hs) as (k & Hk & Hscan).
  unfold scan_number.
  assert ((match pretty x +:+ rest with
    | String "-" s' => (true, s') | String "+" s' => (false, s') | _ => (false, pretty x +:+ rest)
    end) = (false, pretty x +:+ rest)) as ->.
  { destruct (pretty_first_char x rest) as (d & t & -> & Hd).
    assert (d = 0 ∨ d = 1 ∨ d = 2 ∨ d = 3 ∨ d = 4 ∨ d = 5 ∨ d = 6 ∨ d = 7 ∨ d = 8 ∨ d = 9)%N
      as Hcases by lia. by destruct_or! Hcases; subst. }
  replace (match pretty x +:+ rest with
    | String "0" (String c (String d s')) =>
        if (10 =? 16) && (bool_decide (c = "x"%char) || bool_decide (c = "X"%char))
           && bool_decide (is_Some (digit_value d)) then String d s' else pretty x +:+ rest
    | _ => pretty x +:+ rest end) with (pretty x +:+ rest).
  2:{ by repeat case_match. }
  rewrite Hscan. destruct k; [lia|done].
Qed.

(** [%d] of any integer is read back by the [%d] of [sscanf] *)
Lemma scan_fmt_d z rest :
  stops 10 rest →
  scan_number 10 (strip_spaces (fmt_d z +:+ rest)) = Some (z, rest).
Proof.
  intros Hs. unfold fmt_d. destruct z as [|x|x].
  - by apply (scan_number_pretty 0 rest).
  - change (pretty (Zpos x)) with (pretty (Npos x)). rewrite pretty_not_space.
    by rewrite scan_number_pretty.
  - change (pretty (Zneg x)) with ("-" +:+ pretty (Npos x)).
    change (strip_spaces (("-" +:+ pretty (Npos x)) +:+ rest)) with
      (String "-" (pretty (Npos x) +:+ rest)).
    destruct (scan_digits_pretty (Npos x) rest Hs) as (k & Hk & Hscan).
    unfold scan_number.
    replace (match pretty (Npos x) +:+ rest with
      | String "0" (String c (String d s')) =>
          if (10 =? 16) && (bool_decide (c = "x"%char) || bool_decide (c = "X"%char))
             && bool_decide (is_Some (digit_value d)) then String d s' else pretty (Npos x) +:+ rest
      | _ => pretty (Npos x) +:+ rest end) with (pretty (Npos x) +:+ rest)
      by (by repeat case_match).
    rewrite Hscan. by destruct k; [lia|].
Qed.

(** ** Text *)

Lemma string_length_app a b : String.length (a +:+ b) = (String.length a + String.length b)%nat.
Proof. induction a as [|c a IH]; [done|]. simpl. by rewrite IH. Qed.

#[export] Instance string_app_assoc : Assoc (=) String.append.
Proof. intros a b c. induction a as [|x a IH]; [done|]. exact (f_equal (String x) IH). Qed.

Lemma string_app_nil (a : string) : a +:+ EmptyString = a.
Proof. induction a as [|x a IH]; [done|]. exact (f_equal (String x) IH). Qed.

Lemma pretty_N_go_length k x s :
  (x < 10 ^ N.of_nat k)%N → (String.length (pretty_N_go x s) ≤ k + String.length s)%nat.
Proof.
  revert x s. induction k as [|k IH]; intros x s Hx.
  { assert (x = 0%N) as -> by (simpl in Hx; lia). by rewrite pretty_N_go_0. }
  destruct (decide (x = 0%N)) as [->|Hx0]; [rewrite pretty_N_go_0; lia|].
  rewrite pretty_N_go_step by lia.
  rewrite Nat2N.inj_succ, N.pow_succ_r' in Hx.
  specialize (IH (x / 10)%N (String (pretty_N_char (x mod 10)) s)). simpl in IH.
  rewrite IH; [lia|]. apply N.Div0.div_lt_upper_bound. lia.
Qed.

Lemma pretty_pos_length p :
  (N.pos p < 10000000000)%N → (String.length (pretty (N.pos p)) ≤ 10)%nat.
Proof.
  intros Hp. unfold pretty, pretty_N. rewrite decide_False by lia.
  apply (pretty_N_go_length 10 (N.pos p) EmptyString Hp).
Qed.

Lemma fmt_d_length z : - 2 ^ 31 ≤ z < 2 ^ 31 → (String.length (fmt_d z) ≤ 11)%nat.
Proof.
  change (2 ^ 31) with 2147483648. intros Hz. unfold fmt_d. destruct z as [|p|p].
  - change (pretty 0) with "0". cbn [String.length]. lia.
  - change (pretty (Zpos p)) with (pretty (Npos p)).
    pose proof (pretty_pos_length p ltac:(lia)). lia.
  - change (pretty (Zneg p)) with (String "-" (pretty (Npos p))). cbn [String.length].
    pose proof (pretty_pos_length p ltac:(lia)). lia.
Qed.

Lemma sscanf_dec ds z rest :
  stops 10 rest → - 2 ^ 31 ≤ z < 2 ^ 31 →
  sscanf (SDec :: ds) (fmt_d z +:+ rest) = VInt z :: sscanf ds rest.
Proof.
  intros Hs Hz. cbn [sscanf]. rewrite scan_fmt_d by done. f_equal. f_equal.
  unfold clamp. rewrite Z.min_r, Z.max_r by lia. by apply swrap_id.
Qed.

(** text without white space, as [%s] reads it back *)
Fixpoint no_space (s : string) : bool :=
  match s with String c s' => negb (is_space c) && no_space s' | EmptyString => true end.

(** where [%s] stops *)
Definition ends_word (s : string) : Prop :=
  match s with String c _ => is_space c = true | EmptyString => True end.

Lemma strip_word w r :
  no_space w = true → w ≠ EmptyString → strip_spaces (w +:+ r) = w +:+ r.
Proof.
  destruct w as [|c w]; [done|]. simpl. intros [Hc _]%andb_true_iff _.
  by destruct (is_space c).
Qed.

Lemma scan_word_app w r : no_space w = true → ends_word r → scan_word (w +:+ r) = (w, r).
Proof.
  intros Hw Hr. induction w as [|c w IH]; simpl in *.
  - destruct r as [|c r]; [done|]. simpl in *. by rewrite Hr.
  - apply andb_true_iff in Hw as [Hc Hw]. rewrite (IH Hw). by destruct (is_space c).
Qed.

Lemma sscanf_str ds w r :
  no_space w = true → w ≠ EmptyString → ends_word r →
  sscanf (SStr :: ds) (w +:+ r) = VStr w :: sscanf ds r.
Proof.
  intros Hw Hne Hr. cbn [sscanf]. rewrite strip_word, scan_word_app by done. by destruct w.
Qed.

Lemma sscanf_space_char ds c r :
  is_space c = false → sscanf (SSpace :: SChar :: ds) (String " " (String c r)) = VChar c :: sscanf ds r.
Proof. intros Hc. cbn. by rewrite Hc. Qed.

(** ** Integers in memory *)

(** the [n] bytes of an integer in memory *)
Fixpoint le_bytes (n : nat) (z : Z) : list Z :=
  match n with
  | O => []
  | S n => wrap 8 z :: le_bytes n (Z.shiftr z 8)
  end.

(** the unsigned integer whose bytes are given *)
Fixpoint le_value (l : list Z) : Z :=
  match l with
  | [] => 0
  | b :: l' => wrap 8 b + 2 ^ 8 * le_value l'
  end.

Lemma le_bytes_length n z : length (le_bytes n z) = n.
Proof. revert z. induction n; intros z; simpl; auto. Qed.

Lemma le_value_bytes n z : le_value (le_bytes n z) = wrap (8 * Z.of_nat n) z.
Proof.
  revert z. induction n as [|n IH]; intros z; [by unfold wrap; rewrite Z.mod_1_r|].
  cbn [le_bytes le_value]. rewrite IH, Z.shiftr_div_pow2 by lia. unfold wrap.
  rewrite Z.mod_mod by lia.
  replace (8 * Z.of_nat (S n)) with (8 + 8 * Z.of_nat n) by lia.
  rewrite Z.pow_add_r, Z.rem_mul_r by lia. done.
Qed.

(** ** Strings *)

Lemma substring_all n s : (String.length s ≤ n)%nat → String.substring 0 n s = s.
Proof.
  revert n. induction s as [|c s IH]; intros [|n] Hn; simpl in *; try done; [lia|].
  f_equal. apply IH. lia.
Qed.
