(* ===== verification/CdbHash.v ===== *)
(** * Data distribution ([src/backend/cdb/cdbhash.c], [src/backend/cdb/cdblegacyhash.c])

    The segment a row is stored on: the hash functions of the distribution key are
    combined and the result is reduced to a segment number, by jump consistent hashing or,
    for the hash functions of earlier releases, by a remainder.

    A uint32 or uint64 is a [Z] kept in its range by [wrap].  Values in memory are
    little-endian bytes.  The doubles of the jump hash are rational numbers rounded to 53
    significant bits; none of them is subnormal or overflows.  The hash functions of the
    server's types are called through fmgr and are a parameter, as are random() and the
    function OIDs, which the build generates. *)

From S2P Require Import Prelude CLib.

(** ** Doubles *)

(** a positive double, [mant * 2 ^ expo] *)
Record float64 := mkFloat { mant : Z; expo : Z }.

(** [n / d] rounded to the nearest integer, ties to even *)
Definition round_even (n d : Z) : Z :=
  let q := n / d in
  match 2 * (n mod d) ?= d with
  | Lt => q
  | Gt => q + 1
  | Eq => if Z.even q then q else q + 1
  end.

(** [n / d * 2 ^ e] rounded to 53 bits, for [d <= n] *)
Definition round53 (n d e : Z) : float64 :=
  let s := Z.log2 (n / d) - 52 in
  if s <? 0 then mkFloat (round_even (n * 2 ^ (- s)) d) (e + s)
  else mkFloat (round_even n (d * 2 ^ s)) (e + s).

(** the conversion of an integer of at most 53 bits is exact *)
Definition float_of_int (z : Z) : float64 := mkFloat z 0.
Definition fdiv_int (x y : Z) : float64 := round53 x y 0.
Definition fmul (x y : float64) : float64 := round53 (mant x * mant y) 1 (expo x + expo y).
(** conversion to an integer cuts the fraction off *)
Definition int_of_float (x : float64) : Z :=
  if 0 <=? expo x then mant x * 2 ^ expo x else mant x / 2 ^ (- expo x).

(** ** cdbhash.c: reduction to a segment *)

Definition ispowof2 (numsegs : Z) : bool := Z.land numsegs (numsegs - 1) =? 0.

Definition next_key (key : Z) : Z := wrap 64 (key * 2862933555777941757 + 1).
Definition next_jump (key b : Z) : Z :=
  int_of_float (fmul (float_of_int (b + 1)) (fdiv_int (Z.shiftl 1 31) (Z.shiftr key 33 + 1))).

(** None when [fuel] iterations were not enough *)
Fixpoint jump_loop (fuel : nat) (key b j num_segments : Z) : option Z :=
  if j <? num_segments then
    match fuel with
    | O => None
    | S fuel =>
        let key := next_key key in
        jump_loop fuel key j (next_jump key j) num_segments
    end
  else Some b.

Definition jump_consistent_hash (key num_segments : Z) : option Z :=
  jump_loop (Z.to_nat num_segments) key (-1) 0 num_segments.

Inductive CdbHashReduce := REDUCE_LAZYMOD | REDUCE_BITMASK | REDUCE_JUMP_HASH.

Record CdbHash := mkCdbHash {
  hash : Z;
  numsegs : Z;
  reducealg : CdbHashReduce;
  is_legacy_hash : bool;
  natts : nat;
  hashfuncs : list Z;
}.

Definition FASTMOD (x y : Z) : Z := Z.land x (wrap 32 (y - 1)).

Definition cdbhashreduce (h : CdbHash) : option Z :=
  match reducealg h with
  | REDUCE_BITMASK => Some (FASTMOD (hash h) (wrap 32 (numsegs h)))
  | REDUCE_LAZYMOD => Some (hash h mod wrap 32 (numsegs h))
  | REDUCE_JUMP_HASH => jump_consistent_hash (hash h) (numsegs h)
  end.

Definition cdbhashrandomseg (random : Z) (numsegs : Z) : Z := Z.rem random numsegs.

(** ** cdblegacyhash.c *)

Definition FNV1_32_INIT : Z := 0x811c9dc5.
Definition FNV_32_PRIME : Z := 0x01000193.
Definition NULL_VAL : Z := 0xF0F0F0F1.
Definition NAN_VAL : Z := 0xE0E0E0E1.

(** one octet: the multiplication by the prime is done with shifts *)
Definition fnv_octet (hval octet : Z) : Z :=
  let shl n := wrap 32 (Z.shiftl hval n) in
  Z.lxor (wrap 32 (hval + (shl 1 + shl 4 + shl 7 + shl 8 + shl 24))) octet.

Fixpoint fnv1_32_buf (buf : list Z) (hval : Z) : Z :=
  match buf with
  | [] => hval
  | octet :: buf => fnv1_32_buf buf (fnv_octet hval octet)
  end.

(** [stash] is the global magic_hash_stash *)
Definition hashFn (buf : list Z) (stash : Z) : Z := fnv1_32_buf buf stash.

Definition blank : Z := 32.

(** the loop; [data] has at least [len] bytes, and every caller passes a [len] above one *)
Fixpoint ignoreblanks (data : list Z) (len : nat) : nat :=
  match len with
  | S (S n as len') =>
      if bool_decide (data !! len' = Some blank) then
        if bool_decide (n = O) then 1%nat else ignoreblanks data len'
      else len
  | _ => len
  end.

(** *** The hash function of each type

    A by-value integer is passed as a [Z] and converted by its PG_GETARG macro; a float is
    its bit pattern; what is hashed as it lies in memory is a list of bytes. *)

Definition cdblegacyhash_int2 (d : Z) (stash : Z) : Z := hashFn (le_bytes 8 (swrap 16 d)) stash.
Definition cdblegacyhash_int4 (d : Z) (stash : Z) : Z := hashFn (le_bytes 8 (swrap 32 d)) stash.
Definition cdblegacyhash_int8 (d : Z) (stash : Z) : Z := hashFn (le_bytes 8 (swrap 64 d)) stash.

(** the value compares equal to zero: plus or minus zero *)
Definition float4_is_zero (bits : Z) : bool := (bits =? 0) || (bits =? 0x80000000).
Definition float8_is_zero (bits : Z) : bool := (bits =? 0) || (bits =? 0x8000000000000000).
Definition cdblegacyhash_float4 (bits : Z) (stash : Z) : Z :=
  let buf := if float4_is_zero bits then 0 else bits in hashFn (le_bytes 4 buf) stash.
Definition cdblegacyhash_float8 (bits : Z) (stash : Z) : Z :=
  let buf := if float8_is_zero bits then 0 else bits in hashFn (le_bytes 8 buf) stash.

(** [digits] is what numeric_digits and numeric_len delimit *)
Definition cdblegacyhash_numeric (is_nan : bool) (digits : list Z) (stash : Z) : Z :=
  hashFn (if is_nan then le_bytes 4 NAN_VAL else digits) stash.

Definition cdblegacyhash_char (d : Z) (stash : Z) : Z := hashFn (le_bytes 1 d) stash.

Definition cdblegacyhash_text (data : list Z) (stash : Z) : Z :=
  let len := length data in
  let len := if Nat.ltb 1 len then ignoreblanks data len else len in
  hashFn (take len data) stash.
Definition cdblegacyhash_bpchar (data : list Z) (stash : Z) : Z := cdblegacyhash_text data stash.
Definition cdblegacyhash_bytea (data : list Z) (stash : Z) : Z := hashFn data stash.

(** [data] are the NAMEDATALEN bytes of the name *)
Definition cdblegacyhash_name (data : list Z) (stash : Z) : Z :=
  hashFn (take (ignoreblanks data NAMEDATALEN) data) stash.

Definition cdblegacyhash_oid (d : Z) (stash : Z) : Z := hashFn (le_bytes 8 (swrap 32 d)) stash.
(** the block number, as two halves, and the offset number *)
Definition cdblegacyhash_tid (bi_hi bi_lo posid : Z) (stash : Z) : Z :=
  hashFn (le_bytes 2 bi_hi ++ le_bytes 2 bi_lo ++ le_bytes 2 posid) stash.
Definition cdblegacyhash_timestamp (d : Z) (stash : Z) : Z := hashFn (le_bytes 8 d) stash.
Definition cdblegacyhash_timestamptz (d : Z) (stash : Z) : Z := hashFn (le_bytes 8 d) stash.
Definition cdblegacyhash_date (d : Z) (stash : Z) : Z := hashFn (le_bytes 4 d) stash.
Definition cdblegacyhash_time (d : Z) (stash : Z) : Z := hashFn (le_bytes 8 d) stash.
Definition cdblegacyhash_timetz (time zone : Z) (stash : Z) : Z :=
  hashFn (le_bytes 8 time ++ le_bytes 4 zone) stash.

(** the struct is [time], [day], [month]; the length covers a time and one int32 *)
Record Interval := mkInterval { iv_time : Z; iv_day : Z; iv_month : Z }.
Definition interval_bytes (i : Interval) : list Z :=
  le_bytes 8 (iv_time i) ++ le_bytes 4 (iv_day i) ++ le_bytes 4 (iv_month i).
Definition cdblegacyhash_interval (i : Interval) (stash : Z) : Z :=
  hashFn (take (8 + 4) (interval_bytes i)) stash.

(** equality of intervals ([src/backend/utils/adt/timestamp.c]): the span in microseconds, with
    months of 30 days *)
Definition USECS_PER_DAY : Z := 86400000000.
Definition interval_cmp_value (i : Interval) : Z :=
  let dayfraction := Z.rem (iv_time i) USECS_PER_DAY in
  let days := Z.quot (iv_time i) USECS_PER_DAY + iv_month i * 30 + iv_day i in
  dayfraction + days * USECS_PER_DAY.

Record inet_struct := mkInet { inet_family : Z; inet_bits : Z; inet_ipaddr : list Z }.
Definition PGSQL_AF_INET : Z := 2.
Definition PGSQL_AF_INET6 : Z := 3.
Definition inet_getkey (addr : inet_struct) : list Z :=
  let addrsize :=
    if inet_family addr =? PGSQL_AF_INET then 4%nat
    else if inet_family addr =? PGSQL_AF_INET6 then 16%nat
    else 0%nat in
  inet_family addr :: inet_bits addr :: take addrsize (inet_ipaddr addr).
Definition cdblegacyhash_inet (addr : inet_struct) (stash : Z) : Z := hashFn (inet_getkey addr) stash.

Definition cdblegacyhash_macaddr (data : list Z) (stash : Z) : Z := hashFn data stash.
Definition cdblegacyhash_bit (data : list Z) (stash : Z) : Z := hashFn data stash.
Definition cdblegacyhash_bool (b : bool) (stash : Z) : Z := hashFn [Z.b2z b] stash.
Definition cdblegacyhash_array (data : list Z) (stash : Z) : Z := hashFn data stash.
Definition cdblegacyhash_oidvector (values : list Z) (stash : Z) : Z :=
  hashFn (values ≫= le_bytes 4) stash.
Definition cdblegacyhash_cash (d : Z) (stash : Z) : Z := hashFn (le_bytes 8 d) stash.
Definition cdblegacyhash_uuid (data : list Z) (stash : Z) : Z := hashFn data stash.
Definition cdblegacyhash_complex (re im : Z) (stash : Z) : Z :=
  let re := if float8_is_zero re then 0 else re in
  let im := if float8_is_zero im then 0 else im in
  hashFn (le_bytes 8 re ++ le_bytes 8 im) stash.
Definition cdblegacyhash_anyenum (d : Z) (stash : Z) : Z := hashFn (le_bytes 8 (swrap 32 d)) stash.
Definition cdblegacyhash_null (stash : Z) : Z := hashFn (le_bytes 4 NULL_VAL) stash.

(** *** Dispatch *)

Inductive legacy_fn :=
  | F_INT2 | F_INT4 | F_INT8 | F_FLOAT4 | F_FLOAT8 | F_NUMERIC | F_CHAR | F_TEXT | F_BPCHAR
  | F_BYTEA | F_NAME | F_OID | F_TID | F_TIMESTAMP | F_TIMESTAMPTZ | F_DATE | F_TIME | F_TIMETZ
  | F_INTERVAL | F_INET | F_MACADDR | F_BIT | F_BOOL | F_ARRAY | F_OIDVECTOR | F_CASH | F_UUID
  | F_COMPLEX | F_ANYENUM.
Definition legacy_fns : list legacy_fn :=
  [F_INT2; F_INT4; F_INT8; F_FLOAT4; F_FLOAT8; F_NUMERIC; F_CHAR; F_TEXT; F_BPCHAR; F_BYTEA; F_NAME;
   F_OID; F_TID; F_TIMESTAMP; F_TIMESTAMPTZ; F_DATE; F_TIME; F_TIMETZ; F_INTERVAL; F_INET; F_MACADDR;
   F_BIT; F_BOOL; F_ARRAY; F_OIDVECTOR; F_CASH; F_UUID; F_COMPLEX; F_ANYENUM].

Inductive datum :=
  | DInt (d : Z)
  | DBool (b : bool)
  | DFloat (bits : Z)
  | DBytes (data : list Z)
  | DNumeric (is_nan : bool) (digits : list Z)
  | DTid (bi_hi bi_lo posid : Z)
  | DTimeTz (time zone : Z)
  | DInterval (i : Interval)
  | DInet (addr : inet_struct)
  | DOidVector (valid : bool) (values : list Z)
  | DComplex (re im : Z).

(** what a call through fmgr does *)
Inductive fmgr_result := Returns (h : Z) | ReturnsNull | Raises (e : fault).

(** a value of another type than the function's is not passed to it *)
Definition legacy_call (f : legacy_fn) (d : datum) (stash : Z) : fmgr_result :=
  match f, d with
  | F_INT2, DInt d => Returns (cdblegacyhash_int2 d stash)
  | F_INT4, DInt d => Returns (cdblegacyhash_int4 d stash)
  | F_INT8, DInt d => Returns (cdblegacyhash_int8 d stash)
  | F_FLOAT4, DFloat b => Returns (cdblegacyhash_float4 b stash)
  | F_FLOAT8, DFloat b => Returns (cdblegacyhash_float8 b stash)
  | F_NUMERIC, DNumeric nan ds => Returns (cdblegacyhash_numeric nan ds stash)
  | F_CHAR, DInt d => Returns (cdblegacyhash_char d stash)
  | F_TEXT, DBytes l => Returns (cdblegacyhash_text l stash)
  | F_BPCHAR, DBytes l => Returns (cdblegacyhash_bpchar l stash)
  | F_BYTEA, DBytes l => Returns (cdblegacyhash_bytea l stash)
  | F_NAME, DBytes l => Returns (cdblegacyhash_name l stash)
  | F_OID, DInt d => Returns (cdblegacyhash_oid d stash)
  | F_TID, DTid hi lo p => Returns (cdblegacyhash_tid hi lo p stash)
  | F_TIMESTAMP, DInt d => Returns (cdblegacyhash_timestamp d stash)
  | F_TIMESTAMPTZ, DInt d => Returns (cdblegacyhash_timestamptz d stash)
  | F_DATE, DInt d => Returns (cdblegacyhash_date d stash)
  | F_TIME, DInt d => Returns (cdblegacyhash_time d stash)
  | F_TIMETZ, DTimeTz t z => Returns (cdblegacyhash_timetz t z stash)
  | F_INTERVAL, DInterval i => Returns (cdblegacyhash_interval i stash)
  | F_INET, DInet a => Returns (cdblegacyhash_inet a stash)
  | F_MACADDR, DBytes l => Returns (cdblegacyhash_macaddr l stash)
  | F_BIT, DBytes l => Returns (cdblegacyhash_bit l stash)
  | F_BOOL, DBool b => Returns (cdblegacyhash_bool b stash)
  | F_ARRAY, DBytes l => Returns (cdblegacyhash_array l stash)
  | F_OIDVECTOR, DOidVector valid l =>
      if (valid : bool) then Returns (cdblegacyhash_oidvector l stash)
      else Raises (ElogError "array is not a valid oidvector")
  | F_CASH, DInt d => Returns (cdblegacyhash_cash d stash)
  | F_UUID, DBytes l => Returns (cdblegacyhash_uuid l stash)
  | F_COMPLEX, DComplex re im => Returns (cdblegacyhash_complex re im stash)
  | F_ANYENUM, DInt d => Returns (cdblegacyhash_anyenum d stash)
  | _, _ => Raises (ElogError "wrong argument type")
  end.

Section hashing.
(** the OID of each function, and the other functions fmgr can call *)
Context (F_OID : legacy_fn → Z) (call_other : Z → datum → fmgr_result).

Definition legacy_of (funcid : Z) : option legacy_fn :=
  snd <$> list_find (λ f, F_OID f = funcid) legacy_fns.
Definition isLegacyCdbHashFunction (funcid : Z) : bool := bool_decide (is_Some (legacy_of funcid)).

Definition FunctionCallInvoke (funcid : Z) (d : datum) (stash : Z) : fmgr_result :=
  match legacy_of funcid with
  | Some f => legacy_call f d stash
  | None => call_other funcid d
  end.

(** ** cdbhash.c: the hash of a row *)

Definition makeCdbHash (numsegs : Z) (hashfuncs : list Z) : CdbHash :=
  let is_legacy_hash := existsb isLegacyCdbHashFunction hashfuncs in
  mkCdbHash 0 numsegs
    (if is_legacy_hash then if ispowof2 numsegs then REDUCE_BITMASK else REDUCE_LAZYMOD
     else REDUCE_JUMP_HASH)
    is_legacy_hash (length hashfuncs) hashfuncs.

Definition set_hash (v : Z) (h : CdbHash) : CdbHash :=
  mkCdbHash v (numsegs h) (reducealg h) (is_legacy_hash h) (natts h) (hashfuncs h).

Definition cdbhashinit (h : CdbHash) : CdbHash :=
  set_hash (if negb (is_legacy_hash h) then 0 else FNV1_32_INIT) h.

Definition rotate1 (hashkey : Z) : Z :=
  Z.lor (wrap 32 (Z.shiftl hashkey 1)) (if Z.land hashkey 0x80000000 =? 0 then 0 else 1).

(** the call, and an error when it returns NULL *)
Definition call_hash (h : CdbHash) (attno : nat) (d : datum) (stash : Z) : res Z :=
  match hashfuncs h !! (attno - 1)%nat with
  | None => Err (SegFault "hashfuncs")
  | Some funcid =>
      match FunctionCallInvoke funcid d stash with
      | Returns hkey => Ok hkey
      | ReturnsNull => Err (ElogError ("function " ++ fmt_d funcid ++ " returned NULL"))
      | Raises e => Err e
      end
  end.

(** Returns the new hash, or the error, and magic_hash_stash as it is left behind; NULL is
    [None]. *)
Definition cdbhash (h : CdbHash) (attno : nat) (d : option datum) (stash : Z) : res CdbHash * Z :=
  let hashkey := hash h in
  if negb (is_legacy_hash h) then
    let hashkey := rotate1 hashkey in
    match d with
    | None => (Ok (set_hash hashkey h), stash)
    | Some d =>
        match call_hash h attno d stash with
        | Ok hkey => (Ok (set_hash (Z.lxor hashkey hkey) h), stash)
        | Err e => (Err e, stash)
        end
    end
  else
    let stash := hashkey in
    match d with
    | None => (Ok (set_hash (cdblegacyhash_null stash) h), FNV1_32_INIT)
    | Some d =>
        match call_hash h attno d stash with
        | Ok hkey => (Ok (set_hash hkey h), FNV1_32_INIT)
        | Err e => (Err e, stash)
        end
    end.

(** ** nodeMotion.c: the segment of a tuple *)

Fixpoint hash_keys (h : CdbHash) (i : nat) (keyvals : list (option datum)) (stash : Z)
    : res CdbHash * Z :=
  match keyvals with
  | [] => (Ok h, stash)
  | d :: keyvals =>
      match cdbhash h (i + 1) d stash with
      | (Ok h, stash) => hash_keys h (i + 1) keyvals stash
      | (Err e, stash) => (Err e, stash)
      end
  end.

(** [keyvals] are the values of the key expressions; [random] is the next random() *)
Definition evalHashKey (h : CdbHash) (keyvals : list (option datum)) (random stash : Z)
    : res (option Z) * Z :=
  match keyvals with
  | [] => (Ok (Some (cdbhashrandomseg random (numsegs h))), stash)
  | _ =>
      match hash_keys (cdbhashinit h) 0 keyvals stash with
      | (Ok h, stash) => (Ok (cdbhashreduce h), stash)
      | (Err e, stash) => (Err e, stash)
      end
  end.
End hashing.
