(* ===== verification/CdbHashFacts.v ===== *)
(** * Theorems about data distribution

    The jump hash ends and stays inside of the cluster, with its double arithmetic; the
    hash values of all types are 32-bit words; a row has a segment; and what the legacy
    hash functions make of equal values. *)

From S2P Require Import Prelude CLib CdbHash.

(** ** Rounding *)

Lemma round_even_ge n d k : 0 < d → k * d ≤ n → k ≤ round_even n d.
Proof.
  intros Hd Hk. assert (k ≤ n / d) by (apply Z.div_le_lower_bound; lia).
  unfold round_even. repeat case_match; lia.
Qed.

Lemma round_even_le n d k : 0 < d → n ≤ k * d → round_even n d ≤ k.
Proof.
  intros Hd Hk. pose proof (Z.div_mod n d ltac:(lia)). pose proof (Z.mod_pos_bound n d ltac:(lia)).
  assert (n / d ≤ k) by (apply Z.div_le_upper_bound; lia).
  unfold round_even. destruct (Z.compare_spec (2 * (n mod d)) d); [case_match| |]; nia.
Qed.

Lemma round_even_1 n : round_even n 1 = n.
Proof. unfold round_even. by rewrite Z.mod_1_r, Z.div_1_r. Qed.

(** ** The jump hash *)

Section jump.
Context (key b : Z) (Hkey : is_word 64 key) (Hb : 0 ≤ b < 2 ^ 31 - 1).
Let y := Z.shiftr key 33 + 1.
Let e := Z.log2 (2 ^ 31 / y) - 52.
Let m := round_even (2 ^ 31 * 2 ^ (- e)) y.
Let p := (b + 1) * m.
Let s := Z.log2 p - 52.

Lemma divisor_range : 1 ≤ y ≤ 2 ^ 31.
Proof.
  unfold y. rewrite Z.shiftr_div_pow2 by lia. unfold is_word in Hkey.
  assert (0 ≤ key / 2 ^ 33 < 2 ^ 31); [|lia].
  split; [apply Z.div_pos; lia|]. apply Z.div_lt_upper_bound; lia.
Qed.

Lemma quotient_exp : -52 ≤ e ≤ -21.
Proof.
  pose proof divisor_range. unfold e.
  assert (1 ≤ 2 ^ 31 / y) by (apply Z.div_le_lower_bound; lia).
  assert (2 ^ 31 / y ≤ 2 ^ 31) by (apply Z.div_le_upper_bound; nia).
  pose proof (Z.log2_nonneg (2 ^ 31 / y)). pose proof (Z.log2_le_mono (2 ^ 31 / y) (2 ^ 31) ltac:(lia)) as Hl.
  rewrite Z.log2_pow2 in Hl by lia. lia.
Qed.

Lemma quotient_eq : fdiv_int (Z.shiftl 1 31) y = mkFloat m e.
Proof.
  pose proof quotient_exp. unfold fdiv_int, round53. rewrite Z.shiftl_1_l. fold e.
  rewrite (proj2 (Z.ltb_lt _ _)) by lia. by rewrite Z.add_0_l.
Qed.

(** the quotient is between 1 and 2^31 *)
Lemma quotient_range : 2 ^ (- e) ≤ m ≤ 2 ^ 31 * 2 ^ (- e).
Proof.
  pose proof divisor_range. pose proof quotient_exp.
  assert (0 < 2 ^ (- e)) by (apply Z.pow_pos_nonneg; lia).
  split; [apply round_even_ge|apply round_even_le]; nia.
Qed.

Lemma product_pos : 0 < p.
Proof.
  pose proof quotient_range. pose proof quotient_exp.
  assert (0 < 2 ^ (- e)) by (apply Z.pow_pos_nonneg; lia). unfold p. nia.
Qed.

Lemma product_eq :
  fmul (float_of_int (b + 1)) (mkFloat m e) =
  mkFloat (if s <? 0 then p * 2 ^ (- s) else round_even p (2 ^ s)) (e + s).
Proof.
  unfold fmul, round53, float_of_int; simpl. rewrite Z.div_1_r. fold p s.
  destruct (s <? 0); [by rewrite round_even_1|]. by rewrite Z.mul_1_l.
Qed.

Lemma product_le : p ≤ 2 ^ 62 * 2 ^ (- e).
Proof.
  pose proof quotient_range. pose proof quotient_exp.
  assert (0 < 2 ^ (- e)) by (apply Z.pow_pos_nonneg; lia).
  replace (2 ^ 62) with (2 ^ 31 * 2 ^ 31) by lia. unfold p. nia.
Qed.

Lemma product_exp : e + s ≤ 10.
Proof.
  pose proof quotient_exp. pose proof product_pos.
  assert (Z.log2 p ≤ 62 - e); [|unfold s; lia].
  rewrite <-(Z.log2_pow2 (62 - e)) by lia. apply Z.log2_le_mono.
  replace (62 - e) with (62 + - e) by lia. rewrite Z.pow_add_r by lia. apply product_le.
Qed.

(** the mantissa of the product against a power of the exponent *)
Lemma product_large : e + s < 0 →
  (b + 1) * 2 ^ (- (e + s)) ≤ (if s <? 0 then p * 2 ^ (- s) else round_even p (2 ^ s)) ≤ 2 ^ 62 * 2 ^ (- (e + s)).
Proof.
  intros HE. pose proof quotient_exp. pose proof quotient_range. pose proof product_le.
  assert (0 < 2 ^ (- e)) by (apply Z.pow_pos_nonneg; lia).
  assert ((b + 1) * 2 ^ (- e) ≤ p) by (unfold p; nia).
  destruct (Z.ltb_spec s 0).
  - replace (- (e + s)) with (- e + - s) by lia. rewrite Z.pow_add_r by lia.
    assert (0 < 2 ^ (- s)) by (apply Z.pow_pos_nonneg; lia). nia.
  - assert (2 ^ (- e) = 2 ^ (- (e + s)) * 2 ^ s) as Heq by (rewrite <-Z.pow_add_r by lia; f_equal; lia).
    assert (0 < 2 ^ s) by (apply Z.pow_pos_nonneg; lia).
    rewrite Heq in *. split; [apply round_even_ge|apply round_even_le]; nia.
Qed.

Lemma product_huge : 0 ≤ e + s →
  2 ^ 52 ≤ round_even p (2 ^ s) ∧ round_even p (2 ^ s) * 2 ^ (e + s) ≤ 2 ^ 62.
Proof.
  intros HE. pose proof quotient_exp. pose proof product_exp. pose proof product_le. pose proof product_pos.
  assert (0 < 2 ^ s) by (apply Z.pow_pos_nonneg; lia). split.
  - apply round_even_ge; [done|]. rewrite <-Z.pow_add_r by lia.
    replace (52 + s) with (Z.log2 p) by (unfold s; lia). by apply Z.log2_spec.
  - assert (round_even p (2 ^ s) ≤ 2 ^ (62 - (e + s))).
    { apply round_even_le; [done|]. rewrite <-Z.pow_add_r by lia.
      replace (62 - (e + s) + s) with (62 + - e) by lia. by rewrite Z.pow_add_r by lia. }
    assert (2 ^ (62 - (e + s)) * 2 ^ (e + s) = 2 ^ 62) by (rewrite <-Z.pow_add_r by lia; f_equal; lia).
    assert (0 < 2 ^ (e + s)) by (apply Z.pow_pos_nonneg; lia). nia.
Qed.

(** a jump goes forward, and its double fits an int64 *)
Lemma next_jump_range : b < next_jump key b ≤ 2 ^ 62.
Proof.
  pose proof quotient_exp. unfold next_jump. fold y. rewrite quotient_eq, product_eq. unfold int_of_float. cbn [mant expo].
  destruct (Z.leb_spec 0 (e + s)) as [HE|HE].
  - rewrite (proj2 (Z.ltb_ge s 0)) by lia. destruct (product_huge HE) as [Hlo Hhi]. split; [|done].
    assert (0 < 2 ^ (e + s)) by (apply Z.pow_pos_nonneg; lia).
    assert (round_even p (2 ^ s) * 1 ≤ round_even p (2 ^ s) * 2 ^ (e + s)) by (apply Z.mul_le_mono_nonneg_l; lia). lia.
  - pose proof (product_large HE). set (m2 := if s <? 0 then _ else _) in *.
    assert (0 < 2 ^ (- (e + s))) by (apply Z.pow_pos_nonneg; lia). split.
    + assert (b + 1 ≤ m2 / 2 ^ (- (e + s))); [apply Z.div_le_lower_bound; lia|lia].
    + apply Z.div_le_upper_bound; lia.
Qed.
End jump.

Lemma next_key_word key : is_word 64 (next_key key).
Proof. unfold is_word, next_key, wrap. apply Z.mod_pos_bound. lia. Qed.

Lemma jump_loop_total fuel key b j n :
  0 ≤ j → n < 2 ^ 31 → n - j ≤ Z.of_nat fuel → is_Some (jump_loop fuel key b j n).
Proof.
  revert key b j. induction fuel as [|fuel IH]; intros key b j Hj Hn Hf; cbn [jump_loop];
    destruct (Z.ltb_spec j n) as [Hlt|Hge]; try done; [lia|].
  pose proof (next_jump_range (next_key key) j (next_key_word key) ltac:(lia)). apply IH; lia.
Qed.

Lemma jump_loop_result fuel key b j n r :
  0 ≤ j → n < 2 ^ 31 → jump_loop fuel key b j n = Some r → (n ≤ j → r = b) ∧ (j < n → j ≤ r < n).
Proof.
  intros Hj Hn. revert key b j Hj. induction fuel as [|fuel IH]; intros key b j Hj; cbn [jump_loop];
    destruct (Z.ltb_spec j n) as [Hlt|Hge]; try done; try (intros [= <-]; split; lia || done).
  pose proof (next_jump_range (next_key key) j (next_key_word key) ltac:(lia)) as Hjump.
  intros [Hstop Hgo]%IH; [|lia]. split; [lia|]. intros _.
  destruct (Z.lt_ge_cases (next_jump (next_key key) j) n) as [H|H]; [specialize (Hgo H)|specialize (Hstop H)]; lia.
Qed.

(** more segments: the same one, or one of the new ones *)
Lemma jump_loop_grow f1 f2 key b j n n' r r' :
  n ≤ n' → n' < 2 ^ 31 → 0 ≤ j → jump_loop f1 key b j n = Some r → jump_loop f2 key b j n' = Some r' →
  r' = r ∨ n ≤ r'.
Proof.
  intros Hn Hn'. revert f2 key b j. induction f1 as [|f1 IH]; intros f2 key b j Hj H1 H2.
  all: pose proof (jump_loop_result _ _ _ _ _ _ Hj Hn' H2) as [Hstop Hgo].
  all: cbn [jump_loop] in H1; destruct (Z.ltb_spec j n) as [Hlt|Hge]; try done.
  1, 3: injection H1 as <-; destruct (Z.lt_ge_cases j n') as [H|H]; [specialize (Hgo H)|specialize (Hstop H)]; lia.
  destruct f2 as [|f2]; cbn [jump_loop] in H2; rewrite (proj2 (Z.ltb_lt j n')) in H2 by lia; [done|].
  eapply IH; [|done..]. pose proof (next_jump_range (next_key key) j (next_key_word key) ltac:(lia)). lia.
Qed.

Lemma jump_total key n : 0 < n < 2 ^ 31 → ∃ r, jump_consistent_hash key n = Some r ∧ 0 ≤ r < n.
Proof.
  intros Hn. destruct (jump_loop_total (Z.to_nat n) key (-1) 0 n) as [r Hr]; [lia..|].
  exists r. split; [done|]. eapply jump_loop_result in Hr as [_ H]; [apply H|..]; lia.
Qed.

(** ** The remainders *)

Lemma ispowof2_spec n : 0 < n → ispowof2 n = true → n = 2 ^ Z.log2 n.
Proof.
  intros Hn H%Z.eqb_eq. destruct (Z.log2_spec n Hn) as [Hlo Hhi]. pose proof (Z.log2_nonneg n).
  destruct (decide (n = 2 ^ Z.log2 n)) as [|Hne]; [done|].
  assert (Z.testbit n (Z.log2 n) = true) as H1 by (by apply Z.bit_log2).
  assert (Z.log2 (n - 1) = Z.log2 n) as Hl by (apply Z.log2_unique; lia).
  assert (Z.testbit (n - 1) (Z.log2 n) = true) as H2 by (rewrite <-Hl; apply Z.bit_log2; lia).
  assert (Z.testbit (Z.land n (n - 1)) (Z.log2 n) = true) as H3 by (by rewrite Z.land_spec, H1, H2).
  by rewrite H, Z.bits_0 in H3.
Qed.

Lemma FASTMOD_spec x n : 0 < n < 2 ^ 32 → ispowof2 n = true → FASTMOD x n = x mod n.
Proof.
  intros Hn Hp. pose proof (ispowof2_spec n ltac:(lia) Hp) as Heq. pose proof (Z.log2_nonneg n).
  unfold FASTMOD, wrap. rewrite Z.mod_small by lia.
  replace (n - 1) with (Z.ones (Z.log2 n)) by (rewrite Z.ones_equiv, <-Heq; lia).
  rewrite Z.land_ones by done. by rewrite <-Heq.
Qed.

(** every reduction is total and stays inside of the cluster *)
Lemma reduce_spec F_OID n funcs v :
  0 < n < 2 ^ 31 → is_word 32 v →
  ∃ r, cdbhashreduce (set_hash v (makeCdbHash F_OID n funcs)) = Some r ∧ 0 ≤ r < n ∧
    (is_legacy_hash (makeCdbHash F_OID n funcs) = true → r = v mod n).
Proof.
  intros Hn Hv. unfold cdbhashreduce, makeCdbHash; simpl.
  assert (wrap 32 n = n) as Hw by (apply Z.mod_small; lia). rewrite Hw.
  pose proof (Z.mod_pos_bound v n ltac:(lia)).
  destruct (existsb _ funcs); [|destruct (jump_total v n Hn) as (r & -> & Hr); by exists r].
  destruct (ispowof2 n) eqn:Hp; [rewrite FASTMOD_spec by (done || lia)|]; by eexists.
Qed.

(** ** Hash values are 32-bit words *)

Abbreviation bytes := (Forall (is_word 8)).

Lemma wrap_word n z : 0 ≤ n → is_word n (wrap n z).
Proof. intros. unfold wrap. by apply is_word_mod. Qed.

Lemma is_word_lxor n a b : 0 ≤ n → is_word n a → is_word n b → is_word n (Z.lxor a b).
Proof.
  intros Hn Ha Hb. apply is_word_bits; [done|apply Z.lxor_nonneg; unfold is_word in *; lia|].
  intros i Hi. by rewrite Z.lxor_spec, !(testbit_word_high n).
Qed.

Lemma is_word_mono n n' w : n ≤ n' → is_word n w → is_word n' w.
Proof. intros Hn [? ?]. split; [done|]. eapply Z.lt_le_trans; [done|]. apply Z.pow_le_mono_r; lia. Qed.

Lemma fnv_word buf hval : bytes buf → is_word 32 hval → is_word 32 (fnv1_32_buf buf hval).
Proof.
  intros Hbuf. revert hval. induction Hbuf as [|octet buf Ho _ IH]; intros hval Hv; [done|].
  cbn [fnv1_32_buf]. apply IH. apply is_word_lxor; [lia|by apply wrap_word|]. by apply (is_word_mono 8).
Qed.

Lemma le_bytes_ok n z : bytes (le_bytes n z).
Proof. revert z. induction n as [|n IH]; intros z; constructor; [by apply wrap_word|apply IH]. Qed.

(** what lies in memory is bytes *)
Definition datum_ok (d : datum) : Prop :=
  match d with
  | DBytes l | DNumeric _ l => bytes l
  | DInet a => bytes (inet_family a :: inet_bits a :: inet_ipaddr a)
  | _ => True
  end.

Lemma legacy_call_word f d stash h :
  datum_ok d → is_word 32 stash → legacy_call f d stash = Returns h → is_word 32 h.
Proof.
  intros Hd Hs. destruct f, d; simpl in *; try done; try case_match; try done; intros [= <-]; apply fnv_word; try done.
  all: repeat first [apply le_bytes_ok | apply Forall_app_2 | apply Forall_take | done | case_match].
  - unfold inet_getkey. apply Forall_cons in Hd as [? Hd]. apply Forall_cons in Hd as [? Hd].
    apply Forall_cons; split; [done|]. apply Forall_cons; split; [done|]. by apply Forall_take.
  - by destruct b; repeat constructor.
  - apply Forall_bind, Forall_true. intros. apply le_bytes_ok.
Qed.

(** ** The segment of a row *)

Section row.
Context (F_OID : legacy_fn → Z) (call_other : Z → datum → fmgr_result).
Context (Hother : ∀ funcid d h, call_other funcid d = Returns h → is_word 32 h).

(** a hash function of the key raised [e] or returned NULL *)
Definition call_fails (funcs : list Z) (e : fault) : Prop :=
  ∃ funcid d stash, funcid ∈ funcs ∧
    (FunctionCallInvoke F_OID call_other funcid d stash = Raises e ∨
     FunctionCallInvoke F_OID call_other funcid d stash = ReturnsNull ∧
       e = ElogError ("function " ++ fmt_d funcid ++ " returned NULL")).

Lemma call_hash_spec h attno d stash :
  (0 < attno ≤ length (hashfuncs h))%nat → datum_ok d → is_word 32 stash →
  match call_hash F_OID call_other h attno d stash with
  | Ok v => is_word 32 v
  | Err e => call_fails (hashfuncs h) e
  end.
Proof.
  intros Ha Hd Hs. unfold call_hash.
  destruct (lookup_lt_is_Some_2 (hashfuncs h) (attno - 1)) as [funcid Hf]; [lia|]. rewrite Hf.
  apply list_elem_of_lookup_2 in Hf.
  destruct (FunctionCallInvoke F_OID call_other funcid d stash) as [v| |e] eqn:Hcall.
  - unfold FunctionCallInvoke in Hcall. destruct (legacy_of F_OID funcid); [by eapply legacy_call_word|eauto].
  - exists funcid, d, stash. auto.
  - exists funcid, d, stash. auto.
Qed.

Lemma rotate1_word v : is_word 32 (rotate1 v).
Proof. apply is_word_lor; [lia|by apply wrap_word|]. by case_match. Qed.

Lemma cdbhash_spec h attno d stash :
  (0 < attno ≤ length (hashfuncs h))%nat → (∀ x, d = Some x → datum_ok x) → is_word 32 (hash h) →
  is_word 32 stash →
  match cdbhash F_OID call_other h attno d stash with
  | (Ok h', stash') => ∃ v, h' = set_hash v h ∧ is_word 32 v ∧
      stash' = if is_legacy_hash h then FNV1_32_INIT else stash
  | (Err e, _) => call_fails (hashfuncs h) e
  end.
Proof.
  intros Ha Hd Hh Hs. unfold cdbhash. destruct (is_legacy_hash h) eqn:Hl; cbn [negb]; destruct d as [d|].
  - pose proof (call_hash_spec h attno d (hash h) Ha (Hd d eq_refl) Hh) as H.
    destruct (call_hash _ _ _ _ _ _) as [v|e]; [by exists v|done].
  - eexists. split_and!; [done| |done]. apply fnv_word; [apply le_bytes_ok|done].
  - pose proof (call_hash_spec h attno d stash Ha (Hd d eq_refl) Hs) as H.
    destruct (call_hash _ _ _ _ _ _) as [v|e]; [|done]. eexists. split_and!; [done| |done].
    apply is_word_lxor; [lia|apply rotate1_word|done].
  - eexists. split_and!; [done|apply rotate1_word|done].
Qed.

Lemma hash_keys_spec h i keyvals stash :
  (i + length keyvals ≤ length (hashfuncs h))%nat → Forall (λ d, ∀ x, d = Some x → datum_ok x) keyvals →
  is_word 32 (hash h) → is_word 32 stash →
  match hash_keys F_OID call_other h i keyvals stash with
  | (Ok h', stash') => ∃ v, h' = set_hash v h ∧ is_word 32 v ∧
      (keyvals ≠ [] → stash' = if is_legacy_hash h then FNV1_32_INIT else stash)
  | (Err e, _) => call_fails (hashfuncs h) e
  end.
Proof.
  intros Hlen Hok. revert h i stash Hlen. induction Hok as [|d keyvals Hd _ IH]; intros h i stash Hlen Hh Hs.
  { exists (hash h). by destruct h. }
  cbn [hash_keys length] in *. pose proof (cdbhash_spec h (i + 1) d stash ltac:(lia) Hd Hh Hs) as H.
  destruct (cdbhash _ _ h (i + 1) d stash) as [[h1|e] stash1]; [|done]. destruct H as (v & -> & Hv & ->).
  assert (is_word 32 (if is_legacy_hash h then FNV1_32_INIT else stash)) as Hs1 by (by case_match).
  specialize (IH (set_hash v h) (i + 1)%nat _ ltac:(simpl; lia) Hv Hs1).
  destruct (hash_keys _ _ (set_hash v h) (i + 1) keyvals _) as [[h2|e] stash2] eqn:Hk; [|done].
  destruct IH as (v2 & -> & Hv2 & Hst). exists v2. split_and!; [done..|]. intros _.
  destruct keyvals as [|d2 keyvals]; [by injection Hk as _ <-|]. rewrite (Hst ltac:(done)). simpl.
  by destruct (is_legacy_hash h).
Qed.
End row.

(** ** The theorems *)

(** C35: Every row has a segment of the cluster.  For a hash made by makeCdbHash for n
    segments, evalHashKey ends with a segment number in 0 .. n-1 whatever the key values
    are, for the jump hash (whose double arithmetic and loop are covered) and for both
    remainders, or with the error of one of the hash functions.  When it succeeds,
    magic_hash_stash has its initial value again if it had it before. *)
Theorem row_segment_in_range F_OID call_other n funcs keyvals random stash :
  0 < n < 2 ^ 31 → (length keyvals ≤ length funcs)%nat →
  Forall (λ d, ∀ x, d = Some x → datum_ok x) keyvals →
  (∀ funcid d h, call_other funcid d = Returns h → is_word 32 h) → is_word 32 stash → 0 ≤ random →
  match evalHashKey F_OID call_other (makeCdbHash F_OID n funcs) keyvals random stash with
  | (Ok seg, stash') =>
      (∃ s, seg = Some s ∧ 0 ≤ s < n) ∧ (stash = FNV1_32_INIT → stash' = FNV1_32_INIT)
  | (Err e, _) => call_fails F_OID call_other funcs e
  end.
Proof.
  intros Hn Hlen Hok Hother Hs Hrand. unfold evalHashKey. destruct keyvals as [|d keyvals].
  { split; [|done]. eexists. split; [done|]. unfold cdbhashrandomseg; simpl.
    rewrite Z.rem_mod_nonneg by lia. apply Z.mod_pos_bound. lia. }
  set (h := cdbhashinit (makeCdbHash F_OID n funcs)).
  assert (is_word 32 (hash h)) as Hh by (unfold h, cdbhashinit; simpl; by case_match).
  pose proof (hash_keys_spec F_OID call_other Hother h 0 (d :: keyvals) stash Hlen Hok Hh Hs) as H.
  destruct (hash_keys _ _ h 0 (d :: keyvals) stash) as [[h'|e] stash']; [|done].
  destruct H as (v & -> & Hv & Hst). split.
  - destruct (reduce_spec F_OID n funcs v Hn Hv) as (r & Hr & Hrange & _). by exists r.
  - intros ->. rewrite (Hst ltac:(done)). by case_match.
Qed.

Lemma row_segment_in_range_witness :
  let F := λ f, Z.of_nat (match f with F_INT4 => 1 | F_TEXT => 2 | _ => 3 end) in
  match evalHashKey F (λ _ _, ReturnsNull) (makeCdbHash F 6 [1; 2]) [Some (DInt (-7)); Some (DBytes [104; 105; 32])]
          0 FNV1_32_INIT with
  | (Ok (Some s), stash') => 0 ≤ s < 6 ∧ stash' = FNV1_32_INIT
  | _ => False
  end.
Proof.
  intros F.
  pose proof (row_segment_in_range F (λ _ _, ReturnsNull) 6 [1; 2]
    [Some (DInt (-7)); Some (DBytes [104; 105; 32])] 0 FNV1_32_INIT ltac:(lia) ltac:(simpl; lia)) as H.
  assert (Forall (λ d, ∀ x, d = Some x → datum_ok x) [Some (DInt (-7)); Some (DBytes [104; 105; 32])]) as Hok.
  { repeat constructor; intros x [= <-]; repeat constructor; done. }
  specialize (H Hok ltac:(done) ltac:(done) ltac:(lia)).
  remember (evalHashKey _ _ _ _ _ _) as r eqn:Hr. vm_compute in Hr. subst r.
  destruct H as [(s & [= <-] & Hs) Hst]. split; [exact Hs|by apply Hst].
Defined.

(** C36: The jump hash moves as little data as possible.  For any hash value, growing the
    cluster from n to n' segments leaves the row on its segment or moves it to one of the
    new segments n .. n'-1; no row moves between segments that existed before. *)
Theorem jump_hash_expansion key n n' :
  0 < n ≤ n' → n' < 2 ^ 31 →
  ∃ r r', jump_consistent_hash key n = Some r ∧ jump_consistent_hash key n' = Some r' ∧
    0 ≤ r < n ∧ 0 ≤ r' < n' ∧ (r' = r ∨ n ≤ r').
Proof.
  intros Hn Hn'. destruct (jump_total key n ltac:(lia)) as (r & Hr & ?).
  destruct (jump_total key n' ltac:(lia)) as (r' & Hr' & ?). exists r, r'. split_and!; try done; try lia.
  eapply (jump_loop_grow _ _ _ _ 0); [| | |apply Hr|apply Hr']; lia.
Qed.

Lemma jump_hash_expansion_witness :
  ∃ r r', jump_consistent_hash 123456789 4 = Some r ∧ jump_consistent_hash 123456789 9 = Some r' ∧
    0 ≤ r < 4 ∧ 0 ≤ r' < 9 ∧ (r' = r ∨ 4 ≤ r').
Proof. apply (jump_hash_expansion 123456789 4 9); lia. Defined.

(** ** The legacy hash functions *)

(** one FNV step with the multiplication by the prime instead of shifts and additions *)
Definition fnv_step (hval octet : Z) : Z := Z.lxor (wrap 32 (hval * FNV_32_PRIME)) octet.

Lemma mod_summand a b c m : (a + b mod m + c) mod m = (a + (b + c)) mod m.
Proof.
  rewrite <-Z.add_assoc, (Z.add_comm a), <-Z.add_assoc, Zplus_mod_idemp_l. f_equal. lia.
Qed.

Lemma fnv_octet_step hval octet : fnv_octet hval octet = fnv_step hval octet.
Proof.
  unfold fnv_octet, fnv_step, wrap. f_equal. rewrite !Z.shiftl_mul_pow2 by lia.
  generalize (2 ^ 32). intros M. rewrite !Z.add_assoc, Zplus_mod_idemp_r.
  do 4 rewrite mod_summand. f_equal. unfold FNV_32_PRIME. lia.
Qed.

Lemma fnv1_32_buf_foldl buf hval : fnv1_32_buf buf hval = foldl fnv_step hval buf.
Proof. revert hval. induction buf as [|o buf IH]; intros hval; [done|]. simpl. by rewrite IH, fnv_octet_step. Qed.

Lemma ignoreblanks_le data len : (ignoreblanks data len ≤ len)%nat.
Proof. induction len as [|[|len] IH]; [done..|]. cbn [ignoreblanks] in *. repeat case_match; lia. Qed.

(** only the first [len] bytes are looked at *)
Lemma ignoreblanks_app data data' len :
  (len ≤ length data)%nat → ignoreblanks (data ++ data') len = ignoreblanks data len.
Proof.
  induction len as [|[|len] IH]; [done..|]. intros Hlen. cbn [ignoreblanks] in *.
  rewrite lookup_app_l by lia. by rewrite IH by lia.
Qed.

Lemma text_trailing_blank data stash :
  data ≠ [] → cdblegacyhash_text (data ++ [blank]) stash = cdblegacyhash_text data stash.
Proof.
  intros Hne. unfold cdblegacyhash_text. f_equal. rewrite length_app, Nat.add_1_r.
  destruct data as [|x [|y data]]; [done|done|]. set (l := x :: y :: data).
  change (length l) with (S (S (length data))). cbn [Nat.ltb Nat.leb].
  assert (ignoreblanks (l ++ [blank]) (S (S (S (length data)))) = ignoreblanks l (S (S (length data)))) as ->.
  { rewrite <-(ignoreblanks_app l [blank]) by (simpl; lia). cbn [ignoreblanks].
    rewrite bool_decide_true; [done|]. by apply (list_lookup_middle l [] blank). }
  apply take_app_le. etransitivity; [apply ignoreblanks_le|done].
Qed.


Lemma interval_hashed_bytes i : take (8 + 4) (interval_bytes i) = le_bytes 8 (iv_time i) ++ le_bytes 4 (iv_day i).
Proof. unfold interval_bytes. rewrite app_assoc. apply take_app_length'. by rewrite length_app, !le_bytes_length. Qed.

(** C38: The legacy hash of intervals does not respect their equality: the month is left out
    of the hashed bytes, so intervals that differ in the month alone collide, and an
    interval of one month and one of thirty days, which compare as equal, have different
    hash values. *)
Theorem legacy_interval_hash_inconsistent :
  (∀ t d m m' stash,
     cdblegacyhash_interval (mkInterval t d m) stash = cdblegacyhash_interval (mkInterval t d m') stash) ∧
  interval_cmp_value (mkInterval 0 0 1) = interval_cmp_value (mkInterval 0 30 0) ∧
  cdblegacyhash_interval (mkInterval 0 0 1) FNV1_32_INIT ≠ cdblegacyhash_interval (mkInterval 0 30 0) FNV1_32_INIT.
Proof.
  split; [intros; unfold cdblegacyhash_interval; by rewrite !interval_hashed_bytes|].
  split; [reflexivity|by vm_compute].
Qed.
