(* ===== verification/Qsort.v ===== *)
(** * pg_qsort ([src/port/qsort.c])

    The array is a list; a read or a swap outside of it is a fault, so that a run
    that returns never left the array.  Positions count elements: the source's
    [pl + es] is [S pl].  An element is swapped as a whole, whichever of the source's
    three ways of copying bytes is taken.  The comparison function is a parameter and
    need not be an order. *)

From S2P Require Import Prelude.

Section qsort.
Context {A : Type} (cmp : A → A → Z).

Definition cmp_at (l : list A) (i j : nat) : res Z :=
  match l !! i, l !! j with
  | Some x, Some y => Ok (cmp x y)
  | _, _ => Err (SegFault "pg_qsort")
  end.

Definition swap (i j : nat) (l : list A) : res (list A) :=
  match l !! i, l !! j with
  | Some x, Some y => Ok (<[j := x]> (<[i := y]> l))
  | _, _ => Err (SegFault "pg_qsort")
  end.

(** [vecswap(a, b, n)]: [n] elements, from the first on *)
Fixpoint vecswap (i j n : nat) (l : list A) : res (list A) :=
  match n with
  | O => Ok l
  | S n => l ← swap i j l; vecswap (S i) (S j) n l
  end.

Definition med3 (l : list A) (a b c : nat) : res nat :=
  ab ← cmp_at l a b;
  bc ← cmp_at l b c;
  if ab <? 0 then
    if bc <? 0 then mret b
    else ac ← cmp_at l a c; mret (if ac <? 0 then c else a)
  else
    if 0 <? bc then mret b
    else ac ← cmp_at l a c; mret (if ac <? 0 then a else c).

(** the inner loop of the insertion sort, from [pl] down *)
Fixpoint sink (pl : nat) (l : list A) : res (list A) :=
  match pl with
  | O => Ok l
  | S pl' =>
      r ← cmp_at l pl' pl;
      if 0 <? r then l ← swap pl pl' l; sink pl' l else Ok l
  end.

(** [k] turns of the outer loop, from [pm] on *)
Fixpoint insertion_sort (k pm : nat) (l : list A) : res (list A) :=
  match k with
  | O => Ok l
  | S k => l ← sink pm l; insertion_sort k (S pm) l
  end.

Fixpoint is_presorted (k pm : nat) (l : list A) : res bool :=
  match k with
  | O => Ok true
  | S k => r ← cmp_at l (pm - 1) pm; if 0 <? r then Ok false else is_presorted k (S pm) l
  end.

Definition choose_pivot (l : list A) : res nat :=
  let n := length l in
  let pm := (n / 2)%nat in
  if (7 <? n)%nat then
    '(pl, pm, pn) ←
      (if (40 <? n)%nat then
         let d := (n / 8)%nat in
         pl ← med3 l 0 d (2 * d);
         pm ← med3 l (pm - d) pm (pm + d);
         pn ← med3 l (n - 1 - 2 * d) (n - 1 - d) (n - 1);
         mret (pl, pm, pn)
       else mret (0%nat, pm, (n - 1)%nat));
    med3 l pl pm pn
  else mret pm.

(** the first inner loop of the partition; [k] elements are left from [pb] to [pc] *)
Fixpoint scan_up (k pa pb : nat) (l : list A) : res (nat * nat * list A) :=
  match k with
  | O => Ok (pa, pb, l)
  | S k =>
      r ← cmp_at l pb 0;
      if r <=? 0 then
        if r =? 0 then l ← swap pa pb l; scan_up k (S pa) (S pb) l
        else scan_up k pa (S pb) l
      else Ok (pa, pb, l)
  end.

(** the second one; [k] elements are left from [pb] to [pc] *)
Fixpoint scan_down (k pc pd : nat) (l : list A) : res (nat * nat * list A) :=
  match k with
  | O => Ok (pc, pd, l)
  | S k =>
      r ← cmp_at l pc 0;
      if 0 <=? r then
        if r =? 0 then l ← swap pc pd l; scan_down k (pc - 1) (pd - 1) l
        else scan_down k (pc - 1) pd l
      else Ok (pc, pd, l)
  end.

(** the loop around them; [fuel] bounds the exchanges *)
Fixpoint partition (fuel pa pb pc pd : nat) (l : list A)
    : res (nat * nat * nat * nat * list A) :=
  '(pa, pb, l) ← scan_up (S pc - pb) pa pb l;
  '(pc, pd, l) ← scan_down (S pc - pb) pc pd l;
  if (pc <? pb)%nat then Ok (pa, pb, pc, pd, l)
  else
    match fuel with
    | O => Err (ElogError "partition: fuel")
    | S fuel => l ← swap pb pc l; partition fuel pa (S pb) (pc - 1) pd l
    end.

(** sort the [n] elements from [a] on, in place *)
Definition sort_range (sort : list A → res (list A)) (a n : nat) (l : list A) : res (list A) :=
  if (1 <? n)%nat then
    s ← sort (take n (drop a l));
    mret (take a l ++ s ++ drop (a + n) l)
  else mret l.

Fixpoint qsort_loop (fuel : nat) (l : list A) : res (list A) :=
  match fuel with
  | O => Err (ElogError "pg_qsort: fuel")
  | S fuel =>
      let n := length l in
      if (n <? 7)%nat then insertion_sort (n - 1) 1 l
      else
        presorted ← is_presorted (n - 1) 1 l;
        if (presorted : bool) then mret l
        else
          pm ← choose_pivot l;
          l ← swap 0 pm l;
          '(pa, pb, pc, pd, l) ← partition n 1 1 (n - 1) (n - 1) l;
          let d1 := Nat.min pa (pb - pa) in
          l ← vecswap 0 (pb - d1) d1 l;
          let d1 := Nat.min (pd - pc) (n - pd - 1) in
          l ← vecswap pb (n - d1) d1 l;
          let d1 := (pb - pa)%nat in
          let d2 := (pd - pc)%nat in
          if (d1 <=? d2)%nat then
            l ← sort_range (qsort_loop fuel) 0 d1 l;
            sort_range (qsort_loop fuel) (n - d2) d2 l
          else
            l ← sort_range (qsort_loop fuel) (n - d2) d2 l;
            sort_range (qsort_loop fuel) 0 d1 l
  end.

(** each partition is shorter than the array, so one more than its length is
    enough fuel *)
Definition pg_qsort (l : list A) : res (list A) := qsort_loop (S (length l)) l.
End qsort.

Example pg_qsort_run :
  pg_qsort Z.sub [5; 3; 9; 1; 5; 5; 2; 8; 0; 7; 5; 4] = Ok [0; 1; 2; 3; 4; 5; 5; 5; 5; 7; 8; 9].
Proof. reflexivity. Qed.
