(* ===== verification/QsortFacts.v ===== *)
(** * pg_qsort sorts

    Run on any array with any comparison function, [pg_qsort] stays inside the array,
    terminates and permutes it; when the comparison is a total preorder the result is
    sorted. *)

From S2P Require Import Prelude Qsort.

(** ** Total correctness of results *)

(** the computation returns, with [Q] *)
Definition returns {A} (m : res A) (Q : A → Prop) : Prop :=
  match m with Ok a => Q a | Err _ => False end.

Lemma returns_bind {A B} (m : res A) (f : A → res B) (R : A → Prop) (Q : B → Prop) :
  returns m R → (∀ a, R a → returns (f a) Q) → returns (m ≫= f) Q.
Proof. destruct m; simpl; [|done]. auto. Qed.

Lemma returns_impl {A} (m : res A) (Q Q' : A → Prop) :
  returns m Q → (∀ a, Q a → Q' a) → returns m Q'.
Proof. destruct m; simpl; [|done]. auto. Qed.

Lemma returns_conj {A} (m : res A) (Q Q' : A → Prop) :
  returns m Q → returns m Q' → returns m (λ a, Q a ∧ Q' a).
Proof. by destruct m; simpl. Qed.

Lemma returns_Ok {A} (m : res A) (Q : A → Prop) : returns m Q → ∃ a, m = Ok a ∧ Q a.
Proof. destruct m; simpl; [eauto|done]. Qed.

(** an order on elements as C's comparison functions give it *)
Record cmp_order {A} (cmp : A → A → Z) : Prop := {
  co_flip : ∀ x y, Z.sgn (cmp y x) = - Z.sgn (cmp x y);
  co_trans : ∀ x y z, cmp x y ≤ 0 → cmp y z ≤ 0 → cmp x z ≤ 0;
}.

Section facts.
Context {A : Type} (cmp : A → A → Z).
Implicit Types (l a b c s t : list A).

Abbreviation le := (λ x y, cmp x y ≤ 0).
Abbreviation sorted := (StronglySorted le).

(** ** Swapping *)

Lemma swap_mid a b c x y :
  swap (length a) (length a + S (length b)) (a ++ x :: b ++ y :: c) = Ok (a ++ y :: b ++ x :: c).
Proof.
  unfold swap. rewrite list_lookup_middle by done.
  rewrite lookup_app_r by lia. replace (length a + S (length b) - length a)%nat with (S (length b)) by lia.
  simpl. rewrite list_lookup_middle by done. f_equal.
  rewrite insert_app_r_alt by lia. rewrite Nat.sub_diag. simpl.
  rewrite insert_app_r_alt by lia. replace (length a + S (length b) - length a)%nat with (S (length b)) by lia.
  simpl. rewrite insert_app_r_alt by lia. by rewrite Nat.sub_diag.
Qed.

Lemma swap_comm i j l : swap i j l = swap j i l.
Proof.
  unfold swap. destruct (l !! i) as [x|] eqn:Hi, (l !! j) as [y|] eqn:Hj; try done. f_equal.
  destruct (decide (i = j)) as [->|]; [congruence|]. by rewrite list_insert_insert_ne.
Qed.

Lemma swap_same i l : (i < length l)%nat → swap i i l = Ok l.
Proof.
  intros [x Hx]%lookup_lt_is_Some. unfold swap. rewrite Hx. f_equal.
  rewrite list_insert_insert_eq. by apply list_insert_id.
Qed.

Lemma swap_perm i j l :
  (i < length l)%nat → (j < length l)%nat → returns (swap i j l) (λ l', l' ≡ₚ l).
Proof.
  assert (∀ i j, (i < j < length l)%nat → returns (swap i j l) (λ l', l' ≡ₚ l)) as Hlt.
  { clear. intros i j Hij.
    destruct (lookup_lt_is_Some_2 l i ltac:(lia)) as [x Hx].
    destruct (list_elem_of_split_length _ _ _ Hx) as (a & l1 & -> & ->).
    destruct (lookup_lt_is_Some_2 l1 (j - S (length a)) ltac:(rewrite length_app in *; simpl in *; lia))
      as [y Hy].
    destruct (list_elem_of_split_length _ _ _ Hy) as (b & c & -> & Hb).
    replace j with (length a + S (length b))%nat by lia. rewrite swap_mid. simpl.
    apply Permutation_app_head. solve_Permutation. }
  intros Hi Hj. destruct (decide (i = j)) as [->|Hne]; [by rewrite swap_same by done; simpl|].
  destruct (decide (i < j)%nat); [by apply Hlt|]. rewrite swap_comm. apply Hlt. lia.
Qed.

Lemma vecswap_mid a b m c d :
  length b = length c →
  vecswap (length a) (length a + length b + length m) (length b) (a ++ b ++ m ++ c ++ d) =
  Ok (a ++ c ++ m ++ b ++ d).
Proof.
  revert a m c. induction b as [|x b IH]; intros a m [|y c] Hlen; try done.
  cbn [length vecswap]. injection Hlen as Hlen.
  replace (length a + S (length b) + length m)%nat with (length a + S (length (b ++ m)))%nat
    by (rewrite length_app; lia).
  replace (a ++ (x :: b) ++ m ++ (y :: c) ++ d) with (a ++ x :: (b ++ m) ++ y :: (c ++ d))
    by (simplify_list_eq; done).
  rewrite swap_mid. cbn [mbind res_bind].
  specialize (IH (a ++ [y]) (m ++ [x]) c Hlen). rewrite !length_app in *. simpl in IH |- *.
  replace (length a + 1)%nat with (S (length a)) in IH by lia.
  replace (S (length a + S (length b + length m)))%nat
    with (S (length a) + length b + (length m + 1))%nat by lia.
  simplify_list_eq. rewrite IH. done.
Qed.

(** moving the last elements of [q] in front of [p], or all of [q] *)
Lemma vecswap_exchange a p q d :
  returns (vecswap (length a) (length a + length p + length q - Nat.min (length p) (length q))
             (Nat.min (length p) (length q)) (a ++ p ++ q ++ d))
    (λ l', ∃ q' p', l' = a ++ q' ++ p' ++ d ∧ q' ≡ₚ q ∧ p' ≡ₚ p).
Proof.
  destruct (decide (length p ≤ length q)%nat) as [Hle|Hlt].
  - rewrite Nat.min_l by done. rewrite <-(take_drop (length q - length p) q).
    set (m := take _ q). set (c := drop _ q).
    assert (length c = length p) as Hc by (unfold c; rewrite length_drop; lia).
    replace (length a + length p + length (m ++ c) - length p)%nat
      with (length a + length p + length m)%nat by (rewrite length_app; lia).
    rewrite <-(assoc_L (++)), vecswap_mid by done. simpl.
    exists (c ++ m), p. split_and!; [by rewrite <-!(assoc_L (++))|solve_Permutation|done].
  - rewrite Nat.min_r by lia. rewrite <-(take_drop (length q) p).
    set (b := take _ p). set (m := drop _ p).
    assert (length b = length q) as Hb by (unfold b; rewrite length_take; lia).
    replace (length a + length (b ++ m) + length q - length q)%nat
      with (length a + length b + length m)%nat by (rewrite length_app; lia).
    rewrite <-Hb, <-(assoc_L (++)), vecswap_mid by done. simpl.
    exists q, (m ++ b). split_and!; [by rewrite <-!(assoc_L (++))|done|solve_Permutation].
Qed.

(** ** Insertion sort *)

Lemma cmp_at_app a b x y :
  cmp_at cmp (a ++ [x] ++ y :: b) (length a) (S (length a)) = Ok (cmp x y).
Proof.
  unfold cmp_at. simpl. rewrite list_lookup_middle by done.
  rewrite lookup_app_r by lia. by replace (S (length a) - length a)%nat with 1%nat by lia.
Qed.

Lemma sorted_snoc s x : sorted s → Forall (λ y, cmp y x ≤ 0) s → sorted (s ++ [x]).
Proof.
  induction 1 as [|y s Hs IH Hy]; intros Hx; [by repeat constructor|].
  apply Forall_cons in Hx as [? ?]. simpl. constructor; [by apply IH|].
  apply Forall_app. by repeat constructor.
Qed.

Lemma sorted_app s t :
  sorted s → sorted t → (∀ x y, x ∈ s → y ∈ t → cmp x y ≤ 0) → sorted (s ++ t).
Proof.
  induction 1 as [|x s Hs IH Hx]; intros Ht Hst; simpl; [done|]. constructor.
  - apply IH; [done|]. intros ????. by apply Hst; [right|].
  - apply Forall_app. split; [done|]. apply Forall_forall. intros y Hy. by apply Hst; [left|].
Qed.

Lemma sorted_unsnoc s x : sorted (s ++ [x]) → sorted s ∧ Forall (λ y, cmp y x ≤ 0) s.
Proof.
  induction s as [|y s IH]; simpl; [by repeat constructor|].
  inversion_clear 1 as [|?? Hs Hy]. destruct (IH Hs). apply Forall_app in Hy as [Hy1 Hy2].
  apply Forall_cons in Hy2 as [Hy2 _]. split; [constructor|apply Forall_cons]; done.
Qed.

Lemma sink_spec s x t :
  returns (sink cmp (length s) (s ++ x :: t))
    (λ l', ∃ s', l' = s' ++ t ∧ s' ≡ₚ s ++ [x] ∧ (cmp_order cmp → sorted s → sorted s')).
Proof.
  revert x t. induction s as [|y s IH] using rev_ind; intros x t.
  { simpl. exists [x]. split_and!; [done..|]. by repeat constructor. }
  rewrite length_app, Nat.add_1_r. cbn [sink]. rewrite <-(assoc_L (++)), cmp_at_app.
  cbn [mbind res_bind]. destruct (Z.ltb_spec 0 (cmp y x)) as [Hlt|Hge].
  - rewrite swap_comm.
    pose proof (swap_mid s [] t y x) as Hsw. simpl in Hsw. rewrite Nat.add_1_r in Hsw.
    simpl. rewrite Hsw. cbn [mbind res_bind]. eapply returns_impl; [apply IH|].
    intros l' (s' & -> & Hp & Hso). exists (s' ++ [y]). rewrite <-(assoc_L (++)).
    split_and!; [done|rewrite Hp; solve_Permutation|].
    intros Ho [Hs Hy]%sorted_unsnoc. apply sorted_snoc; [by apply Hso|].
    rewrite Hp. apply Forall_app. split; [done|]. apply Forall_singleton.
    pose proof (co_flip _ Ho x y). lia.
  - simpl. exists ((s ++ [y]) ++ [x]). rewrite <-!(assoc_L (++)). split_and!; [done..|].
    intros Ho [Hs Hy]%sorted_unsnoc. rewrite (assoc_L (++)). apply sorted_snoc; [by apply sorted_snoc|].
    apply Forall_app. split; [|by apply Forall_singleton]. eapply Forall_impl; [exact Hy|].
    simpl. intros z Hz. by eapply (co_trans _ Ho).
Qed.

(** the array after a sorting step: a permutation, sorted if the comparison is an order *)
Definition sorts l l' : Prop := l' ≡ₚ l ∧ (cmp_order cmp → sorted l').

Lemma insertion_sort_spec s t :
  (cmp_order cmp → sorted s) →
  returns (insertion_sort cmp (length t) (length s) (s ++ t)) (sorts (s ++ t)).
Proof.
  revert s. induction t as [|x t IH]; intros s Hs; simpl.
  { rewrite (right_id_L [] (++)). by split. }
  eapply returns_bind; [apply sink_spec|]. intros l' (s' & -> & Hp & Hso).
  replace (S (length s)) with (length s') by (rewrite Hp, length_app; simpl; lia).
  eapply returns_impl; [apply IH; auto|]. intros l' [Hp' ?]. split; [|done].
  rewrite Hp', Hp. solve_Permutation.
Qed.

Lemma small_sort l : returns (insertion_sort cmp (length l - 1) 1 l) (sorts l).
Proof.
  destruct l as [|x l]; [by split; [|constructor]|].
  replace (length (x :: l) - 1)%nat with (length l) by (simpl; lia).
  apply (insertion_sort_spec [x]). by repeat constructor.
Qed.

Lemma is_presorted_spec s x t :
  returns (is_presorted cmp (length t) (S (length s)) (s ++ x :: t))
    (λ r, r = true → Sorted le (x :: t)).
Proof.
  revert s x. induction t as [|y t IH]; intros s x; simpl; [by repeat constructor|].
  rewrite Nat.sub_0_r, (cmp_at_app s t x y : cmp_at cmp (s ++ x :: y :: t) _ _ = _).
  cbn [mbind res_bind]. destruct (Z.ltb_spec 0 (cmp x y)); [done|].
  specialize (IH (s ++ [x]) y). rewrite length_app, Nat.add_1_r, <-(assoc_L (++)) in IH.
  eapply returns_impl; [exact IH|]. simpl. intros r Hr Hrt. constructor; [by apply Hr|].
  by constructor.
Qed.

(** ** The pivot *)

Lemma cmp_at_in l i j :
  (i < length l)%nat → (j < length l)%nat → returns (cmp_at cmp l i j) (λ _, True).
Proof.
  intros [x Hx]%lookup_lt_is_Some [y Hy]%lookup_lt_is_Some. unfold cmp_at. by rewrite Hx, Hy.
Qed.

Lemma med3_spec l i j k :
  (i < length l)%nat → (j < length l)%nat → (k < length l)%nat →
  returns (med3 cmp l i j k) (λ m, (m < length l)%nat).
Proof.
  intros Hi Hj Hk. unfold med3.
  eapply returns_bind; [by apply cmp_at_in|]. intros ab _.
  eapply returns_bind; [by apply cmp_at_in|]. intros bc _.
  repeat case_match; try done;
    (eapply returns_bind; [by apply cmp_at_in|]; intros ac _; by case_match).
Qed.

Lemma choose_pivot_spec l :
  (7 ≤ length l)%nat → returns (choose_pivot cmp l) (λ m, (m < length l)%nat).
Proof.
  intros Hn. unfold choose_pivot. cbv zeta.
  pose proof (Nat.div_lt (length l) 2 ltac:(lia) ltac:(lia)).
  destruct (Nat.ltb_spec 7 (length l)); [|done].
  eapply (returns_bind _ _ (λ '(pl, pm, pn), pl < length l ∧ pm < length l ∧ pn < length l)%nat).
  - destruct (Nat.ltb_spec 40 (length l)); [|cbv [returns mret res_ret]; lia].
    pose proof (Nat.Div0.mul_div_le (length l) 8).
    pose proof (Nat.Div0.mul_div_le (length l) 2).
    pose proof (Nat.mul_succ_div_gt (length l) 2 ltac:(lia)).
    set (d := (length l / 8)%nat) in *. set (m := (length l / 2)%nat) in *.
    repeat (eapply returns_bind; [apply med3_spec; lia|]; cbv beta; intros ? ?).
    cbv [returns mret res_ret]. lia.
  - intros [[pl pm] pn] (? & ? & ?). by apply med3_spec.
Qed.

(** ** Partitioning around the pivot [v], which stays at the front *)

Section partition.
Context (v : A).
Abbreviation equal := (Forall (λ x, cmp x v = 0)).
Abbreviation less := (Forall (λ x, cmp x v < 0)).
Abbreviation greater := (Forall (λ x, 0 < cmp x v)).

Lemma cmp_at_pivot a x b : cmp_at cmp (v :: a ++ x :: b) (S (length a)) 0 = Ok (cmp x v).
Proof. unfold cmp_at. simpl. by rewrite list_lookup_middle. Qed.

(** exchanging the first of [b] with the element after it, in place when [b] is empty *)
Lemma swap_first a b x c :
  ∃ b', swap (length a) (length a + length b) (a ++ b ++ x :: c) = Ok (a ++ x :: b' ++ c) ∧ b' ≡ₚ b.
Proof.
  destruct b as [|y b]; simpl.
  - exists []. rewrite Nat.add_0_r, swap_same by (rewrite length_app; simpl; lia). done.
  - exists (b ++ [y]). rewrite swap_mid. split; [by rewrite <-(assoc_L (++))|solve_Permutation].
Qed.

Lemma swap_last a x b c :
  ∃ b', swap (length a) (length a + length b) (a ++ x :: b ++ c) = Ok (a ++ b' ++ x :: c) ∧ b' ≡ₚ b.
Proof.
  destruct b as [|y b _] using rev_ind; simpl.
  - exists []. rewrite Nat.add_0_r, swap_same by (rewrite length_app; simpl; lia). done.
  - exists (y :: b). rewrite length_app. simpl.
    replace (length a + (length b + 1))%nat with (length a + S (length b))%nat by lia.
    rewrite <-(assoc_L (++)). simpl. rewrite swap_mid. split; [done|solve_Permutation].
Qed.

Record scanned_up (e lo u r : list A) (res : nat * nat * list A) (e' lo' u' : list A) : Prop := {
  su_res : res = (S (length e'), S (length e' + length lo'), v :: e' ++ lo' ++ u' ++ r);
  su_perm : e' ++ lo' ++ u' ≡ₚ e ++ lo ++ u;
  su_rest : (length u' ≤ length u)%nat;
  su_equal : equal e';
  su_less : less lo';
  su_stop : ∀ x t, u' = x :: t → 0 < cmp x v;
}.

Lemma scan_up_spec e lo u r :
  equal e → less lo →
  returns (scan_up cmp (length u) (S (length e)) (S (length e + length lo)) (v :: e ++ lo ++ u ++ r))
    (λ res, ∃ e' lo' u', scanned_up e lo u r res e' lo' u').
Proof.
  revert e lo. induction u as [|x u IH]; intros e lo He Hlo; simpl.
  { exists e, lo, []. by constructor. }
  pose proof (cmp_at_pivot (e ++ lo) x (u ++ r)) as Hcmp.
  rewrite length_app, <-(assoc_L (++)) in Hcmp. rewrite Hcmp. cbn [mbind res_bind].
  destruct (Z.leb_spec (cmp x v) 0) as [Hle|Hgt].
  2:{ simpl. exists e, lo, (x :: u). by constructor; [..|intros ?? [= <- <-]]. }
  destruct (Z.eqb_spec (cmp x v) 0) as [Heq|Hne].
  - destruct (swap_first (v :: e) lo x (u ++ r)) as (lo' & Hsw & Hp).
    simpl in Hsw. rewrite Hsw. cbn [mbind res_bind].
    specialize (IH (e ++ [x]) lo'). rewrite length_app, <-(assoc_L (++)) in IH. cbn [length app] in IH.
    rewrite <-(Permutation_length Hp).
    replace (length e + 1 + length lo')%nat with (S (length e + length lo')) in IH by lia.
    replace (length e + 1)%nat with (S (length e)) in IH by lia.
    eapply returns_impl; [apply IH; [by apply Forall_app; repeat constructor|by rewrite Hp]|].
    intros res (e' & lo1 & u' & [-> Hp' ? ? ? ?]). exists e', lo1, u'.
    constructor; [done| |simpl; lia|done..].
    rewrite Hp', Hp. solve_Permutation.
  - specialize (IH e (lo ++ [x])). rewrite length_app, <-(assoc_L (++) lo [x]) in IH.
    cbn [length app] in IH.
    replace (length e + (length lo + 1))%nat with (S (length e + length lo)) in IH by lia.
    eapply returns_impl; [apply IH; [done|apply Forall_app; repeat constructor; [done|lia]]|].
    intros res (e' & lo1 & u' & [-> Hp' ? ? ? ?]). exists e', lo1, u'.
    constructor; [done| |simpl; lia|done..].
    rewrite Hp'. solve_Permutation.
Qed.

Record scanned_down (p u g e : list A) (res : nat * nat * list A) (u' g' e' : list A) : Prop := {
  sd_res : res = ((length p + length u')%nat, (length p + length u' + length g')%nat,
                  v :: p ++ u' ++ g' ++ e');
  sd_perm : u' ++ g' ++ e' ≡ₚ u ++ g ++ e;
  sd_rest : u' `prefix_of` u;
  sd_greater : greater g';
  sd_equal : equal e';
  sd_stop : ∀ t x, u' = t ++ [x] → cmp x v < 0;
}.

Lemma scan_down_spec p u g e :
  greater g → equal e →
  returns (scan_down cmp (length u) (length p + length u) (length p + length u + length g)
             (v :: p ++ u ++ g ++ e))
    (λ res, ∃ u' g' e', scanned_down p u g e res u' g' e').
Proof.
  revert g e. induction u as [|x u IH] using rev_ind; intros g e Hg He.
  { simpl. exists [], g, e. constructor; [simpl; repeat f_equal; lia|done..|by intros [] ? ?]. }
  rewrite length_app. simpl. rewrite Nat.add_1_r. cbn [scan_down].
  pose proof (cmp_at_pivot (p ++ u) x (g ++ e)) as Hcmp. rewrite length_app in Hcmp.
  replace (length p + S (length u))%nat with (S (length p + length u)) by lia.
  replace (p ++ (u ++ [x]) ++ g ++ e) with ((p ++ u) ++ x :: g ++ e) by (by simplify_list_eq).
  rewrite Hcmp. cbn [mbind res_bind].
  destruct (Z.leb_spec 0 (cmp x v)) as [Hle|Hgt].
  2:{ simpl. exists (u ++ [x]), g, e. constructor; [|done..|by intros t y [_ [= <-]]%app_inj_2].
      rewrite length_app; simpl. f_equal; [f_equal; lia|by simplify_list_eq]. }
  rewrite Nat.sub_1_r. cbn [Nat.pred Nat.add].
  destruct (Z.eqb_spec (cmp x v) 0) as [Heq|Hne].
  - destruct (swap_last (v :: p ++ u) x g e) as (g' & Hsw & Hp). simpl in Hsw.
    rewrite length_app in Hsw. rewrite Hsw. cbn [mbind res_bind].
    rewrite Nat.sub_1_r. cbn [Nat.pred]. rewrite <-(Permutation_length Hp), <-(assoc_L (++)).
    eapply returns_impl; [apply IH; [by rewrite Hp|by constructor]|].
    intros res (u' & g1 & e' & [-> Hp' ? ? ? ?]). exists u', g1, e'.
    constructor; [done| |by apply prefix_app_r|done..].
    rewrite Hp', Hp. solve_Permutation.
  - specialize (IH (x :: g) e). simpl in IH.
    replace (length p + length u + S (length g))%nat with (S (length p + length u + length g)) in IH by lia.
    rewrite <-(assoc_L (++)). eapply returns_impl; [apply IH; [constructor; [lia|done]|done]|].
    intros res (u' & g1 & e' & [-> Hp' ? ? ? ?]). exists u', g1, e'.
    constructor; [done| |by apply prefix_app_r|done..].
    rewrite Hp'. solve_Permutation.
Qed.
(** the array split as the source's comment-free invariant has it: the pivot and its
    equals, the smaller elements, the greater ones, and the equals found from above *)
Record partitioned l (res : nat * nat * nat * nat * list A) (e lo g e2 : list A) : Prop := {
  pt_res : res = (S (length e), S (length e + length lo), (length e + length lo)%nat,
                  (length e + length lo + length g)%nat, v :: e ++ lo ++ g ++ e2);
  pt_perm : v :: e ++ lo ++ g ++ e2 ≡ₚ l;
  pt_equal : equal e ∧ equal e2;
  pt_less : less lo;
  pt_greater : greater g;
}.

(** one turn of the loop: what is left in the middle starts with a greater and ends
    with a smaller element *)
Record turn (e lo u g e2 e' lo' u' g' e2' : list A) : Prop := {
  tn_perm : e' ++ lo' ++ u' ++ g' ++ e2' ≡ₚ e ++ lo ++ u ++ g ++ e2;
  tn_rest : (length u' ≤ length u)%nat;
  tn_equal : equal e' ∧ equal e2';
  tn_less : less lo';
  tn_greater : greater g';
  tn_ends : u' = [] ∨ ∃ x m y, u' = x :: m ++ [y] ∧ 0 < cmp x v ∧ cmp y v < 0;
}.

Lemma turn_spec {B} (Q : B → Prop) (K : nat → nat → nat → nat → list A → res B) e lo u g e2 :
  equal e → less lo → greater g → equal e2 →
  (∀ e' lo' u' g' e2', turn e lo u g e2 e' lo' u' g' e2' →
     returns (K (S (length e')) (S (length e' + length lo')) (length e' + length lo' + length u')%nat
       (length e' + length lo' + length u' + length g')%nat (v :: e' ++ lo' ++ u' ++ g' ++ e2')) Q) →
  let pc := (length e + length lo + length u)%nat in
  returns ('(pa, pb, l) ← scan_up cmp (S pc - S (length e + length lo)) (S (length e))
             (S (length e + length lo)) (v :: e ++ lo ++ u ++ g ++ e2);
           '(pc, pd, l) ← scan_down cmp (S pc - pb) pc (pc + length g) l;
           K pa pb pc pd l) Q.
Proof.
  intros He Hlo Hg He2 HK pc.
  replace (S pc - S (length e + length lo))%nat with (length u) by (unfold pc; lia).
  eapply returns_bind; [by apply scan_up_spec|]. intros res (e' & lo' & u' & [-> Hp1 Hr1 He' Hlo' Hst]).
  assert (pc = length (e' ++ lo') + length u')%nat as ->.
  { apply Permutation_length in Hp1. unfold pc. rewrite !length_app in *. lia. }
  rewrite length_app.
  replace (S (length e' + length lo' + length u') - S (length e' + length lo'))%nat
    with (length u') by lia.
  rewrite <-length_app, (assoc_L (++) e').
  eapply returns_bind; [by apply scan_down_spec|]. intros res (u1 & g' & e2' & [-> Hp2 Hr2 Hg' He2' Hend]).
  rewrite length_app, <-(assoc_L (++) e'). apply HK.
  constructor; try done; [|by apply prefix_length in Hr2; lia|].
  { rewrite Hp2. trans ((e' ++ lo' ++ u') ++ g ++ e2); [solve_Permutation|].
    rewrite Hp1. solve_Permutation. }
  destruct u1 as [|x u1]; [by left|right]. destruct Hr2 as [t ->]. specialize (Hst _ _ eq_refl).
  destruct u1 as [|y m _] using rev_ind; [by specialize (Hend [] x eq_refl); lia|].
  exists x, m, y. split_and!; [done..|by apply (Hend (x :: m))].
Qed.

Lemma partition_spec fuel e lo u g e2 :
  (length u ≤ fuel)%nat → equal e → less lo → greater g → equal e2 →
  returns (partition cmp fuel (S (length e)) (S (length e + length lo))
             (length e + length lo + length u) (length e + length lo + length u + length g)
             (v :: e ++ lo ++ u ++ g ++ e2))
    (λ res, ∃ e' lo' g' e2', partitioned (v :: e ++ lo ++ u ++ g ++ e2) res e' lo' g' e2').
Proof.
  revert e lo u g e2. induction fuel as [|fuel IH]; intros e lo u g e2 Hfuel He Hlo Hg He2;
    cbn [partition]; apply turn_spec; try done;
    intros e' lo' u' g' e2' [Hp Hr [He' He2'] Hlo' Hg' [->|(x & m & y & -> & Hx & Hy)]];
    simpl in Hr; rewrite ?length_app in Hr; simpl in Hr; try lia; rewrite ?Nat.add_0_r.
  1,2: rewrite (proj2 (Nat.ltb_lt _ _)) by lia; exists e', lo', g', e2';
    constructor; [done|by apply Permutation_cons|done..].
  cbn [length]. rewrite length_app. cbn [length].
  rewrite (proj2 (Nat.ltb_ge _ _)) by lia.
  pose proof (swap_mid (v :: e' ++ lo') m (g' ++ e2') x y) as Hsw. simpl in Hsw.
  rewrite length_app, <-!(assoc_L (++)) in Hsw.
  replace (length e' + length lo' + S (length m + 1))%nat
    with (S (length e' + length lo' + S (length m))) by lia.
  cbn [app]. rewrite <-(assoc_L (++) m). cbn [app]. rewrite Hsw. cbn [mbind res_bind].
  specialize (IH e' (lo' ++ [y]) m (x :: g') e2'). rewrite length_app, <-(assoc_L (++)) in IH.
  cbn [length app] in IH.
  replace (length e' + (length lo' + 1))%nat with (S (length e' + length lo')) in IH by lia.
  replace (S (length e' + length lo' + S (length m)) - 1)%nat
    with (S (length e' + length lo') + length m)%nat by lia.
  replace (S (length e' + length lo' + S (length m)) + length g')%nat
    with (S (length e' + length lo') + length m + S (length g'))%nat by lia.
  eapply returns_impl.
  - apply IH; [lia|done|apply Forall_app; by repeat constructor|by constructor|done].
  - intros res (e1 & lo1 & g1 & e3 & [-> Hp' ? ? ?]). exists e1, lo1, g1, e3.
    constructor; [done| |done..]. rewrite Hp'. apply Permutation_cons; [done|]. rewrite <-Hp.
    solve_Permutation.
Qed.
End partition.

(** ** The sort *)

Lemma sort_range_spec sort a b c :
  ((1 < length b)%nat → returns (sort b) (sorts b)) →
  returns (sort_range sort (length a) (length b) (a ++ b ++ c))
    (λ l', ∃ b', l' = a ++ b' ++ c ∧ sorts b b').
Proof.
  intros Hsort. unfold sort_range. destruct (Nat.ltb_spec 1 (length b)) as [Hlt|Hle].
  - rewrite drop_app_length, !take_app_length. eapply returns_bind; [by apply Hsort|].
    intros b' Hb'. simpl. exists b'. split; [|done].
    by rewrite (assoc_L (++) a b c), <-length_app, drop_app_length.
  - simpl. exists b. split; [done|]. split; [done|]. intros _.
    destruct b as [|x [|y b]]; simpl in *; [by repeat constructor..|lia].
Qed.

Lemma sorted_partition v lo m g :
  cmp_order cmp → Forall (λ x, cmp x v < 0) lo → Forall (λ x, cmp x v = 0) m →
  Forall (λ x, 0 < cmp x v) g → sorted lo → sorted g → sorted (lo ++ m ++ g).
Proof.
  intros Ho Hlo Hm Hg Hslo Hsg. rewrite Forall_forall in Hlo, Hm, Hg.
  assert (∀ x y, cmp x v ≤ 0 → 0 ≤ cmp y v → cmp x y ≤ 0) as Hvia.
  { intros x y Hx Hy. apply (co_trans _ Ho _ v); [done|]. pose proof (co_flip _ Ho v y). lia. }
  apply sorted_app; [done| |].
  - apply sorted_app; [|done|intros x y Hx Hy; specialize (Hm x Hx); specialize (Hg y Hy); apply Hvia; lia].
    clear Hg. induction m as [|x m IH]; constructor.
    + apply IH. intros ??. apply Hm. by right.
    + apply Forall_forall. intros y Hy. apply Hvia; [rewrite Hm by left|rewrite Hm by (by right)]; done.
  - intros x y Hx [Hy|Hy]%elem_of_app; specialize (Hlo x Hx); apply Hvia; try lia;
      [rewrite Hm by done; lia|specialize (Hg y Hy); lia].
Qed.

Lemma sort_both sort v l lo m g :
  Forall (λ x, cmp x v < 0) lo → (cmp_order cmp → Forall (λ x, cmp x v = 0) m) →
  Forall (λ x, 0 < cmp x v) g → lo ++ m ++ g ≡ₚ l →
  (∀ b, (length b < length l)%nat → returns (sort b) (sorts b)) →
  (0 < length m)%nat →
  let n := length l in
  returns
    (if (length lo <=? length g)%nat then
       l ← sort_range sort 0 (length lo) (lo ++ m ++ g); sort_range sort (n - length g) (length g) l
     else
       l ← sort_range sort (n - length g) (length g) (lo ++ m ++ g); sort_range sort 0 (length lo) l)
    (sorts l).
Proof.
  intros Hlo Hm Hg Hp Hsort Hne n. pose proof (Permutation_length Hp) as Hn.
  rewrite !length_app in Hn.
  assert (∀ lo', length lo' = length lo → returns (sort_range sort (n - length g) (length g) (lo' ++ m ++ g))
    (λ l', ∃ g', l' = lo' ++ m ++ g' ∧ sorts g g')) as HG.
  { intros lo' Hl. pose proof (sort_range_spec sort (lo' ++ m) g [] ltac:(intros; apply Hsort; lia)) as H.
    replace (n - length g)%nat with (length (lo' ++ m)) by (rewrite length_app; unfold n; lia).
    rewrite (right_id_L [] (++)), <-(assoc_L (++)) in H. eapply returns_impl; [exact H|].
    intros l' (g' & -> & Hg'). exists g'. by rewrite (right_id_L [] (++)), <-(assoc_L (++)). }
  assert (∀ r, returns (sort_range sort 0 (length lo) (lo ++ r)) (λ l', ∃ lo', l' = lo' ++ r ∧ sorts lo lo')) as HL.
  { intros r. apply (sort_range_spec sort [] lo r). intros. apply Hsort. lia. }
  assert (∀ lo' g', sorts lo lo' → sorts g g' → sorts l (lo' ++ m ++ g')) as Hend.
  { intros lo' g' [Hpl Hsl] [Hpg Hsg]. split; [by rewrite Hpl, Hpg|]. intros Ho.
    apply (sorted_partition v); [done|by rewrite Hpl|by apply Hm|by rewrite Hpg|by apply Hsl|by apply Hsg]. }
  case_match; (eapply returns_bind; [first [apply HL|by apply HG]|]).
  - intros l' (lo' & -> & Hl'). eapply returns_impl; [apply HG; by rewrite (proj1 Hl')|].
    intros l' (g' & -> & Hg'). by apply Hend.
  - intros l' (g' & -> & Hg'). eapply returns_impl; [apply HL|]. intros l' (lo' & -> & Hl'). by apply Hend.
Qed.

Lemma presorted_case l :
  (7 ≤ length l)%nat →
  returns (is_presorted cmp (length l - 1) 1 l) (λ r, r = true → sorts l l).
Proof.
  intros Hn. destruct l as [|x l]; [simpl in Hn; lia|].
  replace (length (x :: l) - 1)%nat with (length l) by (simpl; lia).
  eapply returns_impl; [apply (is_presorted_spec [])|]. intros r Hr Ht. split; [done|].
  intros Ho. apply Sorted_StronglySorted; [|by apply Hr]. intros ???. apply (co_trans _ Ho).
Qed.

Lemma partition_case v r :
  (0 < length r)%nat →
  returns (partition cmp (length (v :: r)) 1 1 (length (v :: r) - 1) (length (v :: r) - 1) (v :: r))
    (λ res, ∃ e lo g e2, partitioned v (v :: r) res e lo g e2).
Proof.
  intros Hr. pose proof (partition_spec v (S (length r)) [] [] r [] []) as H.
  cbn [length app Nat.add] in H |- *. replace (S (length r) - 1)%nat with (length r) by lia.
  rewrite Nat.add_0_r, (right_id_L [] (++)) in H. by apply H; [lia|constructor..].
Qed.

Lemma qsort_loop_spec fuel l :
  (length l < fuel)%nat → returns (qsort_loop cmp fuel l) (sorts l).
Proof.
  revert l. induction fuel as [|fuel IH]; intros l Hf; [lia|]. cbn [qsort_loop].
  destruct (Nat.ltb_spec (length l) 7) as [?|Hn]; [apply small_sort|].
  eapply returns_bind; [by apply presorted_case|]. intros [] Hpre; [by apply Hpre|]. clear Hpre.
  eapply returns_bind; [by apply choose_pivot_spec|]. cbv beta. intros pm Hpm.
  eapply returns_bind; [apply swap_perm; lia|]. intros l1 Hl1.
  rewrite <-(Permutation_length Hl1) in Hn |- *.
  destruct l1 as [|v r]; [simpl in Hn; lia|].
  eapply returns_bind; [apply partition_case; simpl in Hn; lia|].
  intros res (e & lo & g & e2 & [-> Hp [He He2] Hlo Hg]).
  pose proof (Permutation_length Hp) as Hlen. cbn [length] in Hlen. rewrite !length_app in Hlen.
  replace (S (length e + length lo) - S (length e))%nat with (length lo) by lia.
  replace (length e + length lo + length g - (length e + length lo))%nat with (length g) by lia.
  replace (length (v :: r) - (length e + length lo + length g) - 1)%nat with (length e2)
    by (cbn [length]; lia).
  eapply returns_bind; [apply (vecswap_exchange [] (v :: e) lo (g ++ e2))|].
  cbn [app]. intros l2 (lo' & e' & -> & Hlo' & He').
  pose proof (vecswap_exchange (lo' ++ e') g e2 []) as Hv.
  rewrite (right_id_L [] (++)), !length_app, (Permutation_length Hlo'), (Permutation_length He') in Hv.
  cbn [length] in Hv.
  replace (length lo + S (length e) + length g + length e2)%nat with (S (length r)) in Hv by lia.
  replace (length lo + S (length e))%nat with (S (length e + length lo)) in Hv by lia.
  rewrite <-(assoc_L (++)) in Hv. cbn [length].
  eapply returns_bind; [exact Hv|]. intros l3 (e2' & g' & -> & He2' & Hg').
  rewrite (right_id_L [] (++)), <-(assoc_L (++)), (assoc_L (++) e' e2' g').
  rewrite <-(Permutation_length Hlo'), <-(Permutation_length Hg').
  replace (S (length r)) with (length l) by (by rewrite <-(Permutation_length Hl1)).
  apply (sort_both _ v); [by rewrite Hlo'| |by rewrite Hg'| | |].
  - intros Ho. apply Forall_app. rewrite He', He2'. split; [constructor; [|done]|done].
    pose proof (co_flip _ Ho v v). lia.
  - rewrite Hlo', He', He2', Hg', <-Hl1, <-Hp. solve_Permutation.
  - intros b Hb. apply IH. lia.
  - rewrite length_app, (Permutation_length He'). simpl. lia.
Qed.
Lemma pg_qsort_returns l : returns (pg_qsort cmp l) (sorts l).
Proof. apply qsort_loop_spec. lia. Qed.
End facts.

(** C33: [pg_qsort] is memory safe and correct.  On every array and with every
    comparison function it terminates without leaving the array and permutes it; when
    the comparison function is a total preorder the result is sorted. *)
Theorem pg_qsort_sorts {A} (cmp : A → A → Z) (l : list A) :
  ∃ l', pg_qsort cmp l = Ok l' ∧ l' ≡ₚ l ∧
    (cmp_order cmp → StronglySorted (λ x y, cmp x y ≤ 0) l').
Proof. apply returns_Ok, (pg_qsort_returns cmp l). Qed.
