(* ===== verification/FtsConfig.v ===== *)
(** * Segment configuration: catalog rows, shared status and their updates

    [src/include/cdb/cdbutil.h] (segment entries), [src/include/cdb/cdbfts.h]
    (shared probe status), and from [src/backend/fts/fts.c] the two routines that
    write the catalogs gp_segment_configuration and gp_configuration_history.

    The catalogs are the committed tables: gp_segment_configuration is a map from
    dbid to its row, gp_configuration_history the list of rows in insertion order
    (without the timestamp column). *)

From S2P Require Import Prelude Bitmapset CLib.

Record GpSegConfigEntry := mkSeg {
  dbid : Z;
  segindex : Z;
  role : ascii;
  preferred_role : ascii;
  mode : ascii;
  status : ascii;
  port : Z;
  hostname : string;
  address : string;
  datadir : string;
  hostip : option string;
}.

#[export] Instance GpSegConfigEntry_eq_dec : EqDecision GpSegConfigEntry.
Proof. solve_decision. Defined.

(** [CdbComponentDatabaseInfo]: FTS reads only the [config] it points to. *)
Abbreviation CdbComponentDatabaseInfo := GpSegConfigEntry.

Record CdbComponentDatabases := mkCdbs {
  segment_db_info : list CdbComponentDatabaseInfo;
  total_segments : Z;
}.
Definition total_segment_dbs (cdbs : CdbComponentDatabases) : Z :=
  Z.of_nat (length (segment_db_info cdbs)).

Definition ROLE_PRIMARY : ascii := "p".
Definition ROLE_MIRROR : ascii := "m".
Definition STATUS_UP : ascii := "u".
Definition STATUS_DOWN : ascii := "d".
Definition MODE_INSYNC : ascii := "s".
Definition MODE_NOTINSYNC : ascii := "n".

Definition SEGMENT_IS_ACTIVE_MIRROR (p : GpSegConfigEntry) : bool :=
  bool_decide (role p = ROLE_MIRROR).
Definition SEGMENT_IS_ACTIVE_PRIMARY (p : GpSegConfigEntry) : bool :=
  bool_decide (role p = ROLE_PRIMARY).
Definition SEGMENT_IS_ALIVE (p : GpSegConfigEntry) : bool :=
  bool_decide (status p = STATUS_UP).
Definition SEGMENT_IS_IN_SYNC (p : GpSegConfigEntry) : bool :=
  bool_decide (mode p = MODE_INSYNC).
Definition SEGMENT_IS_NOT_INSYNC (p : GpSegConfigEntry) : bool :=
  bool_decide (mode p = MODE_NOTINSYNC).

(** ** Shared probe status *)

Definition FTS_STATUS_DOWN : Z := 1.
Definition FTS_STATUS_IS_DOWN (st : Z) : bool := negb (Z.land st FTS_STATUS_DOWN =? 0).
Definition FTS_STATUS_SET_DOWN (st : Z) : Z := Z.lor st FTS_STATUS_DOWN.
Definition FTS_STATUS_SET_UP (st : Z) : Z := Z.ldiff st FTS_STATUS_DOWN.

(** [status] is the array indexed by dbid, zero where it was never written *)
Record FtsProbeInfo := mkProbeInfo {
  status_version : Z;
  probe_status : gmap Z Z;
  start_count : Z;
  done_count : Z;
}.
Definition status_of (i : FtsProbeInfo) (d : Z) : Z := default 0 (probe_status i !! d).
Definition set_probe_status (d st : Z) (i : FtsProbeInfo) : FtsProbeInfo :=
  mkProbeInfo (status_version i) (<[d := st]> (probe_status i)) (start_count i) (done_count i).

Inductive pm_signal := PMSIGNAL_FTS_PROMOTED_MIRROR.

(** Everything the prober reads and writes outside the probe context. *)
Record fts_globals := mkGlobals {
  gp_segment_configuration : gmap Z GpSegConfigEntry;
  gp_configuration_history : list (Z * string);
  ftsProbeInfo : FtsProbeInfo;
  failedContentIds : Bitmapset;
  signals_sent : list pm_signal;
  skip_fts_probe : bool;
}.

Definition set_catalog (c : gmap Z GpSegConfigEntry) (g : fts_globals) : fts_globals :=
  mkGlobals c (gp_configuration_history g) (ftsProbeInfo g) (failedContentIds g)
    (signals_sent g) (skip_fts_probe g).
Definition add_history (row : Z * string) (g : fts_globals) : fts_globals :=
  mkGlobals (gp_segment_configuration g) (gp_configuration_history g ++ [row])
    (ftsProbeInfo g) (failedContentIds g) (signals_sent g) (skip_fts_probe g).
Definition upd_probe_info (f : FtsProbeInfo → FtsProbeInfo) (g : fts_globals) : fts_globals :=
  mkGlobals (gp_segment_configuration g) (gp_configuration_history g)
    (f (ftsProbeInfo g)) (failedContentIds g) (signals_sent g) (skip_fts_probe g).
Definition set_failed (b : Bitmapset) (g : fts_globals) : fts_globals :=
  mkGlobals (gp_segment_configuration g) (gp_configuration_history g)
    (ftsProbeInfo g) b (signals_sent g) (skip_fts_probe g).
Definition send_signal (sig : pm_signal) (g : fts_globals) : fts_globals :=
  mkGlobals (gp_segment_configuration g) (gp_configuration_history g)
    (ftsProbeInfo g) (failedContentIds g) (signals_sent g ++ [sig]) (skip_fts_probe g).

(** ** Catalog updates *)

Definition status_char (IsSegmentAlive : bool) : ascii :=
  if IsSegmentAlive then STATUS_UP else STATUS_DOWN.
Definition mode_char (IsInSync : bool) : ascii :=
  if IsInSync then MODE_INSYNC else MODE_NOTINSYNC.

(** the tuple with its role, status and mode columns replaced *)
Definition modify_row (r : GpSegConfigEntry) (newrole newstatus newmode : ascii)
    : GpSegConfigEntry :=
  mkSeg (dbid r) (segindex r) newrole (preferred_role r) newmode newstatus (port r)
    (hostname r) (address r) (datadir r) (hostip r).

Definition SQL_CMD_BUF_SIZE : nat := 1024.

Definition probeWalRepUpdateConfig (db content : Z) (newrole : ascii)
    (IsSegmentAlive IsInSync : bool) (g : fts_globals) : res fts_globals :=
  let desc := snprintf SQL_CMD_BUF_SIZE
    ("FTS: update role, status, and mode for dbid " ++ fmt_d db ++ " with contentid " ++
     fmt_d content ++ " to " ++ fmt_c newrole ++ ", " ++ fmt_c (status_char IsSegmentAlive) ++
     ", and " ++ fmt_c (mode_char IsInSync)) in
  let g := add_history (db, desc) g in
  match gp_segment_configuration g !! db with
  | None => Err (ElogError ("FTS cannot find dbid=" ++ fmt_d db ++ " in gp_segment_configuration"))
  | Some configtuple =>
      let newtuple :=
        modify_row configtuple newrole (status_char IsSegmentAlive) (mode_char IsInSync) in
      Ok (set_catalog (<[db := newtuple]> (gp_segment_configuration g)) g)
  end.

Definition probeUpdateConfHistory (primary : CdbComponentDatabaseInfo)
    (isSegmentAlive hasMirrors : bool) (g : fts_globals) : fts_globals :=
  let desc := snprintf 64
    (if hasMirrors then
       if isSegmentAlive then
         "FTS: content id " ++ fmt_d (segindex primary) ++ " is out of double fault, dbid " ++
         fmt_d (dbid primary) ++ " is up"
       else "FTS: double fault detected for content id " ++ fmt_d (segindex primary)
     else
       if isSegmentAlive then
         "FTS: content id " ++ fmt_d (segindex primary) ++ " dbid " ++ fmt_d (dbid primary) ++
         " is now up"
       else
         "FTS: content id " ++ fmt_d (segindex primary) ++ " dbid " ++ fmt_d (dbid primary) ++
         " is down") in
  add_history (dbid primary, desc) g.
