(* ===== verification/CdbComponents.v ===== *)
(** * The cluster configuration of a session ([src/backend/cdb/cdbutil.c])

    How a backend, or the prober, reads gp_segment_configuration: from the catalog
    inside a transaction and from the prober's dump file outside of one, with the
    resolution of host names, the checks on the contents, and the lookups.

    What other processes and the operating system do is an environment,
    [ComponentsEnv]: the catalog rows a scan returns, the name service, the files of
    the data directory, the shared version counters and the wait for a probe cycle.
    A session's static variables are the state of the monad.  Assertions, memory
    contexts and fault injection are not modelled. *)

From S2P Require Import Prelude CLib Qsort FtsConfig.

(** [MAXHOSTNAMELEN] is HOST_NAME_MAX, 64 on Linux *)
Definition MAXHOSTNAMELEN : nat := 64.
Definition MAXPGPATH : nat := 1024.
Definition GPSEGCONFIGDUMPFILE : string := "gpsegconfig_dump".
Definition GPSEGCONFIGDUMPFILETMP : string := "gpsegconfig_dump_tmp".

(** dynahash truncates a string key to [keysize - 1] characters when it hashes,
    compares and copies it *)
Definition hash_key (keysize : nat) (s : string) : string := snprintf keysize s.

(** ** The environment *)

Inductive ai_family := AF_INET | AF_INET6 | AF_UNIX.
#[export] Instance ai_family_eq_dec : EqDecision ai_family.
Proof. solve_decision. Defined.

(** [struct addrinfo]: its family and its numeric name ([pg_getnameinfo_all]) *)
Record addrinfo := mkAddr { addr_family : ai_family; numeric_host : string }.

Definition EAI_FAIL : Z := -4.

Class ComponentsEnv (W : Type) := {
  (** the rows of gp_segment_configuration, in the order of a heap scan *)
  scan_gp_segment_configuration : W → list GpSegConfigEntry;
  (** return value and addresses for a name and a service *)
  pg_getaddrinfo_all : string → string → W → (Z * list addrinfo) * W;
  (** the wait for the prober ([FtsNotifyProber]) *)
  notify_prober : W → W;
  fts_status_version : W → Z;
  GetGpExpandVersion : W → Z;
  (** whole content of a file, [None] when it cannot be opened *)
  file_read : string → W → option string;
  (** open for writing, [fprintf], close and rename; [false] is failure *)
  file_create : string → W → bool * W;
  file_write : string → string → W → bool * W;
  file_close : string → W → W;
  file_rename : string → string → W → bool * W;
}.

(** ** The data *)

(** [SegmentDatabaseDescriptor]: a connection to a QE.  [segment_database_info] is the
    position of the segment's entry.  The connection itself belongs to the environment,
    and the text that identifies the QE in messages is left out. *)
Inductive info_pos := SegmentAt (i : nat) | EntryAt (i : nat).
#[export] Instance info_pos_eq_dec : EqDecision info_pos.
Proof. solve_decision. Defined.

Record SegmentDatabaseDescriptor := mkDesc {
  segment_database_info : info_pos;
  desc_segindex : Z;
  identifier : Z;
  isWriter : bool;
}.

(** [CdbComponentDatabaseInfo]; the lists hold addresses of descriptors *)
Record ComponentInfo := mkCI {
  config : GpSegConfigEntry;
  hostPrimaryCount : Z;
  freelist : list Z;
  numIdleQEs : Z;
  activelist : list Z;
  numActiveQEs : Z;
}.

(** [CdbComponentDatabases]; the sizes of the arrays are [total_segment_dbs] and
    [total_entry_dbs] *)
Record Components := mkComponents {
  segment_infos : list ComponentInfo;
  entry_infos : list ComponentInfo;
  component_total_segments : Z;
  fts_version : Z;
  expand_version : Z;
  total_numIdleQEs : Z;
  total_numActiveQEs : Z;
  qeCounter : Z;
  freeCounterList : list Z;
}.

(** what the prober reads of it *)
Definition fts_view (c : Components) : CdbComponentDatabases :=
  mkCdbs (config <$> segment_infos c) (component_total_segments c).

(** per process: am_ftsprobe, IsTransactionState(), GpIdentity, IS_HOT_STANDBY_QD()
    and the cache limit *)
Record backend_vars := mkVars {
  am_ftsprobe : bool;
  IsTransactionState : bool;
  GpIdentity_dbid : Z;
  GpIdentity_segindex : Z;
  IS_HOT_STANDBY_QD : bool;
  gp_cached_gang_threshold : Z;
}.

Section session.
Context {W : Type} `{CE : !ComponentsEnv W} (vars : backend_vars).

(** the static variables of cdbutil.c, and the descriptors allocated in
    CdbComponentsContext by address *)
Record session := mkSession {
  se_env : W;
  segment_ip_cache_htab : option (gmap string string);
  cdb_component_dbs : option Components;
  descriptors : gmap Z SegmentDatabaseDescriptor;
  next_address : Z;
}.
Abbreviation SM := (M session).

Definition set_env (w : W) (s : session) : session :=
  mkSession w (segment_ip_cache_htab s) (cdb_component_dbs s) (descriptors s) (next_address s).
Definition set_ip_cache (h : option (gmap string string)) (s : session) : session :=
  mkSession (se_env s) h (cdb_component_dbs s) (descriptors s) (next_address s).
Definition set_components (c : option Components) (s : session) : session :=
  mkSession (se_env s) (segment_ip_cache_htab s) c (descriptors s) (next_address s).

Definition env_call {A} (f : W → A * W) : SM A :=
  λ s, let '(a, w) := f (se_env s) in Ok (a, set_env w s).
Definition env_ask {A} (f : W → A) : SM A := λ s, Ok (f (se_env s), s).
Definition env_effect (f : W → W) : SM unit := λ s, Ok (tt, set_env (f (se_env s)) s).

Definition lift_res {A} (r : res A) : SM A :=
  λ s, match r with Ok a => Ok (a, s) | Err e => Err e end.

(** ** Host names *)

Inductive elevel := LOG | WARNING | ERROR.
#[local] Instance elevel_eq_dec : EqDecision elevel.
Proof. solve_decision. Defined.

(** the entry's key is one character shorter than the table's keysize; the character
    that does not fit is overwritten by the address *)
Definition ip_key (name : string) : string := hash_key (NAMEDATALEN + 1) name.

Definition ip_cache_lookup (name : string) : SM (option string) :=
  s ← get;
  match segment_ip_cache_htab s with
  | None => _ ← modify (set_ip_cache (Some ∅)); mret None
  | Some h => mret (h !! ip_key name)
  end.

Definition ip_cache_enter (name hostinfo : string) : SM unit :=
  modify (λ s, set_ip_cache (Some (<[ip_key name := hostinfo]> (default ∅ (segment_ip_cache_htab s)))) s).

(** the first IPv4 address, else the first address if it is IPv6; [e] is the cache
    entry, [hostinfo] the buffer *)
Definition translate_addresses (name : string) (use_cache : bool) (addrs : list addrinfo)
    : SM (option string) :=
  '(e, hostinfo) ←
    (match list_find (λ a, addr_family a = AF_INET) addrs with
     | Some (_, a) =>
         if use_cache then
           _ ← ip_cache_enter name (numeric_host a); mret (Some (numeric_host a), numeric_host a)
         else mret (None, numeric_host a)
     | None => mret (None, EmptyString)
     end);
  '(e, hostinfo) ←
    (if ((negb use_cache && bool_decide (hostinfo = EmptyString)) ||
         (use_cache && bool_decide (e = None)))
        && bool_decide (addr_family <$> head addrs = Some AF_INET6) then
       let host := default EmptyString (numeric_host <$> head addrs) in
       if use_cache then _ ← ip_cache_enter name host; mret (Some host, host)
       else mret (e, host)
     else mret (e, hostinfo));
  if use_cache then
    host ← deref "e->hostinfo" e;
    mret (Some host)
  else mret (Some hostinfo).

Definition getDnsCachedAddress (name : string) (prt : Z) (lvl : elevel) (use_cache : bool)
    : SM (option string) :=
  cached ← (if use_cache then ip_cache_lookup name else mret None);
  match cached with
  | Some host => mret (Some host)
  | None =>
      '(ret, addrs) ← env_call (pg_getaddrinfo_all name (snprintf 32 (fmt_d prt)));
      if negb (ret =? 0) || bool_decide (addrs = []) then
        if (ret =? EAI_FAIL) && bool_decide (lvl = ERROR) then
          elog_ERROR ("could not translate host name " ++ name ++ ", port " ++ fmt_d prt)
        else mret None
      else translate_addresses name use_cache addrs
  end.

Definition getDnsAddress (hostname : string) (prt : Z) (lvl : elevel) : SM (option string) :=
  getDnsCachedAddress hostname prt lvl false.

(** returns [hostaddrs[0]]; the other slots are always NULL *)
Definition getAddressesForDBid (c : GpSegConfigEntry) (lvl : elevel) : SM (option string) :=
  name ← getDnsCachedAddress (address c) (port c) lvl true;
  match name with
  | Some host => mret (Some host)
  | None => getDnsCachedAddress (hostname c) (port c) lvl true
  end.

(** ** Reading the configuration *)

Definition set_hostip (h : option string) (c : GpSegConfigEntry) : GpSegConfigEntry :=
  mkSeg (dbid c) (segindex c) (role c) (preferred_role c) (mode c) (status c) (port c)
    (hostname c) (address c) (datadir c) h.

Definition readGpSegConfigFromCatalog : SM (list GpSegConfigEntry) :=
  rows ← env_ask scan_gp_segment_configuration;
  mret (set_hostip None <$> rows).

Definition newline : ascii := "010".

(** "%d %d %c %c %c %c %d %s %s %s\n" *)
Definition dump_line (c : GpSegConfigEntry) : string :=
  fmt_d (dbid c) +:+ " " +:+ fmt_d (segindex c) +:+ " " +:+ fmt_c (role c) +:+ " " +:+
  fmt_c (preferred_role c) +:+ " " +:+ fmt_c (mode c) +:+ " " +:+ fmt_c (status c) +:+ " " +:+
  fmt_d (port c) +:+ " " +:+ hostname c +:+ " " +:+ address c +:+ " " +:+ datadir c +:+
  String newline EmptyString.

Definition dump_format : list scan_dir :=
  [SDec; SSpace; SDec; SSpace; SChar; SSpace; SChar; SSpace; SChar; SSpace; SChar; SSpace; SDec;
   SSpace; SStr; SSpace; SStr; SSpace; SStr].

Fixpoint write_configs (configs : list GpSegConfigEntry) : SM unit :=
  match configs with
  | [] => mret tt
  | c :: rest =>
      ok ← env_call (file_write GPSEGCONFIGDUMPFILETMP (dump_line c));
      if (ok : bool) then write_configs rest
      else
        elog_ERROR ("could not dump gp_segment_configuration to file: " ++ GPSEGCONFIGDUMPFILE)
  end.

Definition writeGpSegConfigToFTSFiles : SM unit :=
  ok ← env_call (file_create GPSEGCONFIGDUMPFILETMP);
  if negb ok then elog_ERROR ("could not create tmp file: " ++ GPSEGCONFIGDUMPFILETMP)
  else
    configs ← readGpSegConfigFromCatalog;
    _ ← write_configs configs;
    _ ← env_effect (file_close GPSEGCONFIGDUMPFILETMP);
    ok ← env_call (file_rename GPSEGCONFIGDUMPFILETMP GPSEGCONFIGDUMPFILE);
    if negb ok then
      elog_ERROR ("could not rename file " ++ GPSEGCONFIGDUMPFILETMP ++ " to file " ++
                  GPSEGCONFIGDUMPFILE)
    else mret tt.

(** the pieces [fgets] returns with a buffer of [S room] characters *)
Fixpoint fgets_pieces (size room : nat) (s : string) : list string :=
  match s with
  | EmptyString => []
  | String c s' =>
      if bool_decide (c = newline) || Nat.leb room 1 then
        String c EmptyString :: fgets_pieces size size s'
      else
        match fgets_pieces size (room - 1) s' with
        | [] => [String c EmptyString]
        | l :: ls => String c l :: ls
        end
  end.

Definition dump_buf_size : nat := MAXHOSTNAMELEN * 2 + MAXPGPATH + 32.

(** one line; [%d] stores four bytes into the two-byte ids, and what it overwrites is
    assigned by the conversions after it.  A [%s] that does not fit overruns its
    buffer. *)
Definition scan_dump_line (buf : string) : res GpSegConfigEntry :=
  match sscanf dump_format buf with
  | [VInt d; VInt i; VChar r; VChar pr; VChar m; VChar st; VInt p; VStr h; VStr a; VStr dir] =>
      if Nat.leb MAXHOSTNAMELEN (String.length h) || Nat.leb MAXHOSTNAMELEN (String.length a)
         || Nat.leb MAXPGPATH (String.length dir)
      then Err (SegFault "readGpSegConfigFromFTSFiles")
      else Ok (mkSeg (swrap 16 d) (swrap 16 i) r pr m st p h a dir None)
  | _ => Err (ElogError ("invalid data in gp_segment_configuration dump file: " ++
                         GPSEGCONFIGDUMPFILE))
  end.

Fixpoint scan_dump (lines : list string) : res (list GpSegConfigEntry) :=
  match lines with
  | [] => Ok []
  | l :: ls => c ← scan_dump_line l; cs ← scan_dump ls; mret (c :: cs)
  end.

Definition readGpSegConfigFromFTSFiles : SM (list GpSegConfigEntry) :=
  _ ← env_effect notify_prober;
  content ← env_ask (file_read GPSEGCONFIGDUMPFILE);
  match content with
  | None => elog_ERROR ("could not open gp_segment_configutation dump file:" ++ GPSEGCONFIGDUMPFILE)
  | Some text =>
      lift_res (scan_dump (fgets_pieces (dump_buf_size - 1) (dump_buf_size - 1) text))
  end.

(** ** Building the configuration *)

Definition is_primary (c : GpSegConfigEntry) : bool := bool_decide (role c = ROLE_PRIMARY).

(** the key of the table of primaries per host *)
Definition host_key (c : GpSegConfigEntry) : string := hash_key MAXHOSTNAMELEN (hostname c).

Definition new_info (c : GpSegConfigEntry) : ComponentInfo := mkCI c 0 [] 0 [] 0.

(** the address of one configuration row *)
Definition resolve_config (c : GpSegConfigEntry) : SM GpSegConfigEntry :=
  if Nat.ltb MAXHOSTNAMELEN (String.length (hostname c)) then
    elog_ERROR ("Invalid length (" ++ fmt_d (Z.of_nat (String.length (hostname c))) ++
                ") of hostname (" ++ hostname c ++ ")")
  else
    addr ← getAddressesForDBid c (if am_ftsprobe vars then LOG else ERROR);
    if bool_decide (addr = None) && is_primary c && negb (am_ftsprobe vars) then
      elog_ERROR ("cannot resolve network address for dbid=" ++ fmt_d (dbid c))
    else mret (set_hostip addr c).

(** the first loop: [entry_db_info] has two slots *)
Fixpoint place_configs (configs : list GpSegConfigEntry) (segs entries : list ComponentInfo)
    (hosts : gmap string Z) : SM (list ComponentInfo * list ComponentInfo * gmap string Z) :=
  match configs with
  | [] => mret (segs, entries, hosts)
  | c :: rest =>
      c ← resolve_config c;
      let hosts' :=
        if is_primary c then <[host_key c := default 0 (hosts !! host_key c) + 1]> hosts
        else hosts in
      if 0 <=? segindex c then place_configs rest (segs ++ [new_info c]) entries hosts'
      else if Nat.ltb (length entries) 2 then
        place_configs rest segs (entries ++ [new_info c]) hosts'
      else throw (SegFault "entry_db_info")
  end.

Definition CdbComponentDatabaseInfoCompare (obj1 obj2 : ComponentInfo) : Z :=
  let cmp := segindex (config obj1) - segindex (config obj2) in
  if cmp =? 0 then
    let obj2cmp := if SEGMENT_IS_ACTIVE_PRIMARY (config obj2) then 1 else 0 in
    let obj1cmp := if SEGMENT_IS_ACTIVE_PRIMARY (config obj1) then 1 else 0 in
    obj2cmp - obj1cmp
  else cmp.

(** the number of positions whose segindex differs from the one before *)
Fixpoint count_segindexes (prev : option Z) (infos : list ComponentInfo) : Z :=
  match infos with
  | [] => 0
  | c :: rest =>
      (if bool_decide (prev = Some (segindex (config c))) then 0 else 1) +
      count_segindexes (Some (segindex (config c))) rest
  end.

Definition is_identity (c : ComponentInfo) : bool :=
  (dbid (config c) =? GpIdentity_dbid vars) && (segindex (config c) =? GpIdentity_segindex vars).

Definition content_error : fault :=
  ElogError "content values not valid in gp_segment_configuration table".

(** the inner [while] over [x]: [rest] is the array from [x] on *)
Fixpoint seek_content (i this_segindex : Z) (rest : list ComponentInfo)
    : res (Z * list ComponentInfo) :=
  match rest with
  | [] => Ok (this_segindex, [])
  | c :: rest' =>
      let this_segindex := segindex (config c) in
      if this_segindex <? i then seek_content i this_segindex rest'
      else if this_segindex =? i then Ok (this_segindex, rest)
      else Err content_error
  end.

(** [k] turns of the loop over the segments, from [i] on *)
Fixpoint check_contents (k : nat) (i : Z) (rest : list ComponentInfo) : res unit :=
  match k with
  | O => Ok tt
  | S k =>
      '(this_segindex, rest) ← seek_content i (-1) rest;
      if negb (this_segindex =? i) then Err content_error
      else check_contents k (i + 1) rest
  end.

Definition set_hostPrimaryCount (n : Z) (c : ComponentInfo) : ComponentInfo :=
  mkCI (config c) n (freelist c) (numIdleQEs c) (activelist c) (numActiveQEs c).

Fixpoint set_host_counts (hosts : gmap string Z) (infos : list ComponentInfo)
    : res (list ComponentInfo) :=
  match infos with
  | [] => Ok []
  | c :: rest =>
      if negb (IS_HOT_STANDBY_QD vars) && negb (is_primary (config c)) then
        rest ← set_host_counts hosts rest; mret (c :: rest)
      else
        match hosts !! host_key (config c) with
        | None => Err (ElogError ("Hostname '" ++ hostname (config c) ++
                                  "' was not found in hostPrimaryCountHash"))
        | Some segmentCount =>
            rest ← set_host_counts hosts rest;
            mret (set_hostPrimaryCount (swrap 16 segmentCount) c :: rest)
        end
  end.

(** the checks and counts after the first loop *)
Definition finish_components (segs entries : list ComponentInfo) (hosts : gmap string Z)
    : res Components :=
  if bool_decide (segs = []) then Err (ElogError "number of segment databases cannot be 0")
  else if bool_decide (entries = []) then Err (ElogError "number of entry databases cannot be 0")
  else
    segs ← pg_qsort CdbComponentDatabaseInfoCompare segs;
    entries ← pg_qsort CdbComponentDatabaseInfoCompare entries;
    let total := count_segindexes None segs in
    if negb (existsb is_identity entries) then Err (ElogError "cannot locate entry database")
    else
      _ ← check_contents (Z.to_nat total) 0 segs;
      segs ← set_host_counts hosts segs;
      entries ← set_host_counts hosts entries;
      mret (mkComponents segs entries total 0 0 0 0 0 []).

Definition getCdbComponentInfo : SM Components :=
  configs ← (if IsTransactionState vars then readGpSegConfigFromCatalog
             else readGpSegConfigFromFTSFiles);
  '(segs, entries, hosts) ← place_configs configs [] [] ∅;
  lift_res (finish_components segs entries hosts).

(** ** The session's copy *)

Definition set_versions (fts expand : Z) (c : Components) : Components :=
  mkComponents (segment_infos c) (entry_infos c) (component_total_segments c) fts expand
    (total_numIdleQEs c) (total_numActiveQEs c) (qeCounter c) (freeCounterList c).

(** An error ends the run and keeps no state, so what PG_CATCH does before it rethrows (a
    dispatcher waits for the prober) is not represented. *)
Definition cdbcomponent_getCdbComponents : SM Components :=
  s ← get;
  match cdb_component_dbs s with
  | Some c => mret c
  | None =>
      c ← getCdbComponentInfo;
      v ← env_ask fts_status_version;
      e ← env_ask GetGpExpandVersion;
      let c := set_versions v e c in
      _ ← modify (set_components (Some c));
      mret c
  end.

Definition at_pos (p : info_pos) (c : Components) : option ComponentInfo :=
  match p with SegmentAt i => segment_infos c !! i | EntryAt i => entry_infos c !! i end.

(** returns the position of the entry *)
Definition cdbcomponent_getComponentInfo (contentId : Z) : SM info_pos :=
  cdbs ← cdbcomponent_getCdbComponents;
  let total := component_total_segments cdbs in
  let total_dbs := Z.of_nat (length (segment_infos cdbs)) in
  if (contentId <? -1) || (total <=? contentId) then
    elog_ERROR ("unexpected content id " ++ fmt_d contentId ++ ", should be [-1, " ++
                fmt_d (total - 1) ++ "]")
  else if contentId =? -1 then
    if IS_HOT_STANDBY_QD vars then mret (EntryAt (length (entry_infos cdbs) - 1))
    else mret (EntryAt 0)
  else if total_dbs =? total then mret (SegmentAt (Z.to_nat contentId))
  else
    let i := Z.to_nat (2 * contentId) in
    c ← deref "segment_db_info" (segment_infos cdbs !! i);
    if (IS_HOT_STANDBY_QD vars && SEGMENT_IS_ACTIVE_PRIMARY (config c))
       || (negb (IS_HOT_STANDBY_QD vars) && negb (SEGMENT_IS_ACTIVE_PRIMARY (config c)))
    then mret (SegmentAt (S i))
    else mret (SegmentAt i).

Definition cdbcomponent_getCdbComponentsList : SM (list Z) :=
  cdbs ← cdbcomponent_getCdbComponents;
  mret (seqZ 0 (component_total_segments cdbs)).
End session.

Arguments session : clear implicits.
