(* ===== verification/CdbComponentsFacts.v ===== *)
(** * Theorems about the cluster configuration of a session *)

From stdpp Require Import pretty.
From S2P Require Import Prelude CLib Qsort QsortFacts FtsConfig CdbComponents.

(** ** The order of the entries *)

Lemma Compare_order : cmp_order CdbComponentDatabaseInfoCompare.
Proof.
  constructor; unfold CdbComponentDatabaseInfoCompare.
  - intros x y. destruct (Z.eqb_spec (segindex (config x) - segindex (config y)) 0),
      (Z.eqb_spec (segindex (config y) - segindex (config x)) 0); repeat case_match; lia.
  - intros x y z. destruct (Z.eqb_spec (segindex (config x) - segindex (config y)) 0),
      (Z.eqb_spec (segindex (config y) - segindex (config z)) 0),
      (Z.eqb_spec (segindex (config x) - segindex (config z)) 0); repeat case_match; lia.
Qed.

Lemma Compare_segindex x y :
  CdbComponentDatabaseInfoCompare x y ≤ 0 → segindex (config x) ≤ segindex (config y).
Proof. unfold CdbComponentDatabaseInfoCompare. case_match; lia. Qed.

Definition contents (l : list ComponentInfo) : list Z := segindex ∘ config <$> l.

Abbreviation in_order := (StronglySorted (λ x y, CdbComponentDatabaseInfoCompare x y ≤ 0)).

Lemma in_order_contents l : in_order l → StronglySorted Z.le (contents l).
Proof.
  induction 1 as [|x l Hl IH Hx]; simpl; constructor; [done|].
  apply Forall_fmap. eapply Forall_impl; [exact Hx|]. simpl. intros y. apply Compare_segindex.
Qed.

(** ** Counting the contents *)

(** the contents, each run of equal ones once *)
Fixpoint runs (prev : option Z) (l : list Z) : list Z :=
  match l with
  | [] => []
  | x :: l => (if bool_decide (prev = Some x) then [] else [x]) ++ runs (Some x) l
  end.

Lemma count_runs prev l : count_segindexes prev l = Z.of_nat (length (runs prev (contents l))).
Proof.
  revert prev. induction l as [|c l IH]; intros prev; simpl; [done|].
  rewrite IH, length_app. case_bool_decide; simpl; lia.
Qed.

Lemma elem_of_runs prev l x : x ∈ runs prev l ∨ prev = Some x ↔ x ∈ l ∨ prev = Some x.
Proof.
  revert prev. induction l as [|y l IH]; intros prev; simpl; [done|].
  rewrite elem_of_app, elem_of_cons.
  specialize (IH (Some y)). case_bool_decide as Hp.
  - subst. rewrite elem_of_nil. naive_solver.
  - rewrite list_elem_of_singleton. naive_solver.
Qed.

Lemma runs_sorted prev l :
  StronglySorted Z.le l → (∀ p, prev = Some p → Forall (Z.le p) l) →
  StronglySorted Z.lt (runs prev l) ∧ (∀ p, prev = Some p → Forall (Z.lt p) (runs prev l)).
Proof.
  intros Hl. revert prev. induction Hl as [|x l Hl IH Hx]; intros prev Hp; simpl.
  { by split; [|constructor]; constructor. }
  destruct (IH (Some x)) as [Hs Hgt]; [by intros ? [= <-]|]. specialize (Hgt x eq_refl).
  case_bool_decide as Heq; simpl.
  - subst. split; [done|]. by intros ? [= <-].
  - split; [by constructor|]. intros p ->. specialize (Hp p eq_refl).
    apply Forall_cons in Hp as [Hpx Hpl]. assert (p < x) by (apply Z.le_neq; split; congruence).
    constructor; [done|]. eapply Forall_impl; [exact Hgt|]. simpl. lia.
Qed.

Lemma lt_sorted_NoDup l : StronglySorted Z.lt l → NoDup l.
Proof.
  induction 1 as [|x l Hl IH Hx]; constructor; [|done].
  intros Hin. rewrite Forall_forall in Hx. specialize (Hx x Hin). lia.
Qed.

Lemma count_contents l :
  in_order l →
  ∃ r, count_segindexes None l = Z.of_nat (length r) ∧ NoDup r ∧ (∀ x, x ∈ r ↔ x ∈ contents l).
Proof.
  intros Hl%in_order_contents. exists (runs None (contents l)). split_and!.
  - apply count_runs.
  - by apply lt_sorted_NoDup, runs_sorted.
  - intros x. pose proof (elem_of_runs None (contents l) x). naive_solver.
Qed.

(** ** The check of the contents *)

Lemma seek_content_sound i t rest rest' :
  seek_content i t rest = Ok (i, rest') → t ≠ i →
  i ∈ contents rest ∧ (∀ x, x ∈ contents rest' → x ∈ contents rest).
Proof.
  revert t. induction rest as [|c rest IH]; intros t; simpl; [naive_solver|].
  destruct (Z.ltb_spec (segindex (config c)) i) as [Hlt|Hge].
  - intros Hs Ht. destruct (IH _ Hs ltac:(lia)) as [Hi Hsub].
    split; [by right|]. intros x Hx. right. by apply Hsub.
  - destruct (Z.eqb_spec (segindex (config c)) i) as [Heq|]; [|done].
    intros [= _ <-] _. simpl. split; [apply elem_of_cons; by left|done].
Qed.

Lemma check_contents_sound k i rest :
  0 ≤ i → check_contents k i rest = Ok tt → ∀ j, i ≤ j < i + Z.of_nat k → j ∈ contents rest.
Proof.
  revert i rest. induction k as [|k IH]; intros i rest Hi; simpl; [intros; lia|].
  destruct (seek_content i (-1) rest) as [[t rest']|] eqn:Hs; [|done]. cbn [mbind res_bind].
  destruct (Z.eqb_spec t i) as [->|]; [|done]. cbn [negb]. intros Hc j Hj.
  destruct (seek_content_sound _ _ _ _ Hs ltac:(lia)) as [Hin Hsub].
  destruct (decide (j = i)) as [->|]; [done|]. apply Hsub. eapply IH; [|exact Hc|]; lia.
Qed.

Lemma seek_content_complete i t rest :
  StronglySorted Z.le (contents rest) → i ∈ contents rest →
  ∃ rest', seek_content i t rest = Ok (i, rest') ∧ StronglySorted Z.le (contents rest') ∧
    (∀ j, i ≤ j → j ∈ contents rest → j ∈ contents rest').
Proof.
  revert t. induction rest as [|c rest IH]; intros t; simpl; [by rewrite elem_of_nil|].
  intros Hs. pose proof Hs as Hs0. inversion_clear Hs as [|?? Hs' Hc].
  destruct (Z.ltb_spec (segindex (config c)) i) as [Hlt|Hge].
  - intros [?|Hin]%elem_of_cons; [simpl in *; lia|].
    destruct (IH (segindex (config c)) Hs' Hin) as (rest' & ? & ? & Hj).
    exists rest'. split_and!; try done. intros j Hij [->|?]%elem_of_cons; [simpl in *; lia|by apply Hj].
  - intros Hin. assert (segindex (config c) = i) as Heq.
    { apply elem_of_cons in Hin as [->|Hin]; [done|]. rewrite Forall_forall in Hc.
      specialize (Hc _ Hin). simpl in Hc. lia. }
    rewrite (proj2 (Z.eqb_eq _ _)) by done. exists (c :: rest). split_and!; try done. by rewrite Heq.
Qed.

Lemma check_contents_complete k i rest :
  StronglySorted Z.le (contents rest) →
  (∀ j, i ≤ j < i + Z.of_nat k → j ∈ contents rest) → check_contents k i rest = Ok tt.
Proof.
  revert i rest. induction k as [|k IH]; intros i rest Hs Hall; simpl; [done|].
  destruct (seek_content_complete i (-1) rest) as (rest' & -> & Hs' & Hj); [done|apply Hall; lia|].
  cbn [mbind res_bind]. rewrite Z.eqb_refl. cbn [negb]. apply IH; [done|].
  intros j Hij. apply Hj; [lia|]. apply Hall. lia.
Qed.

(** the contents are exactly [0 .. n - 1] *)
Definition contents_upto (n : Z) (l : list Z) : Prop := ∀ i, i ∈ l ↔ 0 ≤ i < n.

(** the check passes exactly when the contents are numbered without a gap *)
Lemma check_contents_spec l :
  in_order l →
  let n := count_segindexes None l in
  check_contents (Z.to_nat n) 0 l = Ok tt ↔ contents_upto n (contents l).
Proof.
  intros Hl n. destruct (count_contents l Hl) as (r & Hn & Hnd & Hr). fold n in Hn.
  rewrite Hn, Nat2Z.id. split.
  - intros Hc. pose proof (check_contents_sound _ 0 _ ltac:(lia) Hc) as Hall.
    assert (r ≡ₚ seqZ 0 (Z.of_nat (length r))) as Hperm.
    { symmetry. apply submseteq_length_Permutation; [|rewrite length_seqZ; lia].
      apply NoDup_submseteq; [apply NoDup_seqZ|]. intros x Hx%elem_of_seqZ. apply Hr, Hall. lia. }
    intros i. rewrite <-Hr, (elem_of_Permutation_proper i _ _ Hperm), elem_of_seqZ. lia.
  - intros Hup. apply check_contents_complete; [by apply in_order_contents|].
    intros j Hj. apply Hup. lia.
Qed.

Lemma count_upto n l :
  0 ≤ n → in_order l → contents_upto n (contents l) → count_segindexes None l = n.
Proof.
  intros Hn Hl Hup. destruct (count_contents l Hl) as (r & -> & Hnd & Hr).
  assert (r ≡ₚ seqZ 0 n) as ->; [|rewrite length_seqZ; lia].
  apply NoDup_Permutation; [done|apply NoDup_seqZ|]. intros x. rewrite Hr, (Hup x), elem_of_seqZ. lia.
Qed.

(** ** Placing the rows *)

(** a configuration entry is its row with the address that was found *)
Definition same_row (c c' : GpSegConfigEntry) : Prop := ∃ h, c' = set_hostip h c.

Definition seg_rows (cs : list GpSegConfigEntry) : list GpSegConfigEntry :=
  filter (λ c, (0 <=? segindex c) = true) cs.
Definition entry_rows_of (cs : list GpSegConfigEntry) : list GpSegConfigEntry :=
  filter (λ c, (0 <=? segindex c) = false) cs.

(** the primaries on the host with key [k] *)
Definition host_primaries (k : string) (cs : list GpSegConfigEntry) : nat :=
  length (filter (λ c, is_primary c = true ∧ host_key c = k) cs).

Definition hosts_ok (hosts : gmap string Z) (cs : list GpSegConfigEntry) : Prop :=
  ∀ k, hosts !! k =
    if Nat.eqb (host_primaries k cs) 0 then None else Some (Z.of_nat (host_primaries k cs)).

Lemma hosts_ok_snoc hosts cs c :
  hosts_ok hosts cs →
  hosts_ok (if is_primary c then <[host_key c := default 0 (hosts !! host_key c) + 1]> hosts
            else hosts) (cs ++ [c]).
Proof.
  intros Hh k. unfold host_primaries. rewrite filter_app, length_app.
  fold (host_primaries k cs). destruct (is_primary c) eqn:Hp.
  - destruct (decide (host_key c = k)) as [<-|Hne].
    + rewrite lookup_insert_eq, Hh, filter_cons_True by done. cbn [filter length list_filter].
      destruct (host_primaries (host_key c) cs) as [|n]; simpl; [done|]. f_equal. lia.
    + rewrite lookup_insert_ne, Hh, filter_cons_False by naive_solver. simpl. by rewrite Nat.add_0_r.
  - rewrite Hh, filter_cons_False by (intros [? _]; congruence). simpl. by rewrite Nat.add_0_r.
Qed.

Lemma same_row_fields c c' :
  same_row c c' → segindex c' = segindex c ∧ dbid c' = dbid c ∧ role c' = role c ∧
    hostname c' = hostname c ∧ status c' = status c ∧ mode c' = mode c.
Proof. by intros [h ->]. Qed.

Lemma seg_rows_app cs c :
  seg_rows (cs ++ [c]) = seg_rows cs ++ (if 0 <=? segindex c then [c] else []).
Proof. unfold seg_rows. rewrite filter_app, filter_cons. by case_decide as H; case_match. Qed.
Lemma entry_rows_app cs c :
  entry_rows_of (cs ++ [c]) = entry_rows_of cs ++ (if 0 <=? segindex c then [] else [c]).
Proof. unfold entry_rows_of. rewrite filter_app, filter_cons. by case_decide as H; case_match. Qed.
Lemma entry_rows_cons c cs :
  entry_rows_of (c :: cs) = (if 0 <=? segindex c then [] else [c]) ++ entry_rows_of cs.
Proof. unfold entry_rows_of. rewrite filter_cons. by case_decide as H; case_match. Qed.

Lemma length_entry_rows cs cs' :
  Forall2 same_row cs cs' → length (entry_rows_of cs') = length (entry_rows_of cs).
Proof.
  unfold entry_rows_of. induction 1 as [|c c' cs cs' Hc Hcs IH]; [done|].
  apply same_row_fields in Hc as (Hs & _). rewrite !filter_cons, Hs. case_decide; simpl; congruence.
Qed.

Section session_facts.
Context {W : Type} `{CE : !ComponentsEnv W} (vars : backend_vars).
Implicit Types s : session W.

Lemma wp_any {S A} (m : M S A) (st : S) : wp m (λ _ _, True) (λ _, True) st.
Proof. unfold wp. by destruct (m st) as [[??]|]. Qed.

(** what the source checks of one row *)
Definition resolved (c c' : GpSegConfigEntry) : Prop :=
  same_row c c' ∧ (String.length (hostname c) ≤ MAXHOSTNAMELEN)%nat.

Lemma resolve_config_sound c s :
  wp (resolve_config vars c) (λ c' _, resolved c c') (λ _, True) s.
Proof.
  unfold resolve_config. destruct (Nat.ltb_spec MAXHOSTNAMELEN (String.length (hostname c))); [done|].
  eapply wp_seq; [apply wp_any|]. intros addr s' _. case_match; [done|].
  apply wp_ret. split; [by exists addr|done].
Qed.

Lemma place_configs_spec configs processed hosts E s :
  hosts_ok hosts processed → (length (entry_rows_of processed) ≤ 2)%nat →
  (∀ c s, c ∈ configs → wp (resolve_config vars c) (λ c' _, resolved c c') E s) →
  E (SegFault "entry_db_info") ∨
    (length (entry_rows_of processed) + length (entry_rows_of configs) ≤ 2)%nat →
  wp (place_configs vars configs (new_info <$> seg_rows processed)
        (new_info <$> entry_rows_of processed) hosts)
    (λ '(segs, entries, hosts) _, ∃ cs,
       Forall2 resolved configs cs ∧
       segs = new_info <$> seg_rows (processed ++ cs) ∧
       entries = new_info <$> entry_rows_of (processed ++ cs) ∧
       (length entries ≤ 2)%nat ∧ hosts_ok hosts (processed ++ cs)) E s.
Proof.
  revert processed hosts s. induction configs as [|c configs IH]; intros processed hosts s Hh Hlen Hres HE.
  { apply wp_ret. exists []. rewrite (right_id_L [] (++)), length_fmap. by split_and!. }
  cbn [place_configs]. eapply wp_seq; [apply Hres; by left|]. intros c' s' Hc.
  pose proof (hosts_ok_snoc hosts processed c' Hh) as Hh'.
  destruct (same_row_fields _ _ (proj1 Hc)) as (Hseg & _).
  assert (∀ x s, x ∈ configs → wp (resolve_config vars x) (λ c' _, resolved x c') E s) as Hres'.
  { intros ???. apply Hres. by right. }
  specialize (IH (processed ++ [c'])).
  rewrite entry_rows_cons, <-Hseg, length_app in HE.
  rewrite seg_rows_app, entry_rows_app, !fmap_app, length_app in IH.
  assert (∀ segs entries hosts, (∃ cs, Forall2 resolved configs cs ∧
       segs = new_info <$> seg_rows ((processed ++ [c']) ++ cs) ∧
       entries = new_info <$> entry_rows_of ((processed ++ [c']) ++ cs) ∧
       (length entries ≤ 2)%nat ∧ hosts_ok hosts ((processed ++ [c']) ++ cs)) →
     ∃ cs, Forall2 resolved (c :: configs) cs ∧ segs = new_info <$> seg_rows (processed ++ cs) ∧
       entries = new_info <$> entry_rows_of (processed ++ cs) ∧
       (length entries ≤ 2)%nat ∧ hosts_ok hosts (processed ++ cs)) as Hend.
  { intros segs entries h (cs & ? & Hrest). exists (c' :: cs).
    rewrite <-!(assoc_L (++)) in Hrest. split; [by constructor|done]. }
  destruct (0 <=? segindex c') eqn:Hge; cbn [length fmap list_fmap] in *.
  - rewrite (right_id_L [] (++)) in IH. eapply wp_post; [apply IH; [done|lia|done|destruct HE; [by left|right; lia]]|].
    intros [[segs entries] h] _. apply Hend.
  - rewrite (right_id_L [] (++)) in IH. rewrite length_fmap.
    destruct (Nat.ltb_spec (length (entry_rows_of processed)) 2).
    + eapply wp_post; [apply IH; [done|lia|done|destruct HE; [by left|right; lia]]|].
      intros [[segs entries] h] _. apply Hend.
    + apply wp_throw. destruct HE; [done|lia].
Qed.

(** ** What loading may change *)

Section frames.
Context (R : relation (session W)) `{!PreOrder R}.

Lemma framed_ask {A} (f : W → A) : framed R (env_ask f).
Proof. intros s. unfold wp, env_ask. reflexivity. Qed.
Lemma framed_lift {A} (r : res A) : framed R (lift_res r).
Proof. intros s. unfold wp, lift_res. destruct r; [reflexivity|done]. Qed.

Context (Hdns : ∀ n p, framed R (env_call (pg_getaddrinfo_all n p))).
Context (Hcache : ∀ h, framed R (modify (λ s, set_ip_cache (h s) s))).

Lemma framed_dns name prt lvl b : framed R (getDnsCachedAddress (W := W) name prt lvl b).
Proof.
  unfold getDnsCachedAddress, ip_cache_lookup, translate_addresses, ip_cache_enter, elog_ERROR.
  repeat first [apply (Hcache (λ _, Some ∅))|apply Hcache|apply Hdns|frame_step].
Qed.

Lemma framed_resolve c : framed R (resolve_config (W := W) vars c).
Proof.
  unfold resolve_config, getAddressesForDBid, elog_ERROR.
  repeat first [apply framed_dns|frame_step].
Qed.

Lemma framed_place cs segs entries hosts : framed R (place_configs (W := W) vars cs segs entries hosts).
Proof.
  revert segs entries hosts. induction cs as [|c cs IH]; intros; cbn [place_configs];
    repeat first [apply framed_resolve|apply IH|frame_step].
Qed.

Lemma framed_getCdbComponentInfo :
  framed R (if IsTransactionState vars then readGpSegConfigFromCatalog else readGpSegConfigFromFTSFiles) →
  framed R (getCdbComponentInfo (W := W) vars).
Proof.
  intros Hread. unfold getCdbComponentInfo, elog_ERROR. apply framed_bind; [done|done|]. intros configs.
  repeat first [apply framed_place|apply framed_lift|frame_step].
Qed.
End frames.

(** ** The checks *)

(** [c'] is [c] with its number of primaries filled in from [hosts] *)
Record counted (hosts : gmap string Z) (c c' : ComponentInfo) : Prop := {
  ct_config : config c' = config c;
  ct_pool : (freelist c', numIdleQEs c', activelist c', numActiveQEs c') =
            (freelist c, numIdleQEs c, activelist c, numActiveQEs c);
  ct_count : is_primary (config c) = true →
    ∃ n, hosts !! host_key (config c) = Some n ∧ hostPrimaryCount c' = swrap 16 n;
}.

Lemma set_host_counts_sound hosts l l' :
  set_host_counts vars hosts l = Ok l' → Forall2 (counted hosts) l l'.
Proof.
  revert l'. induction l as [|c l IH]; intros l'; cbn [set_host_counts]; [intros [= <-]; constructor|].
  destruct (set_host_counts vars hosts l) as [l1|]; cbn [mbind res_bind mret res_ret].
  2:{ repeat case_match; done. }
  specialize (IH l1 eq_refl).
  destruct (negb (IS_HOT_STANDBY_QD vars) && negb (is_primary (config c))) eqn:Hskip.
  { intros [= <-]. constructor; [|done]. constructor; [done..|]. intros Hp.
    rewrite Hp, andb_false_r in Hskip. done. }
  destruct (hosts !! host_key (config c)) as [n|] eqn:Hn; [|done]. intros [= <-].
  constructor; [|done]. constructor; [done..|]. intros _. by exists n.
Qed.

Lemma set_host_counts_complete hosts l :
  IS_HOT_STANDBY_QD vars = false →
  (∀ c, c ∈ l → is_primary (config c) = true → is_Some (hosts !! host_key (config c))) →
  ∃ l', set_host_counts vars hosts l = Ok l'.
Proof.
  intros Hhot. induction l as [|c l IH]; intros Hall; cbn [set_host_counts]; [eauto|].
  destruct IH as (l' & ->); [intros; apply Hall; [by right|done]|]. rewrite Hhot.
  cbn [negb andb mbind res_bind]. destruct (is_primary (config c)) eqn:Hp; [|eauto].
  destruct (Hall c ltac:(left) Hp) as [n ->]. simpl. eauto.
Qed.

(** what a configuration must have *)
Record valid_rows (rows : list GpSegConfigEntry) : Prop := {
  vr_hosts : Forall (λ c, String.length (hostname c) ≤ MAXHOSTNAMELEN)%nat rows;
  vr_contents : ∃ n, 0 < n ∧ contents_upto n (segindex <$> seg_rows rows);
  vr_entries : (0 < length (entry_rows_of rows) ≤ 2)%nat;
  vr_identity : ∃ c, c ∈ entry_rows_of rows ∧ dbid c = GpIdentity_dbid vars ∧
    segindex c = GpIdentity_segindex vars;
}.

(** what the session keeps of it *)
Record components_ok (rows : list GpSegConfigEntry) (comps : Components) : Prop := {
  ck_segments : config <$> segment_infos comps ≡ₚ seg_rows rows;
  ck_entries : config <$> entry_infos comps ≡ₚ entry_rows_of rows;
  ck_order : in_order (segment_infos comps) ∧ in_order (entry_infos comps);
  ck_contents : contents_upto (component_total_segments comps) (contents (segment_infos comps));
  ck_counts : ∀ c, c ∈ segment_infos comps ++ entry_infos comps → is_primary (config c) = true →
    hostPrimaryCount c = swrap 16 (Z.of_nat (host_primaries (host_key (config c)) rows));
  ck_pool : ∀ c, c ∈ segment_infos comps ++ entry_infos comps →
    (freelist c, numIdleQEs c, activelist c, numActiveQEs c) = ([], 0, [], 0);
  ck_totals : (total_numIdleQEs comps, total_numActiveQEs comps, qeCounter comps,
               freeCounterList comps) = (0, 0, 0, []);
}.

Lemma counted_configs hosts l l' : Forall2 (counted hosts) l l' → config <$> l' = config <$> l.
Proof. induction 1 as [|c c' l l' Hc _ IH]; [done|]. csimpl. by rewrite (ct_config _ _ _ Hc), IH. Qed.

Lemma in_order_configs l l' : config <$> l' = config <$> l → in_order l → in_order l'.
Proof.
  intros Heq Hl. revert l' Heq. induction Hl as [|c l Hl IH Hc]; intros [|c' l'] Heq; try done.
  { constructor. }
  rewrite !fmap_cons in Heq. apply (inj2 cons) in Heq as [Hcc Heq]. constructor; [by apply IH|].
  apply Forall_forall. intros x Hx. apply (list_elem_of_fmap_2 config) in Hx. rewrite Heq in Hx.
  apply list_elem_of_fmap in Hx as (y & Hy & Hin). rewrite Forall_forall in Hc. specialize (Hc y Hin).
  unfold CdbComponentDatabaseInfoCompare in *. by rewrite Hcc, Hy.
Qed.

Lemma contents_configs l : contents l = segindex <$> (config <$> l).
Proof. unfold contents. by rewrite <-list_fmap_compose. Qed.

Lemma sorted_infos l l' :
  pg_qsort CdbComponentDatabaseInfoCompare l = Ok l' → l' ≡ₚ l ∧ in_order l'.
Proof.
  intros H. pose proof (pg_qsort_returns CdbComponentDatabaseInfoCompare l) as Hs.
  rewrite H in Hs. destruct Hs as [? Hs]. split; [done|]. apply Hs, Compare_order.
Qed.

Lemma configs_new_info (cs : list GpSegConfigEntry) : config <$> (new_info <$> cs) = cs.
Proof. rewrite <-list_fmap_compose. by apply list_fmap_id. Qed.

Lemma contents_upto_perm n l l' : l ≡ₚ l' → contents_upto n l → contents_upto n l'.
Proof. intros Hp H i. by rewrite <-Hp. Qed.

(** sorted infos: their rows, and the number of their contents *)
Lemma sorted_rows cs l :
  pg_qsort CdbComponentDatabaseInfoCompare (new_info <$> cs) = Ok l →
  in_order l ∧ config <$> l ≡ₚ cs ∧ (∀ c, c ∈ l → ∃ x, x ∈ cs ∧ c = new_info x).
Proof.
  intros [Hp Hs]%sorted_infos. split_and!; [done| |].
  - by rewrite Hp, configs_new_info.
  - intros c Hc. rewrite Hp in Hc. apply list_elem_of_fmap in Hc as (x & -> & Hx). eauto.
Qed.

Lemma host_counts_ok hosts cs (cs' : list GpSegConfigEntry) l l' :
  hosts_ok hosts cs → (∀ c, c ∈ l → ∃ x, x ∈ cs' ∧ c = new_info x) →
  set_host_counts vars hosts l = Ok l' →
  config <$> l' = config <$> l ∧ ∀ c, c ∈ l' →
    (freelist c, numIdleQEs c, activelist c, numActiveQEs c) = ([], 0, [], 0) ∧
    (is_primary (config c) = true →
     hostPrimaryCount c = swrap 16 (Z.of_nat (host_primaries (host_key (config c)) cs))).
Proof.
  intros Hh Hl Hc%set_host_counts_sound. split; [by eapply counted_configs|].
  intros c' [k Hk]%list_elem_of_lookup. destruct (Forall2_lookup_r _ _ _ _ _ Hc Hk) as (c & Hkc & [Hcfg Hpool Hcnt]).
  destruct (Hl c) as (x & _ & ->); [by eapply list_elem_of_lookup_2|]. split; [done|].
  rewrite Hcfg. intros Hp. destruct (Hcnt Hp) as (n & Hn & ->). rewrite Hh in Hn.
  case_match; [done|]. by injection Hn as <-.
Qed.

Lemma finish_sound cs hosts comps :
  hosts_ok hosts cs →
  finish_components vars (new_info <$> seg_rows cs) (new_info <$> entry_rows_of cs) hosts = Ok comps →
  components_ok cs comps ∧ seg_rows cs ≠ [] ∧ entry_rows_of cs ≠ [] ∧
  ∃ c, c ∈ entry_rows_of cs ∧ dbid c = GpIdentity_dbid vars ∧ segindex c = GpIdentity_segindex vars.
Proof.
  intros Hh. unfold finish_components. case_bool_decide as Hs0; [done|]. case_bool_decide as He0; [done|].
  destruct (pg_qsort _ (new_info <$> seg_rows cs)) as [segs|] eqn:Hsegs; [|done].
  destruct (pg_qsort _ (new_info <$> entry_rows_of cs)) as [entries|] eqn:Hentries; [|done].
  cbn [mbind res_bind]. apply sorted_rows in Hsegs as (Hso & Hsp & Hsn).
  apply sorted_rows in Hentries as (Heo & Hep & Hen).
  destruct (existsb _ entries) eqn:Hid; [|done]. cbn [negb].
  destruct (check_contents _ 0 segs) as [[]|] eqn:Hck; [|done]. cbn [mbind res_bind].
  apply (check_contents_spec segs Hso) in Hck.
  destruct (set_host_counts vars hosts segs) as [segs'|] eqn:Hsegs'; [|done].
  destruct (set_host_counts vars hosts entries) as [entries'|] eqn:Hentries'; [|done].
  cbn [mbind res_bind mret res_ret]. intros [= <-].
  eapply host_counts_ok in Hsegs' as [Hsc Hsp']; [|done..].
  eapply host_counts_ok in Hentries' as [Hec Hep']; [|done..].
  split_and!; [|by intros H; apply Hs0; rewrite H|by intros H; apply He0; rewrite H|].
  - constructor; simpl; [by rewrite Hsc|by rewrite Hec| | | | |done].
    + split; eapply in_order_configs; eauto.
    + by rewrite contents_configs, Hsc, <-contents_configs.
    + intros c [Hc|Hc]%elem_of_app; [by apply Hsp'|by apply Hep'].
    + intros c [Hc|Hc]%elem_of_app; [by apply Hsp'|by apply Hep'].
  - apply existsb_exists in Hid as (c & Hc%list_elem_of_In & Hi).
    destruct (Hen c Hc) as (x & Hx & ->). exists x. split; [done|].
    unfold is_identity in Hi. simpl in Hi. lia.
Qed.

Lemma finish_complete cs hosts :
  IS_HOT_STANDBY_QD vars = false → hosts_ok hosts cs → valid_rows cs →
  ∃ comps, finish_components vars (new_info <$> seg_rows cs) (new_info <$> entry_rows_of cs) hosts = Ok comps.
Proof.
  intros Hhot Hh [_ (n & Hn & Hup) Hent (id & Hin & Hid)]. unfold finish_components.
  rewrite bool_decide_eq_false_2.
  2:{ intros H%fmap_nil_inv. rewrite H in Hup. pose proof (proj2 (Hup 0) ltac:(lia)) as H0.
      by apply elem_of_nil in H0. }
  rewrite bool_decide_eq_false_2 by (intros H%fmap_nil_inv; rewrite H in Hent; simpl in Hent; lia).
  destruct (returns_Ok _ _ (pg_qsort_returns CdbComponentDatabaseInfoCompare (new_info <$> seg_rows cs)))
    as (segs & Hsegs & _).
  destruct (returns_Ok _ _ (pg_qsort_returns CdbComponentDatabaseInfoCompare (new_info <$> entry_rows_of cs)))
    as (entries & Hentries & _).
  rewrite Hsegs, Hentries. cbn [mbind res_bind].
  apply sorted_rows in Hsegs as (Hso & Hsp & Hsn). apply sorted_rows in Hentries as (Heo & Hep & Hen).
  assert (existsb (is_identity vars) entries = true) as ->.
  { apply existsb_exists. rewrite <-Hep in Hin.
    apply list_elem_of_fmap in Hin as (c & -> & Hc). exists c. split; [by apply list_elem_of_In|].
    unfold is_identity. destruct Hid as [-> ->]. by rewrite !Z.eqb_refl. }
  cbn [negb].
  assert (contents_upto n (contents segs)) as Hc.
  { rewrite contents_configs. eapply contents_upto_perm; [by rewrite Hsp|done]. }
  pose proof (count_upto n segs ltac:(lia) Hso Hc) as Hcnt.
  rewrite (proj2 (check_contents_spec segs Hso)) by (by rewrite Hcnt). cbn [mbind res_bind].
  assert (∀ x, x ∈ cs → is_primary x = true → is_Some (hosts !! host_key x)) as Hsome.
  { intros x Hx Hp. rewrite Hh. destruct (host_primaries (host_key x) cs) eqn:H0; [|simpl; eauto].
    apply length_zero_iff_nil in H0. assert (x ∈ []) as Hx0; [|by apply elem_of_nil in Hx0].
    rewrite <-H0. by apply list_elem_of_filter. }
  destruct (set_host_counts_complete hosts segs Hhot) as (segs' & ->).
  { intros c Hcs Hp. destruct (Hsn c Hcs) as (x & Hx & ->). apply Hsome; [|done].
    by apply list_elem_of_filter in Hx as [_ ?]. }
  destruct (set_host_counts_complete hosts entries Hhot) as (entries' & ->); [|simpl; eauto].
  intros c Hcs Hp. destruct (Hen c Hcs) as (x & Hx & ->). apply Hsome; [|done].
  by apply list_elem_of_filter in Hx as [_ ?].
Qed.

(** ** Reading the catalog *)

(** pg_getaddrinfo_all returns a Unix-domain address only when it is asked for one *)
Definition resolver_ok : Prop := ∀ name service (w : W),
  Forall (λ a, addr_family a ≠ AF_UNIX) (pg_getaddrinfo_all name service w).1.2.

Lemma translate_addresses_total name use_cache addrs s :
  addrs ≠ [] → Forall (λ a, addr_family a ≠ AF_UNIX) addrs →
  wp (translate_addresses name use_cache addrs) (λ _ _, True) (λ _, False) s.
Proof.
  intros Hne Hfam. unfold translate_addresses.
  destruct (list_find _ addrs) as [[i a]|] eqn:Hfind;
    destruct use_cache; cbv [wp mbind M_bind mret M_ret ip_cache_enter modify deref]; simpl;
    [done|by destruct (_ && _)| |by destruct (bool_decide _)].
  destruct addrs as [|a addrs]; [done|]. apply Forall_cons in Hfam as [Hu _].
  apply list_find_None in Hfind. apply Forall_cons in Hfind as [H4 _].
  by destruct (addr_family a) eqn:Ha; [done| |done]; simpl; rewrite Ha.
Qed.

Lemma getDnsCachedAddress_total name prt use_cache s :
  resolver_ok → wp (getDnsCachedAddress name prt LOG use_cache) (λ _ _, True) (λ _, False) s.
Proof.
  intros Hr. unfold getDnsCachedAddress.
  apply wp_seq with (λ _ _, True).
  { destruct use_cache; [|done]. cbv [wp ip_cache_lookup mbind M_bind get mret M_ret modify].
    by destruct (segment_ip_cache_htab s). }
  intros [host|] s1 _; [done|]. apply wp_bind. unfold wp, env_call.
  pose proof (Hr name (snprintf 32 (fmt_d prt)) (se_env s1)) as Hfam.
  destruct (pg_getaddrinfo_all _ _ _) as [[ret addrs] w]. simpl in Hfam.
  destruct (negb (ret =? 0) || bool_decide (addrs = [])) eqn:Hfail.
  - by rewrite andb_false_r.
  - apply orb_false_iff in Hfail as [_ Hne%bool_decide_eq_false]. by apply translate_addresses_total.
Qed.

Lemma resolve_config_total c s :
  resolver_ok → am_ftsprobe vars = true → (String.length (hostname c) ≤ MAXHOSTNAMELEN)%nat →
  wp (resolve_config vars c) (λ c' _, resolved c c') (λ _, False) s.
Proof.
  intros Hr Ham Hlen. unfold resolve_config. rewrite (proj2 (Nat.ltb_ge _ _)), Ham by done.
  unfold getAddressesForDBid.
  apply wp_seq with (λ _ _, True).
  - eapply wp_seq; [by apply getDnsCachedAddress_total|]. intros [host|] s1 _; [done|].
    by apply getDnsCachedAddress_total.
  - intros addr s1 _. rewrite andb_false_r. apply wp_ret. split; [by exists addr|done].
Qed.

Definition erase : GpSegConfigEntry → GpSegConfigEntry := set_hostip None.

(** the checks read the ids and the host name of a row only *)
Section mapped.
Context (f : GpSegConfigEntry → GpSegConfigEntry).
Context (Hf : ∀ c, dbid (f c) = dbid c ∧ segindex (f c) = segindex c ∧ hostname (f c) = hostname c).

Lemma rows_mapped rows :
  seg_rows (f <$> rows) = f <$> seg_rows rows ∧ entry_rows_of (f <$> rows) = f <$> entry_rows_of rows.
Proof.
  split; apply filter_fmap_comm; intros c _; by destruct (Hf c) as (_ & -> & _).
Qed.

Lemma valid_rows_mapped rows : valid_rows rows ↔ valid_rows (f <$> rows).
Proof.
  destruct (rows_mapped rows) as [Hseg Hent].
  assert (∀ l : list GpSegConfigEntry, segindex <$> (f <$> l) = segindex <$> l) as Hsi.
  { intros l. rewrite <-list_fmap_compose. apply list_fmap_ext. intros ? c _. apply Hf. }
  split; intros [Hh (n & Hn & Hup) He (c & Hc & Hid & His)].
  - constructor; rewrite ?Hseg, ?Hent, ?Hsi, ?length_fmap; [| |done|].
    + apply Forall_fmap. eapply Forall_impl; [exact Hh|]. intros x. simpl. by destruct (Hf x) as (_ & _ & ->).
    + by exists n.
    + exists (f c). destruct (Hf c) as (-> & -> & _). split; [by apply list_elem_of_fmap_2|done].
  - rewrite Hseg, Hsi in Hup. rewrite Hent in He, Hc. rewrite length_fmap in He.
    constructor; [|by exists n|done|].
    + apply Forall_fmap in Hh. eapply Forall_impl; [exact Hh|]. intros x. simpl. by destruct (Hf x) as (_ & _ & ->).
    + apply list_elem_of_fmap in Hc as (c0 & -> & Hc). exists c0.
      destruct (Hf c0) as (<- & <- & _). done.
Qed.
End mapped.

Lemma rows_erase rows :
  seg_rows (erase <$> rows) = erase <$> seg_rows rows ∧
  entry_rows_of (erase <$> rows) = erase <$> entry_rows_of rows.
Proof. by apply rows_mapped. Qed.

Lemma valid_rows_erase rows : valid_rows rows ↔ valid_rows (erase <$> rows).
Proof. by apply valid_rows_mapped. Qed.

Lemma valid_rows_perm rows rows' : rows ≡ₚ rows' → valid_rows rows → valid_rows rows'.
Proof.
  intros Hp [Hh (n & Hn & Hup) He (c & Hc & Hid)]. constructor.
  - by rewrite <-Hp.
  - exists n. split; [done|]. intros i. unfold seg_rows. by rewrite <-Hp.
  - unfold entry_rows_of. by rewrite <-Hp.
  - exists c. split; [|done]. unfold entry_rows_of. by rewrite <-Hp.
Qed.

Lemma erase_same_row rows cs : Forall2 same_row rows cs → erase <$> cs = erase <$> rows.
Proof. induction 1 as [|c c' rows cs [h ->] _ IH]; [done|]. csimpl. by rewrite IH. Qed.

Lemma same_row_erase rows cs : Forall2 same_row (erase <$> rows) cs → Forall2 same_row rows cs.
Proof.
  rewrite Forall2_fmap_l. intros H. eapply Forall2_impl; [exact H|]. intros c c' [h ->]. by exists h.
Qed.

Lemma valid_rows_same rows cs : Forall2 same_row rows cs → valid_rows rows ↔ valid_rows cs.
Proof.
  intros Hs. by rewrite (valid_rows_erase rows), (valid_rows_erase cs), (erase_same_row _ _ Hs).
Qed.

Lemma seg_entry_rows cs : seg_rows cs ++ entry_rows_of cs ≡ₚ cs.
Proof.
  unfold seg_rows, entry_rows_of. induction cs as [|c cs IH]; [done|].
  rewrite !filter_cons. destruct (0 <=? segindex c); repeat case_decide; try done; simpl.
  - by rewrite IH.
  - by rewrite <-Permutation_middle, IH.
Qed.

Lemma contents_positive n cs : contents_upto n (segindex <$> seg_rows cs) → seg_rows cs ≠ [] → 0 < n.
Proof.
  intros Hup Hne. destruct (seg_rows cs) as [|c l]; [done|].
  destruct (proj1 (Hup (segindex c)) ltac:(by left)). lia.
Qed.

Lemma components_from_rows rows (E : fault → Prop) s :
  (∀ c s, c ∈ rows → wp (resolve_config vars c) (λ c' _, resolved c c') E s) →
  E (SegFault "entry_db_info") ∨ (length (entry_rows_of rows) ≤ 2)%nat →
  (∀ e, E e ∨ (IS_HOT_STANDBY_QD vars = false ∧ valid_rows rows)) →
  wp ('(segs, entries, hosts) ← place_configs vars rows [] [] ∅;
      lift_res (finish_components vars segs entries hosts))
    (λ comps _, valid_rows rows ∧ ∃ cs, Forall2 same_row rows cs ∧ components_ok cs comps) E s.
Proof.
  intros Hres Hent HE. eapply wp_seq.
  { apply (place_configs_spec rows [] ∅); [by intros k|simpl; lia|done|done]. }
  intros [[segs entries] hosts] s1 (cs & Hcs & -> & -> & Hlen & Hh). rewrite length_fmap in Hlen.
  simpl in Hlen, Hh |- *.
  assert (Forall2 same_row rows cs) as Hsame by (eapply Forall2_impl; [exact Hcs|]; by intros ?? [? _]).
  unfold wp, lift_res. destruct (finish_components _ _ _ _) as [comps|e] eqn:Hfin.
  - destruct (finish_sound _ _ _ Hh Hfin) as (Hok & Hs0 & He0 & Hid). split; [|by exists cs].
    apply (valid_rows_same _ _ Hsame). constructor; [| |split; [|lia]|done].
    + apply Forall_forall. intros c' [k Hk]%list_elem_of_lookup.
      destruct (Forall2_lookup_r _ _ _ _ _ Hcs Hk) as (c & _ & Hc & Hl).
      apply same_row_fields in Hc as (_ & _ & _ & -> & _). done.
    + exists (component_total_segments comps).
      assert (contents_upto (component_total_segments comps) (segindex <$> seg_rows cs)) as Hup.
      { eapply contents_upto_perm; [|exact (ck_contents _ _ Hok)].
        by rewrite contents_configs, (ck_segments _ _ Hok). }
      split; [by eapply contents_positive|done].
    + destruct (entry_rows_of cs); [done|simpl; lia].
  - destruct (HE e) as [?|[Hhot Hv]]; [done|].
    apply (valid_rows_same _ _ Hsame) in Hv.
    destruct (finish_complete cs hosts Hhot Hh Hv) as (comps & Hok). congruence.
Qed.

(** ** Looking a segment up *)

Definition of_content (i : Z) (l : list ComponentInfo) : list ComponentInfo :=
  filter (λ c, segindex (config c) = i) l.
Definition below (i : Z) (l : list ComponentInfo) : list ComponentInfo :=
  filter (λ c, segindex (config c) < i) l.

Lemma in_order_split i l : in_order l → ∃ above, l = below i l ++ of_content i l ++ above.
Proof.
  unfold below, of_content. induction 1 as [|c l Hl [above IH] Hc]; [by exists []|].
  assert (Forall (λ x, segindex (config c) ≤ segindex (config x)) l) as Hle.
  { eapply Forall_impl; [exact Hc|]. intros x. apply Compare_segindex. }
  rewrite !filter_cons. destruct (decide (segindex (config c) < i)).
  { rewrite decide_False by lia. exists above. simpl. by rewrite <-IH. }
  assert (filter (λ c, segindex (config c) < i) l = []) as Hnone.
  { apply filter_none. intros x Hx. rewrite Forall_forall in Hle. specialize (Hle x Hx). lia. }
  rewrite Hnone in IH |- *. case_decide.
  - exists above. simpl in *. by rewrite <-IH.
  - exists (c :: l). assert (filter (λ c, segindex (config c) = i) l = []) as ->; [|done].
    apply filter_none. intros x Hx. rewrite Forall_forall in Hle. specialize (Hle x Hx). lia.
Qed.

Lemma length_below k n l :
  Forall (λ c, 0 ≤ segindex (config c)) l →
  (∀ i, 0 ≤ i < n → length (of_content i l) = k) →
  ∀ i, 0 ≤ i ≤ n → length (below i l) = (k * Z.to_nat i)%nat.
Proof.
  intros Hpos Hk i [Hi Hin]. revert Hin. pattern i. apply natlike_ind; [| |done].
  - intros _. assert (below 0 l = []) as ->; [|simpl; lia].
    apply filter_none. intros x Hx. rewrite Forall_forall in Hpos. specialize (Hpos x Hx). lia.
  - intros j Hj IH Hjn. rewrite Z2Nat.inj_succ, Nat.mul_succ_r, <-IH, <-(Hk j) by lia.
    unfold below, of_content. clear. induction l as [|c l IH]; [done|].
    rewrite !filter_cons. repeat case_decide; simpl; lia.
Qed.

Lemma content_at k n l i (j : nat) :
  in_order l → Forall (λ c, 0 ≤ segindex (config c)) l →
  (∀ i, 0 ≤ i < n → length (of_content i l) = k) → 0 ≤ i < n → (j < k)%nat →
  l !! (k * Z.to_nat i + j)%nat = of_content i l !! j.
Proof.
  intros Hl Hpos Hk Hi Hj. pose proof (length_below k n l Hpos Hk i ltac:(lia)) as Hb.
  destruct (in_order_split i l Hl) as (above & Heq). rewrite Heq at 1.
  rewrite lookup_app_r by lia. rewrite lookup_app_l by (rewrite Hk; lia). f_equal. lia.
Qed.

(** every content has [k] segments, one of them the acting primary, and the entry
    databases are the coordinator and its standby *)
Record paired (k : nat) (rows : list GpSegConfigEntry) : Prop := {
  pr_count : ∀ i, i ∈ segindex <$> seg_rows rows →
    length (filter (λ c, segindex c = i) (seg_rows rows)) = k;
  pr_primary : ∀ i, i ∈ segindex <$> seg_rows rows →
    length (filter (λ c, segindex c = i ∧ is_primary c = true) (seg_rows rows)) = 1%nat;
  pr_entries : Forall (λ c, segindex c = -1) (entry_rows_of rows);
  pr_coordinator : ∃ c, c ∈ entry_rows_of rows ∧ is_primary c = true;
}.

Lemma length_filter_perm {A} (P : A → Prop) `{∀ x, Decision (P x)} (l l' : list A) :
  l ≡ₚ l' → length (filter P l) = length (filter P l').
Proof. intros Hp. by rewrite Hp. Qed.

(** the first of a sorted list with one content is a primary, if there is one *)
Lemma first_primary i c l :
  in_order (c :: l) → Forall (λ x, segindex (config x) = i) (c :: l) →
  (∃ x, x ∈ c :: l ∧ is_primary (config x) = true) → is_primary (config c) = true.
Proof.
  intros Ho Hi (x & [->|Hx]%elem_of_cons & Hp); [done|].
  inversion_clear Ho as [|?? _ Hc]. rewrite Forall_forall in Hc. specialize (Hc x Hx).
  apply Forall_cons in Hi as [Hci Hi]. rewrite Forall_forall in Hi. specialize (Hi x Hx). simpl in Hi.
  unfold CdbComponentDatabaseInfoCompare, SEGMENT_IS_ACTIVE_PRIMARY in Hc.
  rewrite Hci, Hi, Z.sub_diag in Hc. simpl in Hc. unfold is_primary in *. rewrite Hp in Hc.
  by destruct (bool_decide (role (config c) = ROLE_PRIMARY)); [|simpl in Hc; lia].
Qed.

Section lookup.
Context (comps : Components) (rows : list GpSegConfigEntry) (k : nat).
Context (Hok : components_ok rows comps) (Hpair : paired k rows).

Lemma length_of_content i :
  0 ≤ i < component_total_segments comps → length (of_content i (segment_infos comps)) = k.
Proof.
  intros Hi. rewrite <-(pr_count _ _ Hpair i).
  - unfold of_content. rewrite <-(length_filter_perm _ _ _ (ck_segments _ _ Hok)).
    by rewrite (filter_fmap_comm _ (λ c, segindex (config c) = i)), length_fmap.
  - rewrite <-(ck_segments _ _ Hok), <-contents_configs. by apply (ck_contents _ _ Hok).
Qed.

Lemma segments_nonneg : Forall (λ c, 0 ≤ segindex (config c)) (segment_infos comps).
Proof.
  apply Forall_forall. intros c Hc. apply (ck_contents _ _ Hok). by apply (list_elem_of_fmap_2 (segindex ∘ config)).
Qed.

Lemma content_primary i :
  0 ≤ i < component_total_segments comps →
  ∃ c rest, of_content i (segment_infos comps) = c :: rest ∧ segindex (config c) = i ∧
    is_primary (config c) = true.
Proof.
  intros Hi. pose proof (pr_primary _ _ Hpair i) as Hp.
  rewrite <-(length_filter_perm _ _ _ (ck_segments _ _ Hok)) in Hp.
  rewrite (filter_fmap_comm _ (λ c, segindex (config c) = i ∧ is_primary (config c) = true)), length_fmap in Hp by done.
  destruct (filter _ (segment_infos comps)) as [|x l] eqn:Hx.
  { exfalso. discriminate Hp. rewrite <-(ck_segments _ _ Hok), <-contents_configs. by apply (ck_contents _ _ Hok). }
  assert (x ∈ x :: l) as Hin by left. rewrite <-Hx in Hin. apply list_elem_of_filter in Hin as [[Hxi Hxp] Hin].
  assert (x ∈ of_content i (segment_infos comps)) as Hxo by (by apply list_elem_of_filter).
  assert (Forall (λ c, segindex (config c) = i) (of_content i (segment_infos comps))) as Hall.
  { apply Forall_forall. by intros c [? _]%list_elem_of_filter. }
  assert (in_order (of_content i (segment_infos comps))) as Ho
    by apply StronglySorted_filter_sub, (ck_order _ _ Hok).
  destruct (of_content i (segment_infos comps)) as [|c rest]; [by apply elem_of_nil in Hxo|].
  exists c, rest. split_and!; [done|by apply Forall_cons in Hall as [? _]|]. eapply first_primary; eauto.
Qed.

Lemma coordinator_first : ∃ c, entry_infos comps !! 0%nat = Some c ∧ segindex (config c) = -1 ∧ is_primary (config c) = true.
Proof.
  destruct (pr_coordinator _ _ Hpair) as (x & Hx & Hp). pose proof (pr_entries _ _ Hpair) as Hm1.
  rewrite <-(ck_entries _ _ Hok) in Hx, Hm1. apply list_elem_of_fmap in Hx as (c & -> & Hc).
  pose proof (proj2 (ck_order _ _ Hok)) as Ho. apply Forall_fmap in Hm1.
  destruct (entry_infos comps) as [|e l]; [by apply elem_of_nil in Hc|]. exists e.
  split_and!; [done|by apply Forall_cons in Hm1 as [? _]|]. eapply first_primary; eauto.
Qed.

Lemma length_segments :
  0 ≤ component_total_segments comps →
  length (segment_infos comps) = (k * Z.to_nat (component_total_segments comps))%nat.
Proof.
  intros Hn. rewrite <-(length_below k (component_total_segments comps) _ segments_nonneg length_of_content)
    by lia.
  unfold below. rewrite filter_every; [done|]. intros c Hc.
  apply (ck_contents _ _ Hok). by apply (list_elem_of_fmap_2 (segindex ∘ config)).
Qed.

Lemma segment_at i (j : nat) :
  0 ≤ i < component_total_segments comps → (j < k)%nat →
  segment_infos comps !! (k * Z.to_nat i + j)%nat = of_content i (segment_infos comps) !! j.
Proof.
  intros Hi Hj. eapply content_at; [apply (ck_order _ _ Hok)|apply segments_nonneg|apply length_of_content|done..].
Qed.
End lookup.
End session_facts.

(** ** A concrete cluster: files and catalog in memory, one content with a mirror *)

Definition memory_env : ComponentsEnv (list GpSegConfigEntry * gmap string string) := {|
  scan_gp_segment_configuration := fst;
  pg_getaddrinfo_all name _ w := ((0, [mkAddr AF_INET ("10.0.0." +:+ name)]), w);
  notify_prober w := w;
  fts_status_version _ := 1;
  GetGpExpandVersion _ := 0;
  file_read f w := w.2 !! f;
  file_create f w := (true, (w.1, <[f := EmptyString]> w.2));
  file_write f l w := (bool_decide (is_Some (w.2 !! f)), (w.1, alter (λ t, t +:+ l) f w.2));
  file_close _ w := w;
  file_rename f g w :=
    match w.2 !! f with
    | Some t => (true, (w.1, <[g := t]> (delete f w.2)))
    | None => (false, w)
    end;
|}.

Definition demo_rows : list GpSegConfigEntry :=
  [mkSeg 3 0 ROLE_MIRROR ROLE_MIRROR MODE_INSYNC STATUS_UP 6001 "2" "2" "/m" None;
   mkSeg 1 (-1) ROLE_PRIMARY ROLE_PRIMARY MODE_NOTINSYNC STATUS_UP 5432 "1" "1" "/c" None;
   mkSeg 2 0 ROLE_PRIMARY ROLE_PRIMARY MODE_INSYNC STATUS_UP 6000 "1" "1" "/p" None].
Definition prober_vars : backend_vars := mkVars true true 1 (-1) false 5.
Definition demo_session : session (list GpSegConfigEntry * gmap string string) :=
  mkSession (demo_rows, ∅) None None ∅ 1.
Definition is_Ok {A} (r : res A) : bool := match r with Ok _ => true | Err _ => false end.
Definition demo_found : list GpSegConfigEntry :=
  (λ c, set_hostip (Some ("10.0.0." +:+ hostname c)) c) <$> demo_rows.
Definition demo_components : Components :=
  match getCdbComponentInfo (CE := memory_env) prober_vars demo_session with
  | Ok (c, _) => c
  | Err _ => mkComponents [] [] 0 0 0 0 0 0 []
  end.

Lemma demo_infos :
  segment_infos demo_components ++ entry_infos demo_components =
  (λ '(c, n), set_hostPrimaryCount n (new_info (set_hostip (Some ("10.0.0." +:+ hostname c)) c))) <$>
    [(mkSeg 2 0 ROLE_PRIMARY ROLE_PRIMARY MODE_INSYNC STATUS_UP 6000 "1" "1" "/p" None, 2);
     (mkSeg 3 0 ROLE_MIRROR ROLE_MIRROR MODE_INSYNC STATUS_UP 6001 "2" "2" "/m" None, 0);
     (mkSeg 1 (-1) ROLE_PRIMARY ROLE_PRIMARY MODE_NOTINSYNC STATUS_UP 5432 "1" "1" "/c" None, 2)].
Proof. vm_compute. reflexivity. Qed.

Lemma demo_components_ok : components_ok demo_found demo_components.
Proof.
  constructor.
  - vm_compute. apply perm_swap.
  - by vm_compute.
  - split; vm_compute; repeat constructor; done.
  - replace (contents (segment_infos demo_components)) with [0; 0] by (vm_compute; reflexivity).
    replace (component_total_segments demo_components) with 1 by (vm_compute; reflexivity).
    intros i. rewrite !elem_of_cons, elem_of_nil. lia.
  - rewrite demo_infos. cbn [fmap list_fmap]. intros c Hc. rewrite !elem_of_cons, elem_of_nil in Hc.
    by destruct_or! Hc; subst.
  - rewrite demo_infos. cbn [fmap list_fmap]. intros c Hc. rewrite !elem_of_cons, elem_of_nil in Hc.
    by destruct_or! Hc; subst.
  - done.
Qed.

Lemma demo_paired : paired 2 demo_found.
Proof.
  constructor.
  - intros i Hi. vm_compute in Hi. assert (i = 0) as -> by set_solver. done.
  - intros i Hi. vm_compute in Hi. assert (i = 0) as -> by set_solver. done.
  - vm_compute. by repeat constructor.
  - vm_compute. eexists. split; [left|done].
Qed.

Section from_catalog.
Context {W : Type} `{CE : !ComponentsEnv W} (vars : backend_vars).

Lemma info_from_catalog (E : fault → Prop) (s : session W) :
  IsTransactionState vars = true →
  let rows := scan_gp_segment_configuration (se_env s) in
  (∀ c s, c ∈ erase <$> rows → wp (resolve_config vars c) (λ c' _, resolved c c') E s) →
  E (SegFault "entry_db_info") ∨ (length (entry_rows_of (erase <$> rows)) ≤ 2)%nat →
  (∀ e, E e ∨ (IS_HOT_STANDBY_QD vars = false ∧ valid_rows vars (erase <$> rows))) →
  wp (getCdbComponentInfo vars) (λ comps _, valid_rows vars rows ∧
    ∃ cs, Forall2 same_row rows cs ∧ components_ok cs comps) E s.
Proof.
  intros Htx rows HE1 HE2 HE3. unfold getCdbComponentInfo. rewrite Htx.
  apply (wp_bind _ _ _ _ s). unfold wp at 1, readGpSegConfigFromCatalog. simpl. fold rows erase.
  eapply wp_post; [by apply components_from_rows|]. intros comps s' (Hv & cs & Hcs & Hok).
  split; [by apply valid_rows_erase|]. exists cs. split; [by apply same_row_erase|done].
Qed.

(** the prober reads every valid configuration *)
Lemma info_total (s : session W) :
  IsTransactionState vars = true → am_ftsprobe vars = true → IS_HOT_STANDBY_QD vars = false →
  resolver_ok (W := W) → valid_rows vars (scan_gp_segment_configuration (se_env s)) →
  wp (getCdbComponentInfo vars)
    (λ comps _, ∃ cs, Forall2 same_row (scan_gp_segment_configuration (se_env s)) cs ∧ components_ok cs comps)
    (λ _, False) s.
Proof.
  intros Htx Ham Hhot Hres Hv%valid_rows_erase.
  eapply wp_post; [apply info_from_catalog; [done| |right; apply Hv|by right]|by intros comps s' [_ ?]].
  intros c s0 Hc. apply resolve_config_total; [done..|].
  pose proof (vr_hosts _ _ Hv) as Hh. rewrite Forall_forall in Hh. by apply Hh.
Qed.
End from_catalog.



(** Cdbcomponent_getComponentInfo finds the acting primary.  In a cluster where every
    content has one segment, or every content has two, and one of them is the acting
    primary, the lookup of a content returns the entry of its acting primary (of the
    coordinator for -1) and fails exactly for content ids outside -1 .. n-1. *)
Theorem getComponentInfo_primary {W} `{CE : !ComponentsEnv W} vars (s : session W) comps rows k
    contentId :
  cdb_component_dbs s = Some comps → components_ok rows comps → paired k rows →
  k = 1%nat ∨ k = 2%nat → IS_HOT_STANDBY_QD vars = false →
  match cdbcomponent_getComponentInfo vars contentId s with
  | Ok (p, s') =>
      s' = s ∧ -1 ≤ contentId < component_total_segments comps ∧
      ∃ c, at_pos p comps = Some c ∧ segindex (config c) = contentId ∧
           is_primary (config c) = true
  | Err _ => contentId < -1 ∨ component_total_segments comps ≤ contentId
  end.
Proof.
  intros Hs Hok Hpair Hk Hhot. unfold cdbcomponent_getComponentInfo, cdbcomponent_getCdbComponents.
  cbv [mbind M_bind get]. rewrite Hs. cbv [mret M_ret]. rewrite Hhot.
  destruct ((contentId <? -1) || (component_total_segments comps <=? contentId)) eqn:Hrange.
  { unfold elog_ERROR, throw. lia. }
  assert (-1 ≤ contentId < component_total_segments comps) as Hc by lia. clear Hrange.
  destruct (Z.eqb_spec contentId (-1)) as [->|Hne].
  { split_and!; [done|lia|lia|]. by eapply coordinator_first. }
  assert (0 ≤ contentId < component_total_segments comps) as Hc0 by lia.
  destruct (content_primary comps rows k Hok Hpair contentId Hc0) as (c & rest & Hof & Hseg & Hp).
  pose proof (length_segments comps rows k Hok Hpair ltac:(lia)) as Hlen.
  pose proof (segment_at comps rows k Hok Hpair contentId 0 Hc0 ltac:(lia)) as Hat.
  rewrite Hof in Hat. simpl in Hat.
  destruct Hk as [-> | ->].
  - rewrite (proj2 (Z.eqb_eq _ _)) by lia. split_and!; [done|lia|lia|]. exists c. split; [|done].
    simpl. rewrite <-Hat. f_equal. lia.
  - rewrite (proj2 (Z.eqb_neq _ _)) by lia.
    replace (2 * Z.to_nat contentId + 0)%nat with (Z.to_nat (2 * contentId)) in Hat by lia.
    rewrite Hat. cbv [deref mret M_ret]. unfold SEGMENT_IS_ACTIVE_PRIMARY. fold (is_primary (config c)).
    rewrite Hp. simpl. split_and!; [done|lia|lia|]. by exists c.
Qed.

Lemma getComponentInfo_primary_witness :
  let s := set_components (Some demo_components) demo_session in
  match cdbcomponent_getComponentInfo (CE := memory_env) prober_vars 0 s with
  | Ok (p, s') =>
      s' = s ∧ -1 ≤ 0 < component_total_segments demo_components ∧
      ∃ c, at_pos p demo_components = Some c ∧ segindex (config c) = 0 ∧
           is_primary (config c) = true
  | Err _ => 0 < -1 ∨ component_total_segments demo_components ≤ 0
  end.
Proof.
  exact (getComponentInfo_primary (CE := memory_env) prober_vars
    (set_components (Some demo_components) demo_session) demo_components demo_found 2 0
    eq_refl demo_components_ok demo_paired (or_intror eq_refl) eq_refl).
Defined.
