(* ===== verification/SegConfigDump.v ===== *)
(** * The dump of gp_segment_configuration

    What the prober writes to the dump file is what a backend outside of a transaction
    reads from it. *)

From stdpp Require Import pretty.
From S2P Require Import Prelude CLib Qsort QsortFacts FtsConfig CdbComponents CdbComponentsFacts.

(** ** One line *)

(** rows whose text survives: the names have no white space and fit the buffers *)
Record dumpable (c : GpSegConfigEntry) : Prop := {
  dp_dbid : - 2 ^ 15 ≤ dbid c < 2 ^ 15;
  dp_segindex : - 2 ^ 15 ≤ segindex c < 2 ^ 15;
  dp_port : - 2 ^ 31 ≤ port c < 2 ^ 31;
  dp_chars : is_space (role c) = false ∧ is_space (preferred_role c) = false ∧
             is_space (mode c) = false ∧ is_space (status c) = false;
  dp_words : Forall (λ w, no_space w = true ∧ w ≠ EmptyString) [hostname c; address c; datadir c];
  dp_hostname : (String.length (hostname c) < MAXHOSTNAMELEN)%nat;
  dp_address : (String.length (address c) < MAXHOSTNAMELEN)%nat;
  dp_datadir : (String.length (datadir c) < MAXPGPATH)%nat;
  dp_line : (String.length (dump_line c) < dump_buf_size)%nat;
}.

Lemma strip_strip t : strip_spaces (strip_spaces t) = strip_spaces t.
Proof. induction t as [|c t IH]; simpl; [done|]. destruct (is_space c) eqn:Hc; simpl; [done|by rewrite Hc]. Qed.

Lemma sscanf_space_dec ds z r :
  - 2 ^ 31 ≤ z < 2 ^ 31 → stops 10 r →
  sscanf (SSpace :: SDec :: ds) (String " " (fmt_d z +:+ r)) = VInt z :: sscanf ds r.
Proof.
  intros Hz Hr. change (sscanf (SDec :: ds) (strip_spaces (fmt_d z +:+ r)) = VInt z :: sscanf ds r).
  rewrite <-(sscanf_dec ds z r) by done. cbn [sscanf]. by rewrite strip_strip.
Qed.

Lemma sscanf_space_str ds w r :
  no_space w = true ∧ w ≠ EmptyString → ends_word r →
  sscanf (SSpace :: SStr :: ds) (String " " (w +:+ r)) = VStr w :: sscanf ds r.
Proof.
  intros [Hw Hne] Hr.
  change (sscanf (SStr :: ds) (strip_spaces (w +:+ r)) = VStr w :: sscanf ds r).
  rewrite strip_word by done. by apply sscanf_str.
Qed.

Lemma cons_text a t : String a EmptyString +:+ t = String a t.
Proof. done. Qed.

Lemma sscanf_line c :
  dumpable c → sscanf dump_format (dump_line c) =
    [VInt (dbid c); VInt (segindex c); VChar (role c); VChar (preferred_role c); VChar (mode c);
     VChar (status c); VInt (port c); VStr (hostname c); VStr (address c); VStr (datadir c)].
Proof.
  intros [Hd Hs Hp (Hr & Hpr & Hm & Hst) Hw _ _ _ _].
  apply Forall_cons in Hw as [Hwh Hw]. apply Forall_cons in Hw as [Hwa Hw].
  apply Forall_cons in Hw as [Hwd _].
  unfold dump_line, dump_format, fmt_c. rewrite !cons_text.
  rewrite sscanf_dec by (done || lia). rewrite sscanf_space_dec by (done || lia).
  rewrite !sscanf_space_char by done. rewrite sscanf_space_dec by done.
  by rewrite !sscanf_space_str by done.
Qed.

Lemma scan_line c : dumpable c → scan_dump_line (dump_line c) = Ok (set_hostip None c).
Proof.
  intros Hc. unfold scan_dump_line. rewrite sscanf_line by done.
  destruct Hc as [Hd Hs _ _ _ Hh Ha Hdir _].
  rewrite !(proj2 (Nat.leb_gt _ _)) by done. cbn [orb].
  by rewrite !swrap_id by (done || lia).
Qed.

(** ** Lines *)

Fixpoint no_newline (s : string) : bool :=
  match s with String c s' => negb (bool_decide (c = newline)) && no_newline s' | EmptyString => true end.

Lemma pieces_line size room t rest :
  no_newline t = true → (String.length t < room)%nat →
  fgets_pieces size room (t +:+ String newline rest) =
  (t +:+ String newline EmptyString) :: fgets_pieces size size rest.
Proof.
  revert room. induction t as [|c t IH]; intros room Ht Hr; simpl in *; [done|].
  apply andb_true_iff in Ht as [Hc Ht]. destruct (bool_decide (c = newline)); [done|].
  rewrite (proj2 (Nat.leb_gt _ _)) by lia. cbn [orb]. by rewrite IH by (done || lia).
Qed.

Lemma no_newline_app a b : no_newline (a +:+ b) = no_newline a && no_newline b.
Proof. induction a as [|c a IH]; simpl; [done|]. by rewrite IH, andb_assoc. Qed.

Lemma no_space_newline w : no_space w = true → no_newline w = true.
Proof.
  induction w as [|c w IH]; simpl; [done|]. intros [Hc Hw]%andb_true_iff. rewrite (IH Hw).
  case_bool_decide as Heq; [by subst|done].
Qed.

Lemma digit_newline x : (x < 10)%N → bool_decide (pretty_N_char x = newline) = false.
Proof.
  intros Hx.
  assert (x = 0 ∨ x = 1 ∨ x = 2 ∨ x = 3 ∨ x = 4 ∨ x = 5 ∨ x = 6 ∨ x = 7 ∨ x = 8 ∨ x = 9)%N
    as Hcases by lia. by destruct_or! Hcases; subst.
Qed.

Lemma no_newline_pretty_go x t : no_newline (pretty_N_go x t) = no_newline t.
Proof.
  revert t. induction (N.lt_wf_0 x) as [x _ IH]; intros t.
  destruct (decide (x = 0)%N) as [->|Hx]; [by rewrite pretty_N_go_0|].
  rewrite pretty_N_go_step by lia. rewrite IH by (apply N.div_lt; lia). simpl.
  by rewrite digit_newline by (apply N.mod_lt; lia).
Qed.

Lemma no_newline_pretty (x : N) : no_newline (pretty x) = true.
Proof. unfold pretty, pretty_N. case_decide; [done|]. apply no_newline_pretty_go. Qed.

Lemma no_newline_fmt_d z : no_newline (fmt_d z) = true.
Proof.
  destruct z as [|p|p]; [done|apply (no_newline_pretty (Npos p))|].
  change (no_newline (String "-" (pretty (Npos p))) = true). simpl. apply no_newline_pretty.
Qed.

Lemma no_newline_char c : is_space c = false → no_newline (fmt_c c) = true.
Proof. intros Hc. simpl. case_bool_decide; [by subst|done]. Qed.

Lemma dump_line_body c :
  dumpable c → ∃ body, dump_line c = body +:+ String newline EmptyString ∧ no_newline body = true.
Proof.
  intros [_ _ _ (Hr & Hpr & Hm & Hst) Hw _ _ _ _].
  apply Forall_cons in Hw as [[Hwh _] Hw]. apply Forall_cons in Hw as [[Hwa _] Hw].
  apply Forall_cons in Hw as [[Hwd _] _]. unfold dump_line.
  eexists (fmt_d (dbid c) +:+ " " +:+ fmt_d (segindex c) +:+ " " +:+ fmt_c (role c) +:+ " " +:+
    fmt_c (preferred_role c) +:+ " " +:+ fmt_c (mode c) +:+ " " +:+ fmt_c (status c) +:+ " " +:+
    fmt_d (port c) +:+ " " +:+ hostname c +:+ " " +:+ address c +:+ " " +:+ datadir c).
  split; [by rewrite !(assoc_L String.append)|].
  apply no_space_newline in Hwh, Hwa, Hwd. apply no_newline_char in Hr, Hpr, Hm, Hst.
  by rewrite !no_newline_app, !no_newline_fmt_d, Hr, Hpr, Hm, Hst, Hwh, Hwa, Hwd.
Qed.

Fixpoint dump_text (rows : list GpSegConfigEntry) : string :=
  match rows with [] => EmptyString | c :: rows => dump_line c +:+ dump_text rows end.

Lemma read_dump_text rows :
  Forall dumpable rows →
  scan_dump (fgets_pieces (dump_buf_size - 1) (dump_buf_size - 1) (dump_text rows)) = Ok (erase <$> rows).
Proof.
  induction 1 as [|c rows Hc _ IH]; [done|]. cbn [dump_text].
  destruct (dump_line_body c Hc) as (body & Hbody & Hnl).
  pose proof (dp_line _ Hc) as Hlen. pose proof (scan_line c Hc) as Hscan. rewrite Hbody in Hlen, Hscan |- *.
  rewrite string_length_app in Hlen. simpl String.length in Hlen.
  rewrite <-(assoc_L String.append), cons_text, pieces_line by (done || lia).
  cbn [scan_dump]. rewrite Hscan, IH. done.
Qed.

(** ** Writing and reading *)

(** A working disk: files hold what was written to them, [rename] moves the content, and
    none of the calls changes the catalog. *)
Record disk_ok {W} `{CE : !ComponentsEnv W} : Prop := {
  do_create : ∀ f w, (file_create f w).1 = true ∧ file_read f (file_create f w).2 = Some EmptyString;
  do_write : ∀ f t l w, file_read f w = Some t →
    (file_write f l w).1 = true ∧ file_read f (file_write f l w).2 = Some (t +:+ l);
  do_close : ∀ f w, file_read f (file_close f w) = file_read f w;
  do_rename : ∀ f g t w, file_read f w = Some t →
    (file_rename f g w).1 = true ∧ file_read g (file_rename f g w).2 = Some t;
  do_catalog : ∀ f w, scan_gp_segment_configuration (file_create f w).2 = scan_gp_segment_configuration w;
}.
Arguments disk_ok W {CE}.

Section dump.
Context {W : Type} `{CE : !ComponentsEnv W}.
Context (Hdisk : disk_ok W).

Lemma wp_env_run {A} (f : W → A * W) (Q : A → session W → Prop) E s :
  Q (f (se_env s)).1 (set_env (f (se_env s)).2 s) → wp (env_call f) Q E s.
Proof. unfold wp, env_call. by destruct (f (se_env s)). Qed.

Lemma write_configs_spec rows t (s : session W) :
  file_read GPSEGCONFIGDUMPFILETMP (se_env s) = Some t →
  wp (write_configs rows)
    (λ _ s', file_read GPSEGCONFIGDUMPFILETMP (se_env s') = Some (t +:+ dump_text rows)) (λ _, False) s.
Proof.
  revert t s. induction rows as [|c rows IH]; intros t s Ht; cbn [write_configs dump_text].
  { apply wp_ret. by rewrite string_app_nil. }
  apply wp_bind, wp_env_run. destruct (do_write Hdisk _ _ (dump_line c) _ Ht) as [-> Hr].
  rewrite (assoc_L String.append). by apply IH.
Qed.

Lemma write_dump_spec (s : session W) :
  wp writeGpSegConfigToFTSFiles
    (λ _ s', file_read GPSEGCONFIGDUMPFILE (se_env s') =
             Some (dump_text (erase <$> scan_gp_segment_configuration (se_env s)))) (λ _, False) s.
Proof.
  unfold writeGpSegConfigToFTSFiles. apply wp_bind, wp_env_run.
  destruct (do_create Hdisk GPSEGCONFIGDUMPFILETMP (se_env s)) as [-> Hr]. cbn [negb].
  apply wp_bind. unfold wp at 1, readGpSegConfigFromCatalog. simpl. rewrite (do_catalog Hdisk).
  eapply wp_seq; [by apply write_configs_spec|]. intros ? s1 Hs1. simpl in Hs1.
  apply wp_bind. unfold wp at 1, env_effect. apply wp_bind, wp_env_run. simpl.
  rewrite <-(do_close Hdisk) in Hs1.
  destruct (do_rename Hdisk GPSEGCONFIGDUMPFILETMP GPSEGCONFIGDUMPFILE _ _ Hs1) as [-> Hr2].
  by apply wp_ret.
Qed.
End dump.

Lemma dump_text_erase rows : dump_text (erase <$> rows) = dump_text rows.
Proof. induction rows as [|c rows IH]; [done|]. csimpl. by rewrite IH. Qed.


Lemma memory_disk_ok : disk_ok (list GpSegConfigEntry * gmap string string) (CE := memory_env).
Proof.
  constructor; simpl.
  - intros f w. by rewrite lookup_insert_eq.
  - intros f t l w Ht. rewrite Ht. split; [done|]. by rewrite lookup_alter_eq, Ht.
  - done.
  - intros f g t w Ht. rewrite Ht. simpl. by rewrite lookup_insert_eq.
  - done.
Qed.

Lemma demo_dumpable : Forall dumpable demo_rows.
Proof. repeat constructor; done || (vm_compute; lia). Qed.

