(* ===== verification/QEPool.v ===== *)
(** * The pool of query executors of a session ([src/backend/cdb/cdbutil.c],
    [src/backend/cdb/dispatcher/cdbconn.c])

    Each entry of the configuration has a list of idle and a list of active QEs.  The
    lists hold addresses of descriptors; a descriptor is allocated when a QE is created
    and freed when it is destroyed, and reading through the address of a freed one is a
    fault.  The connections, the shared segment status and the transaction manager are
    an environment, [QEEnv].  The counters are not bounded by their width: they count
    descriptors in memory. *)

From S2P Require Import Prelude CLib Qsort FtsConfig CdbComponents.

Inductive SegmentType := SEGMENTTYPE_EXPLICT_WRITER | SEGMENTTYPE_EXPLICT_READER | SEGMENTTYPE_ANY.
#[export] Instance SegmentType_eq_dec : EqDecision SegmentType.
Proof. solve_decision. Defined.

Class QEEnv (W : Type) := {
  proc_exit_inprogress : W → bool;
  (** by address of the descriptor *)
  cdbconn_isBadConnection : Z → W → bool;
  mop_high_watermark : Z → W → Z;
  cdbconn_discardResults : Z → Z → W → bool * W;
  cdbconn_disconnect : Z → W → W;
  (** the shared status of a dbid *)
  fts_probe_status : Z → W → Z;
  gp_vmem_protect_gang_cache_limit : W → Z;
  TempNamespaceOidIsValid : W → bool;
  markCurrentGxactWriterGangLost : W → W;
  (** the flag of libpq *)
  PQbypassConnCloseAtCancel : bool → W → W;
}.

Definition MAX_CACHED_1_GANGS : Z := 1.
Definition COORDINATOR_SEGMENT_ID : Z := -1.

Section pool.
Context {W : Type} `{CE : !ComponentsEnv W} `{QE : !QEEnv W} (vars : backend_vars).
Abbreviation SM := (M (session W)).

(** ** Access to the shared structures *)

Definition upd_at (p : info_pos) (f : ComponentInfo → ComponentInfo) (c : Components) : Components :=
  mkComponents
    (match p with SegmentAt i => alter f i (segment_infos c) | EntryAt _ => segment_infos c end)
    (match p with EntryAt i => alter f i (entry_infos c) | SegmentAt _ => entry_infos c end)
    (component_total_segments c) (fts_version c) (expand_version c) (total_numIdleQEs c)
    (total_numActiveQEs c) (qeCounter c) (freeCounterList c).

Definition upd_components (f : Components → Components) : SM unit :=
  s ← get;
  c ← deref "cdb_component_dbs" (cdb_component_dbs s);
  modify (set_components (Some (f c))).

Definition get_info (p : info_pos) : SM ComponentInfo :=
  s ← get;
  c ← deref "cdb_component_dbs" (cdb_component_dbs s);
  deref "cdbinfo" (at_pos p c).

Definition get_desc (d : Z) : SM SegmentDatabaseDescriptor :=
  s ← get;
  deref "segdbDesc" (descriptors s !! d).

Definition set_freelist (l : list Z) (c : ComponentInfo) : ComponentInfo :=
  mkCI (config c) (hostPrimaryCount c) l (numIdleQEs c) (activelist c) (numActiveQEs c).
Definition set_activelist (l : list Z) (c : ComponentInfo) : ComponentInfo :=
  mkCI (config c) (hostPrimaryCount c) (freelist c) (numIdleQEs c) l (numActiveQEs c).

Definition add_total_idle (n : Z) (c : Components) : Components :=
  mkComponents (segment_infos c) (entry_infos c) (component_total_segments c) (fts_version c)
    (expand_version c) (total_numIdleQEs c + n) (total_numActiveQEs c) (qeCounter c)
    (freeCounterList c).
Definition add_total_active (n : Z) (c : Components) : Components :=
  mkComponents (segment_infos c) (entry_infos c) (component_total_segments c) (fts_version c)
    (expand_version c) (total_numIdleQEs c) (total_numActiveQEs c + n) (qeCounter c)
    (freeCounterList c).

(** [INCR_COUNT]/[DECR_COUNT] of numIdleQEs and numActiveQEs *)
Definition add_idle (p : info_pos) (n : Z) (c : Components) : Components :=
  add_total_idle n (upd_at p (λ i, mkCI (config i) (hostPrimaryCount i) (freelist i)
    (numIdleQEs i + n) (activelist i) (numActiveQEs i)) c).
Definition add_active (p : info_pos) (n : Z) (c : Components) : Components :=
  add_total_active n (upd_at p (λ i, mkCI (config i) (hostPrimaryCount i) (freelist i)
    (numIdleQEs i) (activelist i) (numActiveQEs i + n)) c).

Definition set_counters (n : Z) (l : list Z) (c : Components) : Components :=
  mkComponents (segment_infos c) (entry_infos c) (component_total_segments c) (fts_version c)
    (expand_version c) (total_numIdleQEs c) (total_numActiveQEs c) n l.

(** ** Descriptors *)

Definition nextQEIdentifer : SM Z :=
  s ← get;
  c ← deref "cdb_component_dbs" (cdb_component_dbs s);
  match freeCounterList c with
  | [] => _ ← upd_components (set_counters (qeCounter c + 1) []); mret (qeCounter c)
  | r :: rest => _ ← upd_components (set_counters (qeCounter c) rest); mret r
  end.

Definition set_descriptors (ds : gmap Z SegmentDatabaseDescriptor) (next : Z) (s : session W)
    : session W :=
  mkSession (se_env s) (segment_ip_cache_htab s) (cdb_component_dbs s) ds next.

Definition cdbconn_createSegmentDescriptor (p : info_pos) (ident : Z) (writer : bool) : SM Z :=
  c ← get_info p;
  s ← get;
  let desc := mkDesc p (segindex (config c)) ident writer in
  _ ← modify (set_descriptors (<[next_address s := desc]> (descriptors s)) (next_address s + 1));
  mret (next_address s).

Definition cdbconn_termSegmentDescriptor (d : Z) : SM unit :=
  desc ← get_desc d;
  _ ← upd_components (λ c, set_counters (qeCounter c) (freeCounterList c ++ [identifier desc]) c);
  _ ← env_effect (cdbconn_disconnect d);
  modify (λ s, set_descriptors (delete d (descriptors s)) (next_address s) s).

(** ** Allocation *)

(** the first idle QE of the wanted type, and the list without it *)
Fixpoint pick_idle (segmentType : SegmentType) (ds : gmap Z SegmentDatabaseDescriptor)
    (l : list Z) : res (option (Z * list Z)) :=
  match l with
  | [] => Ok None
  | d :: rest =>
      match ds !! d with
      | None => Err (SegFault "segdbDesc")
      | Some tmp =>
          if (bool_decide (segmentType = SEGMENTTYPE_EXPLICT_WRITER) && negb (isWriter tmp))
             || (bool_decide (segmentType = SEGMENTTYPE_EXPLICT_READER) && isWriter tmp)
          then
            r ← pick_idle segmentType ds rest;
            mret (match r with Some (x, rest') => Some (x, d :: rest') | None => None end)
          else Ok (Some (d, rest))
      end
  end.

Definition cdbcomponent_allocateIdleQE (contentId : Z) (segmentType : SegmentType) : SM Z :=
  p ← cdbcomponent_getComponentInfo vars contentId;
  cdbinfo ← get_info p;
  s ← get;
  idle ← lift_res (pick_idle segmentType (descriptors s) (freelist cdbinfo));
  segdbDesc ←
    (match idle with
     | Some (d, rest) =>
         _ ← upd_components (λ c, add_idle p (-1) (upd_at p (set_freelist rest) c));
         mret d
     | None =>
         let writer :=
           if contentId =? -1 then false
           else (numIdleQEs cdbinfo =? 0) && (numActiveQEs cdbinfo =? 0) in
         ident ← nextQEIdentifer;
         cdbconn_createSegmentDescriptor p ident writer
     end);
  _ ← upd_components (λ c, add_active p 1
        (upd_at p (λ i, set_activelist (segdbDesc :: activelist i) i) c));
  mret segdbDesc.

(** ** Recycling *)

Definition FtsIsSegmentDown (c : ComponentInfo) : SM bool :=
  if segindex (config c) =? COORDINATOR_SEGMENT_ID then mret false
  else st ← env_ask (fts_probe_status (dbid (config c))); mret (FTS_STATUS_IS_DOWN st).

(** [FtsTestSegmentDBIsDown] *)
Fixpoint FtsTestSegmentDBIsDown (segdbDesc : list Z) : SM bool :=
  match segdbDesc with
  | [] => mret false
  | d :: rest =>
      desc ← get_desc d;
      segInfo ← get_info (segment_database_info desc);
      down ← FtsIsSegmentDown segInfo;
      if (down : bool) then mret true else FtsTestSegmentDBIsDown rest
  end.

Definition cleanupQE (d : Z) : SM bool :=
  exiting ← env_ask proc_exit_inprogress;
  if (exiting : bool) then mret false
  else
    bad ← env_ask (cdbconn_isBadConnection d);
    if (bad : bool) then mret false
    else
      desc ← get_desc d;
      info ← get_info (segment_database_info desc);
      down ← FtsIsSegmentDown info;
      if (down : bool) then mret false
      else
        mark ← env_ask (mop_high_watermark d);
        limit ← env_ask gp_vmem_protect_gang_cache_limit;
        if negb (isWriter desc) && (limit <? Z.shiftr mark 20) then mret false
        else env_call (cdbconn_discardResults d 20).

(** removes the first cell that holds [d] *)
Fixpoint list_delete_ptr (l : list Z) (d : Z) : list Z :=
  match l with
  | [] => []
  | x :: rest => if x =? d then rest else x :: list_delete_ptr rest d
  end.

(** readers go behind the leading writers *)
Fixpoint insert_reader (d : Z) (ds : gmap Z SegmentDatabaseDescriptor) (l : list Z)
    : res (list Z) :=
  match l with
  | [] => Ok [d]
  | x :: rest =>
      match ds !! x with
      | None => Err (SegFault "segdbDesc")
      | Some desc =>
          if isWriter desc then r ← insert_reader d ds rest; mret (x :: r)
          else Ok (d :: l)
      end
  end.

Definition destroy_segdb (d : Z) (writer : bool) : SM unit :=
  _ ← cdbconn_termSegmentDescriptor d;
  if writer then env_effect markCurrentGxactWriterGangLost else mret tt.

Definition cdbcomponent_recycleIdleQE (d : Z) (forceDestroy : bool) : SM unit :=
  desc ← get_desc d;
  let p := segment_database_info desc in
  _ ← upd_components (λ c, add_active p (-1)
        (upd_at p (λ i, set_activelist (list_delete_ptr (activelist i) d) i) c));
  clean ← (if forceDestroy then mret false else cleanupQE d);
  if negb clean then destroy_segdb d (isWriter desc)
  else
    cdbinfo ← get_info p;
    let maxLen := if desc_segindex desc =? -1 then MAX_CACHED_1_GANGS
                  else gp_cached_gang_threshold vars in
    if negb (isWriter desc) && (maxLen <=? Z.of_nat (length (freelist cdbinfo))) then
      destroy_segdb d (isWriter desc)
    else
      s ← get;
      l ← (if isWriter desc then mret (d :: freelist cdbinfo)
           else lift_res (insert_reader d (descriptors s) (freelist cdbinfo)));
      upd_components (λ c, add_idle p 1 (upd_at p (set_freelist l) c)).

(** ** Cleaning up *)

(** [curItem] runs over the rest of the list; [kept] are the cells before it *)
Fixpoint cleanup_idle (p : info_pos) (includeWriter : bool) (kept rest : list Z) : SM unit :=
  match rest with
  | [] => mret tt
  | d :: rest =>
      desc ← get_desc d;
      if isWriter desc && negb includeWriter then cleanup_idle p includeWriter (kept ++ [d]) rest
      else
        _ ← upd_components (λ c, add_idle p (-1) (upd_at p (set_freelist (kept ++ rest)) c));
        _ ← cdbconn_termSegmentDescriptor d;
        cleanup_idle p includeWriter kept rest
  end.

Definition cleanupComponentIdleQEs (p : info_pos) (includeWriter : bool) : SM unit :=
  cdi ← get_info p;
  cleanup_idle p includeWriter [] (freelist cdi).

Fixpoint cleanup_positions (ps : list info_pos) (includeWriter : bool) : SM unit :=
  match ps with
  | [] => mret tt
  | p :: ps => _ ← cleanupComponentIdleQEs p includeWriter; cleanup_positions ps includeWriter
  end.

Definition positions (c : Components) : list info_pos :=
  (SegmentAt <$> seq 0 (length (segment_infos c))) ++ (EntryAt <$> seq 0 (length (entry_infos c))).

Definition cdbcomponent_cleanupIdleQEs (includeWriter : bool) : SM unit :=
  s ← get;
  match cdb_component_dbs s with
  | None => mret tt
  | Some c =>
      _ ← cleanup_positions (positions c) includeWriter;
      env_effect (PQbypassConnCloseAtCancel false)
  end.

(** deleting the memory context frees every descriptor *)
Definition cdbcomponent_destroyCdbComponents : SM unit :=
  _ ← modify (set_ip_cache None);
  _ ← cdbcomponent_cleanupIdleQEs true;
  modify (λ s, set_components None (set_descriptors ∅ (next_address s) s)).

(** as in [cdbcomponent_getCdbComponents], PG_CATCH is not represented *)
Definition cdbcomponent_updateCdbComponents : SM unit :=
  ftsVersion ← env_ask fts_status_version;
  expandVersion ← env_ask GetGpExpandVersion;
  if am_ftsprobe vars then mret tt
  else
    s ← get;
    match cdb_component_dbs s with
    | None =>
        c ← getCdbComponentInfo vars;
        e ← env_ask GetGpExpandVersion;
        modify (set_components (Some (set_versions ftsVersion e c)))
    | Some c =>
        if negb (fts_version c =? ftsVersion) || negb (expand_version c =? expandVersion) then
          temp ← env_ask TempNamespaceOidIsValid;
          if (temp : bool) then mret tt
          else
            _ ← cdbcomponent_destroyCdbComponents;
            c ← getCdbComponentInfo vars;
            modify (set_components (Some (set_versions ftsVersion expandVersion c)))
        else mret tt
    end.

Definition cdbcomponent_qesExist : SM bool :=
  s ← get;
  mret (match cdb_component_dbs s with
        | None => false
        | Some c => (0 <? total_numIdleQEs c) || (0 <? total_numActiveQEs c)
        end).

Definition cdbcomponent_activeQEsExist : SM bool :=
  s ← get;
  mret (match cdb_component_dbs s with
        | None => false
        | Some c => 0 <? total_numActiveQEs c
        end).
End pool.
