(* ===== verification/QEPoolFacts.v ===== *)
(** * The pool of query executors is consistent

    An invariant of the idle and active lists, the counters, the identifiers and the
    allocated descriptors, kept by every operation of [QEPool.v]. *)

From S2P Require Import Prelude CLib Qsort QsortFacts FtsConfig CdbComponents CdbComponentsFacts QEPool.

(** ** Replacing one entry of the configuration *)

Definition lsum (g : ComponentInfo → Z) (l : list ComponentInfo) : Z := foldr (λ x n, g x + n) 0 l.
Definition sum_over (g : ComponentInfo → Z) (c : Components) : Z :=
  lsum g (segment_infos c) + lsum g (entry_infos c).

Lemma lsum_alter g f k l x :
  l !! k = Some x → lsum g (alter f k l) = lsum g l - g x + g (f x).
Proof.
  revert k. induction l as [|y l IH]; intros [|k] Hk; simplify_eq/=; [lia|].
  change (g y + lsum g (alter f k l) = g y + lsum g l - g x + g (f x)). rewrite (IH k Hk). lia.
Qed.

(** [c'] is [c] with [i'] for [i] at [p]; the totals move with the entry *)
Record replaced (p : info_pos) (i i' : ComponentInfo) (c c' : Components) : Prop := {
  rp_old : at_pos p c = Some i;
  rp_new : ∀ q, at_pos q c' = if decide (q = p) then Some i' else at_pos q c;
  rp_sum : ∀ g, sum_over g c' = sum_over g c - g i + g i';
  rp_idle : total_numIdleQEs c' - total_numIdleQEs c = numIdleQEs i' - numIdleQEs i;
  rp_active : total_numActiveQEs c' - total_numActiveQEs c = numActiveQEs i' - numActiveQEs i;
  rp_config : config i' = config i;
}.

Lemma at_pos_upd p f c q :
  at_pos q (upd_at p f c) = if decide (q = p) then f <$> at_pos p c else at_pos q c.
Proof.
  destruct p as [k|k], q as [j|j]; simpl; try done; case_decide as H; simplify_eq;
    rewrite ?list_lookup_alter_eq, ?list_lookup_alter_ne by naive_solver; done.
Qed.

Lemma sum_over_upd g p f c i :
  at_pos p c = Some i → sum_over g (upd_at p f c) = sum_over g c - g i + g (f i).
Proof.
  unfold sum_over. destruct p as [k|k]; simpl; intros Hk; rewrite (lsum_alter g f k _ _ Hk); lia.
Qed.

Lemma replaced_trans p i i1 i2 c c1 c2 :
  replaced p i i1 c c1 → replaced p i1 i2 c1 c2 → replaced p i i2 c c2.
Proof.
  intros [Ho Hn Hs Hid Hac Hc] [Ho2 Hn2 Hs2 Hid2 Hac2 Hc2].
  constructor; try lia; try congruence.
  - intros q. rewrite Hn2. case_decide; [done|]. rewrite Hn. by case_decide.
  - intros g. rewrite Hs2, Hs. lia.
Qed.

Lemma replaced_upd p i f c :
  at_pos p c = Some i → numIdleQEs (f i) = numIdleQEs i → numActiveQEs (f i) = numActiveQEs i →
  config (f i) = config i → replaced p i (f i) c (upd_at p f c).
Proof.
  intros Hi Hid Hac Hc. constructor; simpl; try lia; try done.
  - intros q. by rewrite at_pos_upd, Hi.
  - intros g. by apply sum_over_upd.
Qed.

Definition with_idle (n : Z) (i : ComponentInfo) : ComponentInfo :=
  mkCI (config i) (hostPrimaryCount i) (freelist i) (numIdleQEs i + n) (activelist i) (numActiveQEs i).
Definition with_active (n : Z) (i : ComponentInfo) : ComponentInfo :=
  mkCI (config i) (hostPrimaryCount i) (freelist i) (numIdleQEs i) (activelist i) (numActiveQEs i + n).

Lemma replaced_idle p i n c : at_pos p c = Some i → replaced p i (with_idle n i) c (add_idle p n c).
Proof.
  intros Hi. constructor; simpl; try lia; try done.
  - intros q. change (at_pos q (upd_at p (with_idle n) c) = if decide (q = p) then Some (with_idle n i) else at_pos q c).
    by rewrite at_pos_upd, Hi.
  - intros g. apply (sum_over_upd g p (with_idle n) c i Hi).
Qed.

Lemma replaced_active p i n c : at_pos p c = Some i → replaced p i (with_active n i) c (add_active p n c).
Proof.
  intros Hi. constructor; simpl; try lia; try done.
  - intros q. change (at_pos q (upd_at p (with_active n) c) = if decide (q = p) then Some (with_active n i) else at_pos q c).
    by rewrite at_pos_upd, Hi.
  - intros g. apply (sum_over_upd g p (with_active n) c i Hi).
Qed.

Lemma replaced_counters p i i' c c' n l :
  replaced p i i' c c' → replaced p i i' c (set_counters n l c').
Proof. by intros []. Qed.

(** the updates the operations make *)
Lemma replaced_free p i l n c :
  at_pos p c = Some i →
  replaced p i (with_idle n (set_freelist l i)) c (add_idle p n (upd_at p (set_freelist l) c)).
Proof.
  intros Hi. eapply replaced_trans; [by apply (replaced_upd p i (set_freelist l))|].
  apply replaced_idle. rewrite at_pos_upd, decide_True, Hi by done. done.
Qed.

Lemma replaced_act p i g n c :
  at_pos p c = Some i →
  replaced p i (with_active n (set_activelist (g (activelist i)) i)) c
    (add_active p n (upd_at p (λ x, set_activelist (g (activelist x)) x) c)).
Proof.
  intros Hi. eapply replaced_trans.
  - by apply (replaced_upd p i (λ x, set_activelist (g (activelist x)) x)).
  - apply replaced_active. rewrite at_pos_upd, decide_True, Hi by done. done.
Qed.

(** ** The invariant *)

Definition writers (ds : gmap Z SegmentDatabaseDescriptor) (l : list Z) : list Z :=
  filter (λ d, isWriter <$> ds !! d = Some true) l.

Definition qes (i : ComponentInfo) : list Z := freelist i ++ activelist i.

(** one entry: its QEs are allocated descriptors of this entry, each in one list once;
    the counters are right; there is at most one writer, none on the entry databases, and
    an idle writer is the head of its list *)
Record info_ok (ds : gmap Z SegmentDatabaseDescriptor) (p : info_pos) (i : ComponentInfo) : Prop := {
  io_desc : ∀ d, d ∈ qes i → ∃ desc, ds !! d = Some desc ∧ segment_database_info desc = p ∧
    desc_segindex desc = segindex (config i);
  io_nodup : NoDup (qes i);
  io_idle : numIdleQEs i = Z.of_nat (length (freelist i));
  io_active : numActiveQEs i = Z.of_nat (length (activelist i));
  io_writer : (length (writers ds (qes i)) ≤ 1)%nat;
  io_head : ∀ d rest, freelist i = d :: rest → writers ds rest = [];
  io_entry : (∃ k, p = EntryAt k) → writers ds (qes i) = [];
}.

Definition identifiers (ds : gmap Z SegmentDatabaseDescriptor) : list Z :=
  (identifier ∘ snd) <$> map_to_list ds.

Record pool_inv (ds : gmap Z SegmentDatabaseDescriptor) (next : Z) (c : Components) : Prop := {
  pi_infos : ∀ p i, at_pos p c = Some i → info_ok ds p i;
  pi_owner : ∀ d desc, ds !! d = Some desc →
    ∃ i, at_pos (segment_database_info desc) c = Some i ∧ d ∈ qes i;
  pi_idle : total_numIdleQEs c = sum_over numIdleQEs c;
  pi_active : total_numActiveQEs c = sum_over numActiveQEs c;
  pi_ids : identifiers ds ++ freeCounterList c ≡ₚ seqZ 0 (qeCounter c);
  pi_counter : 0 ≤ qeCounter c;
  pi_address : ∀ d, is_Some (ds !! d) → d < next;
}.

Lemma writers_agree ds ds' l :
  (∀ d, d ∈ l → ds' !! d = ds !! d) → writers ds' l = writers ds l.
Proof.
  induction l as [|x l IH]; intros Hd; [done|]. unfold writers in *. rewrite !filter_cons, IH.
  - by rewrite Hd by left.
  - intros d Hin. apply Hd. by right.
Qed.

(** the other entries do not notice a change at [p] *)
Lemma info_ok_other ds ds' q j :
  info_ok ds q j → (∀ d desc, ds !! d = Some desc → segment_database_info desc = q → ds' !! d = Some desc) →
  info_ok ds' q j.
Proof.
  intros [Hd Hn Hi Ha Hw Hh He] Hds.
  assert (∀ d, d ∈ qes j → ds' !! d = ds !! d) as Hsame.
  { intros d Hin. destruct (Hd d Hin) as (desc & Hl & Hp & _). by rewrite Hl, (Hds d desc). }
  constructor; try done.
  - intros d Hin. destruct (Hd d Hin) as (desc & Hl & Hp & Hs). exists desc. split_and!; [|done..]. by apply Hds.
  - by rewrite (writers_agree ds).
  - intros d rest Hf. rewrite (writers_agree ds); [by eapply Hh|]. intros x Hx. apply Hsame.
    unfold qes. rewrite Hf. apply elem_of_app. left. by right.
  - intros Hent. rewrite (writers_agree ds) by done. by apply He.
Qed.

Lemma pool_inv_replace ds ds' next next' p i i' c c' :
  pool_inv ds next c → replaced p i i' c c' → info_ok ds' p i' →
  (∀ q d desc, q ≠ p → ds !! d = Some desc → segment_database_info desc = q → ds' !! d = Some desc) →
  (∀ d desc, ds' !! d = Some desc →
     segment_database_info desc = p ∧ d ∈ qes i' ∨ segment_database_info desc ≠ p ∧ ds !! d = Some desc) →
  identifiers ds' ++ freeCounterList c' ≡ₚ seqZ 0 (qeCounter c') → 0 ≤ qeCounter c' →
  (∀ d, is_Some (ds' !! d) → d < next') →
  pool_inv ds' next' c'.
Proof.
  intros [Hin Hown Hid Hac Hids Hcnt Had] Hr Hok Hother Hback Hids' Hcnt' Had'.
  constructor; [| | | |done|done|done].
  - intros q j. rewrite (rp_new _ _ _ _ _ Hr). case_decide as Hq; [by intros [= <-]; subst|].
    intros Hj. eapply info_ok_other; [by apply Hin|]. intros d desc Hd Hs. eapply Hother; eauto.
  - intros d desc Hd. destruct (Hback d desc Hd) as [[Hp Hq]|[Hp Hd0]].
    + exists i'. by rewrite (rp_new _ _ _ _ _ Hr), decide_True by done.
    + rewrite (rp_new _ _ _ _ _ Hr), decide_False by done. by apply Hown.
  - rewrite (rp_sum _ _ _ _ _ Hr), <-Hid. pose proof (rp_idle _ _ _ _ _ Hr). lia.
  - rewrite (rp_sum _ _ _ _ _ Hr), <-Hac. pose proof (rp_active _ _ _ _ _ Hr). lia.
Qed.

(** ** Changes of one entry *)

Lemma writers_perm ds l l' : l ≡ₚ l' → writers ds l ≡ₚ writers ds l'.
Proof. intros Hp. unfold writers. by rewrite Hp. Qed.

Lemma writers_sub ds (l l' : list Z) : l ⊆ l' → writers ds l' = [] → writers ds l = [].
Proof.
  intros Hs Hw. apply filter_none. intros x Hx Hx'.
  assert (x ∈ writers ds l') as Hin; [|rewrite Hw in Hin; by apply elem_of_nil in Hin].
  apply list_elem_of_filter. split; [done|]. by apply Hs.
Qed.

Lemma sublist_tail {A} (x y : A) l l' : x :: l `sublist_of` y :: l' → l `sublist_of` l'.
Proof.
  intros Hs. inversion Hs as [|? ? ? H|? ? ? H]; subst; [done|].
  etrans; [|exact H]. by apply sublist_cons.
Qed.

Lemma head_sublist ds l l' :
  l `sublist_of` l' → (∀ d rest, l' = d :: rest → writers ds rest = []) →
  ∀ d rest, l = d :: rest → writers ds rest = [].
Proof.
  intros Hs Hh d rest ->. destruct l' as [|x t]; [by apply sublist_nil_r in Hs|].
  eapply writers_sub; [|by eapply Hh]. by eapply sublist_subseteq, sublist_tail.
Qed.

Lemma info_ok_perm ds p i i' :
  info_ok ds p i → qes i' ≡ₚ qes i → config i' = config i →
  numIdleQEs i' = Z.of_nat (length (freelist i')) → numActiveQEs i' = Z.of_nat (length (activelist i')) →
  (∀ d rest, freelist i' = d :: rest → writers ds rest = []) → info_ok ds p i'.
Proof.
  intros [Hd Hn Hi Ha Hw Hh He] Hp Hc Hi' Ha' Hh'. constructor; try done.
  - intros d. rewrite Hp, Hc. apply Hd.
  - by rewrite Hp.
  - by rewrite (writers_perm _ _ _ Hp).
  - intros Hent. apply Permutation_nil_r. by rewrite (writers_perm _ _ _ Hp), He.
Qed.

Lemma info_ok_remove ds p i i' d :
  info_ok ds p i → qes i ≡ₚ d :: qes i' → config i' = config i →
  numIdleQEs i' = Z.of_nat (length (freelist i')) → numActiveQEs i' = Z.of_nat (length (activelist i')) →
  freelist i' `sublist_of` freelist i → info_ok (delete d ds) p i'.
Proof.
  intros [Hd Hn Hi Ha Hw Hh He] Hp Hc Hi' Ha' Hs.
  assert (NoDup (d :: qes i')) as Hnd by (by rewrite <-Hp). apply NoDup_cons in Hnd as [Hnin Hnd].
  assert (∀ x, x ∈ qes i' → delete d ds !! x = ds !! x) as Hsame.
  { intros x Hx. apply lookup_delete_ne. by intros ->. }
  constructor; try done.
  - intros x Hx. rewrite Hsame, Hc by done. apply Hd. rewrite Hp. by right.
  - rewrite (writers_agree ds) by done. etrans; [|exact Hw]. rewrite (writers_perm _ _ _ Hp).
    unfold writers. rewrite filter_cons. case_decide; simpl; lia.
  - intros x rest Hf. rewrite (writers_agree ds); [by eapply head_sublist|].
    intros y Hy. apply Hsame. unfold qes. rewrite Hf. apply elem_of_app. left. by right.
  - intros Hent. rewrite (writers_agree ds) by done. eapply writers_sub; [|by apply He].
    intros x Hx. rewrite Hp. by right.
Qed.

Lemma info_ok_add ds p i i' d desc :
  info_ok ds p i → ds !! d = None → qes i' ≡ₚ d :: qes i → config i' = config i →
  freelist i' = freelist i → numIdleQEs i' = numIdleQEs i →
  numActiveQEs i' = Z.of_nat (length (activelist i')) →
  segment_database_info desc = p → desc_segindex desc = segindex (config i) →
  (isWriter desc = true → qes i = [] ∧ ∀ k, p ≠ EntryAt k) →
  info_ok (<[d := desc]> ds) p i'.
Proof.
  intros [Hd Hn Hi Ha Hw Hh He] Hfresh Hp Hc Hf Hi' Ha' Hdp Hds Hwr.
  assert (d ∉ qes i) as Hnin by (intros Hin; destruct (Hd d Hin) as (? & ? & _); congruence).
  assert (∀ x, x ∈ qes i → <[d := desc]> ds !! x = ds !! x) as Hsame.
  { intros x Hx. apply lookup_insert_ne. by intros <-. }
  assert (writers (<[d := desc]> ds) (qes i') ≡ₚ (if isWriter desc then [d] else []) ++ writers ds (qes i)) as Hws.
  { rewrite (writers_perm _ _ _ Hp), <-(writers_agree ds (<[d := desc]> ds)) by done. unfold writers.
    rewrite filter_cons, lookup_insert_eq. simpl. by destruct (isWriter desc); case_decide. }
  constructor.
  - intros x. rewrite Hp, Hc. intros [->|Hx]%elem_of_cons; [|by rewrite Hsame by done; apply Hd].
    exists desc. by rewrite lookup_insert_eq.
  - rewrite Hp. by constructor.
  - by rewrite Hi', Hf.
  - done.
  - rewrite Hws. destruct (isWriter desc); [|done]. destruct (Hwr eq_refl) as [-> _]. simpl. lia.
  - intros x rest. rewrite Hf. intros Hfr. rewrite (writers_agree ds); [by eapply Hh|].
    intros y Hy. apply Hsame. unfold qes. rewrite Hfr. apply elem_of_app. left. by right.
  - intros Hent. apply Permutation_nil_r. rewrite Hws, He by done.
    destruct (isWriter desc); [|done]. destruct Hent as [k Hk], (Hwr eq_refl) as [_ Hne]. by destruct (Hne k).
Qed.

(** ** The list operations *)

Definition suitable (ty : SegmentType) (desc : SegmentDatabaseDescriptor) : bool :=
  match ty with
  | SEGMENTTYPE_EXPLICT_WRITER => isWriter desc
  | SEGMENTTYPE_EXPLICT_READER => negb (isWriter desc)
  | SEGMENTTYPE_ANY => true
  end.

Definition suits ty (ds : gmap Z SegmentDatabaseDescriptor) (d : Z) : Prop :=
  suitable ty <$> ds !! d = Some true.

Lemma pick_idle_spec ty ds l :
  (∀ d, d ∈ l → is_Some (ds !! d)) →
  ∃ r, pick_idle ty ds l = Ok r ∧
    match r with
    | None => ∀ d, d ∈ l → ¬ suits ty ds d
    | Some (d, rest) => ∃ l1 l2, l = l1 ++ d :: l2 ∧ rest = l1 ++ l2 ∧ suits ty ds d ∧
        ∀ x, x ∈ l1 → ¬ suits ty ds x
    end.
Proof.
  induction l as [|d l IH]; intros Hl; cbn [pick_idle].
  { exists None. split; [done|]. by intros d ?%elem_of_nil. }
  destruct (Hl d ltac:(left)) as [desc Hd]. rewrite Hd.
  assert (((bool_decide (ty = SEGMENTTYPE_EXPLICT_WRITER) && negb (isWriter desc))
     || (bool_decide (ty = SEGMENTTYPE_EXPLICT_READER) && isWriter desc)) = negb (suitable ty desc)) as ->.
  { destruct ty; simpl; by destruct (isWriter desc). }
  destruct (suitable ty desc) eqn:Hs; cbn [negb].
  { exists (Some (d, l)). split; [done|]. exists [], l. split_and!; [done..| |by intros x ?%elem_of_nil].
    unfold suits. by rewrite Hd, <-Hs. }
  destruct IH as (r & -> & Hr); [intros x Hx; apply Hl; by right|]. cbn [mbind res_bind].
  assert (¬ suits ty ds d) as Hns by (unfold suits; rewrite Hd; simpl; congruence).
  destruct r as [[x rest]|]; eexists; (split; [done|]); simpl.
  - destruct Hr as (l1 & l2 & -> & -> & ? & ?). exists (d :: l1), l2. split_and!; [done..|].
    by intros y [->|?]%elem_of_cons; auto.
  - by intros y [->|?]%elem_of_cons; auto.
Qed.

Lemma list_delete_ptr_perm l d : d ∈ l → l ≡ₚ d :: list_delete_ptr l d.
Proof.
  induction l as [|x l IH]; intros Hd; [by apply elem_of_nil in Hd|]. simpl.
  destruct (Z.eqb_spec x d) as [->|Hne]; [done|].
  apply elem_of_cons in Hd as [?|Hd]; [congruence|]. rewrite (IH Hd) at 1. apply perm_swap.
Qed.

Lemma insert_reader_spec d ds l :
  (∀ x, x ∈ l → is_Some (ds !! x)) → isWriter <$> ds !! d = Some false →
  (∀ x rest, l = x :: rest → writers ds rest = []) →
  ∃ l', insert_reader d ds l = Ok l' ∧ l' ≡ₚ d :: l ∧ ∀ x rest, l' = x :: rest → writers ds rest = [].
Proof.
  intros Hl Hd Hh. destruct l as [|x t]; cbn [insert_reader].
  { exists [d]. split_and!; [done..|]. by intros ?? [= <- <-]. }
  destruct (Hl x ltac:(left)) as [desc Hx]. rewrite Hx. specialize (Hh x t eq_refl).
  assert (writers ds [d] = []) as Hdw.
  { unfold writers. rewrite filter_cons_False; [done|]. rewrite Hd. congruence. }
  destruct (isWriter desc) eqn:Hw.
  2:{ exists (d :: x :: t). split_and!; [done..|]. intros ?? [= <- <-]. unfold writers in *.
      rewrite filter_cons_False; [done|]. rewrite Hx. simpl. congruence. }
  assert (∃ l', insert_reader d ds t = Ok l' ∧ l' ≡ₚ d :: t) as (l' & -> & Hp).
  { destruct t as [|y t]; cbn [insert_reader]; [by exists [d]|].
    destruct (Hl y ltac:(right; left)) as [dy Hy]. rewrite Hy.
    assert (isWriter dy = false) as ->; [|by exists (d :: y :: t)].
    destruct (isWriter dy) eqn:Hwy; [|done]. exfalso. unfold writers in Hh.
    rewrite filter_cons_True in Hh; [done|]. rewrite Hy. simpl. congruence. }
  cbn [mbind res_bind]. exists (x :: l'). split_and!; [done|rewrite Hp; apply perm_swap|].
  intros ?? [= <- <-]. eapply Permutation_nil_r. rewrite (writers_perm _ _ _ Hp).
  change (d :: t) with ([d] ++ t). unfold writers in *. by rewrite filter_app, Hdw, Hh.
Qed.

(** ** The operations keep the invariant *)

Section operations.
Context {W : Type} `{CE : !ComponentsEnv W} `{QE : !QEEnv W} (vars : backend_vars).
Implicit Types s : session W.

Definition pool_ok s : Prop :=
  ∃ c, cdb_component_dbs s = Some c ∧ pool_inv (descriptors s) (next_address s) c.

(** the pool of [s'] is the one of [s] *)
Definition same_pool s s' : Prop :=
  cdb_component_dbs s' = cdb_component_dbs s ∧ descriptors s' = descriptors s ∧
  next_address s' = next_address s.

Lemma wp_get_desc d desc (Q : _ → session W → Prop) E s :
  descriptors s !! d = Some desc → Q desc s → wp (get_desc d) Q E s.
Proof. intros Hd HQ. cbv [wp get_desc mbind M_bind get]. by rewrite Hd. Qed.

Lemma wp_get_info p c i (Q : _ → session W → Prop) E s :
  cdb_component_dbs s = Some c → at_pos p c = Some i → Q i s → wp (get_info p) Q E s.
Proof. intros Hc Hi HQ. cbv [wp get_info mbind M_bind get]. rewrite Hc. simpl. by rewrite Hi. Qed.

Lemma wp_upd_components f c (Q : _ → session W → Prop) E s :
  cdb_component_dbs s = Some c → Q tt (set_components (Some (f c)) s) → wp (upd_components f) Q E s.
Proof. intros Hc HQ. cbv [wp upd_components mbind M_bind get]. by rewrite Hc. Qed.

Lemma wp_env_ask {A} (f : W → A) (Q : A → session W → Prop) E s :
  Q (f (se_env s)) s → wp (env_ask f) Q E s.
Proof. done. Qed.

Lemma wp_env_effect (f : W → W) (Q : unit → session W → Prop) E s :
  Q tt (set_env (f (se_env s)) s) → wp (env_effect f) Q E s.
Proof. done. Qed.

Lemma wp_env_call {A} (f : W → A * W) (Q : A → session W → Prop) E s :
  (∀ a w, Q a (set_env w s)) → wp (env_call f) Q E s.
Proof. intros HQ. unfold wp, env_call. destruct (f (se_env s)). apply HQ. Qed.

(** returning the identifier of a descriptor and freeing it *)
Lemma term_spec d desc c (Q : unit → session W → Prop) E s :
  cdb_component_dbs s = Some c → descriptors s !! d = Some desc →
  (∀ w, Q tt (mkSession w (segment_ip_cache_htab s)
    (Some (set_counters (qeCounter c) (freeCounterList c ++ [identifier desc]) c))
    (delete d (descriptors s)) (next_address s))) →
  wp (cdbconn_termSegmentDescriptor d) Q E s.
Proof.
  intros Hc Hd HQ. unfold cdbconn_termSegmentDescriptor. apply wp_bind. eapply wp_get_desc; [done|].
  apply wp_bind. eapply wp_upd_components; [done|]. apply wp_bind, wp_env_effect, wp_modify. apply HQ.
Qed.

Lemma identifiers_delete ds d desc :
  ds !! d = Some desc → identifiers ds ≡ₚ identifier desc :: identifiers (delete d ds).
Proof.
  intros Hd. unfold identifiers.
  rewrite <-(insert_delete_id ds d desc) at 1 by done.
  rewrite map_to_list_insert by apply lookup_delete_eq. done.
Qed.

Lemma identifiers_insert ds d desc :
  ds !! d = None → identifiers (<[d := desc]> ds) ≡ₚ identifier desc :: identifiers ds.
Proof. intros Hd. unfold identifiers. by rewrite map_to_list_insert. Qed.

(** a QE leaves an entry and is destroyed *)
Lemma pool_inv_destroy ds next c c' p i i' d desc :
  pool_inv ds next c → replaced p i i' c c' → ds !! d = Some desc → segment_database_info desc = p →
  qes i ≡ₚ d :: qes i' → freelist i' `sublist_of` freelist i →
  numIdleQEs i' = Z.of_nat (length (freelist i')) → numActiveQEs i' = Z.of_nat (length (activelist i')) →
  qeCounter c' = qeCounter c → freeCounterList c' = freeCounterList c →
  pool_inv (delete d ds) next (set_counters (qeCounter c') (freeCounterList c' ++ [identifier desc]) c').
Proof.
  intros Hinv Hr Hd Hp Hq Hsub Hidle Hact Hcnt Hfree.
  pose proof (pi_infos _ _ _ Hinv p i (rp_old _ _ _ _ _ Hr)) as Hio.
  assert (NoDup (d :: qes i')) as Hnd by (rewrite <-Hq; apply Hio). apply NoDup_cons in Hnd as [Hnin _].
  eapply pool_inv_replace; [done|by apply replaced_counters| | | | | |].
  - by eapply info_ok_remove; [..|apply Hr| | |].
  - intros q x dx Hne Hx Hdx. rewrite lookup_delete_ne; [done|]. intros ->. congruence.
  - intros x dx [Hne Hx]%lookup_delete_Some.
    destruct (decide (segment_database_info dx = p)) as [Heq|]; [left|by right]. split; [done|].
    destruct (pi_owner _ _ _ Hinv x dx Hx) as (j & Hj & Hin). rewrite Heq, (rp_old _ _ _ _ _ Hr) in Hj.
    injection Hj as <-. rewrite Hq in Hin. by apply elem_of_cons in Hin as [?|].
  - simpl. rewrite Hcnt, Hfree, <-(pi_ids _ _ _ Hinv), (identifiers_delete _ _ _ Hd). solve_Permutation.
  - simpl. rewrite Hcnt. apply Hinv.
  - intros x [y [_ Hy]%lookup_delete_Some]. by apply (pi_address _ _ _ Hinv).
Qed.

(** the entry's QEs are distributed anew over its lists *)
Lemma pool_inv_shuffle ds next c c' p i i' :
  pool_inv ds next c → replaced p i i' c c' → qes i' ≡ₚ qes i →
  numIdleQEs i' = Z.of_nat (length (freelist i')) → numActiveQEs i' = Z.of_nat (length (activelist i')) →
  (∀ d rest, freelist i' = d :: rest → writers ds rest = []) →
  qeCounter c' = qeCounter c → freeCounterList c' = freeCounterList c →
  pool_inv ds next c'.
Proof.
  intros Hinv Hr Hq Hidle Hact Hh Hcnt Hfree.
  pose proof (pi_infos _ _ _ Hinv p i (rp_old _ _ _ _ _ Hr)) as Hio.
  eapply pool_inv_replace; [done|done| | | | | |].
  - by eapply info_ok_perm; [..|apply Hr| | |].
  - done.
  - intros x dx Hx.
    destruct (decide (segment_database_info dx = p)) as [Heq|]; [left|by right]. split; [done|].
    destruct (pi_owner _ _ _ Hinv x dx Hx) as (j & Hj & Hin). rewrite Heq, (rp_old _ _ _ _ _ Hr) in Hj.
    injection Hj as <-. by rewrite Hq.
  - rewrite Hcnt, Hfree. apply Hinv.
  - rewrite Hcnt. apply Hinv.
  - apply Hinv.
Qed.

Lemma same_pool_env w s : same_pool s (set_env w s).
Proof. done. Qed.

Lemma FtsIsSegmentDown_spec i s E :
  wp (FtsIsSegmentDown i) (λ _ s', s' = s) E s.
Proof. unfold FtsIsSegmentDown. case_match; [done|]. apply wp_bind, wp_env_ask. done. Qed.

Lemma cleanupQE_spec d desc c i s E :
  cdb_component_dbs s = Some c → descriptors s !! d = Some desc →
  at_pos (segment_database_info desc) c = Some i →
  wp (cleanupQE d) (λ _ s', same_pool s s') E s.
Proof.
  intros Hc Hd Hi. unfold cleanupQE. apply wp_bind, wp_env_ask.
  destruct (proc_exit_inprogress _); [by apply wp_ret|]. apply wp_bind, wp_env_ask.
  destruct (cdbconn_isBadConnection _ _); [by apply wp_ret|]. apply wp_bind.
  eapply wp_get_desc; [done|]. apply wp_bind. eapply wp_get_info; [done|done|].
  eapply wp_seq; [apply FtsIsSegmentDown_spec|]. intros [] s' ->; [by apply wp_ret|].
  do 2 apply wp_bind, wp_env_ask. case_match; [by apply wp_ret|]. by apply wp_env_call.
Qed.

(** [d] is handed out *)
Definition is_active (d : Z) s : Prop :=
  ∃ c desc i, cdb_component_dbs s = Some c ∧ descriptors s !! d = Some desc ∧
    at_pos (segment_database_info desc) c = Some i ∧ d ∈ activelist i.

Section recycle.
Context (d : Z) (desc : SegmentDatabaseDescriptor) (c : Components) (i : ComponentInfo).
Context (ds : gmap Z SegmentDatabaseDescriptor) (next : Z).
Context (Hinv : pool_inv ds next c) (Hd : ds !! d = Some desc).
Context (Hi : at_pos (segment_database_info desc) c = Some i) (Hact : d ∈ activelist i).

Abbreviation p := (segment_database_info desc).
Abbreviation c1 := (add_active p (-1) (upd_at p (λ i, set_activelist (list_delete_ptr (activelist i) d) i) c)).
Abbreviation i1 := (with_active (-1) (set_activelist (list_delete_ptr (activelist i) d) i)).

Lemma recycle_replaced : replaced p i i1 c c1.
Proof. by apply (replaced_act p i (λ l, list_delete_ptr l d)). Qed.

Lemma recycle_qes : qes i ≡ₚ d :: qes i1.
Proof.
  unfold qes; simpl. rewrite (list_delete_ptr_perm (activelist i) d Hact) at 1. solve_Permutation.
Qed.

Lemma recycle_active : numActiveQEs i1 = Z.of_nat (length (activelist i1)).
Proof.
  simpl. rewrite (io_active _ _ _ (pi_infos _ _ _ Hinv _ _ Hi)).
  rewrite (list_delete_ptr_perm (activelist i) d Hact) at 1. simpl. lia.
Qed.

Lemma recycle_destroyed :
  pool_inv (delete d ds) next (set_counters (qeCounter c1) (freeCounterList c1 ++ [identifier desc]) c1).
Proof.
  eapply pool_inv_destroy; [done|apply recycle_replaced|done|done|apply recycle_qes|done| | |done|done].
  - apply (io_idle _ _ _ (pi_infos _ _ _ Hinv _ _ Hi)).
  - apply recycle_active.
Qed.

Lemma recycle_pushed l :
  l ≡ₚ d :: freelist i → (∀ x rest, l = x :: rest → writers ds rest = []) →
  pool_inv ds next (add_idle p 1 (upd_at p (set_freelist l) c1)).
Proof.
  intros Hl Hh. pose proof recycle_replaced as Hr.
  assert (at_pos p c1 = Some i1) as Hi1 by (by rewrite (rp_new _ _ _ _ _ Hr), decide_True).
  eapply pool_inv_shuffle; [done|eapply replaced_trans; [exact Hr|by apply replaced_free]|..]; try done.
  - rewrite recycle_qes. unfold qes; simpl. by rewrite Hl.
  - simpl. rewrite Hl, (io_idle _ _ _ (pi_infos _ _ _ Hinv _ _ Hi)). simpl. lia.
  - apply recycle_active.
Qed.

Lemma writer_alone : isWriter desc = true → writers ds (freelist i) = [].
Proof.
  intros Hw. pose proof (io_writer _ _ _ (pi_infos _ _ _ Hinv _ _ Hi)) as Hle.
  rewrite (writers_perm _ _ _ recycle_qes) in Hle. unfold writers in Hle.
  rewrite filter_cons_True in Hle by (rewrite Hd; simpl; congruence). simpl in Hle.
  fold (writers ds (qes i1)) in Hle. eapply (writers_sub _ _ (qes i1)).
  - intros x Hx. unfold qes; simpl. apply elem_of_app. by left.
  - destruct (writers ds (qes i1)); [done|simpl in Hle; lia].
Qed.
End recycle.

Lemma recycle_spec d force s :
  pool_ok s → is_active d s →
  wp (cdbcomponent_recycleIdleQE vars d force) (λ _ s', pool_ok s') (λ _, False) s.
Proof.
  intros (c0 & Hc & Hinv) (c & desc & i & Hc' & Hd & Hi & Hact).
  assert (c0 = c) as -> by congruence. clear Hc'. unfold cdbcomponent_recycleIdleQE.
  apply wp_bind. eapply wp_get_desc; [done|]. apply wp_bind. eapply wp_upd_components; [done|].
  set (c1 := add_active _ _ _). set (s1 := set_components _ s).
  assert (at_pos (segment_database_info desc) c1 = Some
    (with_active (-1) (set_activelist (list_delete_ptr (activelist i) d) i))) as Hi1.
  { rewrite (rp_new _ _ _ _ _ (recycle_replaced d desc c i Hi)). by rewrite decide_True. }
  apply wp_seq with (λ _ s', same_pool s1 s').
  { destruct force; [by apply wp_ret|]. by eapply cleanupQE_spec. }
  intros clean s2 (Hc2 & Hds2 & Hn2). cbn in Hc2, Hds2, Hn2.
  assert (∀ E, wp (destroy_segdb d (isWriter desc)) (λ _ s', pool_ok s') E s2) as Hdestroy.
  { intros E. unfold destroy_segdb. apply wp_bind. eapply term_spec; [done|by rewrite Hds2|]. intros w.
    pose proof (recycle_destroyed d desc c i _ _ Hinv Hd Hi Hact).
    destruct (isWriter desc); [apply wp_env_effect|apply wp_ret]; eexists; simpl; rewrite Hds2, Hn2; done. }
  destruct clean; cbn [negb]; [|apply Hdestroy].
  apply wp_bind. eapply wp_get_info; [done|done|]. cbv zeta.
  destruct (negb (isWriter desc) && _); [apply Hdestroy|].
  apply wp_bind. unfold wp at 1, get.
  assert (∃ l, (if isWriter desc then mret (d :: freelist i) else lift_res (insert_reader d (descriptors s2) (freelist i)))
     s2 = Ok (l, s2) ∧ l ≡ₚ d :: freelist i ∧ ∀ x rest, l = x :: rest → writers (descriptors s) rest = [])
    as (l & Hl & Hp & Hh).
  { destruct (isWriter desc) eqn:Hw.
    - exists (d :: freelist i). split_and!; [done..|]. intros x rest [= <- <-]. by eapply writer_alone.
    - pose proof (pi_infos _ _ _ Hinv _ _ Hi) as Hio. rewrite Hds2.
      destruct (insert_reader_spec d (descriptors s) (freelist i)) as (l & -> & ? & ?); [|by rewrite Hd; simpl; rewrite Hw|apply Hio|by exists l].
      intros x Hx. destruct (io_desc _ _ _ Hio x) as (? & -> & _); [|done]. apply elem_of_app. by left. }
  apply wp_bind. unfold wp at 1. cbn [freelist with_active set_activelist]. rewrite Hl. eapply wp_upd_components; [done|].
  eexists. split; [done|]. simpl. rewrite Hds2, Hn2. by eapply recycle_pushed.
Qed.

(** the idle QEs of [p] that remain *)
Definition kept_idle (includeWriter : bool) (ds : gmap Z SegmentDatabaseDescriptor) (l : list Z) : list Z :=
  if includeWriter then [] else writers ds l.

Record cleaned (p : info_pos) (kept : list Z) (c : Components) (i : ComponentInfo) s' : Prop := {
  cl_pool : pool_ok s';
  cl_post : ∃ c' i', cdb_component_dbs s' = Some c' ∧ at_pos p c' = Some i' ∧ freelist i' = kept ∧
    activelist i' = activelist i ∧ ∀ q, q ≠ p → at_pos q c' = at_pos q c;
}.

Lemma cleanup_idle_spec p w kept rest c i s :
  cdb_component_dbs s = Some c → pool_inv (descriptors s) (next_address s) c →
  at_pos p c = Some i → freelist i = kept ++ rest →
  wp (cleanup_idle p w kept rest)
    (λ _ s', cleaned p (kept ++ kept_idle w (descriptors s) rest) c i s') (λ _, False) s.
Proof.
  revert kept c i s. induction rest as [|d rest IH]; intros kept c i s Hc Hinv Hi Hf; cbn [cleanup_idle].
  { apply wp_ret. split; [by exists c|]. exists c, i. split_and!; try done. rewrite Hf. by destruct w. }
  pose proof (pi_infos _ _ _ Hinv _ _ Hi) as Hio.
  assert (d ∈ qes i) as Hq.
  { unfold qes. rewrite Hf. apply elem_of_app. left. apply elem_of_app. right. by left. }
  destruct (io_desc _ _ _ Hio d Hq) as (desc & Hd & Hp & _).
  apply wp_bind. eapply wp_get_desc; [done|]. destruct (isWriter desc && negb w) eqn:Hk.
  - eapply wp_post; [eapply (IH (kept ++ [d])); [done..|by rewrite <-(assoc_L (++))]|].
    intros [] s' Hcl. apply andb_true_iff in Hk as [Hw Hnw]. destruct w; [done|].
    unfold kept_idle, writers in *. rewrite filter_cons_True by (rewrite Hd; simpl; congruence).
    by rewrite <-(assoc_L (++)) in Hcl.
  - apply wp_bind. eapply wp_upd_components; [done|]. apply wp_bind. eapply term_spec; [done|done|].
    intros w'. set (c1 := set_counters _ _ _).
    pose proof (replaced_free p i (kept ++ rest) (-1) c Hi) as Hr.
    eapply wp_post; [eapply (IH kept c1 (with_idle (-1) (set_freelist (kept ++ rest) i)))|].
    + done.
    + simpl. eapply pool_inv_destroy; [done|exact Hr|done|done| | | | |done|done].
      * unfold qes; simpl. rewrite Hf. solve_Permutation.
      * simpl. rewrite Hf. apply sublist_app; [done|by apply sublist_cons].
      * simpl. rewrite (io_idle _ _ _ Hio), Hf, !length_app. simpl. lia.
      * apply (io_active _ _ _ Hio).
    + simpl. change (at_pos p c1) with (at_pos p (add_idle p (-1) (upd_at p (set_freelist (kept ++ rest)) c))).
      by rewrite (rp_new _ _ _ _ _ Hr), decide_True.
    + done.
    + intros [] s' [Hpool (c' & i' & Hc' & Hi' & Hf' & Ha' & Ho')]. split; [done|].
      exists c', i'. split_and!; try done.
      * rewrite Hf'. f_equal. unfold kept_idle. destruct w; [done|]. simpl descriptors.
        pose proof (io_nodup _ _ _ Hio) as Hnd. unfold qes in Hnd. rewrite Hf in Hnd.
        rewrite (writers_agree (descriptors s) (delete d (descriptors s))).
        2:{ intros x Hx. apply lookup_delete_ne. intros <-. apply NoDup_app in Hnd as [Hnd _].
            apply NoDup_app in Hnd as (_ & _ & Hnd). by apply NoDup_cons in Hnd as [? _]. }
        unfold writers. rewrite filter_cons_False; [done|]. rewrite Hd. simpl.
        rewrite andb_true_r in Hk. congruence.
      * intros q Hq'. rewrite Ho' by done.
        change (at_pos q c1) with (at_pos q (add_idle p (-1) (upd_at p (set_freelist (kept ++ rest)) c))).
        by rewrite (rp_new _ _ _ _ _ Hr), decide_False.
Qed.

Lemma cleanup_positions_spec ps w s c :
  cdb_component_dbs s = Some c → pool_ok s → (∀ p, p ∈ ps → is_Some (at_pos p c)) →
  wp (cleanup_positions ps w)
    (λ _ s', pool_ok s' ∧ ∃ c', cdb_component_dbs s' = Some c' ∧
       (∀ q i', at_pos q c' = Some i' → ∃ i, at_pos q c = Some i ∧ activelist i' = activelist i ∧
          (w = true → q ∈ ps ∨ freelist i = [] → freelist i' = []))) (λ _, False) s.
Proof.
  revert s c. induction ps as [|p ps IH]; intros s c Hc Hpool Hps; cbn [cleanup_positions].
  { apply wp_ret. split; [done|]. exists c. split; [done|]. intros q i' Hi'. exists i'.
    split_and!; try done. intros _ [?%elem_of_nil|?]; done. }
  destruct (Hps p ltac:(left)) as [i Hi]. destruct Hpool as (c0 & Hc0 & Hinv).
  assert (c0 = c) as -> by congruence.
  unfold cleanupComponentIdleQEs. apply wp_bind, wp_bind. eapply wp_get_info; [done|done|].
  eapply wp_post; [by eapply cleanup_idle_spec|].
  intros [] s1 [Hpool1 (c1 & i1 & Hc1 & Hi1 & Hf1 & Ha1 & Ho1)].
  eapply wp_post; [apply (IH s1 c1 Hc1 Hpool1)|].
  { intros q Hq. destruct (decide (q = p)) as [->|]; [by rewrite Hi1|]. rewrite Ho1 by done.
    apply Hps. by right. }
  intros [] s2 (Hpool2 & c2 & Hc2 & Hall). split; [done|]. exists c2. split; [done|].
  intros q i' Hi'. destruct (Hall q i' Hi') as (j & Hj & Ha & Hw).
  destruct (decide (q = p)) as [->|Hne].
  - exists i. rewrite Hi1 in Hj. injection Hj as <-. split_and!; [done|congruence|].
    intros -> _. apply Hw; [done|]. right. by rewrite Hf1.
  - rewrite Ho1 in Hj by done. exists j. split_and!; try done. intros Hwt [Hq|Hq]; apply Hw; auto.
    apply elem_of_cons in Hq as [?|?]; [done|by left].
Qed.

Lemma cleanup_spec w s c :
  cdb_component_dbs s = Some c → pool_ok s →
  wp (cdbcomponent_cleanupIdleQEs w)
    (λ _ s', pool_ok s' ∧ ∃ c', cdb_component_dbs s' = Some c' ∧
       (∀ q i', at_pos q c' = Some i' → ∃ i, at_pos q c = Some i ∧ activelist i' = activelist i ∧
          (w = true → freelist i' = []))) (λ _, False) s.
Proof.
  intros Hc Hpool. unfold cdbcomponent_cleanupIdleQEs. apply wp_bind. unfold wp at 1, get. rewrite Hc.
  assert (∀ q, q ∈ positions c ↔ is_Some (at_pos q c)) as Hpos.
  { intros q. unfold positions. rewrite elem_of_app, !list_elem_of_fmap.
    destruct q as [k|k]; simpl; rewrite lookup_lt_is_Some; split.
    - intros [(x & [= ->] & Hx%elem_of_seq)|(x & ? & _)]; [lia|done].
    - intros Hk. left. exists k. split; [done|]. apply elem_of_seq. lia.
    - intros [(x & ? & _)|(x & [= ->] & Hx%elem_of_seq)]; [done|lia].
    - intros Hk. right. exists k. split; [done|]. apply elem_of_seq. lia. }
  apply wp_bind. eapply wp_post; [eapply cleanup_positions_spec; [done|done|by intros; apply Hpos]|].
  intros [] s' (? & c' & Hc' & Hall). apply wp_env_effect. split; [done|]. exists c'. split; [done|]. intros q i' Hi'.
  destruct (Hall q i' Hi') as (i & Hi & Ha & Hw). exists i. split_and!; [done..|].
  intros Hwt. apply Hw; [done|]. left. apply Hpos. eauto.
Qed.

(** ** Loading the configuration leaves the pool alone *)

#[export] Instance same_pool_preorder : PreOrder same_pool.
Proof.
  split; [done|]. intros s1 s2 s3 (? & ? & ?) (? & ? & ?). split_and!; congruence.
Qed.

Lemma framed_call {A} (f : W → A * W) : framed same_pool (env_call f).
Proof. intros s. by apply wp_env_call. Qed.
End operations.

Section loading.
Context {W : Type} `{CE : !ComponentsEnv W} `{QE : !QEEnv W} (vars : backend_vars).
Implicit Types s : session W.

Lemma framed_info : framed same_pool (getCdbComponentInfo (W := W) vars).
Proof.
  apply framed_getCdbComponentInfo; [apply _|intros; apply framed_call|by intros h s|].
  unfold readGpSegConfigFromCatalog, readGpSegConfigFromFTSFiles, elog_ERROR.
  repeat first [apply (framed_lift same_pool)|apply (framed_ask same_pool)|by intros ?|frame_step].
Qed.

Lemma at_pos_elem p c i : at_pos p c = Some i → i ∈ segment_infos c ++ entry_infos c.
Proof. destruct p; simpl; intros Hi; apply elem_of_app; [left|right]; by eapply list_elem_of_lookup_2. Qed.

Lemma lsum_zero g l : (∀ i, i ∈ l → g i = 0) → lsum g l = 0.
Proof.
  induction l as [|x l IH]; intros Hl; [done|]. simpl. fold (lsum g l).
  rewrite Hl by left. rewrite IH; [done|]. intros i Hi. apply Hl. by right.
Qed.

Lemma loaded_pool rows comps next v e :
  components_ok rows comps → pool_inv ∅ next (set_versions v e comps).
Proof.
  intros Hok. pose proof (ck_pool _ _ Hok) as Hp. injection (ck_totals _ _ Hok) as Hti Hta Hq Hf.
  assert (∀ p i, at_pos p (set_versions v e comps) = Some i →
    (freelist i, numIdleQEs i, activelist i, numActiveQEs i) = ([], 0, [], 0)) as Hzero.
  { intros p i Hi. apply Hp. eapply (at_pos_elem p). by destruct p. }
  constructor.
  - intros p i Hi. injection (Hzero p i Hi) as Hfr Hni Hac Hna.
    assert (qes i = []) as Hqe by (unfold qes; by rewrite Hfr, Hac).
    constructor; rewrite ?Hqe, ?Hfr, ?Hac; try done.
    + by intros d ?%elem_of_nil.
    + constructor.
    + simpl; lia.
  - intros d desc Hd. by rewrite lookup_empty in Hd.
  - simpl. rewrite Hti. unfold sum_over; simpl. rewrite !lsum_zero; [done|..]; intros i Hi;
      (assert (i ∈ segment_infos comps ++ entry_infos comps) as Hin by (apply elem_of_app; auto));
      by injection (Hp i Hin).
  - simpl. rewrite Hta. unfold sum_over; simpl. rewrite !lsum_zero; [done|..]; intros i Hi;
      (assert (i ∈ segment_infos comps ++ entry_infos comps) as Hin by (apply elem_of_app; auto));
      by injection (Hp i Hin).
  - simpl. by rewrite Hf, Hq.
  - simpl. lia.
  - intros d [? Hd]. by rewrite lookup_empty in Hd.
Qed.

(** a session without a configuration has no descriptors *)
Definition session_ok s : Prop :=
  match cdb_component_dbs s with
  | None => descriptors s = ∅
  | Some c => pool_inv (descriptors s) (next_address s) c
  end.

Lemma session_pool s : pool_ok s → session_ok s.
Proof. intros (c & Hc & Hinv). unfold session_ok. by rewrite Hc. Qed.

Lemma info_components s :
  wp (getCdbComponentInfo vars)
    (λ comps s', (∃ rows, components_ok rows comps) ∧ same_pool s s') (λ _, True) s.
Proof.
  apply wp_conj; [|apply framed_info]. unfold getCdbComponentInfo. eapply wp_seq; [apply wp_any|].
  intros configs s1 _. eapply wp_post; [apply components_from_rows|].
  - intros c s0 _. apply resolve_config_sound.
  - by left.
  - by left.
  - intros comps s2 (_ & cs & _ & Hok). by exists cs.
Qed.

Lemma getCdbComponents_pool s :
  session_ok s →
  wp (cdbcomponent_getCdbComponents vars)
    (λ c s', pool_ok s' ∧ cdb_component_dbs s' = Some c ∧ (is_Some (cdb_component_dbs s) → s' = s))
    (λ _, True) s.
Proof.
  intros Hs. unfold cdbcomponent_getCdbComponents. apply wp_bind. unfold wp at 1, get.
  unfold session_ok in Hs. destruct (cdb_component_dbs s) as [c|] eqn:Hc.
  { apply wp_ret. split_and!; [by exists c|done|done]. }
  eapply wp_seq; [apply info_components|]. intros comps s1 ((rows & Hok) & Hc1 & Hd1 & Hn1).
  do 2 apply wp_bind, wp_env_ask. apply wp_bind, wp_modify, wp_ret. split_and!; [|done|by intros [? ?]].
  eexists. split; [done|]. simpl. rewrite Hd1, Hs. by eapply loaded_pool.
Qed.

Lemma getComponentInfo_pool contentId s :
  session_ok s →
  wp (cdbcomponent_getComponentInfo vars contentId)
    (λ p s', pool_ok s' ∧ (contentId ≠ -1 → ∀ k, p ≠ EntryAt k)) (λ _, True) s.
Proof.
  intros Hs. unfold cdbcomponent_getComponentInfo. eapply wp_seq; [by apply getCdbComponents_pool|].
  intros c s1 (Hp & Hc & _). cbv zeta. case_match; [done|].
  destruct (Z.eqb_spec contentId (-1)) as [->|Hne]; [by case_match; apply wp_ret|].
  case_match; [by apply wp_ret|]. destruct (segment_infos c !! _) as [i|]; [|done].
  apply wp_bind. simpl. unfold wp at 1. simpl. by case_match; apply wp_ret.
Qed.

(** ** Allocation *)

(** the QE [d] handed out for the entry [i] at [p]: it was not in use; it is the first
    suitable idle one if there is one, and otherwise new, with an identifier of its own *)
Record allocated (contentId : Z) (ty : SegmentType) (p : info_pos) (i : ComponentInfo) (d : Z) s s'
    : Prop := {
  al_pool : pool_ok s';
  al_active : is_active d s';
  al_unused : ¬ is_active d s;
  al_choice :
    d ∈ freelist i ∧ suits ty (descriptors s) d ∧ descriptors s' = descriptors s ∨
    (∀ x, x ∈ freelist i → ¬ suits ty (descriptors s) x) ∧ descriptors s !! d = None ∧
    ∃ desc, descriptors s' !! d = Some desc ∧ segment_database_info desc = p ∧
      identifier desc ∉ identifiers (descriptors s) ∧
      isWriter desc = negb (contentId =? -1) && bool_decide (qes i = []);
}.

Abbreviation hand_out p d := (λ c, add_active p 1 (upd_at p (λ i, set_activelist (d :: activelist i) i) c)).

Lemma allocate_idle contentId ty p i c d l1 l2 s :
  cdb_component_dbs s = Some c → pool_inv (descriptors s) (next_address s) c → at_pos p c = Some i →
  freelist i = l1 ++ d :: l2 → suits ty (descriptors s) d →
  allocated contentId ty p i d s
    (set_components (Some (hand_out p d (add_idle p (-1) (upd_at p (set_freelist (l1 ++ l2)) c)))) s).
Proof.
  intros Hc Hinv Hi Hf Hs. pose proof (pi_infos _ _ _ Hinv _ _ Hi) as Hio.
  pose proof (replaced_free p i (l1 ++ l2) (-1) c Hi) as Hr1. set (c1 := add_idle _ _ _) in *.
  assert (at_pos p c1 = Some (with_idle (-1) (set_freelist (l1 ++ l2) i))) as Hi1
    by (by rewrite (rp_new _ _ _ _ _ Hr1), decide_True).
  pose proof (replaced_trans _ _ _ _ _ _ _ Hr1 (replaced_act p _ (cons d) 1 c1 Hi1)) as Hr.
  set (i2 := with_active _ _) in Hr.
  assert (d ∈ qes i) as Hq by (unfold qes; rewrite Hf; set_solver).
  destruct (io_desc _ _ _ Hio d Hq) as (desc & Hd & Hp & _).
  split.
  - eexists. split; [done|]. simpl. eapply pool_inv_shuffle; [done|exact Hr|..]; try done.
    + unfold qes; simpl. rewrite Hf. solve_Permutation.
    + simpl. rewrite (io_idle _ _ _ Hio), Hf, !length_app. simpl. lia.
    + simpl. rewrite (io_active _ _ _ Hio). lia.
    + simpl. eapply head_sublist; [|apply (io_head _ _ _ Hio)]. rewrite Hf.
      apply sublist_app; [done|by apply sublist_cons].
  - eexists _, desc, i2. split_and!; [done|done| |left].
    rewrite Hp, (rp_new _ _ _ _ _ Hr), decide_True by done. done.
  - intros (c' & desc' & j & Hc' & Hd' & Hj & Hin). simplify_eq.
    pose proof (io_nodup _ _ _ Hio) as Hnd. unfold qes in Hnd. rewrite Hf in Hnd.
    apply NoDup_app in Hnd as (_ & Hnd & _). apply (Hnd d); [set_solver|done].
  - left. split_and!; [rewrite Hf; set_solver|done|done].
Qed.

Lemma next_identifier_spec c (Q : Z → session W → Prop) E s :
  cdb_component_dbs s = Some c → 0 ≤ qeCounter c →
  (∀ n l id, l ++ [id] ≡ₚ freeCounterList c ∧ n = qeCounter c ∨
             l = [] ∧ freeCounterList c = [] ∧ id = qeCounter c ∧ n = qeCounter c + 1 →
     Q id (set_components (Some (set_counters n l c)) s)) →
  wp nextQEIdentifer Q E s.
Proof.
  intros Hc Hn HQ. unfold nextQEIdentifer. apply wp_bind. unfold wp at 1, get. rewrite Hc.
  apply wp_bind. unfold wp at 1. simpl. destruct (freeCounterList c) as [|r rest].
  - apply wp_bind. eapply wp_upd_components; [done|]. apply wp_ret, HQ. right. done.
  - apply wp_bind. eapply wp_upd_components; [done|]. apply wp_ret, HQ. left. split; [solve_Permutation|done].
Qed.

Lemma allocate_new contentId ty p i c n l id s :
  cdb_component_dbs s = Some c → pool_inv (descriptors s) (next_address s) c → at_pos p c = Some i →
  (contentId ≠ -1 → ∀ k, p ≠ EntryAt k) → (∀ x, x ∈ freelist i → ¬ suits ty (descriptors s) x) →
  l ++ [id] ≡ₚ freeCounterList c ∧ n = qeCounter c ∨
  l = [] ∧ freeCounterList c = [] ∧ id = qeCounter c ∧ n = qeCounter c + 1 →
  let writer := negb (contentId =? -1) && bool_decide (qes i = []) in
  let d := next_address s in
  let desc := mkDesc p (segindex (config i)) id writer in
  allocated contentId ty p i d s
    (mkSession (se_env s) (segment_ip_cache_htab s) (Some (hand_out p d (set_counters n l c)))
      (<[d := desc]> (descriptors s)) (d + 1)).
Proof.
  intros Hc Hinv Hi Hent Hno Hids writer d desc. pose proof (pi_infos _ _ _ Hinv _ _ Hi) as Hio.
  assert (descriptors s !! d = None) as Hfresh.
  { destruct (descriptors s !! d) eqn:Hd; [|done].
    pose proof (pi_address _ _ _ Hinv d ltac:(by rewrite Hd)). unfold d in *. lia. }
  assert (replaced p i (with_active 1 (set_activelist (d :: activelist i) i)) c (hand_out p d (set_counters n l c))) as Hr.
  { destruct (replaced_act p i (cons d) 1 c Hi) as [? ? ? ? ?]. by destruct p; constructor. }
  set (i' := with_active _ _) in *.
  assert (identifiers (<[d := desc]> (descriptors s)) ++ l ≡ₚ seqZ 0 n ∧ 0 ≤ n) as [Hperm Hn].
  { rewrite (identifiers_insert _ _ _ Hfresh). pose proof (pi_ids _ _ _ Hinv) as Hi0.
    pose proof (pi_counter _ _ _ Hinv). simpl.
    destruct Hids as [[Hl ->]|(-> & Hl & -> & ->)]; (split; [|lia]).
    - rewrite <-Hi0, <-Hl. solve_Permutation.
    - rewrite Hl, (right_id_L [] (++)) in Hi0. rewrite (right_id_L [] (++)), Hi0, seqZ_app by lia.
      simpl. rewrite Z.add_0_l. solve_Permutation. }
  split.
  - eexists. split; [done|]. simpl. eapply pool_inv_replace; [done|exact Hr| | | |done|done|].
    + eapply info_ok_add; try done.
      * unfold qes; simpl. solve_Permutation.
      * simpl. rewrite (io_active _ _ _ Hio). lia.
      * simpl. intros [Hne Hq]%andb_true_iff. apply bool_decide_eq_true in Hq. split; [done|].
        apply Hent. intros ->. done.
    + intros q x dx Hq Hx Hdx. rewrite lookup_insert_ne; [done|]. intros <-. congruence.
    + intros x dx [[<- <-]|[Hne Hx]]%lookup_insert_Some.
      { left. split; [done|]. unfold qes; simpl. set_solver. }
      destruct (decide (segment_database_info dx = p)) as [Heq|]; [left|by right]. split; [done|].
      destruct (pi_owner _ _ _ Hinv x dx Hx) as (j & Hj & Hin). rewrite Heq, Hi in Hj. injection Hj as <-.
      unfold qes in *; simpl. set_solver.
    + intros x [dx [[<- _]|[_ Hx]]%lookup_insert_Some]; [unfold d; lia|].
      pose proof (pi_address _ _ _ Hinv x ltac:(by rewrite Hx)). unfold d. lia.
  - eexists _, desc, i'. simpl. rewrite lookup_insert_eq. split_and!; [done|done| |left].
    rewrite (rp_new _ _ _ _ _ Hr), decide_True by done. done.
  - intros (c' & desc' & j & _ & Hd' & _). congruence.
  - right. split_and!; [done|done|]. exists desc. simpl. rewrite lookup_insert_eq. split_and!; [done..| |done].
    assert (NoDup (identifiers (<[d := desc]> (descriptors s)) ++ l)) as Hnd by (rewrite Hperm; apply NoDup_seqZ).
    rewrite (identifiers_insert _ _ _ Hfresh) in Hnd. apply NoDup_app in Hnd as [Hnd _].
    by apply NoDup_cons in Hnd as [? _].
Qed.

(** with the configuration found, allocation cannot fail *)
Lemma allocate_found contentId ty p c i s s1 :
  cdbcomponent_getComponentInfo vars contentId s = Ok (p, s1) →
  cdb_component_dbs s1 = Some c → pool_inv (descriptors s1) (next_address s1) c →
  at_pos p c = Some i → (contentId ≠ -1 → ∀ k, p ≠ EntryAt k) →
  wp (cdbcomponent_allocateIdleQE vars contentId ty)
    (λ d s', allocated contentId ty p i d s1 s') (λ _, False) s.
Proof.
  intros Hp Hc Hinv Hi Hent. pose proof (pi_infos _ _ _ Hinv _ _ Hi) as Hio.
  unfold cdbcomponent_allocateIdleQE. apply wp_bind. unfold wp at 1. rewrite Hp.
  apply wp_bind. eapply wp_get_info; [done..|]. apply wp_bind. unfold wp at 1, get. apply wp_bind.
  destruct (pick_idle_spec ty (descriptors s1) (freelist i)) as (r & Hr & Hpick).
  { intros d Hd. destruct (io_desc _ _ _ Hio d) as (? & -> & _); [apply elem_of_app; by left|done]. }
  unfold wp at 1. rewrite Hr. simpl. destruct r as [[d rest]|]; apply wp_bind.
  - destruct Hpick as (l1 & l2 & Hf & -> & Hs & _). apply wp_bind. eapply wp_upd_components; [done|].
    apply wp_ret, wp_bind. eapply wp_upd_components; [done|]. apply wp_ret.
    exact (allocate_idle contentId ty p i c d l1 l2 s1 Hc Hinv Hi Hf Hs).
  - apply wp_bind. apply (next_identifier_spec c); [done|apply Hinv|]. intros n l id Hids.
    unfold cdbconn_createSegmentDescriptor. apply wp_bind.
    eapply wp_get_info; [done|by destruct p|]. apply wp_bind. unfold wp at 1, get.
    apply wp_bind, wp_modify, wp_ret, wp_bind. eapply wp_upd_components; [done|]. apply wp_ret. simpl.
    assert ((if contentId =? -1 then false else (numIdleQEs i =? 0) && (numActiveQEs i =? 0))
      = negb (contentId =? -1) && bool_decide (qes i = [])) as ->.
    { destruct (contentId =? -1); [done|]. simpl. rewrite (io_idle _ _ _ Hio), (io_active _ _ _ Hio).
      unfold qes. by destruct (freelist i), (activelist i). }
    exact (allocate_new contentId ty p i c n l id s1 Hc Hinv Hi Hent Hpick Hids).
Qed.

(** allocation of a session, with the errors of loading the configuration *)
Lemma allocate_pool contentId ty s :
  session_ok s →
  wp (cdbcomponent_allocateIdleQE vars contentId ty) (λ d s', pool_ok s' ∧ is_active d s') (λ _, True) s.
Proof.
  intros Hs. pose proof (getComponentInfo_pool contentId s Hs) as Hg. unfold wp in Hg.
  destruct (cdbcomponent_getComponentInfo vars contentId s) as [[p s1]|e] eqn:Hp.
  2: { unfold cdbcomponent_allocateIdleQE. apply wp_bind. unfold wp. by rewrite Hp. }
  destruct Hg as ((c & Hc & Hinv) & Hent). destruct (at_pos p c) as [i|] eqn:Hi.
  - eapply wp_mono; [by eapply allocate_found|..]; [|done]. by intros d s' [].
  - unfold cdbcomponent_allocateIdleQE. apply wp_bind. unfold wp at 1. rewrite Hp. apply wp_bind.
    cbv [wp get_info mbind M_bind get]. rewrite Hc. simpl. by rewrite Hi.
Qed.

(** ** Sequences of calls *)

Definition no_active s : Prop := (cdbcomponent_activeQEsExist s) = Ok (false, s).

Lemma lsum_nonneg g l : (∀ i, i ∈ l → 0 ≤ g i) → 0 ≤ lsum g l ∧ (lsum g l ≤ 0 → ∀ i, i ∈ l → g i = 0).
Proof.
  induction l as [|x l IH]; intros Hl; simpl.
  { split; [done|]. by intros _ i ?%elem_of_nil. }
  fold (lsum g l). pose proof (Hl x ltac:(left)).
  destruct IH as [Hn Hz]; [intros i Hi; apply Hl; by right|]. split; [lia|].
  intros Hle i [->|Hi]%elem_of_cons; [lia|]. apply Hz; [lia|done].
Qed.

Lemma no_active_lists s c p i :
  cdb_component_dbs s = Some c → pool_inv (descriptors s) (next_address s) c → no_active s →
  at_pos p c = Some i → activelist i = [].
Proof.
  intros Hc Hinv Hno Hi. unfold no_active in Hno. cbv [cdbcomponent_activeQEsExist mbind M_bind get mret M_ret] in Hno.
  rewrite Hc in Hno. injection Hno as Hno. apply Z.ltb_ge in Hno.
  rewrite (pi_active _ _ _ Hinv) in Hno. unfold sum_over in Hno.
  assert (∀ q j, at_pos q c = Some j → 0 ≤ numActiveQEs j) as Hpos.
  { intros q j Hj. rewrite (io_active _ _ _ (pi_infos _ _ _ Hinv _ _ Hj)). lia. }
  destruct (lsum_nonneg numActiveQEs (segment_infos c)) as [H1 Hz1].
  { intros j [k Hk]%list_elem_of_lookup. by apply (Hpos (SegmentAt k)). }
  destruct (lsum_nonneg numActiveQEs (entry_infos c)) as [H2 Hz2].
  { intros j [k Hk]%list_elem_of_lookup. by apply (Hpos (EntryAt k)). }
  assert (numActiveQEs i = 0) as H0.
  { pose proof (at_pos_elem _ _ _ Hi) as [?|?]%elem_of_app; [apply Hz1|apply Hz2]; (lia || done). }
  rewrite (io_active _ _ _ (pi_infos _ _ _ Hinv _ _ Hi)) in H0. destruct (activelist i); [done|simpl in H0; lia].
Qed.

(** cleaning up with no active QE disconnects every QE *)
Lemma cleanup_all s :
  session_ok s → no_active s →
  wp (cdbcomponent_cleanupIdleQEs true) (λ _ s', session_ok s' ∧ descriptors s' = ∅) (λ _, False) s.
Proof.
  intros Hs Hno. unfold session_ok in Hs. destruct (cdb_component_dbs s) as [c|] eqn:Hc.
  - eapply wp_post; [apply (cleanup_spec true s c Hc); by exists c|].
    intros [] s' ((c0 & Hc0 & Hinv) & c' & Hc' & Hall). assert (c0 = c') as -> by congruence.
    split; [apply session_pool; by exists c'|]. apply map_empty. intros d.
    destruct (descriptors s' !! d) as [desc|] eqn:Hd; [|done].
    destruct (pi_owner _ _ _ Hinv d desc Hd) as (i' & Hi' & Hin).
    destruct (Hall _ _ Hi') as (i & Hi & Ha & Hf). unfold qes in Hin. rewrite Hf in Hin by done.
    rewrite Ha, (no_active_lists s c _ i Hc Hs Hno Hi) in Hin. by apply elem_of_nil in Hin.
  - unfold cdbcomponent_cleanupIdleQEs. apply wp_bind. unfold wp at 1, get. rewrite Hc. apply wp_ret.
    unfold session_ok. by rewrite Hc.
Qed.

Lemma destroy_pool s :
  session_ok s → no_active s →
  wp cdbcomponent_destroyCdbComponents
    (λ _ s', cdb_component_dbs s' = None ∧ descriptors s' = ∅) (λ _, False) s.
Proof.
  intros Hs Hno. unfold cdbcomponent_destroyCdbComponents. apply wp_bind, wp_modify, wp_bind.
  eapply wp_post; [apply cleanup_all; [done|]|intros [] s' _; by apply wp_modify].
  revert Hno. unfold no_active, cdbcomponent_activeQEsExist. cbv [mbind M_bind get mret M_ret]. simpl.
  by intros [= ->].
Qed.

Lemma reload_pool v e s :
  descriptors s = ∅ →
  wp (c ← getCdbComponentInfo vars; modify (set_components (Some (set_versions v e c))))
    (λ _ s', session_ok s') (λ _, True) s.
Proof.
  intros Hd. eapply wp_seq; [apply info_components|]. intros comps s1 ((rows & Hok) & _ & Hd1 & _).
  apply wp_modify. unfold session_ok; simpl. rewrite Hd1, Hd. by eapply loaded_pool.
Qed.

Lemma update_pool s :
  session_ok s → no_active s →
  wp (cdbcomponent_updateCdbComponents vars) (λ _ s', session_ok s') (λ _, True) s.
Proof.
  intros Hs Hno. unfold cdbcomponent_updateCdbComponents. do 2 apply wp_bind, wp_env_ask.
  destruct (am_ftsprobe vars); [by apply wp_ret|]. apply wp_bind. unfold wp at 1, get.
  destruct (cdb_component_dbs s) as [c|] eqn:Hc.
  - destruct (_ || _); [|by apply wp_ret]. apply wp_bind, wp_env_ask.
    destruct (TempNamespaceOidIsValid _); [by apply wp_ret|]. apply wp_bind.
    eapply wp_mono; [by apply destroy_pool|..]; [|done]. intros [] s' [_ Hd]. by apply reload_pool.
  - unfold session_ok in Hs. rewrite Hc in Hs. eapply wp_seq; [apply info_components|].
    intros comps s1 ((rows & Hok) & _ & Hd1 & _). apply wp_bind, wp_env_ask, wp_modify.
    unfold session_ok; simpl. rewrite Hd1, Hs. by eapply loaded_pool.
Qed.

Inductive qe_call : Type :=
  | Allocate (contentId : Z) (segmentType : SegmentType)
  | Recycle (d : Z) (forceDestroy : bool)
  | CleanupIdle (includeWriter : bool)
  | DestroyComponents
  | UpdateComponents.

Definition run_call (call : qe_call) : M (session W) unit :=
  match call with
  | Allocate contentId ty => _ ← cdbcomponent_allocateIdleQE vars contentId ty; mret tt
  | Recycle d force => cdbcomponent_recycleIdleQE vars d force
  | CleanupIdle w => cdbcomponent_cleanupIdleQEs w
  | DestroyComponents => cdbcomponent_destroyCdbComponents
  | UpdateComponents => cdbcomponent_updateCdbComponents vars
  end.

(** what the assertions of the code ask of the caller *)
Definition callable (call : qe_call) s : Prop :=
  match call with
  | Recycle d _ => is_active d s
  | DestroyComponents | UpdateComponents => no_active s
  | _ => True
  end.

(** the sessions a backend can be in: calls of the pool in any order, while the shared
    state and the other processes change in between *)
Inductive reachable : session W → Prop :=
  | reachable_start s : cdb_component_dbs s = None → descriptors s = ∅ → reachable s
  | reachable_call s call s' : reachable s → callable call s → run_call call s = Ok (tt, s') → reachable s'
  | reachable_env s w : reachable s → reachable (set_env w s).

Lemma wp_total {A} (m : M (session W) A) (Q : A → session W → Prop) s :
  wp m Q (λ _, False) s → ∃ a s', m s = Ok (a, s') ∧ Q a s'.
Proof. intros Hwp. unfold wp in Hwp. destruct (m s) as [[a s']|]; [eauto|done]. Qed.

Lemma call_pool call s : session_ok s → callable call s → wp (run_call call) (λ _ s', session_ok s') (λ _, True) s.
Proof.
  intros Hs Hcall. destruct call as [cid ty|d force|w| |]; simpl in *.
  - apply wp_bind. eapply wp_post; [by apply allocate_pool|]. intros d s' [? _]. by apply wp_ret, session_pool.
  - eapply wp_mono; [apply recycle_spec; [|done]|by intros [] ? ?%session_pool|done].
    destruct Hcall as (c & desc & i & Hc & _). exists c. unfold session_ok in Hs. by rewrite Hc in Hs.
  - unfold session_ok in Hs. destruct (cdb_component_dbs s) as [c|] eqn:Hc.
    + eapply wp_mono; [apply (cleanup_spec w s c); [done|by exists c]|..]; [|done].
      intros [] s' [? _]. by apply session_pool.
    + unfold cdbcomponent_cleanupIdleQEs. apply wp_bind. unfold wp at 1, get. rewrite Hc. apply wp_ret.
      unfold session_ok. by rewrite Hc.
  - eapply wp_mono; [by apply destroy_pool|..]; [|done]. intros [] s' [Hn Hd]. unfold session_ok. by rewrite Hn.
  - by apply update_pool.
Qed.

Lemma reachable_ok s : reachable s → session_ok s.
Proof.
  induction 1 as [s Hn Hd|s call s' _ IH Hc Hr|s w _ IH]; [| |done].
  - unfold session_ok. by rewrite Hn.
  - exact (wp_Ok _ (λ _ s', session_ok s') _ _ _ _ (call_pool call s IH Hc) Hr).
Qed.
End loading.

(** an environment with healthy connections and segments *)
Definition healthy_env {W} : QEEnv W := {|
  proc_exit_inprogress := λ _, false;
  cdbconn_isBadConnection := λ _ _, false;
  mop_high_watermark := λ _ _, 0;
  cdbconn_discardResults := λ _ _ w, (true, w);
  cdbconn_disconnect := λ _ w, w;
  fts_probe_status := λ _ _, 0;
  gp_vmem_protect_gang_cache_limit := λ _, 500;
  TempNamespaceOidIsValid := λ _, false;
  markCurrentGxactWriterGangLost := λ w, w;
  PQbypassConnCloseAtCancel := λ _ w, w;
|}.

(** two QEs of content 0 handed out, the writer recycled *)
Definition demo_calls : list qe_call :=
  [Allocate 0 SEGMENTTYPE_EXPLICT_WRITER; Allocate 0 SEGMENTTYPE_ANY; Recycle 1 false].
Definition run_demo (n : nat) : session (list GpSegConfigEntry * gmap string string) :=
  foldl (λ s call, match run_call (CE := memory_env) (QE := healthy_env) prober_vars call s with
                   | Ok (_, s') => s' | Err _ => s end) demo_session (take n demo_calls).

(** C29: The pool of query executors is consistent.  In every session reachable by
    allocating, recycling, cleaning up, destroying and updating in any order, each QE is an
    allocated descriptor in exactly one list of one entry, the counters are the lengths of
    the lists, an entry has at most one writer (none on an entry database, and an idle
    writer is the first of its list), and no two QEs share an identifier.  So recycling an
    active QE and cleaning up never read a freed descriptor, and cleaning up a session
    without active QEs leaves no connection open. *)
Theorem qe_pool_invariant {W} `{CE : !ComponentsEnv W} `{QE : !QEEnv W} vars (s : session W) :
  reachable vars s →
  session_ok s ∧
  (∀ d force, is_active d s → ∃ s', cdbcomponent_recycleIdleQE vars d force s = Ok (tt, s')) ∧
  (∀ w, ∃ s', cdbcomponent_cleanupIdleQEs w s = Ok (tt, s')) ∧
  (no_active s → ∃ s', cdbcomponent_cleanupIdleQEs true s = Ok (tt, s') ∧ descriptors s' = ∅).
Proof.
  intros Hr. pose proof (reachable_ok vars s Hr) as Hs. split_and!; [done|..].
  - intros d force Hact. pose proof Hact as (c & _ & _ & Hc & _). unfold session_ok in Hs. rewrite Hc in Hs.
    destruct (wp_total _ _ _ (recycle_spec vars d force s (ex_intro _ c (conj Hc Hs)) Hact)) as ([] & s' & ? & _).
    by exists s'.
  - intros w. unfold session_ok in Hs. destruct (cdb_component_dbs s) as [c|] eqn:Hc.
    + destruct (wp_total _ _ _ (cleanup_spec w s c Hc (ex_intro _ c (conj Hc Hs)))) as ([] & s' & ? & _). by exists s'.
    + exists s. cbv [cdbcomponent_cleanupIdleQEs mbind M_bind get]. by rewrite Hc.
  - intros Hno. destruct (wp_total _ _ _ (cleanup_all s Hs Hno)) as ([] & s' & ? & _ & ?). by exists s'.
Qed.

Lemma demo_reachable_2 : reachable (CE := memory_env) (QE := healthy_env) prober_vars (run_demo 2).
Proof.
  eapply (reachable_call _ (run_demo 1) (Allocate 0 SEGMENTTYPE_ANY)); [|done|by vm_compute].
  eapply (reachable_call _ (run_demo 0) (Allocate 0 SEGMENTTYPE_EXPLICT_WRITER)); [|done|by vm_compute].
  by apply reachable_start.
Qed.

Lemma demo_active : is_active 1 (run_demo 2).
Proof. vm_compute. eexists _, _, _. split_and!; try reflexivity. right. left. Qed.

Lemma qe_pool_invariant_witness :
  session_ok (run_demo 2) ∧
  ∃ s', cdbcomponent_recycleIdleQE (QE := healthy_env) prober_vars 1 false (run_demo 2) = Ok (tt, s').
Proof.
  pose proof (qe_pool_invariant prober_vars (run_demo 2) demo_reachable_2) as (Hok & Hrec & _).
  split; [exact Hok|exact (Hrec 1 false demo_active)].
Defined.

(** C30: cdbcomponent_allocateIdleQE.  In a reachable session, once the entry of the content
    is found, allocation succeeds.  It hands out a QE that was not in use: an idle QE of the
    entry of the requested kind if there is one, unchanged, and otherwise a new descriptor
    for this entry, whose identifier no live QE has and which is a writer exactly if the
    content is not the coordinator and the entry had no QE at all. *)
Theorem allocateIdleQE_spec {W} `{CE : !ComponentsEnv W} `{QE : !QEEnv W} vars (s s1 : session W)
    contentId ty p c i :
  reachable vars s → cdbcomponent_getComponentInfo vars contentId s = Ok (p, s1) →
  cdb_component_dbs s1 = Some c → at_pos p c = Some i →
  ∃ d s', cdbcomponent_allocateIdleQE vars contentId ty s = Ok (d, s') ∧
    allocated contentId ty p i d s1 s'.
Proof.
  intros Hr Hp Hc Hi. pose proof (getComponentInfo_pool vars contentId s (reachable_ok vars s Hr)) as Hg.
  pose proof (wp_Ok _ _ _ _ _ _ Hg Hp) as ((c0 & Hc0 & Hinv) & Hent). assert (c0 = c) as -> by congruence.
  by apply wp_total, (allocate_found vars contentId ty p c i s s1).
Qed.

Lemma allocateIdleQE_spec_witness :
  ∃ p s1 i d s',
    cdbcomponent_allocateIdleQE (CE := memory_env) prober_vars 0 SEGMENTTYPE_EXPLICT_WRITER
      (run_demo 3) = Ok (d, s') ∧ d = 1 ∧
    allocated 0 SEGMENTTYPE_EXPLICT_WRITER p i d s1 s'.
Proof.
  destruct (cdb_component_dbs (run_demo 3)) as [c|] eqn:Hc; [|by vm_compute in Hc].
  destruct (at_pos (SegmentAt 0) c) as [i|] eqn:Hi;
    [|revert Hi; vm_compute in Hc; injection Hc as <-; by vm_compute].
  destruct (allocateIdleQE_spec (CE := memory_env) (QE := healthy_env) prober_vars (run_demo 3) (run_demo 3) 0
    SEGMENTTYPE_EXPLICT_WRITER (SegmentAt 0) c i) as (d & s' & Hrun & Hal).
  - eapply (reachable_call _ (run_demo 2) (Recycle 1 false)); [apply demo_reachable_2|apply demo_active|by vm_compute].
  - vm_compute. reflexivity.
  - exact Hc.
  - exact Hi.
  - exists (SegmentAt 0), (run_demo 3), i, d, s'. split; [exact Hrun|]. split; [|exact Hal].
    vm_compute in Hrun. injection Hrun as Hd _. exact (eq_sym Hd).
Defined.
