(* ===== verification/Libpq.v ===== *)
(** * What the prober uses of libpq, poll() and time()

    The prober drives asynchronous libpq connections.  libpq, the kernel's poll()
    and the clock are an environment here: a type [W] of environment states, a
    type [Conn] of connection objects and the calls, as operations on [W].  The
    theorems hold for every environment, so no behaviour of the network or of the
    segments is assumed unless a theorem names it.  The enumerations are those of
    [src/interfaces/libpq/libpq-fe.h] and [libpq-int.h]. *)

From S2P Require Import Prelude.

Inductive ConnStatusType :=
  | CONNECTION_OK
  | CONNECTION_BAD
  | CONNECTION_STARTED
  | CONNECTION_MADE
  | CONNECTION_AWAITING_RESPONSE
  | CONNECTION_AUTH_OK
  | CONNECTION_SETENV
  | CONNECTION_SSL_STARTUP
  | CONNECTION_NEEDED
  | CONNECTION_CHECK_WRITABLE
  | CONNECTION_CONSUME
  | CONNECTION_GSS_STARTUP.

Inductive PostgresPollingStatusType :=
  | PGRES_POLLING_FAILED
  | PGRES_POLLING_READING
  | PGRES_POLLING_WRITING
  | PGRES_POLLING_OK
  | PGRES_POLLING_ACTIVE.

Inductive PGAsyncStatusType :=
  | PGASYNC_IDLE
  | PGASYNC_BUSY
  | PGASYNC_READY
  | PGASYNC_COPY_IN
  | PGASYNC_COPY_OUT
  | PGASYNC_COPY_BOTH.

Inductive ExecStatusType :=
  | PGRES_EMPTY_QUERY
  | PGRES_COMMAND_OK
  | PGRES_TUPLES_OK
  | PGRES_COPY_OUT
  | PGRES_COPY_IN
  | PGRES_BAD_RESPONSE
  | PGRES_NONFATAL_ERROR
  | PGRES_FATAL_ERROR
  | PGRES_COPY_BOTH
  | PGRES_SINGLE_TUPLE.

#[export] Instance ConnStatusType_eq_dec : EqDecision ConnStatusType.
Proof. solve_decision. Defined.
#[export] Instance PGAsyncStatusType_eq_dec : EqDecision PGAsyncStatusType.
Proof. solve_decision. Defined.
#[export] Instance ExecStatusType_eq_dec : EqDecision ExecStatusType.
Proof. solve_decision. Defined.

(** [PGresult]: [pg_value row col] is the first byte of the field *)
Record PGresult := mkPGresult {
  pg_resultStatus : ExecStatusType;
  pg_ntuples : Z;
  pg_nfields : Z;
  pg_value : Z → Z → Z;
}.

(** [struct pollfd] without its result *)
Record pollfd := mkPollfd { pfd_fd : Z; pfd_events : Z }.

(** what poll() reports: its return value, whether errno is EINTR, and the
    [revents] it stored, in the order of the descriptors *)
Record poll_answer := mkPollAnswer {
  nready : Z;
  errno_is_EINTR : bool;
  revents : list Z;
}.

Definition POLLIN : Z := 1.
Definition POLLOUT : Z := 4.
Definition POLLERR : Z := 8.
Definition POLLHUP : Z := 16.

Class Libpq (W Conn : Type) := {
  PQconnectStart : string → W → option Conn * W;
  PQstatus : Conn → W → ConnStatusType;
  PQasyncStatus : Conn → W → PGAsyncStatusType;
  PQerrorMessage : Conn → W → string;
  PQsocket : Conn → W → Z;
  PQconnectPoll : Conn → W → PostgresPollingStatusType * W;
  PQsendQuery : Conn → string → W → bool * W;
  PQconsumeInput : Conn → W → bool * W;
  PQisBusy : Conn → W → bool * W;
  PQgetResult : Conn → W → option PGresult * W;
  PQfinish : Conn → W → W;
  sys_poll : list pollfd → W → poll_answer * W;
  sys_time : W → Z * W;
  gettext : string → string;
}.
