(* ===== verification/PqProtocol.v ===== *)
(** * The wire protocol between a segment and the prober

    How a backend builds protocol messages ([src/include/libpq/pqformat.h],
    [src/backend/libpq/pqformat.c], [pqcomm.c], [src/backend/tcop/dest.c]) and how
    libpq takes a query's answer apart ([src/interfaces/libpq/fe-misc.c],
    [fe-protocol3.c], [fe-exec.c]).  Bytes are integers from 0 to 255.

    Strings sent are ASCII, which no encoding conversion changes.  Memory is not
    exhausted, and single-row mode is off.  The message types that no query answer of
    the prober contains (notices, errors, COPY, start-up and the QD/QE extensions) are
    one parameter of the parser, [other_message]. *)

From S2P Require Import Prelude CLib Libpq.

Definition char_byte (c : ascii) : Z := Z.of_nat (nat_of_ascii c).
Fixpoint string_bytes (s : string) : list Z :=
  match s with EmptyString => [] | String c s => char_byte c :: string_bytes s end.

(** ** Sending *)

(** the [n] low bytes of [z], most significant first *)
Fixpoint int_bytes (n : nat) (z : Z) : list Z :=
  match n with O => [] | S n => Z.shiftr z (8 * Z.of_nat n) mod 256 :: int_bytes n z end.

(** a message under construction *)
Abbreviation StringInfo := (list Z).

Definition pq_sendint8 (i : Z) : M StringInfo unit := modify (λ buf, buf ++ int_bytes 1 i).
Definition pq_sendint16 (i : Z) : M StringInfo unit := modify (λ buf, buf ++ int_bytes 2 i).
Definition pq_sendint32 (i : Z) : M StringInfo unit := modify (λ buf, buf ++ int_bytes 4 i).
Definition pq_sendint (i : Z) (b : Z) : M StringInfo unit :=
  if b =? 1 then pq_sendint8 (wrap 32 i)
  else if b =? 2 then pq_sendint16 (wrap 32 i)
  else if b =? 4 then pq_sendint32 (wrap 32 i)
  else elog_ERROR ("unsupported integer size " ++ fmt_d b).

Definition pq_sendstring (str : string) : M StringInfo unit :=
  modify (λ buf, buf ++ string_bytes str ++ [0]).

(** what reaches the socket *)
Definition pq_putmessage (msgtype : ascii) (s : list Z) : list Z :=
  char_byte msgtype :: int_bytes 4 (wrap 32 (Z.of_nat (length s) + 4)) ++ s.

(** [pq_beginmessage(&buf, msgtype)]; the sends; [pq_endmessage(&buf)] *)
Definition pq_message (msgtype : ascii) (sends : M StringInfo unit) : res (list Z) :=
  match sends [] with
  | Ok (_, buf) => Ok (pq_putmessage msgtype buf)
  | Err e => Err e
  end.

(** EndCommand for DestRemote *)
Definition EndCommand (commandTag : string) : list Z :=
  pq_putmessage "C" (string_bytes commandTag ++ [0]).

(** ** Reading the input buffer *)

(** [None] is EOF: not enough data *)
Definition getter (A : Type) : Type := list Z → option (A * list Z).

Definition pqGetc : getter Z := λ buf,
  match buf with [] => None | b :: buf => Some (b, buf) end.

Definition be_value (l : list Z) : Z := foldl (λ acc b, acc * 256 + b) 0 l.

Definition pqGetInt (bytes : nat) : getter Z := λ buf,
  if Nat.eqb bytes 2 then
    if Nat.ltb (length buf) 2 then None else Some (be_value (take 2 buf), drop 2 buf)
  else if Nat.eqb bytes 4 then
    if Nat.ltb (length buf) 4 then None else Some (swrap 32 (be_value (take 4 buf)), drop 4 buf)
  else None.

Fixpoint pqGets (buf : list Z) : option (list Z * list Z) :=
  match buf with
  | [] => None
  | b :: buf =>
      if b =? 0 then Some ([], buf)
      else match pqGets buf with Some (s, rest) => Some (b :: s, rest) | None => None end
  end.

(** the bytes skipped, which the row points to *)
Definition pqSkipnchar (len : nat) : getter (list Z) := λ buf,
  if Nat.ltb (length buf) len then None else Some (take len buf, drop len buf).

(** ** Results *)

Record PGresAttDesc := mkAttDesc {
  att_name : list Z;
  tableid : Z;
  columnid : Z;
  format : Z;
  typid : Z;
  typlen : Z;
  atttypmod : Z;
}.

(** a field is [None] for NULL *)
Record pg_result := mkResultSet {
  resultStatus : ExecStatusType;
  attDescs : list PGresAttDesc;
  tuples : list (list (option (list Z)));
}.
Definition numAttributes (r : pg_result) : nat := length (attDescs r).
Definition PQmakeEmptyPGresult (st : ExecStatusType) : pg_result := mkResultSet st [] [].

Inductive PGQueryClass := PGQUERY_SIMPLE | PGQUERY_EXTENDED | PGQUERY_PREPARE | PGQUERY_DESCRIBE.
#[export] Instance PGQueryClass_eq_dec : EqDecision PGQueryClass.
Proof. solve_decision. Defined.

(** [struct pg_conn]: the bytes received from [inStart] on and the query's state *)
Record pg_conn := mkConn {
  inBuffer : list Z;
  asyncStatus : PGAsyncStatusType;
  conn_bad : bool;
  conn_result : option pg_result;
  queryclass : PGQueryClass;
}.
Definition set_inBuffer (b : list Z) (c : pg_conn) : pg_conn :=
  mkConn b (asyncStatus c) (conn_bad c) (conn_result c) (queryclass c).
Definition set_asyncStatus (st : PGAsyncStatusType) (c : pg_conn) : pg_conn :=
  mkConn (inBuffer c) st (conn_bad c) (conn_result c) (queryclass c).
Definition set_conn_result (r : option pg_result) (c : pg_conn) : pg_conn :=
  mkConn (inBuffer c) (asyncStatus c) (conn_bad c) r (queryclass c).

Definition pqSaveErrorResult : pg_conn → pg_conn :=
  set_conn_result (Some (PQmakeEmptyPGresult PGRES_FATAL_ERROR)).

(** loss of sync drops the connection and what it received *)
Definition handleSyncLoss (c : pg_conn) : pg_conn :=
  mkConn [] PGASYNC_READY true (Some (PQmakeEmptyPGresult PGRES_FATAL_ERROR)) (queryclass c).

(** ** Row descriptions *)

Definition get_attribute : getter PGresAttDesc := λ buf,
  '(nm, buf) ← pqGets buf;
  '(tableid, buf) ← pqGetInt 4 buf;
  '(columnid, buf) ← pqGetInt 2 buf;
  '(typid, buf) ← pqGetInt 4 buf;
  '(typlen, buf) ← pqGetInt 2 buf;
  '(atttypmod, buf) ← pqGetInt 4 buf;
  '(format, buf) ← pqGetInt 2 buf;
  Some (mkAttDesc nm tableid (swrap 16 columnid) (swrap 16 format) typid (swrap 16 typlen)
          atttypmod, buf).

Fixpoint get_attributes (nfields : nat) : getter (list PGresAttDesc) := λ buf,
  match nfields with
  | O => Some ([], buf)
  | S n =>
      '(a, buf) ← get_attribute buf;
      '(l, buf) ← get_attributes n buf;
      Some (a :: l, buf)
  end.

(** the connection and the bytes after what was read, [body] the bytes from the
    message's contents on; on error the message counts as read *)
Definition getRowDescriptions (msgLength : nat) (body : list Z) (c : pg_conn) : pg_conn * list Z :=
  let advance_and_error := (pqSaveErrorResult c, drop msgLength body) in
  let result :=
    if decide (queryclass c = PGQUERY_DESCRIBE) then
      match conn_result c with Some r => r | None => PQmakeEmptyPGresult PGRES_COMMAND_OK end
    else PQmakeEmptyPGresult PGRES_TUPLES_OK in
  match pqGetInt 2 body with
  | None => advance_and_error
  | Some (nfields, buf) =>
      match get_attributes (Z.to_nat nfields) buf with
      | None => advance_and_error
      | Some (descs, buf) =>
          let c := set_conn_result (Some (mkResultSet (resultStatus result) descs (tuples result))) c in
          (if decide (queryclass c = PGQUERY_DESCRIBE) then set_asyncStatus PGASYNC_READY c else c, buf)
      end
  end.

(** ** Rows *)

Fixpoint get_fields (nfields : nat) : getter (list (option (list Z))) := λ buf,
  match nfields with
  | O => Some ([], buf)
  | S n =>
      '(vlen, buf) ← pqGetInt 4 buf;
      '(value, buf) ← (if 0 <? vlen then pqSkipnchar (Z.to_nat vlen) buf else Some ([], buf));
      '(l, buf) ← get_fields n buf;
      Some ((if vlen <? 0 then None else Some value) :: l, buf)
  end.

Definition getAnotherTuple (msgLength : nat) (body : list Z) (result : pg_result) (c : pg_conn)
    : pg_conn * list Z :=
  let advance_and_error := (pqSaveErrorResult c, drop msgLength body) in
  match pqGetInt 2 body with
  | None => advance_and_error
  | Some (tupnfields, buf) =>
      if negb (tupnfields =? Z.of_nat (numAttributes result)) then advance_and_error
      else
        match get_fields (numAttributes result) buf with
        | None => advance_and_error
        | Some (row, buf) =>
            (set_conn_result
               (Some (mkResultSet (resultStatus result) (attDescs result) (tuples result ++ [row]))) c,
             buf)
        end
  end.

(** ** The parser *)

Definition is_id (id : Z) (c : ascii) : bool := id =? char_byte c.
Definition id_in (id : Z) (s : string) : bool := bool_decide (id ∈ string_bytes s).

Definition VALID_LONG_MESSAGE_TYPE (id : Z) : bool := id_in id "TDdVENAYyoM".

(** an iteration of the parser's loop ends with [continue] or [return] *)
Inductive parse_step :=
  | Continue (c : pg_conn)
  | Return (c : pg_conn).

Section Parser.
(** the message types that are not modelled: how they change the connection, and the
    bytes left after the message; [None] when the message is held back *)
Context (other_message : Z → nat → list Z → pg_conn → option (pg_conn * list Z)).

Definition needs_result (st : ExecStatusType) (c : pg_conn) : pg_conn :=
  match conn_result c with
  | None => set_conn_result (Some (PQmakeEmptyPGresult st)) c
  | Some _ => c
  end.

(** the switch on the message type in state BUSY: the connection and the bytes after
    the message, or [inr] the connection to return with *)
Definition busy_message (id : Z) (msgLength : nat) (body : list Z) (c : pg_conn)
    : (pg_conn * list Z) + pg_conn :=
  if is_id id "C" then
    match pqGets body with
    | None => inr c
    | Some (_, buf) => inl (set_asyncStatus PGASYNC_READY (needs_result PGRES_COMMAND_OK c), buf)
    end
  else if is_id id "I" then
    inl (set_asyncStatus PGASYNC_READY (needs_result PGRES_EMPTY_QUERY c), body)
  else if is_id id "1" then
    inl (if decide (queryclass c = PGQUERY_PREPARE)
         then set_asyncStatus PGASYNC_READY (needs_result PGRES_COMMAND_OK c) else c, body)
  else if is_id id "2" || is_id id "3" then inl (c, body)
  else if is_id id "T" then
    match conn_result c with
    | Some r =>
        if decide (resultStatus r = PGRES_FATAL_ERROR) then inl (c, drop msgLength body)
        else if decide (queryclass c = PGQUERY_DESCRIBE)
        then inl (getRowDescriptions msgLength body c)
        else inr (set_asyncStatus PGASYNC_READY c)
    | None => inl (getRowDescriptions msgLength body c)
    end
  else if is_id id "n" then
    inl (if decide (queryclass c = PGQUERY_DESCRIBE)
         then set_asyncStatus PGASYNC_READY (needs_result PGRES_COMMAND_OK c) else c, body)
  else if is_id id "D" then
    match conn_result c with
    | Some r =>
        if decide (resultStatus r = PGRES_TUPLES_OK) then inl (getAnotherTuple msgLength body r c)
        else if decide (resultStatus r = PGRES_FATAL_ERROR) then inl (c, drop msgLength body)
        else inl (pqSaveErrorResult c, drop msgLength body)
    | None => inl (pqSaveErrorResult c, drop msgLength body)
    end
  else if is_id id "d" then inl (c, drop msgLength body)
  else if is_id id "c" then inl (c, body)
  else if id_in id "EZSKtGHWMjYyw" then
    match other_message id msgLength body c with None => inr c | Some p => inl p end
  else inl (set_asyncStatus PGASYNC_READY (pqSaveErrorResult c), drop msgLength body).

(** the message dispatch of an iteration *)
Definition handle_message (id : Z) (msgLength : nat) (body : list Z) (c : pg_conn)
    : (pg_conn * list Z) + pg_conn :=
  if id_in id "ANkx" then
    match other_message id msgLength body c with None => inr c | Some p => inl p end
  else if decide (asyncStatus c ≠ PGASYNC_BUSY) then
    if decide (asyncStatus c ≠ PGASYNC_IDLE) then inr c
    else if id_in id "ES" then
      match other_message id msgLength body c with None => inr c | Some p => inl p end
    else inl (c, drop msgLength body)
  else busy_message id msgLength body c.

Definition parse_message (c : pg_conn) : parse_step :=
  match pqGetc (inBuffer c) with
  | None => Return c
  | Some (id, buf) =>
      match pqGetInt 4 buf with
      | None => Return c
      | Some (msgLength, body) =>
          if msgLength <? 4 then Return (handleSyncLoss c)
          else if (30000 <? msgLength) && negb (VALID_LONG_MESSAGE_TYPE id)
          then Return (handleSyncLoss c)
          else
            let msgLength := Z.to_nat (msgLength - 4) in
            if Nat.ltb (length body) msgLength then Return c
            else
              match handle_message id msgLength body c with
              | inr c => Return c
              | inl (c', rest) =>
                  if decide (length body = msgLength + length rest)%nat
                  then Continue (set_inBuffer rest c')
                  else Continue (set_inBuffer (drop msgLength body)
                                   (set_asyncStatus PGASYNC_READY (pqSaveErrorResult c')))
              end
      end
  end.

Fixpoint parse_loop (fuel : nat) (c : pg_conn) : pg_conn :=
  match fuel with
  | O => c
  | S fuel =>
      match parse_message c with
      | Return c => c
      | Continue c => parse_loop fuel c
      end
  end.

(** every message takes at least five bytes of the buffer, so its length is fuel enough *)
Definition pqParseInput3 (c : pg_conn) : pg_conn := parse_loop (S (length (inBuffer c))) c.

(** ** Using the connection *)

(** the bytes a read of the socket appends *)
Definition pqReadData (chunk : list Z) (c : pg_conn) : pg_conn :=
  set_inBuffer (inBuffer c ++ chunk) c.

Definition PQisBusy_conn (c : pg_conn) : bool * pg_conn :=
  let c := pqParseInput3 c in
  (bool_decide (asyncStatus c = PGASYNC_BUSY) && negb (conn_bad c), c).

Definition pqPrepareAsyncResult (c : pg_conn) : pg_result * pg_conn :=
  (match conn_result c with Some r => r | None => PQmakeEmptyPGresult PGRES_FATAL_ERROR end,
   set_conn_result None c).

(** [None] when PQgetResult would wait for input, or the connection is in COPY mode *)
Definition PQgetResult_conn (c : pg_conn) : option (option pg_result * pg_conn) :=
  let c := pqParseInput3 c in
  match asyncStatus c with
  | PGASYNC_IDLE => Some (None, c)
  | PGASYNC_READY =>
      let '(r, c) := pqPrepareAsyncResult c in
      Some (Some r, set_asyncStatus PGASYNC_BUSY c)
  | _ => None
  end.

End Parser.

(** PQgetvalue: field values end with a NUL byte, the value of NULL is empty *)
Definition PQgetvalue (r : pg_result) (tup_num field_num : Z) : option (list Z) :=
  if (tup_num <? 0) || (field_num <? 0) then None
  else
    row ← tuples r !! Z.to_nat tup_num;
    field ← row !! Z.to_nat field_num;
    Some (default [] field ++ [0]).

(** the result as the prober reads it *)
Definition result_view (r : pg_result) : PGresult :=
  mkPGresult (resultStatus r) (Z.of_nat (length (tuples r))) (Z.of_nat (numAttributes r))
    (λ row col, match PQgetvalue r row col with Some (b :: _) => b | _ => 0 end).
