(* ===== verification/PqProtocolFacts.v ===== *)
(** * Theorems about the wire protocol *)

From S2P Require Import Prelude CLib Libpq PqProtocol.

(** ** Integers on the wire *)

Lemma int_bytes_length n z : length (int_bytes n z) = n.
Proof. induction n as [|n IH]; simpl; congruence. Qed.

Lemma be_value_app l b : be_value (l ++ [b]) = be_value l * 256 + b.
Proof. unfold be_value. by rewrite foldl_app. Qed.

Lemma foldl_be acc l :
  foldl (λ acc b, acc * 256 + b) acc l = acc * 256 ^ Z.of_nat (length l) + be_value l.
Proof.
  unfold be_value. revert acc. induction l as [|b l IH]; intros acc; cbn [foldl length]; [lia|].
  rewrite IH, (IH (0 * 256 + b)). rewrite Nat2Z.inj_succ, Z.pow_succ_r by lia. lia.
Qed.

Lemma be_value_int_bytes n z : be_value (int_bytes n z) = z mod 256 ^ Z.of_nat n.
Proof.
  induction n as [|n IH]; [simpl; by rewrite Z.mod_1_r|].
  simpl int_bytes. unfold be_value. cbn [foldl]. rewrite foldl_be, IH, int_bytes_length, Z.add_0_l.
  rewrite Z.shiftr_div_pow2 by lia.
  replace (2 ^ (8 * Z.of_nat n)) with (256 ^ Z.of_nat n) by (rewrite Z.pow_mul_r by lia; done).
  rewrite Nat2Z.inj_succ, Z.pow_succ_r, (Z.mul_comm 256) by lia.
  rewrite Z.rem_mul_r by lia. lia.
Qed.

(** a two-byte integer is read back unsigned, a four-byte one as an int *)
Lemma pqGetInt_2 z rest : pqGetInt 2 (int_bytes 2 z ++ rest) = Some (wrap 16 z, rest).
Proof.
  unfold pqGetInt. cbn [Nat.eqb]. rewrite length_app, int_bytes_length.
  rewrite (proj2 (Nat.ltb_ge _ _)) by lia.
  rewrite take_app_length', drop_app_length' by (by rewrite int_bytes_length).
  by rewrite be_value_int_bytes.
Qed.

Lemma swrap_wrap n z : swrap n (wrap n z) = swrap n z.
Proof. unfold swrap, wrap. by rewrite Zmod_mod. Qed.

Lemma pqGetInt_4 z rest : pqGetInt 4 (int_bytes 4 z ++ rest) = Some (swrap 32 z, rest).
Proof.
  unfold pqGetInt. cbn [Nat.eqb]. rewrite length_app, int_bytes_length.
  rewrite (proj2 (Nat.ltb_ge _ _)) by lia.
  rewrite take_app_length', drop_app_length' by (by rewrite int_bytes_length).
  rewrite be_value_int_bytes. change (256 ^ Z.of_nat 4) with (2 ^ 32). by rewrite (swrap_wrap 32 z : swrap 32 (z mod 2 ^ 32) = _).
Qed.

Lemma char_byte_bound c : 0 ≤ char_byte c < 256.
Proof. unfold char_byte. pose proof (nat_ascii_bounded c). lia. Qed.

Lemma pqGets_bytes l rest : Forall (λ b, b ≠ 0) l → pqGets (l ++ 0 :: rest) = Some (l, rest).
Proof.
  induction 1 as [|b l Hb Hl IH]; simpl; [done|].
  rewrite (proj2 (Z.eqb_neq _ _)) by done. by rewrite IH.
Qed.

Lemma pqSkipnchar_app l rest : pqSkipnchar (length l) (l ++ rest) = Some (l, rest).
Proof.
  unfold pqSkipnchar. rewrite length_app, (proj2 (Nat.ltb_ge _ _)) by lia.
  by rewrite take_app_length, drop_app_length.
Qed.

(** ** Progress of the parser *)

Section Progress.
Context (other_message : Z → nat → list Z → pg_conn → option (pg_conn * list Z)).
Abbreviation parse_message := (parse_message other_message).
Abbreviation parse_loop := (parse_loop other_message).
Abbreviation pqParseInput3 := (pqParseInput3 other_message).

Lemma pqGetInt_length n buf z rest :
  pqGetInt n buf = Some (z, rest) → (length buf = n + length rest)%nat.
Proof.
  unfold pqGetInt. intros H. repeat case_match; simplify_eq;
    repeat match goal with
      | H : Nat.eqb _ _ = true |- _ => apply Nat.eqb_eq in H; subst
      | H : Nat.ltb _ _ = false |- _ => apply Nat.ltb_ge in H
      end; rewrite length_drop; lia.
Qed.

Lemma parse_message_shorter c c' :
  parse_message c = Continue c' → (length (inBuffer c') < length (inBuffer c))%nat.
Proof.
  unfold PqProtocol.parse_message, pqGetc. destruct (inBuffer c) as [|id buf]; [done|].
  destruct (pqGetInt 4 buf) as [[n body]|] eqn:Hn; [|done].
  apply pqGetInt_length in Hn. intros H. repeat case_match; simplify_eq; simpl.
  - lia.
  - rewrite length_drop. lia.
Qed.

(** a message that was held back is held back again *)
Lemma handle_message_return id n body c c' :
  handle_message other_message id n body c = inr c' →
  inBuffer c' = inBuffer c ∧ handle_message other_message id n body c' = inr c'.
Proof.
  unfold handle_message at 1. destruct (id_in id "ANkx") eqn:Hn.
  { destruct (other_message id n body c) as [p|] eqn:Ho; [done|]. intros [= <-].
    unfold handle_message. by rewrite Hn, Ho. }
  case_decide as Hb.
  { case_decide as Hi; intros H.
    - simplify_eq. unfold handle_message. by rewrite Hn, !decide_True by done.
    - destruct (id_in id "ES") eqn:He; [|done].
      destruct (other_message id n body c) as [p|] eqn:Ho; [done|]. simplify_eq.
      split; [done|]. unfold handle_message. rewrite Hn. by repeat (case_decide; try done); rewrite He, Ho. }
  unfold busy_message. intros H.
  assert (Hsame : c' = c ∨ (c' = set_asyncStatus PGASYNC_READY c)).
  { repeat case_match; simplify_eq; auto. }
  destruct Hsame as [ -> | -> ].
  - split; [done|]. unfold handle_message. rewrite Hn, decide_False by congruence. exact H.
  - split; [done|]. unfold handle_message. simpl. by rewrite Hn.
Qed.

Lemma parse_message_return c c' :
  parse_message c = Return c' → parse_message c' = Return c'.
Proof.
  unfold PqProtocol.parse_message at 1.
  destruct (pqGetc (inBuffer c)) as [[id buf]|] eqn:Hc;
    [|intros [= <-]; unfold PqProtocol.parse_message; by rewrite Hc].
  destruct (pqGetInt 4 buf) as [[n body]|] eqn:Hn;
    [|intros [= <-]; unfold PqProtocol.parse_message; by rewrite Hc, Hn].
  destruct (n <? 4) eqn:H4; [by intros [= <-]|].
  destruct ((30000 <? n) && negb (VALID_LONG_MESSAGE_TYPE id)) eqn:Hlong; [by intros [= <-]|].
  destruct (Nat.ltb (length body) (Z.to_nat (n - 4))) eqn:Hl;
    [intros [= <-]; unfold PqProtocol.parse_message; by rewrite Hc, Hn, H4, Hlong, Hl|].
  destruct (handle_message _ _ _ _ _) as [[c1 rest]|c1] eqn:Hh; [by case_decide|].
  intros [= <-]. apply handle_message_return in Hh as [Hb Hh].
  unfold PqProtocol.parse_message. by rewrite Hb, Hc, Hn, H4, Hlong, Hl, Hh.
Qed.

Lemma parse_loop_return fuel c :
  (length (inBuffer c) < fuel)%nat → parse_message (parse_loop fuel c) = Return (parse_loop fuel c).
Proof.
  revert c. induction fuel as [|fuel IH]; intros c Hf; [lia|]. simpl.
  destruct (parse_message c) as [c'|c'] eqn:Hp; [|by eapply parse_message_return].
  apply IH. apply parse_message_shorter in Hp. lia.
Qed.

Lemma parse_loop_more fuel fuel' c :
  (length (inBuffer c) < fuel)%nat → (length (inBuffer c) < fuel')%nat →
  parse_loop fuel c = parse_loop fuel' c.
Proof.
  revert fuel' c. induction fuel as [|fuel IH]; intros [|fuel'] c H H'; try lia. simpl.
  destruct (parse_message c) as [c'|c'] eqn:Hp; [|done].
  apply parse_message_shorter in Hp. apply IH; lia.
Qed.

Lemma pqParseInput3_unfold c :
  pqParseInput3 c = match parse_message c with Return c' => c' | Continue c' => pqParseInput3 c' end.
Proof.
  unfold PqProtocol.pqParseInput3 at 1. cbn [PqProtocol.parse_loop].
  destruct (parse_message c) as [c'|c'] eqn:Hp; [|done].
  apply parse_message_shorter in Hp. apply parse_loop_more; lia.
Qed.


End Progress.

(** ** Messages received in pieces *)

Lemma app_longer {A} (p q a b : list A) :
  p ++ q = a ++ b → (length a ≤ length p)%nat → ∃ p', p = a ++ p' ∧ p' ++ q = b.
Proof.
  intros H Hl. apply app_eq_inv in H as [(k & -> & ->)|(k & -> & ->)]; [by exists k|].
  rewrite length_app in Hl. destruct k; [|simpl in Hl; lia].
  exists []. by rewrite !app_nil_r.
Qed.

Section Stream.
Context (other_message : Z → nat → list Z → pg_conn → option (pg_conn * list Z)).
Abbreviation parse_message := (parse_message other_message).
Abbreviation pqParseInput3 := (pqParseInput3 other_message).

(** the parser takes the message to the connection [c'], reading its contents and no
    more *)
Definition exact_message (m : ascii * list Z) (c c' : pg_conn) : Prop :=
  Z.of_nat (length m.2) ≤ 29996 ∧
  ∀ buf rest, handle_message other_message (char_byte m.1) (length m.2) (m.2 ++ rest)
    (set_inBuffer buf c) = inl (set_inBuffer buf c', rest).

Inductive script : pg_conn → list (ascii * list Z) → pg_conn → Prop :=
  | script_nil c : script c [] c
  | script_cons c m c' ms c'' :
      exact_message m c c' → script c' ms c'' → script c (m :: ms) c''.

Definition wire (ms : list (ascii * list Z)) : list Z :=
  concat ((λ m, pq_putmessage m.1 m.2) <$> ms).

Lemma header_int (body rest : list Z) :
  Z.of_nat (length body) ≤ 29996 →
  pqGetInt 4 (int_bytes 4 (wrap 32 (Z.of_nat (length body) + 4)) ++ rest) =
  Some (Z.of_nat (length body) + 4, rest).
Proof.
  intros Hl. rewrite pqGetInt_4. unfold wrap, swrap. rewrite Zmod_mod, Z.mod_small by lia.
  rewrite (proj2 (Z.ltb_lt _ _)); [done|]. change (2 ^ (32 - 1)) with 2147483648. lia.
Qed.

Lemma parse_message_whole m c c' rest :
  exact_message m c c' →
  parse_message (set_inBuffer (pq_putmessage m.1 m.2 ++ rest) c) = Continue (set_inBuffer rest c').
Proof.
  intros [Hl Hh]. unfold PqProtocol.parse_message, pq_putmessage. cbn [inBuffer set_inBuffer pqGetc app].
  rewrite <- app_assoc, header_int by done.
  rewrite (proj2 (Z.ltb_ge _ _)), (proj2 (Z.ltb_ge _ _)) by lia. cbn [andb].
  replace (Z.to_nat (Z.of_nat (length m.2) + 4 - 4)) with (length m.2) by lia.
  rewrite length_app, (proj2 (Nat.ltb_ge _ _)) by lia.
  change (mkConn ?b _ _ _ _) with (set_inBuffer b c). rewrite Hh, decide_True by done. done.
Qed.

Lemma parse_message_partial m c c' p q :
  exact_message m c c' → p ++ q = pq_putmessage m.1 m.2 → q ≠ [] →
  parse_message (set_inBuffer p c) = Return (set_inBuffer p c).
Proof.
  intros [Hl _] Hpq Hq. unfold PqProtocol.parse_message. cbn [inBuffer set_inBuffer].
  destruct p as [|id p]; [done|]. unfold pq_putmessage in Hpq. cbn [app] in Hpq. injection Hpq as -> Hpq. cbn [pqGetc].
  set (h := int_bytes 4 (wrap 32 (Z.of_nat (length m.2) + 4))) in *.
  change (p ++ q = h ++ m.2) in Hpq.
  destruct (Nat.ltb (length p) 4) eqn:Hp.
  { unfold pqGetInt. cbn [Nat.eqb]. by rewrite Hp. }
  apply Nat.ltb_ge in Hp. assert (length h = 4%nat) as Hh by apply int_bytes_length.
  destruct (app_longer _ _ _ _ Hpq) as (p' & -> & Hb); [lia|].
  subst h. rewrite header_int by done.
  rewrite (proj2 (Z.ltb_ge _ _)), (proj2 (Z.ltb_ge _ _)) by lia. cbn [andb].
  rewrite <- Hb, length_app. destruct q; [done|]. cbn [length].
  by rewrite (proj2 (Nat.ltb_lt _ _)) by lia.
Qed.

Lemma parse_stream ms c c' p q :
  script c ms c' → p ++ q = wire ms →
  ∃ c1 todo p', script c1 todo c' ∧ p' ++ q = wire todo ∧ (q = [] → todo = []) ∧
    pqParseInput3 (set_inBuffer p c) = set_inBuffer p' c1.
Proof.
  intros Hs. revert p. induction Hs as [c|c m c1 ms c' Hm Hs IH]; intros p Hpq.
  { apply app_eq_nil in Hpq as [-> ->]. exists c, [], []. split_and!; [constructor|done..]. }
  change (p ++ q = pq_putmessage m.1 m.2 ++ wire ms) in Hpq.
  destruct (decide (length p < length (pq_putmessage m.1 m.2))%nat) as [Hlt|Hge].
  - exists c, (m :: ms), p. split_and!; [by econstructor|done| |].
    { intros ->. apply (f_equal length) in Hpq. rewrite !length_app in Hpq. cbn [length] in Hpq. lia. }
    destruct (app_longer _ _ _ _ (eq_sym Hpq)) as (r & Hr & _); [lia|].
    rewrite pqParseInput3_unfold, (parse_message_partial m c c1 p r); [done|done|done|].
    intros ->. rewrite Hr, app_nil_r in Hlt. lia.
  - destruct (app_longer _ _ _ _ Hpq) as (p' & -> & Hp'); [lia|].
    rewrite pqParseInput3_unfold, (parse_message_whole m c c1) by done. by apply IH.
Qed.

(** reading the socket and parsing, chunk by chunk *)
Definition receive (c : pg_conn) (chunks : list (list Z)) : pg_conn :=
  foldl (λ c chunk, pqParseInput3 (pqReadData chunk c)) c chunks.

Lemma receive_script chunks c ms c' p :
  script c ms c' → p ++ concat chunks = wire ms → (chunks = [] → ms = []) →
  receive (set_inBuffer p c) chunks = set_inBuffer [] c'.
Proof.
  revert c ms p. induction chunks as [|chunk chunks IH]; intros c ms p Hs Hw Hnil; simpl.
  { rewrite (Hnil eq_refl) in *. inversion Hs; subst. by apply app_eq_nil in Hw as [-> _]. }
  simpl in Hw. rewrite app_assoc in Hw.
  destruct (parse_stream _ _ _ _ _ Hs Hw) as (c1 & todo & p' & Hs' & Hw' & Hq & Heq).
  change (pqReadData chunk (set_inBuffer p c)) with (set_inBuffer (p ++ chunk) c).
  rewrite Heq. eapply IH; [done|done|]. intros ->. by apply Hq.
Qed.

End Stream.
