(* ===== verification/FtsProbe.v ===== *)
(** * The FTS prober ([src/backend/fts/ftsprobe.c], [src/include/postmaster/ftsprobe.h])

    One probe cycle: a context with one entry per primary is built from the
    cluster configuration and the six steps ftsConnect, ftsPoll, ftsSend,
    ftsReceive, processRetry and processResponse are repeated until every entry is
    in its final state.

    Every function of the file is one definition.  The state of the monad is the
    environment of [Libpq.v] together with the globals of [FtsConfig.v]; a step
    over the [perSegInfos] array rewrites the entries one after the other.  Logging
    is not modelled, except that a message that is emitted and reads through
    [mirror_cdbinfo] or [conn] faults when the pointer is NULL.  (Messages also read
    [primary_cdbinfo]; an entry where that is NULL faults in ftsConnectStart, the
    first operation on it.)  Freeing memory and results has no effect here.
    Assertions are not part of the model: what they claim is proved in
    [FtsProbeSafety.v]. *)

From S2P Require Import Prelude Bitmapset CLib FtsConfig Libpq.

Inductive FtsMessageState :=
  | FTS_PROBE_SEGMENT
  | FTS_SYNCREP_OFF_SEGMENT
  | FTS_PROMOTE_SEGMENT
  | FTS_PROBE_RETRY_WAIT
  | FTS_SYNCREP_OFF_RETRY_WAIT
  | FTS_PROMOTE_RETRY_WAIT
  | FTS_PROBE_SUCCESS
  | FTS_SYNCREP_OFF_SUCCESS
  | FTS_PROMOTE_SUCCESS
  | FTS_PROBE_FAILED
  | FTS_SYNCREP_OFF_FAILED
  | FTS_PROMOTE_FAILED
  | FTS_RESPONSE_PROCESSED.

#[export] Instance FtsMessageState_eq_dec : EqDecision FtsMessageState.
Proof. solve_decision. Defined.

Inductive PMRestartState :=
  | PM_NOT_IN_RESTART
  | PM_IN_RESETTING
  | PM_IN_RECOVERY_MAKING_PROGRESS
  | PM_IN_RECOVERY_NOT_MAKING_PROGRESS.

#[export] Instance PMRestartState_eq_dec : EqDecision PMRestartState.
Proof. solve_decision. Defined.

Definition IsFtsMessageStateSuccess (s : FtsMessageState) : bool :=
  match s with
  | FTS_PROBE_SUCCESS | FTS_SYNCREP_OFF_SUCCESS | FTS_PROMOTE_SUCCESS => true
  | _ => false
  end.
Definition IsFtsMessageStateFailed (s : FtsMessageState) : bool :=
  match s with
  | FTS_PROBE_FAILED | FTS_SYNCREP_OFF_FAILED | FTS_PROMOTE_FAILED => true
  | _ => false
  end.

Record fts_result := mkResult {
  res_dbid : Z;
  isPrimaryAlive : bool;
  isMirrorAlive : bool;
  isInSync : bool;
  isSyncRepEnabled : bool;
  isRoleMirror : bool;
  retryRequested : bool;
}.
(** [memset(&result, 0, sizeof(fts_result))] *)
Definition zero_result : fts_result := mkResult 0 false false false false false false.

Section prober.
Context {W Conn : Type} `{LP : !Libpq W Conn}.

Record fts_segment_info := mkInfo {
  primary_cdbinfo : option CdbComponentDatabaseInfo;
  mirror_cdbinfo : option CdbComponentDatabaseInfo;
  result : fts_result;
  state : FtsMessageState;
  poll_events : Z;
  poll_revents : Z;
  fd_index : Z;
  startTime : Z;
  retryStartTime : Z;
  conn : option Conn;
  retry_count : Z;
  xlogrecptr : Z;
  restart_state : PMRestartState;
  timeout_count : Z;
}.

(** field assignments *)
Definition set_pair p m (i : fts_segment_info) := mkInfo p m (result i) (state i)
  (poll_events i) (poll_revents i) (fd_index i) (startTime i) (retryStartTime i) (conn i)
  (retry_count i) (xlogrecptr i) (restart_state i) (timeout_count i).
Definition set_result r (i : fts_segment_info) := mkInfo (primary_cdbinfo i) (mirror_cdbinfo i)
  r (state i) (poll_events i) (poll_revents i) (fd_index i) (startTime i) (retryStartTime i)
  (conn i) (retry_count i) (xlogrecptr i) (restart_state i) (timeout_count i).
Definition set_state s (i : fts_segment_info) := mkInfo (primary_cdbinfo i) (mirror_cdbinfo i)
  (result i) s (poll_events i) (poll_revents i) (fd_index i) (startTime i) (retryStartTime i)
  (conn i) (retry_count i) (xlogrecptr i) (restart_state i) (timeout_count i).
Definition set_poll_events e (i : fts_segment_info) := mkInfo (primary_cdbinfo i)
  (mirror_cdbinfo i) (result i) (state i) e (poll_revents i) (fd_index i) (startTime i)
  (retryStartTime i) (conn i) (retry_count i) (xlogrecptr i) (restart_state i) (timeout_count i).
Definition set_poll_revents e (i : fts_segment_info) := mkInfo (primary_cdbinfo i)
  (mirror_cdbinfo i) (result i) (state i) (poll_events i) e (fd_index i) (startTime i)
  (retryStartTime i) (conn i) (retry_count i) (xlogrecptr i) (restart_state i) (timeout_count i).
Definition set_fd_index x (i : fts_segment_info) := mkInfo (primary_cdbinfo i)
  (mirror_cdbinfo i) (result i) (state i) (poll_events i) (poll_revents i) x (startTime i)
  (retryStartTime i) (conn i) (retry_count i) (xlogrecptr i) (restart_state i) (timeout_count i).
Definition set_startTime t (i : fts_segment_info) := mkInfo (primary_cdbinfo i)
  (mirror_cdbinfo i) (result i) (state i) (poll_events i) (poll_revents i) (fd_index i) t
  (retryStartTime i) (conn i) (retry_count i) (xlogrecptr i) (restart_state i) (timeout_count i).
Definition set_retryStartTime t (i : fts_segment_info) := mkInfo (primary_cdbinfo i)
  (mirror_cdbinfo i) (result i) (state i) (poll_events i) (poll_revents i) (fd_index i)
  (startTime i) t (conn i) (retry_count i) (xlogrecptr i) (restart_state i) (timeout_count i).
Definition set_conn c (i : fts_segment_info) := mkInfo (primary_cdbinfo i) (mirror_cdbinfo i)
  (result i) (state i) (poll_events i) (poll_revents i) (fd_index i) (startTime i)
  (retryStartTime i) c (retry_count i) (xlogrecptr i) (restart_state i) (timeout_count i).
Definition set_retry_count n (i : fts_segment_info) := mkInfo (primary_cdbinfo i)
  (mirror_cdbinfo i) (result i) (state i) (poll_events i) (poll_revents i) (fd_index i)
  (startTime i) (retryStartTime i) (conn i) n (xlogrecptr i) (restart_state i) (timeout_count i).
Definition set_restart x r (i : fts_segment_info) := mkInfo (primary_cdbinfo i)
  (mirror_cdbinfo i) (result i) (state i) (poll_events i) (poll_revents i) (fd_index i)
  (startTime i) (retryStartTime i) (conn i) (retry_count i) x r (timeout_count i).
Definition set_timeout_count n (i : fts_segment_info) := mkInfo (primary_cdbinfo i)
  (mirror_cdbinfo i) (result i) (state i) (poll_events i) (poll_revents i) (fd_index i)
  (startTime i) (retryStartTime i) (conn i) (retry_count i) (xlogrecptr i) (restart_state i) n.
Definition set_restart_state r (i : fts_segment_info) := set_restart (xlogrecptr i) r i.

Record fts_context := mkContext {
  has_mirrors : bool;
  num_pairs : nat;
  perSegInfos : list fts_segment_info;
}.

(** GUCs: the retry and timeout settings, whether messages at LOG and at WARNING
    level reach the log, and whether gp_log_fts is at least verbose *)
Record gucs := mkGucs {
  gp_fts_probe_retries : Z;
  gp_fts_probe_timeout : Z;
  log_emits_LOG : bool;
  log_emits_WARNING : bool;
  gp_log_fts_verbose : bool;
}.
Context (guc : gucs).

Record fts_world := mkWorld { env : W; globals : fts_globals }.
Abbreviation FM := (M fts_world).

(** a call into the environment *)
Definition call {A} (f : W → A * W) : FM A :=
  λ s, let '(a, w) := f (env s) in Ok (a, mkWorld w (globals s)).
(** a read of the environment *)
Definition ask {A} (f : W → A) : FM A := λ s, Ok (f (env s), s).
Definition effect (f : W → W) : FM unit := λ s, Ok (tt, mkWorld (f (env s)) (globals s)).
Definition get_globals : FM fts_globals := λ s, Ok (globals s, s).
Definition upd_globals (f : fts_globals → fts_globals) : FM unit :=
  λ s, Ok (tt, mkWorld (env s) (f (globals s))).
Definition lift_globals (f : fts_globals → res fts_globals) : FM unit :=
  λ s, match f (globals s) with
       | Ok g => Ok (tt, mkWorld (env s) g)
       | Err e => Err e
       end.
Definition of_res {A} (r : res A) : FM A :=
  λ s, match r with Ok a => Ok (a, s) | Err e => Err e end.

Definition FtsIsActive : FM bool := g ← get_globals; mret (negb (skip_fts_probe g)).

(** [PQstatus(conn)] accepts NULL, [conn->status] does not *)
Definition conn_status (c : option Conn) : FM ConnStatusType :=
  match c with None => mret CONNECTION_BAD | Some c => ask (PQstatus c) end.
Definition finish (c : option Conn) : FM unit :=
  match c with None => mret tt | Some c => effect (PQfinish c) end.
(** a log message that prints [mirror_cdbinfo->config->dbid] *)
Definition log_mirror_dbid (emitted : bool) (m : option CdbComponentDatabaseInfo) : FM unit :=
  if emitted then (_ ← deref "mirror_cdbinfo" m; mret tt) else mret tt.
(** a log message that prints [conn->status] *)
Definition log_conn_status (emitted : bool) (c : option Conn) : FM unit :=
  if emitted then (_ ← deref "conn" c; mret tt) else mret tt.

(** [events & mask] as a condition *)
Definition any_bits (events mask : Z) : bool := negb (Z.land events mask =? 0).

Fixpoint FtsGetPeerSegment (infos : list CdbComponentDatabaseInfo) (content db : Z)
    : option CdbComponentDatabaseInfo :=
  match infos with
  | [] => None
  | segInfo :: rest =>
      if (segindex segInfo =? content) && negb (dbid segInfo =? db) then Some segInfo
      else FtsGetPeerSegment rest content db
  end.

Definition nextSuccessState (s : FtsMessageState) : FM FtsMessageState :=
  match s with
  | FTS_PROBE_SEGMENT => mret FTS_PROBE_SUCCESS
  | FTS_SYNCREP_OFF_SEGMENT => mret FTS_SYNCREP_OFF_SUCCESS
  | FTS_PROMOTE_SEGMENT => mret FTS_PROMOTE_SUCCESS
  | _ => elog_ERROR "cannot determine next success state"
  end.

Definition nextFailedState (s : FtsMessageState) : FM FtsMessageState :=
  match s with
  | FTS_PROBE_SEGMENT => mret FTS_PROBE_FAILED
  | FTS_SYNCREP_OFF_SEGMENT => mret FTS_SYNCREP_OFF_FAILED
  | FTS_PROMOTE_SEGMENT => mret FTS_PROMOTE_FAILED
  | FTS_PROBE_FAILED => mret FTS_PROBE_FAILED
  | FTS_SYNCREP_OFF_FAILED => mret FTS_SYNCREP_OFF_FAILED
  | FTS_PROMOTE_FAILED => mret FTS_PROMOTE_FAILED
  | FTS_PROBE_RETRY_WAIT => mret FTS_PROBE_FAILED
  | FTS_SYNCREP_OFF_RETRY_WAIT => mret FTS_SYNCREP_OFF_FAILED
  | FTS_PROMOTE_RETRY_WAIT => mret FTS_PROMOTE_FAILED
  | FTS_PROBE_SUCCESS | FTS_SYNCREP_OFF_SUCCESS | FTS_PROMOTE_SUCCESS
  | FTS_RESPONSE_PROCESSED => elog_ERROR "cannot determine next failed state"
  end.

Definition fail_state (i : fts_segment_info) : FM fts_segment_info :=
  s ← nextFailedState (state i); mret (set_state s i).

Definition allDone (context : fts_context) : bool :=
  forallb (λ i, bool_decide (state i = FTS_RESPONSE_PROCESSED))
    (take (num_pairs context) (perSegInfos context)).

(** [for (i = 0; i < num_pairs; i++)] over the array, [body] rewriting entry [i] *)
Fixpoint each_pair (n : nat) (body : fts_segment_info → FM fts_segment_info)
    (l : list fts_segment_info) : FM (list fts_segment_info) :=
  match n, l with
  | S n', i :: l' => i' ← body i; rest ← each_pair n' body l'; mret (i' :: rest)
  | _, _ => mret l
  end.
Definition for_each_pair (context : fts_context) (body : fts_segment_info → FM fts_segment_info)
    : FM fts_context :=
  l ← each_pair (num_pairs context) body (perSegInfos context);
  mret (mkContext (has_mirrors context) (num_pairs context) l).

(** ** Connecting *)

Definition GPCONN_TYPE_FTS : string := "fts".

(** returns false when the connection could not be started *)
Definition ftsConnectStart (ftsInfo : fts_segment_info) : FM (bool * fts_segment_info) :=
  p ← deref "primary_cdbinfo" (primary_cdbinfo ftsInfo);
  let conninfo := snprintf 1024
    ("host=" ++ default EmptyString (hostip p) ++ " port=" ++ fmt_d (port p) ++
     " gpconntype=" ++ GPCONN_TYPE_FTS) in
  c ← call (PQconnectStart conninfo);
  let ftsInfo := set_conn c ftsInfo in
  match c with
  | None => elog_ERROR "FTS: cannot create libpq connection object, possibly out of memory"
  | Some c =>
      st ← ask (PQstatus c);
      if decide (st = CONNECTION_BAD) then mret (false, ftsInfo)
      else
        let ftsInfo := set_poll_events (Z.lor (poll_events ftsInfo) POLLOUT) ftsInfo in
        now ← call sys_time;
        mret (true, set_startTime now ftsInfo)
  end.

Definition POSTMASTER_IN_STARTUP_MSG : string := "the database system is starting up".
Definition POSTMASTER_IN_RESET_MSG : string := "the database system is resetting".
Definition POSTMASTER_IN_RECOVERY_MSG : string := "the database system is in recovery mode".
Definition POSTMASTER_IN_RECOVERY_DETAIL_MSG : string := "last replayed record at".

(** [POSTMASTER_IN_RECOVERY_DETAIL_MSG " %X/%X\n"] *)
Definition recovery_detail_format : list scan_dir :=
  lit POSTMASTER_IN_RECOVERY_DETAIL_MSG ++ [SSpace; SHex; SLit "/"; SHex; SSpace].

Definition contains (msg needle : string) : bool :=
  match strstr msg needle with Some _ => true | None => false end.

(** the location in the message: both halves, or None when it cannot be read *)
Definition recovery_location (msg : string) : option Z :=
  ptr ← strstr msg (gettext POSTMASTER_IN_RECOVERY_DETAIL_MSG);
  match sscanf recovery_detail_format ptr with
  | [VInt tmp_xlogid; VInt tmp_xrecoff] => Some (Z.lor (Z.shiftl tmp_xlogid 32) tmp_xrecoff)
  | _ => None
  end.

Definition checkIfFailedDueToNormalRestart (ftsInfo : fts_segment_info)
    : FM fts_segment_info :=
  c ← deref "conn" (conn ftsInfo);
  msg ← ask (PQerrorMessage c);
  if contains msg (gettext POSTMASTER_IN_RECOVERY_MSG)
     || contains msg (gettext POSTMASTER_IN_STARTUP_MSG) then
    match recovery_location msg with
    | None => mret ftsInfo
    | Some tmpptr =>
        if tmpptr <=? xlogrecptr ftsInfo then
          let ftsInfo := set_restart_state PM_IN_RECOVERY_NOT_MAKING_PROGRESS ftsInfo in
          _ ← log_mirror_dbid (log_emits_LOG guc) (mirror_cdbinfo ftsInfo);
          mret ftsInfo
        else
          let ftsInfo := set_restart tmpptr PM_IN_RECOVERY_MAKING_PROGRESS ftsInfo in
          _ ← log_mirror_dbid (gp_log_fts_verbose guc && log_emits_LOG guc)
                (mirror_cdbinfo ftsInfo);
          mret ftsInfo
    end
  else if contains msg (gettext POSTMASTER_IN_RESET_MSG) then
    let ftsInfo := set_restart_state PM_IN_RESETTING ftsInfo in
    _ ← log_mirror_dbid (log_emits_LOG guc) (mirror_cdbinfo ftsInfo);
    mret ftsInfo
  else mret ftsInfo.

(** [case FTS_PROBE_SEGMENT, FTS_SYNCREP_OFF_SEGMENT, FTS_PROMOTE_SEGMENT] *)
Definition advance_connection (ftsInfo : fts_segment_info) : FM fts_segment_info :=
  let ftsInfo := set_restart_state PM_NOT_IN_RESTART ftsInfo in
  match conn ftsInfo with
  | None =>
      '(ok, ftsInfo) ← ftsConnectStart ftsInfo;
      if (ok : bool) then mret ftsInfo else fail_state ftsInfo
  | Some c =>
      if any_bits (poll_revents ftsInfo) (Z.lor POLLOUT POLLIN) then
        r ← call (PQconnectPoll c);
        match r with
        | PGRES_POLLING_OK => mret (set_poll_events POLLOUT ftsInfo)
        | PGRES_POLLING_READING =>
            mret (set_poll_events (Z.lor (poll_events ftsInfo) POLLIN) ftsInfo)
        | PGRES_POLLING_WRITING =>
            mret (set_poll_events (Z.lor (poll_events ftsInfo) POLLOUT) ftsInfo)
        | PGRES_POLLING_FAILED =>
            ftsInfo ← fail_state ftsInfo;
            checkIfFailedDueToNormalRestart ftsInfo
        | PGRES_POLLING_ACTIVE => elog_ERROR "FTS: invalid response to PQconnectPoll"
        end
      else mret ftsInfo
  end.

Definition connect_segment (ftsInfo : fts_segment_info) : FM fts_segment_info :=
  st ← conn_status (conn ftsInfo);
  if decide (st = CONNECTION_OK) then mret ftsInfo
  else
    match state ftsInfo with
    | FTS_PROBE_SEGMENT | FTS_SYNCREP_OFF_SEGMENT | FTS_PROMOTE_SEGMENT =>
        advance_connection ftsInfo
    | _ => mret ftsInfo
    end.

Definition ftsConnect (context : fts_context) : FM fts_context :=
  for_each_pair context connect_segment.

(** ** Polling *)

Definition ftsCheckTimeout (ftsInfo : fts_segment_info) (now : Z) : FM fts_segment_info :=
  if negb (IsFtsMessageStateSuccess (state ftsInfo))
     && (gp_fts_probe_timeout guc <? int32_of (now - startTime ftsInfo)) then
    fail_state (set_timeout_count 0 ftsInfo)
  else mret ftsInfo.

Definition polled (ftsInfo : fts_segment_info) : bool :=
  any_bits (poll_events ftsInfo) (Z.lor POLLIN POLLOUT).

(** the first loop of [ftsPoll]: the pollfd array and the entries with their
    [fd_index]; [nfds] counts the descriptors so far *)
Fixpoint build_pollfds (n : nat) (nfds : Z) (l : list fts_segment_info)
    : FM (list pollfd * list fts_segment_info) :=
  match n, l with
  | S n', i :: l' =>
      if polled i then
        fd ← match conn i with None => mret (-1) | Some c => ask (PQsocket c) end;
        '(fds, rest) ← build_pollfds n' (nfds + 1) l';
        mret (mkPollfd fd (poll_events i) :: fds, set_fd_index nfds i :: rest)
      else
        '(fds, rest) ← build_pollfds n' nfds l';
        mret (fds, set_fd_index (-1) i :: rest)
  | _, _ => mret ([], l)
  end.

(** the second loop's body *)
Definition record_poll (ans : poll_answer) (now : Z) (ftsInfo : fts_segment_info)
    : FM fts_segment_info :=
  if polled ftsInfo then
    let ftsInfo := set_poll_revents
      (default 0 (revents ans !! Z.to_nat (fd_index ftsInfo))) ftsInfo in
    ftsInfo ←
      (if any_bits (poll_revents ftsInfo) (poll_events ftsInfo) then
         mret (set_poll_events 0 ftsInfo)
       else if any_bits (poll_revents ftsInfo) (Z.lor POLLHUP POLLERR) then
         ftsInfo ← fail_state ftsInfo;
         _ ← log_conn_status (log_emits_LOG guc) (conn ftsInfo);
         mret ftsInfo
       else if negb (poll_revents ftsInfo =? 0) then
         ftsInfo ← fail_state ftsInfo;
         _ ← log_conn_status (log_emits_LOG guc) (conn ftsInfo);
         mret ftsInfo
       else mret ftsInfo);
    let ftsInfo :=
      if negb (IsFtsMessageStateSuccess (state ftsInfo)) && (nready ans =? 0)
      then set_timeout_count (timeout_count ftsInfo + 1) ftsInfo else ftsInfo in
    ftsCheckTimeout ftsInfo now
  else mret ftsInfo.

Definition ftsPoll (context : fts_context) : FM fts_context :=
  '(fds, infos) ← build_pollfds (num_pairs context) 0 (perSegInfos context);
  let context := mkContext (has_mirrors context) (num_pairs context) infos in
  match fds with
  | [] => mret context
  | _ =>
      ans ← call (sys_poll fds);
      if (nready ans <? 0) && negb (errno_is_EINTR ans) then elog_ERROR "FTS: ftsPoll() failed"
      else
        now ← call sys_time;
        for_each_pair context (record_poll ans now)
  end.

(** ** Sending *)

Definition FTS_MSG_PROBE : string := "PROBE".
Definition FTS_MSG_SYNCREP_OFF : string := "SYNCREP_OFF".
Definition FTS_MSG_PROMOTE : string := "PROMOTE".
Definition FTS_MSG_MAX_LEN : nat := 100.

(** [snprintf(message, FTS_MSG_MAX_LEN, FTS_MSG_FORMAT, type, dbid, segindex)] *)
Definition fts_message (message_type : string) (db content : Z) : string :=
  snprintf FTS_MSG_MAX_LEN
    (message_type ++ " dbid=" ++ fmt_d db ++ " contid=" ++ fmt_d content).

Definition message_type_of (s : FtsMessageState) : string :=
  if decide (s = FTS_PROBE_SEGMENT) then FTS_MSG_PROBE
  else if decide (s = FTS_SYNCREP_OFF_SEGMENT) then FTS_MSG_SYNCREP_OFF
  else FTS_MSG_PROMOTE.

Definition send_message (ftsInfo : fts_segment_info) : FM fts_segment_info :=
  st ← conn_status (conn ftsInfo);
  if decide (st ≠ CONNECTION_OK) then mret ftsInfo
  else
    c ← deref "conn" (conn ftsInfo);
    async ← ask (PQasyncStatus c);
    if decide (async ≠ PGASYNC_IDLE) then mret ftsInfo
    else if negb (any_bits (poll_revents ftsInfo) POLLOUT) then mret ftsInfo
    else
      p ← deref "primary_cdbinfo" (primary_cdbinfo ftsInfo);
      let message := fts_message (message_type_of (state ftsInfo)) (dbid p) (segindex p) in
      sent ← call (PQsendQuery c message);
      if (sent : bool) then mret (set_poll_events POLLIN ftsInfo)
      else fail_state ftsInfo.

Definition send_segment (ftsInfo : fts_segment_info) : FM fts_segment_info :=
  match state ftsInfo with
  | FTS_PROBE_SEGMENT | FTS_SYNCREP_OFF_SEGMENT | FTS_PROMOTE_SEGMENT => send_message ftsInfo
  | _ => mret ftsInfo
  end.

Definition ftsSend (context : fts_context) : FM fts_context :=
  for_each_pair context send_segment.

(** ** Receiving *)

Definition Natts_fts_message_response : Z := 5.
Definition Anum_fts_message_response_is_mirror_up : Z := 0.
Definition Anum_fts_message_response_is_in_sync : Z := 1.
Definition Anum_fts_message_response_is_syncrep_enabled : Z := 2.
Definition Anum_fts_message_response_is_role_mirror : Z := 3.
Definition Anum_fts_message_response_request_retry : Z := 4.
Definition FTS_MESSAGE_RESPONSE_NTUPLES : Z := 1.

(** [*PQgetvalue(result, 0, col)] as a bool *)
Definition response_flag (r : PGresult) (col : Z) : bool := negb (pg_value r 0 col =? 0).

Definition probeRecordResponse (ftsInfo : fts_segment_info) (r : PGresult)
    : fts_segment_info :=
  set_result
    (mkResult (res_dbid (result ftsInfo)) true
       (response_flag r Anum_fts_message_response_is_mirror_up)
       (response_flag r Anum_fts_message_response_is_in_sync)
       (response_flag r Anum_fts_message_response_is_syncrep_enabled)
       (response_flag r Anum_fts_message_response_is_role_mirror)
       (response_flag r Anum_fts_message_response_request_retry)) ftsInfo.

(** the response [r] of PQgetResult, [st] the connection's status after the call *)
Definition receive_result (ftsInfo : fts_segment_info) (r : option PGresult)
    (st : ConnStatusType) : FM fts_segment_info :=
  match r with
  | None => fail_state ftsInfo
  | Some r =>
      if decide (st = CONNECTION_BAD) then fail_state ftsInfo
      else if decide (pg_resultStatus r ≠ PGRES_TUPLES_OK) then fail_state ftsInfo
      else if negb (pg_nfields r =? Natts_fts_message_response)
              || negb (pg_ntuples r =? FTS_MESSAGE_RESPONSE_NTUPLES)
      then fail_state ftsInfo
      else
        let ftsInfo := probeRecordResponse ftsInfo r in
        s ← nextSuccessState (state ftsInfo);
        mret (set_state s ftsInfo)
  end.

Definition receive_response (ftsInfo : fts_segment_info) : FM fts_segment_info :=
  st ← conn_status (conn ftsInfo);
  if decide (st ≠ CONNECTION_OK) then mret ftsInfo
  else if negb (any_bits (poll_revents ftsInfo) POLLIN) then mret ftsInfo
  else
    c ← deref "conn" (conn ftsInfo);
    consumed ← call (PQconsumeInput c);
    if negb consumed then fail_state ftsInfo
    else
      busy ← call (PQisBusy c);
      if (busy : bool) then mret ftsInfo
      else
        r ← call (PQgetResult c);
        st ← ask (PQstatus c);
        receive_result ftsInfo r st.

Definition receive_segment (ftsInfo : fts_segment_info) : FM fts_segment_info :=
  match state ftsInfo with
  | FTS_PROBE_SEGMENT | FTS_SYNCREP_OFF_SEGMENT | FTS_PROMOTE_SEGMENT =>
      receive_response ftsInfo
  | _ => mret ftsInfo
  end.

Definition ftsReceive (context : fts_context) : FM fts_context :=
  for_each_pair context receive_segment.

(** ** Retrying *)

Definition retryForFtsFailed (now : Z) (ftsInfo : fts_segment_info) : FM fts_segment_info :=
  if retry_count ftsInfo =? gp_fts_probe_retries guc then mret ftsInfo
  else
    let ftsInfo := set_retry_count (retry_count ftsInfo + 1) ftsInfo in
    let ftsInfo :=
      set_state
        (if decide (state ftsInfo = FTS_PROBE_SUCCESS ∨ state ftsInfo = FTS_PROBE_FAILED)
         then FTS_PROBE_RETRY_WAIT
         else if decide (state ftsInfo = FTS_SYNCREP_OFF_FAILED)
         then FTS_SYNCREP_OFF_RETRY_WAIT
         else FTS_PROMOTE_RETRY_WAIT) ftsInfo in
    let ftsInfo := set_retryStartTime now ftsInfo in
    _ ← finish (conn ftsInfo);
    let ftsInfo := set_conn None ftsInfo in
    let ftsInfo := set_poll_events 0 (set_poll_revents 0 ftsInfo) in
    mret (set_result zero_result ftsInfo).

Definition retry_segment (hasmirrors : bool) (now : Z) (ftsInfo : fts_segment_info)
    : FM fts_segment_info :=
  match state ftsInfo with
  | FTS_PROBE_SUCCESS =>
      if retryRequested (result ftsInfo) && hasmirrors then
        m ← deref "mirror_cdbinfo" (mirror_cdbinfo ftsInfo);
        if SEGMENT_IS_ALIVE m then retryForFtsFailed now ftsInfo else mret ftsInfo
      else mret ftsInfo
  | FTS_PROBE_FAILED | FTS_SYNCREP_OFF_FAILED | FTS_PROMOTE_FAILED =>
      retryForFtsFailed now ftsInfo
  | FTS_PROBE_RETRY_WAIT | FTS_SYNCREP_OFF_RETRY_WAIT | FTS_PROMOTE_RETRY_WAIT =>
      if int32_of (now - retryStartTime ftsInfo) <? 1 then mret ftsInfo
      else
        mret (set_state
          (if decide (state ftsInfo = FTS_PROBE_RETRY_WAIT) then FTS_PROBE_SEGMENT
           else if decide (state ftsInfo = FTS_SYNCREP_OFF_RETRY_WAIT)
           then FTS_SYNCREP_OFF_SEGMENT
           else FTS_PROMOTE_SEGMENT) ftsInfo)
  | _ => mret ftsInfo
  end.

Definition processRetry (context : fts_context) : FM fts_context :=
  now ← call sys_time;
  for_each_pair context (retry_segment (has_mirrors context) now).

(** ** Processing responses *)

Definition ftsResponseReady (ftsInfo : fts_segment_info) : bool :=
  IsFtsMessageStateSuccess (state ftsInfo) || IsFtsMessageStateFailed (state ftsInfo).

(** [FTS_STATUS_SET_UP] or [FTS_STATUS_SET_DOWN] on the shared status of [db] *)
Definition set_status_alive (alive : bool) (db : Z) (i : FtsProbeInfo) : FtsProbeInfo :=
  let st := status_of i db in
  set_probe_status db (if alive then FTS_STATUS_SET_UP st else FTS_STATUS_SET_DOWN st) i.

Definition updateConfiguration (primary mirror : option CdbComponentDatabaseInfo)
    (newPrimaryRole newMirrorRole : ascii) (IsInSync IsPrimaryAlive IsMirrorAlive : bool)
    : FM bool :=
  primary ← deref "primary" primary;
  mirror ← deref "mirror" mirror;
  let UpdatePrimary := xorb IsPrimaryAlive (SEGMENT_IS_ALIVE primary) in
  let UpdateMirror := xorb IsMirrorAlive (SEGMENT_IS_ALIVE mirror) in
  let sync_changed := xorb IsInSync (SEGMENT_IS_IN_SYNC primary) in
  let UpdatePrimary := UpdatePrimary || sync_changed in
  let UpdateMirror := UpdateMirror || sync_changed in
  let UpdateNeeded := UpdatePrimary || UpdateMirror in
  if UpdateNeeded then
    _ ← (if UpdatePrimary then
           lift_globals (probeWalRepUpdateConfig (dbid primary) (segindex primary)
                           newPrimaryRole IsPrimaryAlive IsInSync)
         else mret tt);
    _ ← (if UpdateMirror then
           lift_globals (probeWalRepUpdateConfig (dbid mirror) (segindex mirror)
                           newMirrorRole IsMirrorAlive IsInSync)
         else mret tt);
    _ ← upd_globals (upd_probe_info (set_status_alive IsPrimaryAlive (dbid primary)));
    _ ← upd_globals (upd_probe_info (set_status_alive IsMirrorAlive (dbid mirror)));
    mret true
  else mret false.

Definition updateSegmentDownStatus (primary : option CdbComponentDatabaseInfo)
    (isSegmentAlive hasMirrors : bool) : FM unit :=
  primary ← deref "primary" primary;
  g ← get_globals;
  down ← of_res (bms_is_member (segindex primary) (failedContentIds g));
  if isSegmentAlive && negb down then mret tt
  else if negb isSegmentAlive && down then mret tt
  else
    _ ← upd_globals (probeUpdateConfHistory primary isSegmentAlive hasMirrors);
    b ← of_res (if isSegmentAlive then bms_del_member (failedContentIds g) (segindex primary)
                else bms_add_member (failedContentIds g) (segindex primary));
    upd_globals (set_failed b).

(** The alive/in-sync values that processResponse works with: a response is trusted
    only when the primary is alive. *)
Definition response_alive (hasmirrors : bool) (ftsInfo : fts_segment_info)
    : FM (bool * bool * bool) :=
  let IsPrimaryAlive := isPrimaryAlive (result ftsInfo) in
  IsMirrorAlive ←
    (if IsPrimaryAlive then mret (isMirrorAlive (result ftsInfo))
     else if hasmirrors then
       m ← deref "mirror" (mirror_cdbinfo ftsInfo); mret (SEGMENT_IS_ALIVE m)
     else mret false);
  let IsInSync := if IsPrimaryAlive then isInSync (result ftsInfo) else false in
  mret (IsPrimaryAlive, IsMirrorAlive, IsInSync).

Definition response_processed (upd : bool) (ftsInfo : fts_segment_info)
    : FM (bool * fts_segment_info) :=
  mret (upd, set_state FTS_RESPONSE_PROCESSED ftsInfo).

(** [case FTS_PROBE_SUCCESS] *)
Definition process_probe_success (hasmirrors IsPrimaryAlive IsMirrorAlive IsInSync : bool)
    (ftsInfo : fts_segment_info) : FM (bool * fts_segment_info) :=
  let primary := primary_cdbinfo ftsInfo in
  let mirror := mirror_cdbinfo ftsInfo in
  _ ← updateSegmentDownStatus primary true hasmirrors;
  if negb hasmirrors then response_processed false ftsInfo
  else if isSyncRepEnabled (result ftsInfo) && negb IsMirrorAlive then
    if negb (retryRequested (result ftsInfo)) then
      upd ← updateConfiguration primary mirror ROLE_PRIMARY ROLE_MIRROR
              IsInSync IsPrimaryAlive IsMirrorAlive;
      mret (upd, set_state FTS_SYNCREP_OFF_SEGMENT ftsInfo)
    else response_processed false ftsInfo
  else if isRoleMirror (result ftsInfo) then
    mret (false, set_state FTS_PROMOTE_SEGMENT ftsInfo)
  else
    upd ← updateConfiguration primary mirror ROLE_PRIMARY ROLE_MIRROR
            IsInSync IsPrimaryAlive IsMirrorAlive;
    response_processed upd ftsInfo.

(** [case FTS_PROBE_FAILED] *)
Definition process_probe_failed (hasmirrors IsPrimaryAlive IsMirrorAlive IsInSync : bool)
    (ftsInfo : fts_segment_info) : FM (bool * fts_segment_info) :=
  let primary := primary_cdbinfo ftsInfo in
  let mirror := mirror_cdbinfo ftsInfo in
  if decide (restart_state ftsInfo = PM_IN_RESETTING) then
    _ ← log_mirror_dbid (gp_log_fts_verbose guc && log_emits_LOG guc) mirror;
    response_processed false ftsInfo
  else if decide (restart_state ftsInfo = PM_IN_RECOVERY_MAKING_PROGRESS) then
    _ ← log_mirror_dbid (gp_log_fts_verbose guc && log_emits_LOG guc) mirror;
    response_processed false ftsInfo
  else
    can_promote ←
      (if hasmirrors then m ← deref "mirror" mirror; mret (SEGMENT_IS_IN_SYNC m)
       else mret false);
    if (can_promote : bool) then
      upd ← updateConfiguration primary mirror ROLE_MIRROR ROLE_PRIMARY
              IsInSync IsPrimaryAlive IsMirrorAlive;
      mret (upd, set_pair mirror primary (set_state FTS_PROMOTE_SEGMENT ftsInfo))
    else
      _ ← (if hasmirrors then log_mirror_dbid (log_emits_WARNING guc) mirror else mret tt);
      _ ← updateSegmentDownStatus primary false hasmirrors;
      response_processed false ftsInfo.

(** the switch over the state *)
Definition process_state (hasmirrors : bool) (ftsInfo : fts_segment_info)
    : FM (bool * fts_segment_info) :=
  let primary := primary_cdbinfo ftsInfo in
  let mirror := mirror_cdbinfo ftsInfo in
  '(IsPrimaryAlive, IsMirrorAlive, IsInSync) ← response_alive hasmirrors ftsInfo;
  match state ftsInfo with
  | FTS_PROBE_SUCCESS =>
      process_probe_success hasmirrors IsPrimaryAlive IsMirrorAlive IsInSync ftsInfo
  | FTS_PROBE_FAILED =>
      process_probe_failed hasmirrors IsPrimaryAlive IsMirrorAlive IsInSync ftsInfo
  | FTS_SYNCREP_OFF_FAILED => response_processed false ftsInfo
  | FTS_PROMOTE_FAILED =>
      _ ← log_mirror_dbid (log_emits_WARNING guc) mirror;
      _ ← updateSegmentDownStatus primary false hasmirrors;
      response_processed false ftsInfo
  | FTS_PROMOTE_SUCCESS =>
      _ ← updateSegmentDownStatus primary true hasmirrors;
      _ ← upd_globals (send_signal PMSIGNAL_FTS_PROMOTED_MIRROR);
      response_processed false ftsInfo
  | FTS_SYNCREP_OFF_SUCCESS => response_processed false ftsInfo
  | _ => elog_ERROR "FTS invalid internal state"
  end.

(** close the connection and reset the entry for the next message *)
Definition close_and_reset (ftsInfo : fts_segment_info) : FM fts_segment_info :=
  let ftsInfo := set_result zero_result ftsInfo in
  _ ← finish (conn ftsInfo);
  let ftsInfo := set_conn None ftsInfo in
  let ftsInfo := set_poll_events 0 (set_poll_revents 0 ftsInfo) in
  mret (set_timeout_count 0 (set_retry_count 0 ftsInfo)).

(** the body of the loop *)
Definition process_segment (hasmirrors : bool) (ftsInfo : fts_segment_info)
    : FM (bool * fts_segment_info) :=
  if negb (ftsResponseReady ftsInfo) then mret (false, ftsInfo)
  else
    '(upd, ftsInfo) ← process_state hasmirrors ftsInfo;
    ftsInfo ← close_and_reset ftsInfo;
    mret (upd, ftsInfo).

Fixpoint process_pairs (n : nat) (hasmirrors is_updated : bool) (l : list fts_segment_info)
    : FM (bool * list fts_segment_info) :=
  match n, l with
  | S n', i :: l' =>
      active ← FtsIsActive;
      if negb active then mret (is_updated, l)
      else
        '(upd, i') ← process_segment hasmirrors i;
        '(is_updated, rest) ← process_pairs n' hasmirrors (is_updated || upd) l';
        mret (is_updated, i' :: rest)
  | _, _ => mret (is_updated, l)
  end.

Definition processResponse (context : fts_context) : FM (bool * fts_context) :=
  '(is_updated, l) ←
    process_pairs (num_pairs context) (has_mirrors context) false (perSegInfos context);
  mret (is_updated, mkContext (has_mirrors context) (num_pairs context) l).

(** ** The probe cycle *)

(** a [palloc0]'d entry *)
Definition zero_info : fts_segment_info :=
  mkInfo None None zero_result FTS_PROBE_SEGMENT 0 0 0 0 0 None 0 0 PM_NOT_IN_RESTART 0.

Definition InvalidXLogRecPtr : Z := 0.

(** the entry of a primary, on the palloc0'd memory [i] *)
Definition init_info (primary : CdbComponentDatabaseInfo)
    (mirror : option CdbComponentDatabaseInfo) (i : fts_segment_info) : fts_segment_info :=
  let i := set_result (mkResult (dbid primary) false false false false false false) i in
  let i := set_state FTS_PROBE_SEGMENT i in
  let i := set_restart InvalidXLogRecPtr PM_NOT_IN_RESTART i in
  set_pair (Some primary) mirror i.

(** the loop over [segment_db_info]: [rest] are the segments still to visit; writing
    past the end of [perSegInfos] is a fault *)
Fixpoint init_pairs (infos rest : list CdbComponentDatabaseInfo) (hasmirrors : bool)
    (numpairs : Z) (fts_index : nat) (arr : list fts_segment_info)
    : res (Z * list fts_segment_info) :=
  match rest with
  | [] => Ok (numpairs, arr)
  | primary :: rest =>
      if negb (SEGMENT_IS_ACTIVE_PRIMARY primary) then
        init_pairs infos rest hasmirrors numpairs fts_index arr
      else
        let mirror := FtsGetPeerSegment infos (segindex primary) (dbid primary) in
        if hasmirrors && bool_decide (mirror = None) then
          init_pairs infos rest hasmirrors (numpairs - 1) fts_index arr
        else
          match arr !! fts_index with
          | None => Err (SegFault "perSegInfos")
          | Some i =>
              init_pairs infos rest hasmirrors numpairs (S fts_index)
                (<[fts_index := init_info primary mirror i]> arr)
          end
  end.

Definition FtsWalRepInitProbeContext (cdbs : CdbComponentDatabases) : res fts_context :=
  if total_segments cdbs <? 0 then Err (ElogError "invalid memory alloc request size")
  else
    let arr := replicate (Z.to_nat (total_segments cdbs)) zero_info in
    let hasmirrors := negb (total_segment_dbs cdbs =? total_segments cdbs) in
    match init_pairs (segment_db_info cdbs) (segment_db_info cdbs) hasmirrors
            (total_segments cdbs) 0 arr with
    | Ok (numpairs, arr) => Ok (mkContext hasmirrors (Z.to_nat numpairs) arr)
    | Err e => Err e
    end.

(** one round: the six steps *)
Definition probe_round (context : fts_context) : FM (bool * fts_context) :=
  context ← ftsConnect context;
  context ← ftsPoll context;
  context ← ftsSend context;
  context ← ftsReceive context;
  context ← processRetry context;
  processResponse context.

(** [while (!allDone(&context) && FtsIsActive())]; None when [fuel] rounds were not
    enough *)
Fixpoint probe_loop (fuel : nat) (is_updated : bool) (context : fts_context)
    : FM (option (bool * fts_context)) :=
  active ← FtsIsActive;
  if allDone context || negb active then mret (Some (is_updated, context))
  else
    match fuel with
    | O => mret None
    | S fuel =>
        '(upd, context) ← probe_round context;
        probe_loop fuel (is_updated || upd) context
    end.

Definition close_segment (i : fts_segment_info) : FM fts_segment_info :=
  match conn i with
  | None => mret i
  | Some c => _ ← effect (PQfinish c); mret (set_conn None i)
  end.

(** returns is_updated, with the context as it is when the memory is freed *)
Definition FtsWalRepMessageSegments (fuel : nat) (cdbs : CdbComponentDatabases)
    : FM (option (bool * fts_context)) :=
  context ← of_res (FtsWalRepInitProbeContext cdbs);
  r ← probe_loop fuel false context;
  match r with
  | None => mret None
  | Some (is_updated, context) =>
      active ← FtsIsActive;
      if negb active then
        context ← for_each_pair context close_segment;
        mret (Some (is_updated, context))
      else mret (Some (is_updated, context))
  end.
End prober.

Arguments fts_segment_info : clear implicits.
Arguments fts_context : clear implicits.
Arguments fts_world : clear implicits.
