(* ===== verification/FtsProbeSafety.v ===== *)
(** * The FTS prober is free of internal errors

    An invariant of the probe context that every step of a round preserves, in
    every environment.  From it: the "cannot determine next state", "invalid
    internal state" and "cannot find dbid" errors and the NULL dereferences of
    [ftsprobe.c] are unreachable, and the assertions of the file hold. *)

From S2P Require Import Prelude Bitmapset BitmapsetFacts CLib FtsConfig Libpq FtsProbe.

(** What a message is about; the states of one stage differ only in how far the
    exchange has come. *)
Inductive stage := Probing | TurningSyncRepOff | Promoting | Processed.

Definition stage_of (s : FtsMessageState) : stage :=
  match s with
  | FTS_PROBE_SEGMENT | FTS_PROBE_RETRY_WAIT | FTS_PROBE_SUCCESS | FTS_PROBE_FAILED => Probing
  | FTS_SYNCREP_OFF_SEGMENT | FTS_SYNCREP_OFF_RETRY_WAIT | FTS_SYNCREP_OFF_SUCCESS
  | FTS_SYNCREP_OFF_FAILED => TurningSyncRepOff
  | FTS_PROMOTE_SEGMENT | FTS_PROMOTE_RETRY_WAIT | FTS_PROMOTE_SUCCESS
  | FTS_PROMOTE_FAILED => Promoting
  | FTS_RESPONSE_PROCESSED => Processed
  end.

(** no exchange is under way *)
Definition idle (s : FtsMessageState) : bool :=
  match s with
  | FTS_PROBE_RETRY_WAIT | FTS_SYNCREP_OFF_RETRY_WAIT | FTS_PROMOTE_RETRY_WAIT
  | FTS_RESPONSE_PROCESSED => true
  | _ => false
  end.

(** within a stage, every transition but the next attempt goes down *)
Definition rank (s : FtsMessageState) : Z :=
  match s with
  | FTS_PROBE_RETRY_WAIT | FTS_SYNCREP_OFF_RETRY_WAIT | FTS_PROMOTE_RETRY_WAIT => 3
  | FTS_PROBE_SEGMENT | FTS_SYNCREP_OFF_SEGMENT | FTS_PROMOTE_SEGMENT => 2
  | FTS_RESPONSE_PROCESSED => 0
  | _ => 1
  end.
Definition stage_rank (st : stage) : Z :=
  match st with Probing => 2 | TurningSyncRepOff | Promoting => 1 | Processed => 0 end.

(** the state changes within its stage, downwards *)
Definition advances (s s' : FtsMessageState) : Prop :=
  stage_of s' = stage_of s ∧ (s' = s ∨ rank s' < rank s).

(** [wp] rules of the operations of the monad *)
Section world_rules.
Context {W : Type}.
Implicit Types s : fts_world W.

Lemma wp_call {A} (f : W → A * W) (Q : A → fts_world W → Prop) E s :
  (∀ a w', f (env s) = (a, w') → Q a (mkWorld w' (globals s))) → wp (call f) Q E s.
Proof. intros H. unfold wp, call. destruct (f (env s)) as [a w'] eqn:Hf. by apply H. Qed.

Lemma wp_ask {A} (f : W → A) (Q : A → fts_world W → Prop) E s :
  Q (f (env s)) s → wp (ask f) Q E s.
Proof. done. Qed.

Lemma wp_effect (f : W → W) (Q : unit → fts_world W → Prop) E s :
  Q tt (mkWorld (f (env s)) (globals s)) → wp (effect f) Q E s.
Proof. done. Qed.

Lemma wp_get_globals (Q : fts_globals → fts_world W → Prop) E s :
  Q (globals s) s → wp get_globals Q E s.
Proof. done. Qed.

Lemma wp_upd_globals f (Q : unit → fts_world W → Prop) E s :
  Q tt (mkWorld (env s) (f (globals s))) → wp (upd_globals f) Q E s.
Proof. done. Qed.

Lemma wp_lift_globals f g (Q : unit → fts_world W → Prop) E s :
  f (globals s) = Ok g → Q tt (mkWorld (env s) g) → wp (lift_globals f) Q E s.
Proof. unfold wp, lift_globals. by intros ->. Qed.

Lemma wp_of_res {A} (r : res A) a (Q : A → fts_world W → Prop) E s :
  r = Ok a → Q a s → wp (of_res r) Q E s.
Proof. by intros ->. Qed.
End world_rules.

(** one step of symbolic execution *)
Ltac wp_step :=
  lazymatch goal with
  | |- wp (mret _) _ _ _ => apply wp_ret
  | |- wp (response_processed _ _) _ _ _ => apply wp_ret
  | |- wp (_ ≫= _) _ _ _ => apply wp_bind
  | |- wp (call _) _ _ _ => apply wp_call; intros ?a ?w ?Hcall
  | |- wp (ask _) _ _ _ => apply wp_ask
  | |- wp (effect _) _ _ _ => apply wp_effect
  | |- wp get_globals _ _ _ => apply wp_get_globals
  | |- wp (upd_globals _) _ _ _ => apply wp_upd_globals
  | |- wp (elog_ERROR _) _ _ _ => apply wp_throw
  | |- wp (throw _) _ _ _ => apply wp_throw
  | |- wp (if ?b then _ else _) _ _ _ => let H := fresh "Hif" in destruct b eqn:H
  | |- wp (if decide _ then _ else _) _ _ _ => case_decide
  | |- wp (deref _ (Some _)) _ _ _ => eapply wp_deref; [reflexivity|]
  end; cbn beta iota zeta; cbn [env globals].
Ltac wp_steps := repeat wp_step.

Section safety.
Context {W Conn : Type} `{LP : !Libpq W Conn} (guc : gucs).
Abbreviation info := (fts_segment_info Conn).
Abbreviation world := (fts_world W).

(** Segments report the mirror in sync only when it is up. *)
Definition honest_responses : Prop :=
  ∀ (c : Conn) (w : W) r w', PQgetResult c w = (Some r, w') →
    response_flag r Anum_fts_message_response_is_in_sync = true →
    response_flag r Anum_fts_message_response_is_mirror_up = true.

Record entry_ok (hasmirrors : bool) (i : info) : Prop := {
  eo_primary : ∃ p, primary_cdbinfo i = Some p ∧ 0 ≤ segindex p;
  eo_mirror : hasmirrors = true → ∃ m, mirror_cdbinfo i = Some m ∧ 0 ≤ segindex m;
  eo_stage : hasmirrors = false → stage_of (state i) = Probing ∨ stage_of (state i) = Processed;
  eo_retry : 0 ≤ retry_count i ≤ gp_fts_probe_retries guc;
  eo_conn : conn i = None → poll_events i = 0 ∧ poll_revents i = 0;
  eo_idle : idle (state i) = true → conn i = None;
  eo_alive : isPrimaryAlive (result i) = IsFtsMessageStateSuccess (state i);
  eo_sync : honest_responses → isInSync (result i) = true → isMirrorAlive (result i) = true;
}.

(** The faults that remain: libpq out of memory, a polling status libpq no longer
    uses, a failing poll(); and, without mirrors, the message about a restarting
    primary that prints the mirror's dbid. *)
Definition env_fault (hasmirrors : bool) (e : fault) : Prop :=
  e = ElogError "FTS: cannot create libpq connection object, possibly out of memory" ∨
  e = ElogError "FTS: invalid response to PQconnectPoll" ∨
  e = ElogError "FTS: ftsPoll() failed" ∨
  (hasmirrors = false ∧ log_emits_LOG guc = true ∧ e = SegFault "mirror_cdbinfo").

(** an upper bound on the transitions the entry can still make *)
Definition measure (i : info) : Z :=
  4 * (stage_rank (stage_of (state i)) * (gp_fts_probe_retries guc + 1)
       + (gp_fts_probe_retries guc - retry_count i)) + rank (state i).

Definition progress (i i' : info) : Prop :=
  (state i' = state i ∧ retry_count i' = retry_count i) ∨ measure i' < measure i.

(** [i'] is [i] further along in the same exchange *)
Definition messaged (i i' : info) : Prop :=
  primary_cdbinfo i' = primary_cdbinfo i ∧ mirror_cdbinfo i' = mirror_cdbinfo i ∧
  stage_of (state i') = stage_of (state i) ∧ progress i i'.

(** not yet answered *)
Definition pending (i : info) : Prop := IsFtsMessageStateSuccess (state i) = false.
(** between rounds *)
Definition resting (i : info) : Prop := ftsResponseReady i = false.
(** failures left for processResponse *)
Definition exhausted (i : info) : Prop :=
  IsFtsMessageStateFailed (state i) = true → retry_count i = gp_fts_probe_retries guc.

Lemma progress_refl i : progress i i.
Proof. by left. Qed.

Lemma progress_trans i j k : progress i j → progress j k → progress i k.
Proof.
  intros [[Hs Hr]|H1] [[Hs' Hr']|H2].
  - left. split; congruence.
  - right. unfold measure in *. by rewrite <-Hs, <-Hr.
  - right. unfold measure in *. by rewrite Hs', Hr'.
  - right. lia.
Qed.

Lemma progress_measure i i' : progress i i' → measure i' ≤ measure i.
Proof. intros [[Hs Hr]|?]; [|lia]. unfold measure. by rewrite Hs, Hr. Qed.

Lemma messaged_refl i : messaged i i.
Proof. split_and!; auto using progress_refl. Qed.

Lemma messaged_trans i j k : messaged i j → messaged j k → messaged i k.
Proof.
  intros (?&?&?&?) (?&?&?&?). split_and!; [congruence..|]. by eapply progress_trans.
Qed.

#[export] Instance messaged_preorder : PreOrder messaged.
Proof. split; [exact messaged_refl|exact messaged_trans]. Qed.

Lemma messaged_set_state i j st :
  messaged i j → advances (state j) st → messaged i (set_state st j).
Proof.
  intros (?&?&?&Hpr) [Hst Hr]. split_and!; simpl; [congruence..|].
  eapply progress_trans; [done|]. destruct Hr as [->|Hr]; [by left|right].
  unfold measure; simpl. rewrite Hst. lia.
Qed.

(** assignments to the other fields *)
Lemma messaged_fields i j j' :
  primary_cdbinfo j' = primary_cdbinfo j → mirror_cdbinfo j' = mirror_cdbinfo j →
  state j' = state j → retry_count j' = retry_count j → messaged i j → messaged i j'.
Proof.
  intros Hp Hm Hs Hr. unfold messaged, progress, measure. by rewrite Hp, Hm, Hs, Hr.
Qed.

Lemma messaged_set_restart i j x r : messaged i j → messaged i (set_restart x r j).
Proof. done. Qed.

#[local] Hint Resolve messaged_refl : core.
#[local] Hint Extern 1 (messaged ?i _) =>
  (apply (messaged_fields i i); [reflexivity..|apply messaged_refl]) : core.
#[local] Hint Extern 2 (messaged ?i _) =>
  (match goal with H : messaged i ?j |- _ => apply (messaged_fields i j); [reflexivity..|exact H] end) : core.

(** a step on one entry that leaves the globals alone *)
Definition step_ok hasmirrors (post : info → Prop) (i : info) (m : M world info) : Prop :=
  ∀ s, wp m (λ i' s', entry_ok hasmirrors i' ∧ post i' ∧ messaged i i' ∧
                     globals s' = globals s) (env_fault hasmirrors) s.

(** ** The failure transition *)

Lemma nextFailedState_pending (st : FtsMessageState) :
  idle st = false → IsFtsMessageStateSuccess st = false →
  ∃ st', nextFailedState (W := W) st = mret st' ∧ advances st st' ∧
         idle st' = false ∧ IsFtsMessageStateSuccess st' = false ∧
         IsFtsMessageStateFailed st' = true.
Proof.
  destruct st; try done; intros _ _; eexists; split_and!; try done;
    (split; [done|]; first [by left|by right]).
Qed.

Lemma fail_state_ok hasmirrors i s (Q : info → world → Prop) E :
  entry_ok hasmirrors i → pending i → idle (state i) = false →
  (∀ st', advances (state i) st' → IsFtsMessageStateSuccess st' = false →
     idle st' = false → IsFtsMessageStateFailed st' = true →
     entry_ok hasmirrors (set_state st' i) → Q (set_state st' i) s) →
  wp (fail_state i) Q E s.
Proof.
  intros [] Hp Hidle HQ. unfold fail_state.
  destruct (nextFailedState_pending (state i)) as (st' & -> & Hst & Hi & Hs & Hf); try done.
  wp_steps. apply HQ; try done. destruct Hst as [Hst _].
  constructor; simpl; rewrite ?Hst; try done; [by rewrite Hi|].
  by rewrite Hs, eo_alive0, Hp.
Qed.

(** ** The messaging steps *)

Lemma wp_log_mirror hasmirrors emitted i s (Q : unit → world → Prop) :
  entry_ok hasmirrors i → (emitted = true → log_emits_LOG guc = true) → Q tt s →
  wp (log_mirror_dbid emitted (mirror_cdbinfo i)) Q (env_fault hasmirrors) s.
Proof.
  intros Hi He HQ. unfold log_mirror_dbid. destruct emitted; [|done].
  destruct (mirror_cdbinfo i) as [m|] eqn:Hm; [done|].
  unfold wp; simpl. do 3 right. split; [|by auto].
  destruct hasmirrors; [|done]. destruct (eo_mirror _ _ Hi eq_refl) as (m & ? & _). congruence.
Qed.

Lemma entry_ok_restart hasmirrors x r i :
  entry_ok hasmirrors i → entry_ok hasmirrors (set_restart x r i).
Proof. by intros []; constructor. Qed.

(** fields of an entry the invariant does not read, or reads only together with
    the connection *)
Lemma entry_ok_poll hasmirrors e i :
  conn i ≠ None → entry_ok hasmirrors i → entry_ok hasmirrors (set_poll_events e i).
Proof. by intros Hc []; constructor. Qed.

Lemma checkIfFailedDueToNormalRestart_ok hasmirrors i s (Q : info → world → Prop) :
  entry_ok hasmirrors i → conn i ≠ None →
  (∀ x r, entry_ok hasmirrors (set_restart x r i) → Q (set_restart x r i) s) → Q i s →
  wp (checkIfFailedDueToNormalRestart guc i) Q (env_fault hasmirrors) s.
Proof.
  intros Hi Hc HQ HQi. unfold checkIfFailedDueToNormalRestart.
  destruct (conn i) as [c|] eqn:Hci; [|done]. wp_steps; [|..|done].
  - destruct (recovery_location _) as [ptr|]; [|by wp_steps]. wp_steps.
    + apply (wp_log_mirror hasmirrors _ (set_restart_state PM_IN_RECOVERY_NOT_MAKING_PROGRESS i));
        [by apply entry_ok_restart|done|]. wp_steps. apply HQ. by apply entry_ok_restart.
    + apply (wp_log_mirror hasmirrors _ (set_restart ptr PM_IN_RECOVERY_MAKING_PROGRESS i));
        [by apply entry_ok_restart|by intros [_ ?]%andb_true_iff|].
      wp_steps. apply HQ. by apply entry_ok_restart.
  - apply (wp_log_mirror hasmirrors _ (set_restart_state PM_IN_RESETTING i));
      [by apply entry_ok_restart|done|]. wp_steps. apply HQ. by apply entry_ok_restart.
Qed.

Lemma ftsConnectStart_ok hasmirrors i s :
  entry_ok hasmirrors i → idle (state i) = false →
  wp (ftsConnectStart i)
    (λ r s', entry_ok hasmirrors r.2 ∧ messaged i r.2 ∧ state r.2 = state i ∧
             globals s' = globals s) (env_fault hasmirrors) s.
Proof.
  intros Hi Hidle. destruct (eo_primary _ _ Hi) as (p & Hp & _).
  unfold ftsConnectStart. rewrite Hp. wp_steps. destruct a as [c|]; [|by left].
  destruct Hi. wp_steps; simpl; split_and!; auto; constructor; simpl; try done; congruence.
Qed.

Lemma advance_connection_ok hasmirrors i :
  entry_ok hasmirrors i → pending i → idle (state i) = false →
  step_ok hasmirrors pending i (advance_connection guc i).
Proof.
  intros Hi Hp Hidle s. unfold advance_connection.
  pose proof (entry_ok_restart _ (xlogrecptr i) PM_NOT_IN_RESTART i Hi) as Hj.
  change (set_restart (xlogrecptr i) PM_NOT_IN_RESTART i)
    with (set_restart_state PM_NOT_IN_RESTART i) in Hj.
  set (j := set_restart_state PM_NOT_IN_RESTART i) in *.
  assert (Hmj : messaged i j) by (subst j; auto).
  assert (Hpj : pending j) by done. assert (Hij : idle (state j) = false) by done.
  clearbody j. cbn zeta. destruct (conn j) as [c|] eqn:Hc.
  - wp_steps; [|by auto]. destruct a; wp_steps.
    + eapply fail_state_ok; try done. intros st' Hst Hs Hid Hf Hk.
      apply checkIfFailedDueToNormalRestart_ok; [done|simpl; congruence|..].
      * intros x r Hk'. split_and!; eauto using messaged_set_state, messaged_set_restart.
      * split_and!; eauto using messaged_set_state, messaged_set_restart.
    + split_and!; auto. apply entry_ok_poll; [congruence|done].
    + split_and!; auto. apply entry_ok_poll; [congruence|done].
    + split_and!; auto. apply entry_ok_poll; [congruence|done].
    + by right; left.
  - eapply wp_seq; [by apply ftsConnectStart_ok|].
    intros [ok k] s' (Hk & Hmk & Hsk & Hg); simpl in *.
    pose proof (messaged_trans _ _ _ Hmj Hmk) as Hm.
    assert (Hpk : pending k) by (unfold pending in *; congruence).
    destruct ok; wp_steps; [by auto|].
    eapply fail_state_ok; [done..|congruence|]. intros st' Hst Hs Hid Hf Hk'.
    split_and!; eauto using messaged_set_state.
Qed.

Lemma connect_segment_ok hasmirrors i :
  entry_ok hasmirrors i → pending i → step_ok hasmirrors pending i (connect_segment guc i).
Proof.
  intros Hi Hp s. unfold connect_segment, conn_status.
  apply wp_seq with (R := λ _ s', s' = s); [by destruct (conn i)|].
  intros st s' ->. wp_steps; [by auto|].
  destruct (state i) eqn:Hst; wp_steps; try (by auto);
    (apply advance_connection_ok; [done..|by rewrite Hst]).
Qed.

Lemma polled_open hasmirrors i :
  entry_ok hasmirrors i → polled i = true → (∃ c, conn i = Some c) ∧ idle (state i) = false.
Proof.
  intros [] Hpol. destruct (conn i) as [c|] eqn:Hc.
  - split; [by eexists|]. destruct (idle (state i)); [by discriminate eo_idle0|done].
  - unfold polled in Hpol. destruct eo_conn0 as [He _]; [done|]. by rewrite He in Hpol.
Qed.

Lemma ftsCheckTimeout_ok hasmirrors i now s (Q : info → world → Prop) E :
  entry_ok hasmirrors i → pending i → idle (state i) = false →
  (∀ i', entry_ok hasmirrors i' → pending i' → messaged i i' → Q i' s) →
  wp (ftsCheckTimeout guc i now) Q E s.
Proof.
  intros Hi Hp Hidle HQ. unfold ftsCheckTimeout. wp_steps; [|by apply HQ].
  eapply (fail_state_ok hasmirrors); [by destruct Hi|done..|].
  intros st' Hst Hs _ _ Hok. apply HQ; [done..|]. apply messaged_set_state; auto.
Qed.

Lemma record_poll_ok hasmirrors ans now i :
  entry_ok hasmirrors i → pending i → step_ok hasmirrors pending i (record_poll guc ans now i).
Proof.
  intros Hi Hp s. unfold record_poll. wp_step; [|wp_steps; by auto].
  destruct (polled_open _ _ Hi Hif) as [[c Hc] Hidle].
  set (rev := default 0 _). set (j := set_poll_revents rev i).
  assert (Hj : entry_ok hasmirrors j) by (destruct Hi; constructor; simpl; try done; congruence).
  apply wp_seq with (R := λ k s', entry_ok hasmirrors k ∧ pending k ∧ idle (state k) = false ∧
                                  messaged i k ∧ s' = s).
  - assert (Hfail : wp (ftsInfo ← fail_state j;
                        _ ← log_conn_status (log_emits_LOG guc) (conn ftsInfo); mret ftsInfo)
        (λ k s', entry_ok hasmirrors k ∧ pending k ∧ idle (state k) = false ∧
                 messaged i k ∧ s' = s) (env_fault hasmirrors) s).
    { apply wp_bind. eapply (fail_state_ok hasmirrors); [done..|]. intros st' Hst Hs Hid _ Hk.
      simpl. rewrite Hc. unfold log_conn_status. wp_steps;
        split_and!; eauto; apply messaged_set_state; auto. }
    destruct (any_bits _ (poll_events j)); [|destruct (any_bits _ _); [done|]].
    + wp_steps. split_and!; auto. destruct Hj; constructor; simpl; try done; congruence.
    + destruct (negb _); [done|]. wp_steps. by auto.
  - intros k s' (Hk & Hpk & Hik & Hmk & ->). cbn zeta.
    destruct (negb _ && _); apply (ftsCheckTimeout_ok hasmirrors); try done;
      try (by destruct Hk; constructor); eauto 10 using messaged_trans.
Qed.

Lemma send_message_ok hasmirrors i :
  entry_ok hasmirrors i → pending i → idle (state i) = false →
  step_ok hasmirrors pending i (send_message i).
Proof.
  intros Hi Hp Hidle s. unfold send_message, conn_status.
  destruct (eo_primary _ _ Hi) as (p & Hprim & _). rewrite Hprim.
  destruct (conn i) as [c|] eqn:Hc; wp_steps; auto; try done.
  - split_and!; auto. apply entry_ok_poll; [congruence|done].
  - eapply fail_state_ok; [done..|]. intros st' Hst Hs _ _ Hok.
    split_and!; auto. apply messaged_set_state; auto.
Qed.

Lemma send_segment_ok hasmirrors i :
  entry_ok hasmirrors i → pending i → step_ok hasmirrors pending i (send_segment i).
Proof.
  intros Hi Hp s. unfold send_segment.
  destruct (state i) eqn:Hst; wp_steps; try (by auto);
    (apply send_message_ok; [done..|by rewrite Hst]).
Qed.

(** a message can be sent and a response received *)
Definition exchanging (s : FtsMessageState) : bool :=
  match s with
  | FTS_PROBE_SEGMENT | FTS_SYNCREP_OFF_SEGMENT | FTS_PROMOTE_SEGMENT => true
  | _ => false
  end.

Lemma exchanging_pending st :
  exchanging st = true → idle st = false ∧ IsFtsMessageStateSuccess st = false.
Proof. by destruct st. Qed.

Lemma nextSuccessState_exchanging st :
  exchanging st = true →
  ∃ st', nextSuccessState (W := W) st = mret st' ∧ advances st st' ∧
         idle st' = false ∧ IsFtsMessageStateSuccess st' = true.
Proof.
  destruct st; try done; intros _; eexists; split_and!; try done; (split; [done|by right]).
Qed.

Lemma receive_result_ok hasmirrors i r st :
  entry_ok hasmirrors i → exchanging (state i) = true →
  (∀ r', r = Some r' → honest_responses →
     response_flag r' Anum_fts_message_response_is_in_sync = true →
     response_flag r' Anum_fts_message_response_is_mirror_up = true) →
  step_ok hasmirrors (λ _, True) i (receive_result i r st).
Proof.
  intros Hi Hex Hr s. destruct (exchanging_pending _ Hex) as [Hidle Hp].
  assert (Hfail : step_ok hasmirrors (λ _, True) i (fail_state (W := W) i)).
  { intros s'. eapply fail_state_ok; [done..|]. intros st' Hst _ _ _ Hok.
    split_and!; auto. apply messaged_set_state; auto. }
  unfold receive_result. destruct r as [r|]; [|by apply Hfail].
  repeat (case_match; [by apply Hfail|]). cbn [state probeRecordResponse set_result].
  destruct (nextSuccessState_exchanging _ Hex) as (st' & -> & Hst & Hid & Hs).
  wp_steps. split_and!; auto; [|apply messaged_set_state; auto].
  destruct Hi, Hst as [Hst _].
  constructor; simpl; rewrite ?Hst; try done; [by rewrite Hid|by auto].
Qed.

Lemma receive_segment_ok hasmirrors i :
  entry_ok hasmirrors i → step_ok hasmirrors (λ _, True) i (receive_segment i).
Proof.
  intros Hi s. unfold receive_segment.
  assert (Hrecv : exchanging (state i) = true →
    wp (receive_response i) (λ i' s', entry_ok hasmirrors i' ∧ True ∧ messaged i i' ∧
                              globals s' = globals s) (env_fault hasmirrors) s).
  { intros Hex. destruct (exchanging_pending _ Hex) as [Hidle Hp].
    unfold receive_response, conn_status.
    destruct (conn i) as [c|] eqn:Hc; wp_steps; auto; try done.
    - eapply fail_state_ok; [done..|]. intros st' Hst _ _ _ Hok.
      split_and!; auto. apply messaged_set_state; auto.
    - eapply wp_post; [apply receive_result_ok; [done..|]|done].
      intros r' -> Hh. by eapply Hh. }
  destruct (state i) eqn:Hst; wp_steps; first [by apply Hrecv|split_and!; by auto].
Qed.

(** ** Retrying *)

Lemma retryForFtsFailed_ok hasmirrors now i :
  entry_ok hasmirrors i → IsFtsMessageStateFailed (state i) || bool_decide (state i = FTS_PROBE_SUCCESS) →
  step_ok hasmirrors exhausted i (retryForFtsFailed guc now i).
Proof.
  intros Hi Hst s. unfold retryForFtsFailed. wp_step.
  { wp_steps. split_and!; auto. intros _. by apply Z.eqb_eq. }
  apply Z.eqb_neq in Hif. unfold finish.
  apply wp_seq with (R := λ _ s', globals s' = globals s); [by case_match|].
  intros _ s' Hg. wp_steps. destruct Hi.
  split_and!; [constructor; simpl; try done; try lia|..|done].
  - intros Hm. destruct (eo_stage0 Hm) as [Hs|Hs]; destruct (state i); try done; by auto.
  - by destruct (state i).
  - unfold exhausted; simpl. by destruct (state i).
  - split_and!; simpl; try done; [by destruct (state i)|].
    right. unfold measure; simpl. destruct (state i); try done; simpl; lia.
Qed.

Lemma wake_ok hasmirrors i st (s : world) :
  entry_ok hasmirrors i → rank (state i) = 3 →
  exchanging st = true → stage_of st = stage_of (state i) →
  entry_ok hasmirrors (set_state st i) ∧ exhausted (set_state st i) ∧
  messaged i (set_state st i) ∧ globals s = globals s.
Proof.
  intros Hi Hs Hex Hst. split_and!; [|by destruct st| |done].
  2:{ apply messaged_set_state; auto. split; [done|right]. rewrite Hs. by destruct st. }
  destruct (exchanging_pending _ Hex) as [Hidle Hp].
  assert (IsFtsMessageStateSuccess (state i) = false) by (by destruct (state i)).
  destruct Hi. constructor; simpl; rewrite ?Hst; try done; congruence.
Qed.

Lemma retry_segment_ok hasmirrors now i :
  entry_ok hasmirrors i → step_ok hasmirrors exhausted i (retry_segment guc hasmirrors now i).
Proof.
  intros Hi s. unfold retry_segment.
  destruct (state i) eqn:Hst; try wp_step;
    try (split_and!; auto; by unfold exhausted; rewrite Hst);
    try (apply retryForFtsFailed_ok; [done|by rewrite Hst]);
    try (wp_step; apply wake_ok; [done|by rewrite ?Hst..]).
  apply andb_true_iff in Hif as [_ ->]. destruct (eo_mirror _ _ Hi eq_refl) as (m & -> & _).
  wp_steps; [apply retryForFtsFailed_ok; [done|by rewrite Hst]|].
  split_and!; auto. unfold exhausted. by rewrite Hst.
Qed.

(** ** What processing a response does to the globals *)

(** a segment's content id enters or leaves [failedContentIds], with a history row,
    exactly when its liveness differs from what is recorded *)
Definition down_status_post (p : GpSegConfigEntry) (alive hasmirrors : bool)
    (g g' : fts_globals) : Prop :=
  if Bool.eqb alive (Z.testbit (bms_set (failedContentIds g)) (segindex p)) then
    ∃ b, g' = set_failed b (probeUpdateConfHistory p alive hasmirrors g) ∧ bms_wf b ∧
         bms_set b = (if alive then Z.clearbit else Z.setbit)
                       (bms_set (failedContentIds g)) (segindex p)
  else g' = g.

Lemma updateSegmentDownStatus_post p alive hasmirrors s E :
  bms_wf (failedContentIds (globals s)) → 0 ≤ segindex p →
  wp (updateSegmentDownStatus (W := W) (Some p) alive hasmirrors)
    (λ _ s', env s' = env s ∧ down_status_post p alive hasmirrors (globals s) (globals s')) E s.
Proof.
  intros Hwf Hseg. unfold updateSegmentDownStatus, down_status_post. wp_steps.
  eapply wp_of_res; [by apply bms_is_member_eq|].
  destruct (bms_del_member_eq _ _ Hwf Hseg) as (b & Hdel & ? & ?).
  destruct (bms_add_member_eq _ _ Hwf Hseg) as (b' & Hadd & ? & ?).
  destruct alive, (Z.testbit _ _); cbn [andb negb Bool.eqb]; wp_steps; try done;
    (eapply wp_of_res; [done|wp_steps; by eauto 10]).
Qed.

Lemma down_status_globals p alive hasmirrors g g' :
  down_status_post p alive hasmirrors g g' → bms_wf (failedContentIds g) →
  bms_wf (failedContentIds g') ∧
  gp_segment_configuration g' = gp_segment_configuration g ∧
  ftsProbeInfo g' = ftsProbeInfo g ∧ signals_sent g' = signals_sent g ∧
  skip_fts_probe g' = skip_fts_probe g.
Proof.
  unfold down_status_post. case_match; [|by intros ->]. by intros (b & -> & ? & _) _.
Qed.

(** the rows as [probeWalRepUpdateConfig] leaves them *)
Definition update_row (db : Z) (newrole : ascii) (alive insync : bool)
    (c : gmap Z GpSegConfigEntry) : gmap Z GpSegConfigEntry :=
  alter (λ r, modify_row r newrole (status_char alive) (mode_char insync)) db c.

Definition primary_changes (p : GpSegConfigEntry) (insync pa : bool) : bool :=
  xorb pa (SEGMENT_IS_ALIVE p) || xorb insync (SEGMENT_IS_IN_SYNC p).
Definition mirror_changes (p m : GpSegConfigEntry) (insync ma : bool) : bool :=
  xorb ma (SEGMENT_IS_ALIVE m) || xorb insync (SEGMENT_IS_IN_SYNC p).

Record config_post (p m : GpSegConfigEntry) (newp newm : ascii) (insync pa ma : bool)
    (g : fts_globals) (upd : bool) (g' : fts_globals) : Prop := {
  cp_upd : upd = primary_changes p insync pa || mirror_changes p m insync ma;
  cp_catalog : gp_segment_configuration g' =
    (if mirror_changes p m insync ma then update_row (dbid m) newm ma insync else id)
      ((if primary_changes p insync pa then update_row (dbid p) newp pa insync else id)
         (gp_segment_configuration g));
  cp_status : ftsProbeInfo g' =
    if upd then set_status_alive ma (dbid m) (set_status_alive pa (dbid p) (ftsProbeInfo g))
    else ftsProbeInfo g;
  cp_failed : failedContentIds g' = failedContentIds g;
  cp_signals : signals_sent g' = signals_sent g;
  cp_skip : skip_fts_probe g' = skip_fts_probe g;
}.

Lemma probeWalRepUpdateConfig_Ok db content newrole alive insync g :
  is_Some (gp_segment_configuration g !! db) →
  ∃ g', probeWalRepUpdateConfig db content newrole alive insync g = Ok g' ∧
        gp_segment_configuration g' =
          update_row db newrole alive insync (gp_segment_configuration g) ∧
        ftsProbeInfo g' = ftsProbeInfo g ∧ failedContentIds g' = failedContentIds g ∧
        signals_sent g' = signals_sent g ∧ skip_fts_probe g' = skip_fts_probe g.
Proof.
  intros [r Hr]. unfold probeWalRepUpdateConfig. simpl. rewrite Hr. eexists. split; [done|].
  simpl. split_and!; try done. unfold update_row. apply map_eq. intros d.
  destruct (decide (d = db)) as [->|Hd].
  - by rewrite lookup_insert_eq, lookup_alter_eq, Hr.
  - by rewrite lookup_insert_ne, lookup_alter_ne.
Qed.

Lemma wp_update_row (b : bool) db content newrole alive insync s
    (Q : unit → world → Prop) E :
  is_Some (gp_segment_configuration (globals s) !! db) →
  (∀ g', gp_segment_configuration g' =
           (if b then update_row db newrole alive insync else id)
             (gp_segment_configuration (globals s)) →
         ftsProbeInfo g' = ftsProbeInfo (globals s) →
         failedContentIds g' = failedContentIds (globals s) →
         signals_sent g' = signals_sent (globals s) →
         skip_fts_probe g' = skip_fts_probe (globals s) →
         Q tt (mkWorld (env s) g')) →
  wp (if b then lift_globals (probeWalRepUpdateConfig db content newrole alive insync)
      else mret tt) Q E s.
Proof.
  intros Hdb HQ. destruct b; [|destruct s; by apply HQ].
  destruct (probeWalRepUpdateConfig_Ok db content newrole alive insync _ Hdb)
    as (g' & Hg & ? & ? & ? & ? & ?).
  eapply wp_lift_globals; [done|]. by apply HQ.
Qed.

Lemma update_row_is_Some db newrole alive insync c d :
  is_Some (update_row db newrole alive insync c !! d) ↔ is_Some (c !! d).
Proof. apply lookup_alter_is_Some. Qed.

Lemma updateConfiguration_post p m newp newm insync pa ma s E :
  is_Some (gp_segment_configuration (globals s) !! dbid p) →
  is_Some (gp_segment_configuration (globals s) !! dbid m) →
  wp (updateConfiguration (W := W) (Some p) (Some m) newp newm insync pa ma)
    (λ upd s', env s' = env s ∧
               config_post p m newp newm insync pa ma (globals s) upd (globals s')) E s.
Proof.
  intros Hp Hm. unfold updateConfiguration. do 4 wp_step.
  fold (primary_changes p insync pa) (mirror_changes p m insync ma).
  destruct (primary_changes p insync pa || mirror_changes p m insync ma) eqn:Hupd.
  - wp_step. apply wp_update_row; [done|]. intros g1 Hc1 ????. wp_step.
    apply wp_update_row. { simpl. rewrite Hc1. by case_match; [apply update_row_is_Some|]. }
    intros g2 Hc2 ????. wp_steps. split; [done|]. simpl in *. constructor; simpl; try congruence.
  - apply orb_false_iff in Hupd as [Hu1 Hu2]. wp_steps. split; [done|].
    by constructor; rewrite ?Hu1, ?Hu2.
Qed.

(** ** Processing responses *)

Definition rows_exist (g : fts_globals) (i : info) : Prop :=
  (∀ p, primary_cdbinfo i = Some p → is_Some (gp_segment_configuration g !! dbid p)) ∧
  (∀ m, mirror_cdbinfo i = Some m → is_Some (gp_segment_configuration g !! dbid m)).

(** only role, status and mode differ *)
Definition same_segment (r r' : GpSegConfigEntry) : Prop :=
  ∃ newrole newstatus newmode, r' = modify_row r newrole newstatus newmode.

#[export] Instance same_segment_preorder : PreOrder same_segment.
Proof.
  split; [intros r; exists (role r), (status r), (mode r); by destruct r|].
  intros r1 r2 r3 (? & ? & ? & ->) (a & b & c & ->). by exists a, b, c.
Qed.

Definition probe_counts (i : FtsProbeInfo) : Z * Z * Z := (status_version i, start_count i, done_count i).

Record globals_kept (g g' : fts_globals) : Prop := {
  gk_failed : bms_wf (failedContentIds g) → bms_wf (failedContentIds g');
  gk_rows : ∀ d, is_Some (gp_segment_configuration g' !! d) ↔
                 is_Some (gp_segment_configuration g !! d);
  gk_static : ∀ d r r', gp_segment_configuration g !! d = Some r →
    gp_segment_configuration g' !! d = Some r' → same_segment r r';
  gk_counts : probe_counts (ftsProbeInfo g') = probe_counts (ftsProbeInfo g);
  gk_skip : skip_fts_probe g' = skip_fts_probe g;
}.

#[export] Instance globals_kept_preorder : PreOrder globals_kept.
Proof.
  split.
  { intros g. constructor; try done. by intros d r r' -> [= ->]. }
  intros g1 g2 g3 [H1 H2 Hs1 Hc1 H3] [H4 H5 Hs2 Hc2 H6]. constructor; [by auto| | |congruence|congruence].
  - intros d. by rewrite H5.
  - intros d r r' Hr Hr'. destruct (proj2 (H2 d) ltac:(by rewrite Hr)) as [r1 Hr1].
    transitivity r1; eauto.
Qed.

Lemma update_row_static db newrole alive insync c d r' :
  update_row db newrole alive insync c !! d = Some r' → ∃ r, c !! d = Some r ∧ same_segment r r'.
Proof.
  unfold update_row. rewrite lookup_alter_Some. intros [(-> & r & Hr & ->)|[_ Hr]]; [|by exists r'].
  exists r. split; [done|]. by eexists _, _, _.
Qed.

Lemma down_status_kept p alive hasmirrors g g' :
  bms_wf (failedContentIds g) → down_status_post p alive hasmirrors g g' → globals_kept g g'.
Proof.
  intros Hwf (?&Hc&Hi&?&?)%down_status_globals; [|done]. constructor; [done|..|done].
  - intros d. by rewrite Hc.
  - intros d r r'. rewrite Hc. by intros -> [= ->].
  - by rewrite Hi.
Qed.

Lemma config_post_kept p m newp newm insync pa ma g upd g' :
  config_post p m newp newm insync pa ma g upd g' → globals_kept g g'.
Proof.
  intros []. constructor; [congruence|..|done].
  - intros d. rewrite cp_catalog0.
    repeat case_match; rewrite ?update_row_is_Some; unfold id; rewrite ?update_row_is_Some; done.
  - intros d r r' Hr. rewrite cp_catalog0. unfold id.
    repeat case_match; rewrite ?Hr; intros Hr'; repeat (apply update_row_static in Hr' as (? & Hr' & ?));
      simplify_eq; try (by etransitivity); done.
  - rewrite cp_status0. by destruct upd.
Qed.

Lemma rows_exist_kept g g' i : globals_kept g g' → rows_exist g i → rows_exist g' i.
Proof. intros Hk [Hp Hm]. split; intros x Hx; apply (gk_rows _ _ Hk); eauto. Qed.

(** the primary says it is restarting and makes progress at it *)
Definition restarting (i : info) : Prop :=
  restart_state i = PM_IN_RESETTING ∨ restart_state i = PM_IN_RECOVERY_MAKING_PROGRESS.

(** The decisions of processResponse, one constructor per outcome: the entry [i] of
    the primary [p] is processed in [g], giving the is_updated flag, the entry
    before its connection is closed and the globals. *)
Inductive processes (hasmirrors : bool) (i : info) (p : GpSegConfigEntry) (g : fts_globals) :
    bool → info → fts_globals → Prop :=
  | pr_mirrorless g' :
      state i = FTS_PROBE_SUCCESS → hasmirrors = false →
      down_status_post p true hasmirrors g g' →
      processes hasmirrors i p g false (set_state FTS_RESPONSE_PROCESSED i) g'
  | pr_mirror_down m g1 upd g' :
      state i = FTS_PROBE_SUCCESS → hasmirrors = true → mirror_cdbinfo i = Some m →
      isSyncRepEnabled (result i) = true → isMirrorAlive (result i) = false →
      retryRequested (result i) = false →
      down_status_post p true hasmirrors g g1 →
      config_post p m ROLE_PRIMARY ROLE_MIRROR (isInSync (result i)) true false g1 upd g' →
      processes hasmirrors i p g upd (set_state FTS_SYNCREP_OFF_SEGMENT i) g'
  | pr_retry_requested g' :
      state i = FTS_PROBE_SUCCESS → hasmirrors = true →
      isSyncRepEnabled (result i) = true → isMirrorAlive (result i) = false →
      retryRequested (result i) = true →
      down_status_post p true hasmirrors g g' →
      processes hasmirrors i p g false (set_state FTS_RESPONSE_PROCESSED i) g'
  | pr_resend_promote g' :
      state i = FTS_PROBE_SUCCESS → hasmirrors = true →
      isSyncRepEnabled (result i) && negb (isMirrorAlive (result i)) = false →
      isRoleMirror (result i) = true →
      down_status_post p true hasmirrors g g' →
      processes hasmirrors i p g false (set_state FTS_PROMOTE_SEGMENT i) g'
  | pr_up m g1 upd g' :
      state i = FTS_PROBE_SUCCESS → hasmirrors = true → mirror_cdbinfo i = Some m →
      isSyncRepEnabled (result i) && negb (isMirrorAlive (result i)) = false →
      isRoleMirror (result i) = false →
      down_status_post p true hasmirrors g g1 →
      config_post p m ROLE_PRIMARY ROLE_MIRROR (isInSync (result i)) true
        (isMirrorAlive (result i)) g1 upd g' →
      processes hasmirrors i p g upd (set_state FTS_RESPONSE_PROCESSED i) g'
  | pr_restarting :
      state i = FTS_PROBE_FAILED → restarting i →
      processes hasmirrors i p g false (set_state FTS_RESPONSE_PROCESSED i) g
  | pr_promote m upd g' :
      state i = FTS_PROBE_FAILED → ¬ restarting i → hasmirrors = true →
      mirror_cdbinfo i = Some m → SEGMENT_IS_IN_SYNC m = true →
      config_post p m ROLE_MIRROR ROLE_PRIMARY false false (SEGMENT_IS_ALIVE m) g upd g' →
      processes hasmirrors i p g upd
        (set_pair (Some m) (Some p) (set_state FTS_PROMOTE_SEGMENT i)) g'
  | pr_double_fault g' :
      state i = FTS_PROBE_FAILED → ¬ restarting i →
      (∀ m, hasmirrors = true → mirror_cdbinfo i = Some m → SEGMENT_IS_IN_SYNC m = false) →
      down_status_post p false hasmirrors g g' →
      processes hasmirrors i p g false (set_state FTS_RESPONSE_PROCESSED i) g'
  | pr_syncrep_off :
      state i = FTS_SYNCREP_OFF_SUCCESS ∨ state i = FTS_SYNCREP_OFF_FAILED →
      processes hasmirrors i p g false (set_state FTS_RESPONSE_PROCESSED i) g
  | pr_promote_failed g' :
      state i = FTS_PROMOTE_FAILED →
      down_status_post p false hasmirrors g g' →
      processes hasmirrors i p g false (set_state FTS_RESPONSE_PROCESSED i) g'
  | pr_promoted g1 :
      state i = FTS_PROMOTE_SUCCESS →
      down_status_post p true hasmirrors g g1 →
      processes hasmirrors i p g false (set_state FTS_RESPONSE_PROCESSED i)
        (send_signal PMSIGNAL_FTS_PROMOTED_MIRROR g1).

(** what a step on the entry [i] of [p] promises *)
Abbreviation processes_post hasmirrors i p s :=
  (λ r s', env s' = env s ∧ processes hasmirrors i p (globals s) r.1 r.2 (globals s')).

Lemma process_probe_success_spec hasmirrors i p s E :
  entry_ok hasmirrors i → primary_cdbinfo i = Some p → 0 ≤ segindex p →
  bms_wf (failedContentIds (globals s)) → rows_exist (globals s) i →
  state i = FTS_PROBE_SUCCESS →
  wp (process_probe_success (W := W) hasmirrors true (isMirrorAlive (result i))
        (isInSync (result i)) i) (processes_post hasmirrors i p s) E s.
Proof.
  intros Hi Hp Hseg Hwf Hrows Hst. unfold process_probe_success. rewrite Hp.
  eapply wp_seq; [by apply updateSegmentDownStatus_post|].
  intros _ s1 (Henv & Hg1). pose proof (down_status_kept _ _ _ _ _ Hwf Hg1) as Hk.
  destruct hasmirrors; cbn [negb]; [|wp_step; split; [done|by apply pr_mirrorless]].
  destruct (eo_mirror _ _ Hi eq_refl) as (m & Hm & _). rewrite Hm.
  destruct (rows_exist_kept _ _ _ Hk Hrows) as [Hrp Hrm].
  destruct (isSyncRepEnabled (result i) && negb (isMirrorAlive (result i))) eqn:Hsr.
  - apply andb_true_iff in Hsr as [Hsr Hma%negb_true_iff].
    destruct (retryRequested (result i)) eqn:Hrr; cbn [negb]; wp_steps.
    + split; [done|]. by apply pr_retry_requested.
    + rewrite Hma. eapply wp_post; [apply updateConfiguration_post; eauto|].
      intros upd s2 (Henv2 & Hc). wp_steps. split; [congruence|]. by eapply pr_mirror_down.
  - wp_steps. { split; [done|]. by apply pr_resend_promote. }
    eapply wp_post; [apply updateConfiguration_post; eauto|].
    intros upd s2 (Henv2 & Hc). wp_steps. split; [congruence|]. by eapply pr_up.
Qed.

Lemma wp_log_mirror_some (emitted : bool) (m : GpSegConfigEntry) (Q : unit → world → Prop) E s :
  Q tt s → wp (log_mirror_dbid emitted (Some m)) Q E s.
Proof. by destruct emitted. Qed.

Lemma process_probe_failed_spec hasmirrors i p ma (s : world) :
  entry_ok hasmirrors i → primary_cdbinfo i = Some p → 0 ≤ segindex p →
  bms_wf (failedContentIds (globals s)) → rows_exist (globals s) i →
  state i = FTS_PROBE_FAILED →
  (∀ m, hasmirrors = true → mirror_cdbinfo i = Some m → ma = SEGMENT_IS_ALIVE m) →
  wp (process_probe_failed guc hasmirrors false ma false i)
    (processes_post hasmirrors i p s) (env_fault hasmirrors) s.
Proof.
  intros Hi Hp Hseg Hwf [Hrp Hrm] Hst Hma. unfold process_probe_failed.
  case_decide as Hr1.
  { wp_step. eapply wp_log_mirror; [done|by intros [_ ?]%andb_true_iff|]. wp_steps.
    split; [done|]. apply pr_restarting; [done|by left]. }
  case_decide as Hr2.
  { wp_step. eapply wp_log_mirror; [done|by intros [_ ?]%andb_true_iff|]. wp_steps.
    split; [done|]. apply pr_restarting; [done|by right]. }
  assert (¬ restarting i) as Hr by (by intros [?|?]). rewrite Hp.
  destruct hasmirrors.
  - destruct (eo_mirror _ _ Hi eq_refl) as (m & Hm & _). specialize (Hma m eq_refl Hm) as ->.
    rewrite Hm. do 4 wp_step. destruct (SEGMENT_IS_IN_SYNC m) eqn:Hsync; wp_step.
    + eapply wp_post; [apply updateConfiguration_post; eauto|].
      intros upd s' (Henv & Hc). wp_steps. split; [done|]. by apply pr_promote.
    + apply wp_log_mirror_some. wp_step.
      eapply wp_post; [by apply updateSegmentDownStatus_post|]. intros _ s' (Henv & Hd).
      wp_steps. split; [done|]. apply pr_double_fault; [done..| |done]. congruence.
  - do 5 wp_step. eapply wp_post; [by apply updateSegmentDownStatus_post|].
    intros _ s' (Henv & Hd). wp_steps. split; [done|]. by apply pr_double_fault.
Qed.

Lemma response_alive_spec hasmirrors i s E (Q : bool * bool * bool → world → Prop) :
  entry_ok hasmirrors i →
  (∀ ma, (IsFtsMessageStateSuccess (state i) = true → ma = isMirrorAlive (result i)) →
     (IsFtsMessageStateSuccess (state i) = false →
        ∀ m, hasmirrors = true → mirror_cdbinfo i = Some m → ma = SEGMENT_IS_ALIVE m) →
     Q (IsFtsMessageStateSuccess (state i), ma,
        if IsFtsMessageStateSuccess (state i) then isInSync (result i) else false) s) →
  wp (response_alive (W := W) hasmirrors i) Q E s.
Proof.
  intros Hi HQ. unfold response_alive. rewrite (eo_alive _ _ Hi).
  destruct (IsFtsMessageStateSuccess (state i)).
  - wp_steps. by apply HQ.
  - wp_step. destruct hasmirrors; [|wp_steps; by apply HQ].
    destruct (eo_mirror _ _ Hi eq_refl) as (m & Hm & _). rewrite Hm in HQ |- *. wp_steps.
    apply HQ; [done|]. congruence.
Qed.

Lemma stage_mirrored i :
  entry_ok false i → stage_of (state i) = Probing ∨ stage_of (state i) = Processed.
Proof. intros Hi. by apply (eo_stage _ _ Hi). Qed.

Lemma process_state_spec hasmirrors i p (s : world) :
  entry_ok hasmirrors i → primary_cdbinfo i = Some p → 0 ≤ segindex p →
  bms_wf (failedContentIds (globals s)) → rows_exist (globals s) i → ftsResponseReady i = true →
  wp (process_state guc hasmirrors i) (processes_post hasmirrors i p s)
    (env_fault hasmirrors) s.
Proof.
  intros Hi Hp Hseg Hwf Hrows Hready. unfold process_state. cbn zeta. rewrite Hp. wp_step.
  apply response_alive_spec; [done|]. intros ma Hma Hma'. unfold ftsResponseReady in Hready.
  destruct (state i) eqn:Hst; try done; cbn [IsFtsMessageStateSuccess] in *.
  - rewrite Hma by done. by apply process_probe_success_spec.
  - wp_steps. split; [done|]. apply pr_syncrep_off. by left.
  - wp_step. eapply wp_post; [by apply updateSegmentDownStatus_post|]. intros _ s' (Henv & Hd).
    wp_steps. split; [done|]. by apply pr_promoted.
  - apply process_probe_failed_spec; auto.
  - wp_steps. split; [done|]. apply pr_syncrep_off. by right.
  - destruct hasmirrors; [|by destruct (stage_mirrored _ Hi); rewrite Hst in *].
    destruct (eo_mirror _ _ Hi eq_refl) as (m & -> & _). wp_step.
    apply wp_log_mirror_some. wp_step.
    eapply wp_post; [by apply updateSegmentDownStatus_post|]. intros _ s' (Henv & Hd).
    wp_steps. split; [done|]. by apply pr_promote_failed.
Qed.

(** the entry after its connection is closed *)
Definition closed (i : info) : info :=
  set_timeout_count 0 (set_retry_count 0 (set_poll_events 0 (set_poll_revents 0
    (set_conn None (set_result zero_result i))))).

(** one entry goes through processResponse *)
Definition segment_processed (hasmirrors : bool) (i : info) (g : fts_globals)
    (upd : bool) (i' : info) (g' : fts_globals) : Prop :=
  (ftsResponseReady i = false ∧ upd = false ∧ i' = i ∧ g' = g) ∨
  (ftsResponseReady i = true ∧
   ∃ p j, primary_cdbinfo i = Some p ∧ processes hasmirrors i p g upd j g' ∧ i' = closed j).

Lemma process_segment_spec hasmirrors i (s : world) :
  entry_ok hasmirrors i → bms_wf (failedContentIds (globals s)) → rows_exist (globals s) i →
  wp (process_segment guc hasmirrors i)
    (λ r s', segment_processed hasmirrors i (globals s) r.1 r.2 (globals s'))
    (env_fault hasmirrors) s.
Proof.
  intros Hi Hwf Hrows. unfold process_segment.
  destruct (ftsResponseReady i) eqn:Hr; cbn [negb]; [|wp_steps; by left].
  destruct (eo_primary _ _ Hi) as (p & Hp & Hseg).
  eapply wp_seq; [by apply process_state_spec|]. intros [upd j] s1 [_ Hproc].
  unfold close_and_reset. wp_step. cbn zeta.
  eapply wp_seq with (R := λ _ s', globals s' = globals s1).
  { unfold finish. by case_match. }
  intros _ s2 Hg. wp_steps. right. split; [done|]. exists p, j. rewrite Hg. by split_and!.
Qed.

Lemma processes_kept hasmirrors i p g upd j g' :
  bms_wf (failedContentIds g) → processes hasmirrors i p g upd j g' → globals_kept g g'.
Proof.
  intros Hwf Hpr. destruct Hpr; eauto using down_status_kept, config_post_kept; try done.
  - etrans; eauto using down_status_kept, config_post_kept.
  - etrans; eauto using down_status_kept, config_post_kept.
  - by destruct (down_status_kept _ _ _ _ _ Hwf H0); constructor.
Qed.

Lemma closed_entry_ok hasmirrors i p m st :
  entry_ok hasmirrors i → (∃ p', p = Some p' ∧ 0 ≤ segindex p') →
  (hasmirrors = true → ∃ m', m = Some m' ∧ 0 ≤ segindex m') →
  (hasmirrors = false → stage_of st = Processed) →
  IsFtsMessageStateSuccess st = false →
  entry_ok hasmirrors (closed (set_pair p m (set_state st i))).
Proof.
  intros [] Hp Hm Hst Hs. constructor; simpl; auto; try done.
  lia.
Qed.

Lemma processes_entry hasmirrors i p g upd j g' :
  entry_ok hasmirrors i → primary_cdbinfo i = Some p → processes hasmirrors i p g upd j g' →
  entry_ok hasmirrors (closed j) ∧ resting (closed j).
Proof.
  intros Hi Hp Hpr. pose proof (eo_primary _ _ Hi) as Hip. pose proof (eo_mirror _ _ Hi) as Him.
  destruct Hpr;
    try (split; [by apply (closed_entry_ok _ i (primary_cdbinfo i) (mirror_cdbinfo i)); auto|done]);
    try (split; [apply (closed_entry_ok _ i (primary_cdbinfo i) (mirror_cdbinfo i)); auto; congruence|done]).
  split; [|done]. apply closed_entry_ok; auto; [|intros _; by rewrite <-Hp|congruence].
  by rewrite <-H2; auto.
Qed.

Lemma segment_processed_ok hasmirrors i g upd i' g' :
  entry_ok hasmirrors i → bms_wf (failedContentIds g) →
  segment_processed hasmirrors i g upd i' g' →
  entry_ok hasmirrors i' ∧ resting i' ∧ globals_kept g g'.
Proof.
  intros Hi Hwf [(Hr & -> & -> & ->)|(Hr & p & j & Hp & Hpr & ->)]; [done|].
  destruct (processes_entry _ _ _ _ _ _ _ Hi Hp Hpr). split_and!; eauto using processes_kept.
Qed.

(** ** Whole rounds *)

(** all entries go through processResponse, in order *)
Inductive processed_all (hasmirrors : bool) :
    list info → fts_globals → bool → list info → fts_globals → Prop :=
  | pa_nil g : processed_all hasmirrors [] g false [] g
  | pa_cons i l g u i' g1 u' l' g' :
      segment_processed hasmirrors i g u i' g1 →
      processed_all hasmirrors l g1 u' l' g' →
      processed_all hasmirrors (i :: l) g (u || u') (i' :: l') g'.

Lemma process_pairs_spec hasmirrors n is_updated l (s : world) :
  skip_fts_probe (globals s) = false → bms_wf (failedContentIds (globals s)) →
  Forall (entry_ok hasmirrors) (take n l) → Forall (rows_exist (globals s)) (take n l) →
  wp (process_pairs guc n hasmirrors is_updated l)
    (λ r s', ∃ u l', processed_all hasmirrors (take n l) (globals s) u l' (globals s') ∧
                     r = (is_updated || u, l' ++ drop n l)) (env_fault hasmirrors) s.
Proof.
  revert is_updated l s. induction n as [|n IH]; intros is_updated l s Hskip Hwf Hok Hrows.
  { wp_steps. exists false, []. rewrite orb_false_r. split; [constructor|done]. }
  destruct l as [|i l].
  { wp_steps. exists false, []. rewrite orb_false_r. split; [constructor|done]. }
  simpl in *. inversion_clear Hok as [|?? Hi Hl]. inversion_clear Hrows as [|?? Hri Hrl].
  unfold FtsIsActive. do 4 wp_step. rewrite Hskip. cbn [negb]. wp_step.
  eapply wp_post; [by apply process_segment_spec|]. intros [u i'] s1 Hseg; cbn beta iota zeta.
  destruct (segment_processed_ok _ _ _ _ _ _ Hi Hwf Hseg) as (_ & _ & Hk).
  wp_step. eapply wp_post.
  { apply IH; [by rewrite (gk_skip _ _ Hk)|by apply (gk_failed _ _ Hk)|done|].
    eapply Forall_impl; [done|]. intros j. by apply rows_exist_kept. }
  intros r s2 (u' & l' & Hall & ->). wp_steps. exists (u || u'), (i' :: l').
  split; [by econstructor|]. by rewrite orb_assoc.
Qed.

Lemma processed_all_ok hasmirrors l g u l' g' :
  processed_all hasmirrors l g u l' g' →
  Forall (entry_ok hasmirrors) l → bms_wf (failedContentIds g) →
  Forall (entry_ok hasmirrors) l' ∧ Forall resting l' ∧ globals_kept g g' ∧ length l' = length l.
Proof.
  induction 1 as [g|i l g u i' g1 u' l' g' Hseg _ IH]; intros Hok Hwf; [by split_and!|].
  inversion_clear Hok as [|?? Hi Hl].
  destruct (segment_processed_ok _ _ _ _ _ _ Hi Hwf Hseg) as (Hi' & Hr & Hk).
  destruct IH as (Hl' & Hrl & Hk' & Hlen); [done|by apply (gk_failed _ _ Hk)|].
  split_and!; [by constructor..|by etrans|simpl; congruence].
Qed.

(** the rule for a loop over the entries that leaves the globals alone *)
Lemma each_pair_ok hasmirrors (pre post : info → Prop) n body l (s : world) :
  (∀ i, entry_ok hasmirrors i → pre i → step_ok hasmirrors post i (body i)) →
  Forall (entry_ok hasmirrors) (take n l) → Forall pre (take n l) →
  wp (each_pair n body l)
    (λ l2 s', ∃ l1, l2 = l1 ++ drop n l ∧ Forall2 messaged (take n l) l1 ∧
       Forall (entry_ok hasmirrors) l1 ∧ Forall post l1 ∧ globals s' = globals s)
    (env_fault hasmirrors) s.
Proof.
  intros Hbody. revert l s. induction n as [|n IH]; intros l s Hok Hpre.
  { wp_steps. by exists []. }
  destruct l as [|i l]; [wp_steps; by exists []|]. simpl in *.
  inversion_clear Hok. inversion_clear Hpre. wp_step.
  eapply wp_post; [by apply Hbody|]. intros i' s1 (? & ? & ? & Hg1). wp_step.
  eapply wp_post; [by apply IH|]. intros l2 s2 (l1 & -> & ? & ? & ? & Hg2). wp_steps.
  exists (i' :: l1). split_and!; auto; congruence.
Qed.

(** a context whose [num_pairs] entries are [l] *)
Definition entries (context : fts_context Conn) : list info :=
  take (num_pairs context) (perSegInfos context).

Lemma take_app_drop {A} n (l l1 : list A) :
  length l1 = length (take n l) → take n (l1 ++ drop n l) = l1.
Proof.
  intros Hlen. rewrite length_take in Hlen. destruct (decide (n ≤ length l)%nat) as [Hle|Hgt].
  - rewrite take_app_le by lia. apply take_ge. lia.
  - rewrite drop_ge by lia. rewrite app_nil_r. apply take_ge. lia.
Qed.

(** what a step over the context promises *)
Definition context_step hasmirrors (post : info → Prop) (context : fts_context Conn)
    (m : M world (fts_context Conn)) : Prop :=
  ∀ s, wp m (λ context' s', has_mirrors context' = has_mirrors context ∧
       num_pairs context' = num_pairs context ∧
       Forall2 messaged (entries context) (entries context') ∧
       Forall (entry_ok hasmirrors) (entries context') ∧ Forall post (entries context') ∧
       globals s' = globals s) (env_fault hasmirrors) s.

Lemma for_each_pair_ok hasmirrors (pre post : info → Prop) body context :
  (∀ i, entry_ok hasmirrors i → pre i → step_ok hasmirrors post i (body i)) →
  Forall (entry_ok hasmirrors) (entries context) → Forall pre (entries context) →
  context_step hasmirrors post context (for_each_pair context body).
Proof.
  intros Hbody Hok Hpre s. unfold for_each_pair. wp_step.
  eapply wp_post; [by eapply each_pair_ok|]. intros l2 s' (l1 & -> & H2 & ? & ? & ?). wp_steps.
  pose proof (Forall2_length _ _ _ H2) as Hlen. unfold entries; simpl.
  rewrite take_app_drop by done. by split_and!.
Qed.

(** the descriptor poll() is asked about for an entry *)
Definition entry_pollfd (w : W) (i : info) : pollfd :=
  mkPollfd (match conn i with None => -1 | Some c => PQsocket c w end) (poll_events i).

(** [fd_index] of the entry finds its own descriptor, or is -1 *)
Definition fd_index_ok (w : W) (nfds : Z) (fds : list pollfd) (i : info) : Prop :=
  if polled i
  then nfds ≤ fd_index i ∧ fds !! Z.to_nat (fd_index i - nfds) = Some (entry_pollfd w i)
  else fd_index i = -1.

Lemma build_pollfds_spec n nfds l (s : world) :
  ∃ fds l1, build_pollfds n nfds l s = Ok ((fds, l1 ++ drop n l), s) ∧
    Forall2 (λ i i', ∃ x, i' = set_fd_index x i) (take n l) l1 ∧
    Forall (fd_index_ok (env s) nfds fds) l1 ∧
    length fds = length (filter (λ i, polled i = true) (take n l)).
Proof.
  revert nfds l. induction n as [|n IH]; intros nfds l; [by exists [], []|].
  destruct l as [|i l]; [by exists [], []|]. simpl.
  destruct (polled i) eqn:Hpol.
  - destruct (IH (nfds + 1) l) as (fds & l1 & Heq & H2 & Hfd & Hlen).
    exists (entry_pollfd (env s) i :: fds), (set_fd_index nfds i :: l1). split_and!.
    + unfold mbind, M_bind. destruct (conn i) as [c|] eqn:Hc;
        unfold ask, mret, M_ret; rewrite Heq; unfold entry_pollfd; by rewrite Hc.
    + constructor; [by exists nfds|done].
    + constructor.
      * unfold fd_index_ok. change (polled (set_fd_index nfds i)) with (polled i).
        rewrite Hpol. simpl. by rewrite Z.sub_diag.
      * eapply Forall_impl; [done|]. intros j. unfold fd_index_ok. case_match; [|done].
        intros [? Hj]. split; [lia|].
        by replace (Z.to_nat (fd_index j - nfds)) with (S (Z.to_nat (fd_index j - (nfds + 1)))) by lia.
    + rewrite filter_cons_True by done. simpl. congruence.
  - destruct (IH nfds l) as (fds & l1 & Heq & H2 & Hfd & Hlen).
    exists fds, (set_fd_index (-1) i :: l1). split_and!.
    + unfold mbind, M_bind. by rewrite Heq.
    + constructor; [by exists (-1)|done].
    + constructor; [|done]. unfold fd_index_ok.
      change (polled (set_fd_index (-1) i)) with (polled i). by rewrite Hpol.
    + rewrite filter_cons_False by congruence. done.
Qed.

Lemma ftsPoll_ok hasmirrors context :
  Forall (entry_ok hasmirrors) (entries context) → Forall pending (entries context) →
  context_step hasmirrors pending context (ftsPoll guc context).
Proof.
  intros Hok Hp s. unfold ftsPoll.
  destruct (build_pollfds_spec (num_pairs context) 0 (perSegInfos context) s)
    as (fds & l1 & Heq & H2 & _ & _).
  apply wp_bind. unfold wp at 1. rewrite Heq. cbn zeta.
  set (c1 := mkContext _ _ (l1 ++ _)).
  assert (entries c1 = l1) as Hc1.
  { apply take_app_drop. symmetry. by eapply Forall2_length. }
  assert (Hl1 : Forall2 messaged (entries context) l1).
  { eapply Forall2_impl; [done|]. intros i i' [x ->]; by auto. }
  assert (Hok1 : Forall (entry_ok hasmirrors) (entries c1) ∧ Forall pending (entries c1)).
  { rewrite Hc1. split; eapply (Forall2_Forall_r _ _ _ _ H2);
      [eapply Forall_impl; [exact Hok|]|eapply Forall_impl; [exact Hp|]].
    - intros i [] ? [x ->]. by constructor.
    - by intros i ? ? [x ->]. }
  destruct Hok1 as [Hok1 Hp1].
  destruct fds as [|fd fds].
  { wp_steps. rewrite Hc1 in *. by split_and!. }
  wp_step. wp_step. wp_step; [by right; right; left|]. wp_step. wp_step.
  eapply wp_post; [by eapply (for_each_pair_ok _ pending); eauto using record_poll_ok|].
  intros c2 s2 (? & ? & Hm & ? & ? & ?). rewrite Hc1 in *. split_and!; try done.
  by etrans.
Qed.

Lemma processRetry_ok hasmirrors context :
  has_mirrors context = hasmirrors → Forall (entry_ok hasmirrors) (entries context) →
  context_step hasmirrors exhausted context (processRetry guc context).
Proof.
  intros <- Hok s. unfold processRetry. do 2 wp_step.
  eapply wp_post; [apply (for_each_pair_ok _ (λ _, True) exhausted); [|done|by apply Forall_true]|done].
  intros i ? _. by apply retry_segment_ok.
Qed.

(** The context between rounds, with the globals it is processed in. *)
Record context_ok (context : fts_context Conn) (g : fts_globals) : Prop := {
  co_entries : Forall (entry_ok (has_mirrors context)) (entries context);
  co_resting : Forall resting (entries context);
  co_rows : Forall (rows_exist g) (entries context);
  co_failed : bms_wf (failedContentIds g);
}.

(** one round, abstractly: every entry gets further in its exchange, failures that
    are left have used up their retries, and then every response is processed *)
Definition round_post (context : fts_context Conn) (g : fts_globals)
    (r : bool * fts_context Conn) (g' : fts_globals) : Prop :=
  has_mirrors r.2 = has_mirrors context ∧ num_pairs r.2 = num_pairs context ∧
  ∃ l1, Forall2 messaged (entries context) l1 ∧
        Forall (entry_ok (has_mirrors context)) l1 ∧ Forall exhausted l1 ∧
        processed_all (has_mirrors context) l1 g r.1 (entries r.2) g'.

Lemma rows_exist_messaged g i i' : messaged i i' → rows_exist g i → rows_exist g i'.
Proof. intros (Hp & Hm & _) [??]. split; intros ?; rewrite ?Hp, ?Hm; auto. Qed.

Lemma resting_pending i : resting i → pending i.
Proof. unfold resting, pending, ftsResponseReady. by intros [? _]%orb_false_iff. Qed.

Lemma probe_round_spec context (s : world) :
  skip_fts_probe (globals s) = false → context_ok context (globals s) →
  wp (probe_round guc context) (λ r s', round_post context (globals s) r (globals s'))
    (env_fault (has_mirrors context)) s.
Proof.
  intros Hskip [Hok Hrest Hrows Hwf]. unfold probe_round.
  eapply wp_seq; [eapply (for_each_pair_ok _ pending); eauto using connect_segment_ok|].
  { eapply Forall_impl; [exact Hrest|]. apply resting_pending. }
  intros c1 s1 (Hh1 & Hn1 & Hm1 & Hok1 & Hp1 & Hg1).
  eapply wp_seq; [by apply ftsPoll_ok|]. intros c2 s2 (Hh2 & Hn2 & Hm2 & Hok2 & Hp2 & Hg2).
  eapply wp_seq; [eapply (for_each_pair_ok _ pending); eauto using send_segment_ok|].
  intros c3 s3 (Hh3 & Hn3 & Hm3 & Hok3 & Hp3 & Hg3).
  eapply wp_seq; [eapply (for_each_pair_ok _ pending); eauto using receive_segment_ok|].
  intros c4 s4 (Hh4 & Hn4 & Hm4 & Hok4 & _ & Hg4).
  eapply wp_seq; [by apply processRetry_ok; [congruence|]|].
  intros c5 s5 (Hh5 & Hn5 & Hm5 & Hok5 & Hex & Hg5).
  assert (Hm : Forall2 messaged (entries context) (entries c5)).
  { etrans; [exact Hm1|]. etrans; [exact Hm2|]. etrans; [exact Hm3|]. by etrans. }
  assert (Hg : globals s5 = globals s) by congruence.
  assert (Hh : has_mirrors c5 = has_mirrors context) by congruence.
  assert (Hrows5 : Forall (rows_exist (globals s5)) (entries c5)).
  { rewrite Hg. eapply (Forall2_Forall_r _ _ _ _ Hm). eapply Forall_impl; [exact Hrows|].
    intros i ? i' ?. by eapply rows_exist_messaged. }
  rewrite <-Hg, <-Hh in *. unfold processResponse.
  eapply wp_seq; [by apply process_pairs_spec|].
  intros r s6 (u & l' & Hall & ->). wp_steps.
  destruct (processed_all_ok _ _ _ _ _ _ Hall) as (_ & _ & _ & Hlen); [done..|].
  split_and!; simpl; [congruence..|]. exists (entries c5). rewrite <-Hh. split_and!; try done.
  assert (entries (mkContext (has_mirrors c5) (num_pairs c5)
    (l' ++ drop (num_pairs c5) (perSegInfos c5))) = l') as -> by (by apply take_app_drop). done.
Qed.

(** processing an entry keeps its two segments, or swaps them *)
Lemma segment_processed_pair hasmirrors i g u i' g' :
  segment_processed hasmirrors i g u i' g' →
  (primary_cdbinfo i' = primary_cdbinfo i ∧ mirror_cdbinfo i' = mirror_cdbinfo i) ∨
  (primary_cdbinfo i' = mirror_cdbinfo i ∧ mirror_cdbinfo i' = primary_cdbinfo i ∧
   state i = FTS_PROBE_FAILED ∧ state i' = FTS_PROMOTE_SEGMENT).
Proof.
  intros [(_ & _ & -> & _)|(_ & p & j & Hp & Hpr & ->)]; [by left|].
  destruct Hpr; try (by left). right; simpl. by split_and!.
Qed.

Lemma processed_all_rows hasmirrors l g u l' g' g0 :
  processed_all hasmirrors l g u l' g' → Forall (rows_exist g0) l → Forall (rows_exist g0) l'.
Proof.
  induction 1 as [|i l g u i' g1 u' l' g' Hseg _ IH]; intros Hl; [constructor|].
  inversion_clear Hl as [|?? [Hrp Hrm] Hl']. constructor; [|by apply IH].
  destruct (segment_processed_pair _ _ _ _ _ _ Hseg) as [(Hp & Hm)|(Hp & Hm & _)];
    split; intros ?; rewrite ?Hp, ?Hm; auto.
Qed.

(** processing a response ends the stage *)
Lemma processes_measure hasmirrors i p g upd j g' :
  entry_ok hasmirrors i → processes hasmirrors i p g upd j g' → measure (closed j) < measure i.
Proof.
  intros Hi Hpr. pose proof (eo_retry _ _ Hi) as Hr. unfold measure.
  destruct Hpr as [? Hst|???? Hst|? Hst|? Hst|???? Hst|Hst|??? Hst|? Hst|Hst|? Hst|? Hst]; simpl;
    try (destruct Hst as [Hst|Hst]); rewrite Hst; simpl; lia.
Qed.

Lemma processed_all_progress hasmirrors l g u l' g' :
  processed_all hasmirrors l g u l' g' → Forall (entry_ok hasmirrors) l → Forall2 progress l l'.
Proof.
  induction 1 as [|i l g u i' g1 u' l' g' Hseg _ IH]; intros Hl; [done|].
  inversion_clear Hl as [|?? Hi Hl']. constructor; [|by apply IH].
  destruct Hseg as [(_ & _ & -> & _)|(_ & p & j & _ & Hpr & ->)]; [by left|right].
  by eapply processes_measure.
Qed.

Lemma round_post_progress context g r g' :
  round_post context g r g' → Forall2 progress (entries context) (entries r.2).
Proof.
  intros (_ & _ & l1 & Hm & Hok1 & _ & Hall).
  pose proof (processed_all_progress _ _ _ _ _ _ Hall Hok1) as H2. clear Hall Hok1.
  revert H2. generalize (entries r.2). induction Hm as [|i j l l1 (_ & _ & _ & Hp) _ IH];
    intros l2 H2; inversion_clear H2; constructor; eauto using progress_trans.
Qed.

Lemma round_post_ok context g r g' :
  context_ok context g → round_post context g r g' →
  context_ok r.2 g' ∧ globals_kept g g'.
Proof.
  intros [Hok Hrest Hrows Hwf] (Hh & Hn & l1 & Hm & Hok1 & Hex & Hall).
  destruct (processed_all_ok _ _ _ _ _ _ Hall) as (Hok' & Hrest' & Hk & Hlen); [done..|].
  split; [|done]. constructor; rewrite ?Hh; try done; [|by apply (gk_failed _ _ Hk)].
  eapply Forall_impl; [|intros i; by apply (rows_exist_kept g)].
  eapply processed_all_rows; [done|].
  eapply (Forall2_Forall_r _ _ _ _ Hm). eapply Forall_impl; [exact Hrows|].
  intros i ? i' ?. by eapply rows_exist_messaged.
Qed.

(** the states a context goes through while it is probed *)
Inductive rounds : fts_context Conn → fts_globals → bool → fts_context Conn → fts_globals → Prop :=
  | rounds_refl context g : rounds context g false context g
  | rounds_step context g u context1 g1 u' context' g' :
      context_ok context g → allDone context = false → skip_fts_probe g = false →
      round_post context g (u, context1) g1 →
      rounds context1 g1 u' context' g' →
      rounds context g (u || u') context' g'.

Lemma probe_loop_spec fuel is_updated context (s : world) :
  context_ok context (globals s) →
  wp (probe_loop guc fuel is_updated context)
    (λ r s', match r with
             | None => True
             | Some (u, context') =>
                 ∃ u', rounds context (globals s) u' context' (globals s') ∧
                 u = is_updated || u' ∧
                 (allDone context' = true ∨ skip_fts_probe (globals s') = true)
             end)
    (env_fault (has_mirrors context)) s.
Proof.
  revert is_updated context s. induction fuel as [|fuel IH]; intros is_updated context s Hok;
    simpl; unfold FtsIsActive; do 4 wp_step;
    (destruct (allDone context || negb (negb (skip_fts_probe (globals s)))) eqn:Hend;
     [wp_step; exists false; rewrite orb_false_r; split_and!; [constructor|done|];
      by apply orb_true_iff in Hend as [?|?]; [left|right; rewrite <-(negb_involutive (skip_fts_probe _))]
     |]); [done|].
  apply orb_false_iff in Hend as [Hnd Hsk]. rewrite negb_involutive in Hsk.
  eapply wp_seq; [by apply probe_round_spec|]. intros [u c1] s1 Hround.
  destruct (round_post_ok _ _ _ _ Hok Hround) as [Hok1 Hk].
  eapply wp_mono; [by apply IH| |].
  - intros [[u2 c2]|] s2; [|done]. intros (u' & Hr & -> & Hend). exists (u || u').
    split_and!; [by eapply rounds_step|by rewrite orb_assoc|done].
  - destruct Hround as (Hh & _); simpl in Hh. by rewrite Hh.
Qed.

Lemma rounds_ok context g u context' g' :
  rounds context g u context' g' → context_ok context g →
  context_ok context' g' ∧ globals_kept g g' ∧ has_mirrors context' = has_mirrors context ∧
  num_pairs context' = num_pairs context.
Proof.
  induction 1 as [|context g u context1 g1 u' context' g' _ Hd Hsk Hround _ IH]; intros Hok;
    [done|].
  destruct (round_post_ok _ _ _ _ Hok Hround) as [Hok1 Hk].
  destruct IH as (? & ? & ? & ?); [done|].
  destruct Hround as (Hh & Hn & _). simpl in *. split_and!; [done|by etrans|congruence..].
Qed.
End safety.
