(* ===== verification/FtsProbeCycle.v ===== *)
(** * Whole probe cycles

    The context FtsWalRepInitProbeContext builds, and what a cycle does to the
    catalog: the theorems about FtsWalRepMessageSegments. *)

From S2P Require Import Prelude Bitmapset BitmapsetFacts CLib FtsConfig Libpq FtsProbe.
From S2P Require Import FtsProbeSafety.

(** ** The initial context *)

Section init.
Context {Conn : Type}.
Abbreviation info := (fts_segment_info Conn).

Definition primaries (infos : list GpSegConfigEntry) : list GpSegConfigEntry :=
  filter (λ x, SEGMENT_IS_ACTIVE_PRIMARY x = true) infos.

(** The configuration cdbutil reads: dbids are unique, contents not negative, each
    content has one acting primary and [total_segments] counts the contents. *)
Record cdbs_wf (cdbs : CdbComponentDatabases) : Prop := {
  cw_dbid : NoDup (dbid <$> segment_db_info cdbs);
  cw_content : Forall (λ x, 0 ≤ segindex x) (segment_db_info cdbs);
  cw_primary : NoDup (segindex <$> primaries (segment_db_info cdbs));
  cw_total : total_segments cdbs = Z.of_nat (length (primaries (segment_db_info cdbs)));
}.

Definition cluster_has_mirrors (cdbs : CdbComponentDatabases) : bool :=
  negb (total_segment_dbs cdbs =? total_segments cdbs).

Definition peer (infos : list GpSegConfigEntry) (p : GpSegConfigEntry) : option GpSegConfigEntry :=
  FtsGetPeerSegment infos (segindex p) (dbid p).

(** a primary is probed when the cluster has no mirrors or the primary has one *)
Definition to_probe (infos : list GpSegConfigEntry) (hasmirrors : bool) (p : GpSegConfigEntry) : Prop :=
  hasmirrors = true → is_Some (peer infos p).

#[local] Instance to_probe_dec infos hasmirrors p : Decision (to_probe infos hasmirrors p).
Proof. unfold to_probe. apply _. Defined.

Definition probed_primaries infos hasmirrors rest : list GpSegConfigEntry :=
  filter (to_probe infos hasmirrors) (primaries rest).

Definition probe_entry (infos : list GpSegConfigEntry) (p : GpSegConfigEntry) : info :=
  init_info p (peer infos p) zero_info.

Lemma init_pairs_spec infos hasmirrors rest numpairs (done : list info) k :
  (length (probed_primaries infos hasmirrors rest) ≤ k)%nat →
  init_pairs infos rest hasmirrors numpairs (length done) (done ++ replicate k zero_info) =
  Ok (numpairs - Z.of_nat (length (primaries rest))
        + Z.of_nat (length (probed_primaries infos hasmirrors rest)),
      done ++ (probe_entry infos <$> probed_primaries infos hasmirrors rest) ++
      replicate (k - length (probed_primaries infos hasmirrors rest)) zero_info).
Proof.
  revert numpairs done k.
  induction rest as [|p rest IH]; intros numpairs done k Hk; simpl.
  { f_equal. f_equal; [lia|]. by rewrite Nat.sub_0_r. }
  unfold probed_primaries, primaries in *.
  destruct (SEGMENT_IS_ACTIVE_PRIMARY p) eqn:Hp; cbn [negb].
  2:{ rewrite filter_cons_False in Hk |- * by congruence. by apply IH. }
  rewrite filter_cons_True in Hk |- * by done. fold (peer infos p).
  destruct (decide (to_probe infos hasmirrors p)) as [Ht|Ht].
  - rewrite (filter_cons_True (to_probe _ _)) in Hk |- * by done. simpl in Hk.
    destruct k as [|k]; [lia|].
    assert (hasmirrors && bool_decide (peer infos p = None) = false) as ->.
    { destruct hasmirrors; [|done]. destruct (Ht eq_refl) as [m ->]. done. }
    simpl replicate. rewrite list_lookup_middle by done. rewrite insert_app_r_alt by lia.
    rewrite Nat.sub_diag. simpl. fold (probe_entry infos p).
    rewrite (cons_middle (probe_entry infos p)), (assoc_L (++)).
    replace (S (length done)) with (length (done ++ [probe_entry infos p]))
      by (rewrite length_app; simpl; lia).
    rewrite IH by lia. f_equal. f_equal; [lia|]. by rewrite <-(assoc_L (++)).
  - rewrite (filter_cons_False (to_probe _ _)) in Hk |- * by done.
    assert (hasmirrors && bool_decide (peer infos p = None) = true) as ->.
    { destruct hasmirrors; [|by destruct Ht]. simpl. apply bool_decide_eq_true.
      destruct (peer infos p) eqn:Hpe; [|done]. destruct Ht. unfold to_probe. by rewrite Hpe. }
    rewrite IH by done. f_equal. f_equal. simpl length. lia.
Qed.

Lemma init_context cdbs :
  cdbs_wf cdbs →
  let infos := segment_db_info cdbs in
  let hasmirrors := cluster_has_mirrors cdbs in
  ∃ context : fts_context Conn, FtsWalRepInitProbeContext cdbs = Ok context ∧
    has_mirrors context = hasmirrors ∧
    num_pairs context = length (probed_primaries infos hasmirrors infos) ∧
    entries context = probe_entry infos <$> probed_primaries infos hasmirrors infos.
Proof.
  intros [Hdb Hseg Hprim Htot] infos hasmirrors. unfold FtsWalRepInitProbeContext.
  rewrite (proj2 (Z.ltb_ge _ _)) by lia. fold (cluster_has_mirrors cdbs) infos hasmirrors.
  assert (Hle : (length (probed_primaries infos hasmirrors infos) ≤ length (primaries infos))%nat).
  { apply length_filter. }
  pose proof (init_pairs_spec infos hasmirrors infos (total_segments cdbs) []
    (Z.to_nat (total_segments cdbs))) as Hinit. simpl in Hinit.
  rewrite Hinit by (subst infos; lia). eexists. split; [done|]. simpl. split; [done|].
  assert (Z.to_nat (total_segments cdbs - Z.of_nat (length (primaries infos)) +
    Z.of_nat (length (probed_primaries infos hasmirrors infos))) =
    length (probed_primaries infos hasmirrors infos)) as Hn by (subst infos; lia).
  split; [done|]. unfold entries; simpl. rewrite Hn.
  apply take_app_length'. by rewrite length_fmap.
Qed.
End init.

#[export] Instance stage_eq_dec : EqDecision stage.
Proof. solve_decision. Defined.

(** ** One pair of segments in the catalog *)

Definition row_is (r : GpSegConfigEntry) (newrole : ascii) (alive insync : bool) : Prop :=
  role r = newrole ∧ status r = status_char alive ∧ mode r = mode_char insync.

(** The rows of a primary and its mirror: the primary is up, both have the same
    mode, and in sync only if the mirror is up as well. *)
Definition pair_ok (rp rm : GpSegConfigEntry) : Prop :=
  ∃ ma sync, row_is rp ROLE_PRIMARY true sync ∧ row_is rm ROLE_MIRROR ma sync ∧
             (sync = true → ma = true).

(** the probe's copy of a row is up to date *)
Definition agrees (r x : GpSegConfigEntry) : Prop :=
  role r = role x ∧ status r = status x ∧ mode r = mode x.

(** the shared status of [d] says what the catalog says *)
Definition status_ok (g : fts_globals) (d : Z) : Prop :=
  ∀ r, gp_segment_configuration g !! d = Some r →
    FTS_STATUS_IS_DOWN (status_of (ftsProbeInfo g) d) = negb (SEGMENT_IS_ALIVE r).

(** nothing outside the dbids [ds] changed *)
Definition frame (ds : list Z) (g g' : fts_globals) : Prop :=
  ∀ d, d ∉ ds →
    gp_segment_configuration g' !! d = gp_segment_configuration g !! d ∧
    status_of (ftsProbeInfo g') d = status_of (ftsProbeInfo g) d.

Lemma SEGMENT_IS_ALIVE_char r alive :
  status r = status_char alive → SEGMENT_IS_ALIVE r = alive.
Proof. unfold SEGMENT_IS_ALIVE. intros ->. by destruct alive. Qed.

Lemma SEGMENT_IS_IN_SYNC_char r sync : mode r = mode_char sync → SEGMENT_IS_IN_SYNC r = sync.
Proof. unfold SEGMENT_IS_IN_SYNC. intros ->. by destruct sync. Qed.

Lemma modify_row_is r newrole alive insync :
  row_is (modify_row r newrole (status_char alive) (mode_char insync)) newrole alive insync.
Proof. done. Qed.

Lemma status_down_set_alive alive d d' i :
  FTS_STATUS_IS_DOWN (status_of (set_status_alive alive d i) d') =
  if decide (d' = d) then negb alive else FTS_STATUS_IS_DOWN (status_of i d').
Proof.
  unfold set_status_alive, set_probe_status, status_of at 1; simpl.
  case_decide as Hd; [subst; rewrite lookup_insert_eq|by rewrite lookup_insert_ne].
  unfold FTS_STATUS_IS_DOWN, FTS_STATUS_SET_UP, FTS_STATUS_SET_DOWN, FTS_STATUS_DOWN. simpl.
  destruct alive; simpl.
  - by rewrite Z.land_ldiff.
  - rewrite Z.land_lor_distr_l. apply negb_true_iff, Z.eqb_neq.
    by intros [_ ?]%Z.lor_eq_0_iff.
Qed.

Section config.
Context (p m : GpSegConfigEntry) (Hne : dbid p ≠ dbid m).
Context (newp newm : ascii) (insync pa ma : bool).
Context (g g' : fts_globals) (upd : bool).
Context (Hpost : config_post p m newp newm insync pa ma g upd g').
Context (rp rm : GpSegConfigEntry).
Context (Hrp : gp_segment_configuration g !! dbid p = Some rp).
Context (Hrm : gp_segment_configuration g !! dbid m = Some rm).

Lemma config_post_rows :
  gp_segment_configuration g' !! dbid p = Some (if primary_changes p insync pa
    then modify_row rp newp (status_char pa) (mode_char insync) else rp) ∧
  gp_segment_configuration g' !! dbid m = Some (if mirror_changes p m insync ma
    then modify_row rm newm (status_char ma) (mode_char insync) else rm).
Proof.
  rewrite (cp_catalog _ _ _ _ _ _ _ _ _ _ Hpost). unfold update_row, id.
  split; repeat case_match; rewrite ?lookup_alter_ne, ?lookup_alter_eq, ?lookup_alter_ne,
    ?Hrp, ?Hrm by done; done.
Qed.

Lemma config_post_frame : frame [dbid p; dbid m] g g'.
Proof.
  intros d Hd. rewrite !not_elem_of_cons in Hd. destruct Hd as (Hdp & Hdm & _).
  rewrite (cp_catalog _ _ _ _ _ _ _ _ _ _ Hpost), (cp_status _ _ _ _ _ _ _ _ _ _ Hpost).
  split.
  - unfold update_row, id. repeat case_match; rewrite ?lookup_alter_ne by done; done.
  - destruct upd; [|done]. unfold status_of; simpl. by rewrite !lookup_insert_ne.
Qed.

End config.

(** an up-to-date pair that keeps its roles *)
Lemma config_post_same_roles p m insync ma g upd g' rp rm :
  dbid p ≠ dbid m →
  config_post p m ROLE_PRIMARY ROLE_MIRROR insync true ma g upd g' →
  gp_segment_configuration g !! dbid p = Some rp →
  gp_segment_configuration g !! dbid m = Some rm →
  pair_ok rp rm → agrees rp p → agrees rm m →
  ∃ rp' rm', gp_segment_configuration g' !! dbid p = Some rp' ∧
    gp_segment_configuration g' !! dbid m = Some rm' ∧
    row_is rp' ROLE_PRIMARY true insync ∧ row_is rm' ROLE_MIRROR ma insync ∧
    (upd = true → rp' ≠ rp ∨ rm' ≠ rm).
Proof.
  intros Hne Hpost Hrp Hrm (al & sy & (Hr1 & Hs1 & Hm1) & (Hr2 & Hs2 & Hm2) & _)
    (A1 & A2 & A3) (B1 & B2 & B3).
  destruct (config_post_rows _ _ Hne _ _ _ _ _ _ _ _ Hpost _ _ Hrp Hrm) as [-> ->].
  assert (Hpc : primary_changes p insync true = xorb insync sy).
  { unfold primary_changes. rewrite (SEGMENT_IS_ALIVE_char p true), (SEGMENT_IS_IN_SYNC_char p sy)
      by congruence. done. }
  assert (Hmc : mirror_changes p m insync ma = xorb ma al || xorb insync sy).
  { unfold mirror_changes. rewrite (SEGMENT_IS_ALIVE_char m al), (SEGMENT_IS_IN_SYNC_char p sy)
      by congruence. done. }
  rewrite (cp_upd _ _ _ _ _ _ _ _ _ _ Hpost), Hpc, Hmc. do 2 eexists. split_and!; [done..| | |].
  - destruct insync, sy; by split_and!.
  - destruct ma, al, insync, sy; by split_and!.
  - intros Hu. right. intros Heq. apply (f_equal mode) in Heq as Hmo. apply (f_equal status) in Heq.
    destruct insync, sy, ma, al; try done; simpl in *; rewrite Hs2 in Heq; by rewrite Hm2 in Hmo.
Qed.

(** an up-to-date pair in sync whose mirror is promoted *)
Lemma config_post_promote p m g upd g' rp rm :
  dbid p ≠ dbid m →
  config_post p m ROLE_MIRROR ROLE_PRIMARY false false (SEGMENT_IS_ALIVE m) g upd g' →
  gp_segment_configuration g !! dbid p = Some rp →
  gp_segment_configuration g !! dbid m = Some rm →
  pair_ok rp rm → agrees rp p → agrees rm m → SEGMENT_IS_IN_SYNC m = true →
  row_is rp ROLE_PRIMARY true true ∧ row_is rm ROLE_MIRROR true true ∧ upd = true ∧
  ∃ rp' rm', gp_segment_configuration g' !! dbid p = Some rp' ∧
    gp_segment_configuration g' !! dbid m = Some rm' ∧
    row_is rp' ROLE_MIRROR false false ∧ row_is rm' ROLE_PRIMARY true false.
Proof.
  intros Hne Hpost Hrp Hrm (al & sy & (Hr1 & Hs1 & Hm1) & (Hr2 & Hs2 & Hm2) & Hsy)
    (A1 & A2 & A3) (B1 & B2 & B3) Hsync.
  rewrite (SEGMENT_IS_IN_SYNC_char m sy) in Hsync by congruence. subst sy.
  rewrite Hsy in * by done. split_and!; [done..| |].
  - rewrite (cp_upd _ _ _ _ _ _ _ _ _ _ Hpost). unfold primary_changes.
    by rewrite (SEGMENT_IS_ALIVE_char p true) by congruence.
  - destruct (config_post_rows _ _ Hne _ _ _ _ _ _ _ _ Hpost _ _ Hrp Hrm) as [-> ->].
    unfold primary_changes, mirror_changes.
    rewrite (SEGMENT_IS_ALIVE_char p true), (SEGMENT_IS_ALIVE_char m true),
      (SEGMENT_IS_IN_SYNC_char p true) by congruence. do 2 eexists. by split_and!.
Qed.

(** ** Entries and the catalog *)

Section catalog.
Context {W Conn : Type} `{LP : !Libpq W Conn} (guc : gucs).
Abbreviation info := (fts_segment_info Conn).
Abbreviation world := (fts_world W).

Definition keys (i : info) : list Z :=
  match primary_cdbinfo i, mirror_cdbinfo i with
  | Some p, Some m => [dbid p; dbid m]
  | _, _ => []
  end.

(** The primary an entry talks to is the acting primary of a well-formed pair, the
    shared status of both agrees with the catalog, and while the entry is probed its
    copies of the rows are up to date. *)
Definition entry_rows (i : info) (g : fts_globals) : Prop :=
  ∃ p m rp rm, primary_cdbinfo i = Some p ∧ mirror_cdbinfo i = Some m ∧ dbid p ≠ dbid m ∧
    gp_segment_configuration g !! dbid p = Some rp ∧
    gp_segment_configuration g !! dbid m = Some rm ∧
    pair_ok rp rm ∧ status_ok g (dbid p) ∧ status_ok g (dbid m) ∧
    (stage_of (state i) = Probing → agrees rp p ∧ agrees rm m).

Lemma entry_rows_eq i i' g g' :
  primary_cdbinfo i' = primary_cdbinfo i → mirror_cdbinfo i' = mirror_cdbinfo i →
  (stage_of (state i') = Probing → stage_of (state i) = Probing) →
  gp_segment_configuration g' = gp_segment_configuration g →
  ftsProbeInfo g' = ftsProbeInfo g → entry_rows i g → entry_rows i' g'.
Proof.
  unfold entry_rows, status_ok. intros -> -> Hst -> ->.
  intros (p & m & rp & rm & ?). exists p, m, rp, rm. intuition.
Qed.

Lemma frame_refl ds g : frame ds g g.
Proof. done. Qed.

Lemma frame_eq ds g g' :
  gp_segment_configuration g' = gp_segment_configuration g →
  ftsProbeInfo g' = ftsProbeInfo g → frame ds g g'.
Proof. by intros Hc Hp d _; rewrite Hc, Hp. Qed.

(** an entry whose dbids are untouched *)
Lemma entry_rows_frame i g g' ds :
  frame ds g g' → (∀ d, d ∈ keys i → d ∉ ds) → entry_rows i g → entry_rows i g'.
Proof.
  intros Hf Hd (p & m & rp & rm & Hp & Hm & Hne & Hrp & Hrm & Hok & Hsp & Hsm & Hag).
  unfold keys in Hd. rewrite Hp, Hm in Hd.
  destruct (Hf (dbid p)) as [Hcp Hstp]; [apply Hd; left|].
  destruct (Hf (dbid m)) as [Hcm Hstm]; [apply Hd; right; left|].
  exists p, m, rp, rm. rewrite Hcp, Hcm. split_and!; try done;
    unfold status_ok; rewrite ?Hcp, ?Hcm, ?Hstp, ?Hstm; done.
Qed.

Lemma status_ok_config p m newp newm insync pa ma g upd g' :
  dbid p ≠ dbid m → config_post p m newp newm insync pa ma g upd g' →
  status_ok g (dbid p) → status_ok g (dbid m) →
  ∀ rp' rm', gp_segment_configuration g' !! dbid p = Some rp' →
    gp_segment_configuration g' !! dbid m = Some rm' →
    status rp' = status_char pa → status rm' = status_char ma →
    status_ok g' (dbid p) ∧ status_ok g' (dbid m).
Proof.
  intros Hne Hpost Hp Hm rp' rm' Hrp Hrm Hsp Hsm.
  pose proof (cp_status _ _ _ _ _ _ _ _ _ _ Hpost) as Hst.
  destruct upd.
  - unfold status_ok. rewrite Hst, !status_down_set_alive, Hrp, Hrm.
    rewrite decide_False by done. rewrite !decide_True by done.
    split; intros r [= <-]; by erewrite SEGMENT_IS_ALIVE_char.
  - pose proof (cp_upd _ _ _ _ _ _ _ _ _ _ Hpost) as Hu.
    pose proof (cp_catalog _ _ _ _ _ _ _ _ _ _ Hpost) as Hc.
    symmetry in Hu. apply orb_false_iff in Hu as [Hu1 Hu2]. rewrite Hu1, Hu2 in Hc.
    unfold status_ok. rewrite Hst, Hc. done.
Qed.

Lemma config_post_false p m newp newm insync pa ma g g' :
  config_post p m newp newm insync pa ma g false g' →
  gp_segment_configuration g' = gp_segment_configuration g.
Proof.
  intros Hpost. pose proof (cp_upd _ _ _ _ _ _ _ _ _ _ Hpost) as Hu.
  symmetry in Hu. apply orb_false_iff in Hu as [Hu1 Hu2].
  by rewrite (cp_catalog _ _ _ _ _ _ _ _ _ _ Hpost), Hu1, Hu2.
Qed.

(** the mirror [m] takes over from [p]: both were up and in sync *)
Definition promotion (p m : Z) (g g' : fts_globals) : Prop :=
  ∃ rp rm rp' rm', gp_segment_configuration g !! p = Some rp ∧
    gp_segment_configuration g !! m = Some rm ∧
    gp_segment_configuration g' !! p = Some rp' ∧ gp_segment_configuration g' !! m = Some rm' ∧
    row_is rp ROLE_PRIMARY true true ∧ row_is rm ROLE_MIRROR true true ∧
    row_is rp' ROLE_MIRROR false false ∧ row_is rm' ROLE_PRIMARY true false.

(** the rows keep their roles *)
Definition same_role (d : Z) (g g' : fts_globals) : Prop :=
  role <$> gp_segment_configuration g' !! d = role <$> gp_segment_configuration g !! d.

(** what processing an entry does to its rows *)
Record rows_post (i i' : info) (g : fts_globals) (upd : bool) (g' : fts_globals) : Prop := {
  rp_entry : entry_rows i' g';
  rp_frame : frame (keys i) g g';
  rp_changed : upd = true → ∃ d, d ∈ keys i ∧
    gp_segment_configuration g' !! d ≠ gp_segment_configuration g !! d;
  rp_same : upd = false → gp_segment_configuration g' = gp_segment_configuration g;
  rp_once : upd = true → stage_of (state i) = Probing ∧ stage_of (state i') ≠ Probing;
  rp_roles : (∀ d, d ∈ keys i → same_role d g g') ∨
    ∃ p m, keys i = [p; m] ∧ promotion p m g g' ∧
           state i = FTS_PROBE_FAILED ∧ ¬ restarting i ∧ upd = true;
}.

(** cases that do not touch the catalog *)
Lemma rows_post_same i i' g g' :
  primary_cdbinfo i' = primary_cdbinfo i → mirror_cdbinfo i' = mirror_cdbinfo i →
  (stage_of (state i') = Probing → stage_of (state i) = Probing) →
  gp_segment_configuration g' = gp_segment_configuration g →
  ftsProbeInfo g' = ftsProbeInfo g → entry_rows i g → rows_post i i' g false g'.
Proof.
  intros. constructor; try done; [by eapply entry_rows_eq|by apply frame_eq|].
  left. intros d _. unfold same_role. congruence.
Qed.

Lemma rows_post_same_roles i i' p m ma insync g upd g' :
  primary_cdbinfo i = Some p → mirror_cdbinfo i = Some m →
  primary_cdbinfo i' = Some p → mirror_cdbinfo i' = Some m →
  stage_of (state i) = Probing → stage_of (state i') ≠ Probing →
  (insync = true → ma = true) →
  config_post p m ROLE_PRIMARY ROLE_MIRROR insync true ma g upd g' →
  entry_rows i g → rows_post i i' g upd g'.
Proof.
  intros Hp Hm Hp' Hm' Hst Hst' Hsync Hpost.
  intros (p0 & m0 & rp & rm & Hp0 & Hm0 & Hne & Hrp & Hrm & Hok & Hsp & Hsm & Hag).
  assert (p0 = p) as -> by congruence. assert (m0 = m) as -> by congruence.
  destruct (Hag Hst) as [Hap Ham].
  destruct (config_post_same_roles _ _ _ _ _ _ _ _ _ Hne Hpost Hrp Hrm Hok Hap Ham)
    as (rp' & rm' & Hrp' & Hrm' & Hip & Him & Hch).
  destruct (status_ok_config _ _ _ _ _ _ _ _ _ _ Hne Hpost Hsp Hsm _ _ Hrp' Hrm')
    as [Hsp' Hsm']; [apply Hip|apply Him|].
  assert (keys i = [dbid p; dbid m]) as Hk by (unfold keys; by rewrite Hp, Hm).
  constructor; rewrite ?Hk.
  - exists p, m, rp', rm'. split_and!; try done. by exists ma, insync.
  - by eapply config_post_frame.
  - intros Hu. destruct (Hch Hu) as [Hd|Hd].
    + exists (dbid p). rewrite Hrp, Hrp'. split; [left|congruence].
    + exists (dbid m). rewrite Hrm, Hrm'. split; [right; left|congruence].
  - intros ->. by eapply config_post_false.
  - done.
  - left. destruct Hok as (? & ? & (Hrole1 & _) & (Hrole2 & _) & _).
    destruct Hip as (Hrole3 & _), Him as (Hrole4 & _). unfold same_role.
    intros d [->|[->|[]%elem_of_nil]%elem_of_cons]%elem_of_cons;
      rewrite ?Hrp, ?Hrp', ?Hrm, ?Hrm'; simpl; congruence.
Qed.

Lemma rows_post_promote i i' p m g upd g' :
  primary_cdbinfo i = Some p → mirror_cdbinfo i = Some m →
  primary_cdbinfo i' = Some m → mirror_cdbinfo i' = Some p →
  state i = FTS_PROBE_FAILED → stage_of (state i') ≠ Probing → ¬ restarting i →
  SEGMENT_IS_IN_SYNC m = true →
  config_post p m ROLE_MIRROR ROLE_PRIMARY false false (SEGMENT_IS_ALIVE m) g upd g' →
  entry_rows i g → rows_post i i' g upd g'.
Proof.
  intros Hp Hm Hp' Hm' Hst Hst' Hr Hsync Hpost.
  intros (p0 & m0 & rp & rm & Hp0 & Hm0 & Hne & Hrp & Hrm & Hok & Hsp & Hsm & Hag).
  assert (p0 = p) as -> by congruence. assert (m0 = m) as -> by congruence.
  rewrite Hst in Hag. destruct (Hag eq_refl) as [Hap Ham].
  destruct (config_post_promote _ _ _ _ _ _ _ Hne Hpost Hrp Hrm Hok Hap Ham Hsync)
    as (Hip & Him & Hu & rp' & rm' & Hrp' & Hrm' & Hip' & Him').
  assert (SEGMENT_IS_ALIVE m = true) as Halive.
  { apply SEGMENT_IS_ALIVE_char. destruct Him as (_ & <- & _). by destruct Ham as (_ & -> & _). }
  rewrite Halive in *.
  destruct (status_ok_config _ _ _ _ _ _ _ _ _ _ Hne Hpost Hsp Hsm _ _ Hrp' Hrm')
    as [Hsp' Hsm']; [apply Hip'|apply Him'|].
  assert (keys i = [dbid p; dbid m]) as Hk by (unfold keys; by rewrite Hp, Hm).
  constructor; rewrite ?Hk, ?Hst; try done; [..|congruence|].
  - exists m, p, rm', rp'. split_and!; try done. by exists false, false.
  - by eapply config_post_frame.
  - intros _. exists (dbid p). rewrite Hrp, Hrp'. split; [left|]. intros [= Heq].
    destruct Hip as (Hrole & _), Hip' as (Hrole' & _). by rewrite Heq, Hrole in Hrole'.
  - right. exists (dbid p), (dbid m). split_and!; try done. by exists rp, rm, rp', rm'.
Qed.

Lemma rows_post_eq_l i i' g g1 upd g' :
  gp_segment_configuration g1 = gp_segment_configuration g → ftsProbeInfo g1 = ftsProbeInfo g →
  rows_post i i' g1 upd g' → rows_post i i' g upd g'.
Proof.
  intros Hc Hp [H1 H2 H3 H4 H5 H6]. unfold frame, same_role, promotion in *.
  rewrite Hc, ?Hp in *. constructor; unfold frame, same_role, promotion; done.
Qed.

Lemma processes_rows i p g upd j g' :
  honest_responses → entry_ok guc true i → primary_cdbinfo i = Some p → entry_rows i g →
  bms_wf (failedContentIds g) → processes true i p g upd j g' →
  rows_post i (closed j) g upd g'.
Proof.
  intros Hhon Hi Hp Hrows Hwf Hpr. pose proof (eo_sync _ _ _ Hi Hhon) as Hsync.
  destruct Hpr as [?|m g1 upd g' Hst ? Hm Hsr Hma Hrr Hd Hc|? Hst ???? Hd|? Hst ??? Hd
    |m g1 upd g' Hst ? Hm Hsr Hrm Hd Hc|Hst Hr|m upd g' Hst Hr ? Hm Hs Hc|? Hst ?? Hd
    |Hst|? Hst Hd|g1 Hst Hd]; [done|..];
    try (destruct (down_status_globals _ _ _ _ _ Hd Hwf) as (_ & Hcat & Hpi & _ & _)).
  - eapply rows_post_eq_l; [done..|].
    eapply rows_post_same_roles; try done; [by rewrite Hst|congruence|by eapply entry_rows_eq].
  - by apply rows_post_same.
  - by apply rows_post_same.
  - eapply rows_post_eq_l; [done..|].
    eapply rows_post_same_roles; try done; [by rewrite Hst|by eapply entry_rows_eq].
  - by apply rows_post_same.
  - by eapply rows_post_promote.
  - by apply rows_post_same.
  - by apply rows_post_same.
  - by apply rows_post_same.
  - by apply rows_post_same.
Qed.

(** ** All entries *)

Definition agree_on (ds : list Z) (g g' : fts_globals) : Prop :=
  ∀ d, d ∈ ds → gp_segment_configuration g' !! d = gp_segment_configuration g !! d.

(** What happens to an entry and its rows, however many rounds it takes: the rows
    change at most once, and a change of roles is a promotion. *)
Record ent_post (g g' : fts_globals) (i i' : info) : Prop := {
  ep_keys : keys i' ≡ₚ keys i;
  ep_stage : stage_of (state i) ≠ Probing → stage_of (state i') ≠ Probing;
  ep_done : stage_of (state i) ≠ Probing → agree_on (keys i) g g';
  ep_probing : stage_of (state i') = Probing → keys i' = keys i ∧ agree_on (keys i) g g';
  ep_roles : (∀ d, d ∈ keys i → same_role d g g') ∨
             ∃ p m, keys i = [p; m] ∧ promotion p m g g';
}.

Lemma agree_on_refl ds g : agree_on ds g g.
Proof. done. Qed.

Lemma agree_on_frame ds ds' g g' :
  frame ds g g' → (∀ d, d ∈ ds' → d ∉ ds) → agree_on ds' g g'.
Proof. intros Hf Hd d Hin. by apply Hf, Hd. Qed.

Lemma promotion_agree p m g0 g g' g1 :
  agree_on [p; m] g0 g → agree_on [p; m] g' g1 → promotion p m g g' → promotion p m g0 g1.
Proof.
  intros H0 H1 (rp & rm & rp' & rm' & Hrp & Hrm & Hrp' & Hrm' & Hx).
  assert (p ∈ [p; m]) by left. assert (m ∈ [p; m]) by (right; left).
  exists rp, rm, rp', rm'. rewrite <-(H0 p), <-(H0 m), (H1 p), (H1 m) by done.
  by do 4 (split; [done|]).
Qed.

Lemma same_role_agree ds d g0 g g' g1 :
  d ∈ ds → agree_on ds g0 g → agree_on ds g' g1 → same_role d g g' → same_role d g0 g1.
Proof. unfold same_role. intros Hd H0 H1. by rewrite (H0 d), (H1 d) by done. Qed.

(** changes elsewhere in the catalog do not matter *)
Lemma ent_post_agree g0 g g' g1 i i' :
  agree_on (keys i) g0 g → agree_on (keys i) g' g1 → ent_post g g' i i' → ent_post g0 g1 i i'.
Proof.
  intros H0 H1 [Hk Hs Hd Hp Hr]. constructor; try done.
  - intros Hst d Hin. by rewrite (H1 d), (Hd Hst d), (H0 d).
  - intros Hst. destruct (Hp Hst) as [? Ha]. split; [done|]. intros d Hin.
    by rewrite (H1 d), (Ha d), (H0 d).
  - destruct Hr as [Hr|(p & m & Hkk & Hpr)]; [left|right].
    + intros d Hin. eapply same_role_agree; eauto.
    + exists p, m. split; [done|]. rewrite Hkk in *. by eapply promotion_agree.
Qed.

Lemma ent_post_trans g g1 g2 i j k :
  ent_post g g1 i j → ent_post g1 g2 j k → ent_post g g2 i k.
Proof.
  intros H1 H2. destruct (decide (stage_of (state j) = Probing)) as [Hst|Hst].
  - destruct (ep_probing _ _ _ _ H1 Hst) as [Hk Ha]. rewrite <-Hk in Ha.
    apply (ent_post_agree g _ _ g2) in H2 as []; [|done..]. rewrite Hk in *.
    assert (stage_of (state i) = Probing) as Hi.
    { apply dec_stable. intros Hi. by apply (ep_stage _ _ _ _ H1). }
    constructor; rewrite ?Hi; done.
  - pose proof (ep_done _ _ _ _ H2 Hst) as Ha. pose proof (ep_stage _ _ _ _ H2 Hst) as Hk.
    assert (agree_on (keys i) g1 g2) as Ha'.
    { intros d Hd. apply Ha. by rewrite (ep_keys _ _ _ _ H1). }
    apply (ent_post_agree g _ _ g2) in H1 as []; [|done..].
    constructor; try done. etrans; [apply (ep_keys _ _ _ _ H2)|done].
Qed.

Lemma ent_post_refl g i : ent_post g g i i.
Proof. by constructor; auto using agree_on_refl; left. Qed.

Lemma keys_messaged i i' : messaged guc i i' → keys i' = keys i.
Proof. unfold keys. by intros (-> & -> & _). Qed.

Lemma ent_post_messaged g i i' : messaged guc i i' → ent_post g g i i'.
Proof.
  intros Hm. pose proof (keys_messaged _ _ Hm) as Hk. destruct Hm as (_ & _ & Hs & _).
  constructor; rewrite ?Hk, ?Hs; auto using agree_on_refl. by left.
Qed.

Lemma rows_post_ent i i' g upd g' :
  rows_post i i' g upd g' → keys i' ≡ₚ keys i → (stage_of (state i') = Probing → keys i' = keys i) →
  (stage_of (state i) ≠ Probing → stage_of (state i') ≠ Probing) → ent_post g g' i i'.
Proof.
  intros [H1 H2 H3 H4 H5 H6] Hk Hk' Hs.
  assert (Hsame : upd = false → agree_on (keys i) g g').
  { intros Hu d _. by rewrite H4. }
  constructor; try done.
  - intros Hst. apply Hsame. destruct upd; [|done]. by destruct (H5 eq_refl).
  - intros Hst. split; [by auto|]. apply Hsame. destruct upd; [|done].
    by destruct (H5 eq_refl).
  - destruct H6 as [?|(p & m & ? & ? & _)]; [by left|right; by exists p, m].
Qed.

Lemma segment_processed_keys hasmirrors i g u i' g' :
  segment_processed hasmirrors i g u i' g' →
  keys i' ≡ₚ keys i ∧ (stage_of (state i') = Probing → keys i' = keys i) ∧
  (stage_of (state i) ≠ Probing → stage_of (state i') ≠ Probing).
Proof.
  intros Hseg. pose proof (segment_processed_pair _ _ _ _ _ _ Hseg) as Hpair.
  split; [|split].
  - unfold keys. destruct Hpair as [(-> & ->)|(-> & -> & _)]; [done|].
    destruct (primary_cdbinfo i), (mirror_cdbinfo i); try done. constructor.
  - intros Hst. unfold keys. destruct Hpair as [(-> & ->)|(_ & _ & _ & Hs)]; [done|].
    by rewrite Hs in Hst.
  - destruct Hseg as [(_ & _ & -> & _)|(_ & p & j & _ & Hpr & ->)]; [done|].
    by destruct Hpr.
Qed.

Lemma segment_processed_rows i g upd i' g' :
  honest_responses → entry_ok guc true i → entry_rows i g → bms_wf (failedContentIds g) →
  segment_processed true i g upd i' g' → rows_post i i' g upd g' ∧ ent_post g g' i i'.
Proof.
  intros Hhon Hi Hr Hwf Hseg.
  destruct (segment_processed_keys _ _ _ _ _ _ Hseg) as (Hk & Hk' & Hs).
  assert (rows_post i i' g upd g') as Hrows; [|split; [done|by eapply rows_post_ent]].
  destruct Hseg as [(_ & -> & -> & ->)|(_ & p & j & Hp & Hpr & ->)].
  - by apply rows_post_same.
  - by eapply processes_rows.
Qed.

Definition all_keys (l : list info) : list Z := l ≫= keys.

(** some entry's row changed, and that entry is done with probing *)
Definition some_change (l l' : list info) (g g' : fts_globals) : Prop :=
  ∃ k i i' d, l !! k = Some i ∧ l' !! k = Some i' ∧ d ∈ keys i ∧
    gp_segment_configuration g' !! d ≠ gp_segment_configuration g !! d ∧
    stage_of (state i') ≠ Probing.

Record all_post (l : list info) (g : fts_globals) (upd : bool) (l' : list info)
    (g' : fts_globals) : Prop := {
  ap_rows : Forall (λ i, entry_rows i g') l';
  ap_ents : Forall2 (ent_post g g') l l';
  ap_keys : all_keys l' ≡ₚ all_keys l;
  ap_frame : frame (all_keys l) g g';
  ap_same : upd = false → gp_segment_configuration g' = gp_segment_configuration g;
  ap_changed : upd = true → some_change l l' g g';
}.

Lemma frame_disjoint i l g g1 :
  NoDup (keys i ++ all_keys l) → frame (keys i) g g1 → Forall (λ j, entry_rows j g) l →
  Forall (λ j, entry_rows j g1) l.
Proof.
  intros (_ & Hdis & _)%NoDup_app Hf. rewrite !Forall_forall. intros Hl j Hj.
  eapply entry_rows_frame; [done| |by apply Hl].
  intros d Hd Hi. apply (Hdis d Hi). apply list_elem_of_bind. by exists j.
Qed.

Lemma agree_on_disjoint ds ds' g g' :
  NoDup (ds ++ ds') → frame ds' g g' → agree_on ds g g'.
Proof. intros (_ & Hdis & _)%NoDup_app H d Hd. apply H. by apply Hdis. Qed.

Lemma processed_all_catalog l g u l' g' :
  honest_responses → processed_all true l g u l' g' →
  Forall (entry_ok guc true) l → bms_wf (failedContentIds g) →
  Forall (λ i, entry_rows i g) l → NoDup (all_keys l) → all_post l g u l' g'.
Proof.
  intros Hhon. induction 1 as [g|i l g u i' g1 u' l' g' Hseg _ IH]; intros Hok Hwf Hr Hnd.
  { by constructor. }
  inversion_clear Hok as [|?? Hi Hl]. inversion_clear Hr as [|?? Hri Hrl].
  change (all_keys (i :: l)) with (keys i ++ all_keys l) in Hnd.
  destruct (segment_processed_rows _ _ _ _ _ Hhon Hi Hri Hwf Hseg) as [[H1 H2 H3 H4 H5 _] Hent].
  destruct (segment_processed_ok _ _ _ _ _ _ _ Hi Hwf Hseg) as (_ & _ & Hk).
  pose proof (frame_disjoint _ _ _ _ Hnd H2 Hrl) as Hrl1.
  apply NoDup_app in Hnd as Hnd'. destruct Hnd' as (_ & Hdis & Hndl).
  destruct IH as [I1 I2 I3 I4 I5 I6]; [done|by apply (gk_failed _ _ Hk)|done..|].
  assert (Hag : agree_on (keys i) g1 g') by (by eapply agree_on_disjoint).
  assert (Hpre : ∀ j, j ∈ l → agree_on (keys j) g g1).
  { intros j Hj. eapply agree_on_frame; [done|]. intros d Hd Hdi. apply (Hdis d Hdi).
    apply list_elem_of_bind. by exists j. }
  constructor.
  - constructor; [|done]. eapply entry_rows_frame; [done| |done].
    intros d. rewrite (ep_keys _ _ _ _ Hent). apply Hdis.
  - constructor; [by eapply ent_post_agree|].
    apply Forall2_same_length_lookup in I2 as [Hlen I2].
    apply Forall2_same_length_lookup. split; [done|]. intros k j j' Hj Hj'.
    eapply ent_post_agree; [|done|by eapply I2]. eapply Hpre. by eapply list_elem_of_lookup_2.
  - simpl. by rewrite (ep_keys _ _ _ _ Hent), I3.
  - intros d Hd. simpl in Hd. rewrite not_elem_of_app in Hd. destruct Hd as [Hd1 Hd2].
    destruct (H2 d Hd1) as [<- <-]. by apply I4.
  - intros [Hu Hu']%orb_false_iff. by rewrite I5, H4.
  - intros Hu. destruct u.
    + destruct (H3 eq_refl) as (d & Hd & Hne). destruct (H5 eq_refl) as [_ Hst].
      exists 0%nat, i, i', d. by rewrite (Hag d).
    + destruct (I6 Hu) as (k & j & j' & d & Hj & Hj' & Hd & Hne & Hst).
      exists (S k), j, j', d. rewrite <-(Hpre j) by (done || by eapply list_elem_of_lookup_2).
      by split_and!.
Qed.

Lemma all_post_refl l g : Forall (λ i, entry_rows i g) l → all_post l g false l g.
Proof. intros Hl. constructor; try done. apply Forall_Forall2_diag, Forall_true, ent_post_refl. Qed.

Lemma ents_trans g g1 g2 l l1 l2 :
  Forall2 (ent_post g g1) l l1 → Forall2 (ent_post g1 g2) l1 l2 → Forall2 (ent_post g g2) l l2.
Proof.
  intros H. revert l2. induction H; intros l2 H2; inversion_clear H2; constructor;
    eauto using ent_post_trans.
Qed.

Lemma all_post_trans l g u l1 g1 u' l2 g2 :
  all_post l g u l1 g1 → all_post l1 g1 u' l2 g2 → all_post l g (u || u') l2 g2.
Proof.
  intros [H1 H2 H3 H4 H5 H6] [I1 I2 I3 I4 I5 I6]. constructor; try done.
  - by eapply ents_trans.
  - by rewrite I3, H3.
  - intros d Hd. destruct (H4 d Hd) as [<- <-]. apply I4. by rewrite H3.
  - intros [Hu Hu']%orb_false_iff. by rewrite I5, H5.
  - apply Forall2_same_length_lookup in H2 as [Hlen H2].
    apply Forall2_same_length_lookup in I2 as [Hlen' I2].
    intros Hu. destruct u; simpl in Hu.
    + destruct (H6 eq_refl) as (k & i & i1 & d & Hi & Hi1 & Hd & Hne & Hst).
      destruct (lookup_lt_is_Some_2 l2 k) as [i2 Hi2].
      { rewrite <-Hlen'. by eapply lookup_lt_Some. }
      pose proof (I2 _ _ _ Hi1 Hi2) as Hp. pose proof (H2 _ _ _ Hi Hi1) as Hp1.
      exists k, i, i2, d. rewrite (ep_done _ _ _ _ Hp Hst d).
      * split_and!; try done. by apply (ep_stage _ _ _ _ Hp).
      * by rewrite (ep_keys _ _ _ _ Hp1).
    + destruct (I6 Hu) as (k & i1 & i2 & d & Hi1 & Hi2 & Hd & Hne & Hst).
      destruct (lookup_lt_is_Some_2 l k) as [i Hi].
      { rewrite Hlen. by eapply lookup_lt_Some. }
      pose proof (H2 _ _ _ Hi Hi1) as Hp1. exists k, i, i2, d.
      rewrite <-(H5 eq_refl). split_and!; try done. by rewrite <-(ep_keys _ _ _ _ Hp1).
Qed.

Lemma messaged_all_post l l1 g :
  Forall2 (messaged guc) l l1 → Forall (λ i, entry_rows i g) l → all_post l g false l1 g.
Proof.
  intros Hm Hr. constructor; try done.
  - eapply (Forall2_Forall_r _ _ _ _ Hm). eapply Forall_impl; [exact Hr|].
    intros i Hi i' (? & ? & Hs & _). eapply entry_rows_eq; try done. by rewrite Hs.
  - eapply Forall2_impl; [exact Hm|]. by apply ent_post_messaged.
  - unfold all_keys. clear Hr. induction Hm as [|i i' l l1 Hi _ IH]; [done|]. simpl.
    by rewrite (keys_messaged _ _ Hi), IH.
Qed.

Lemma rounds_catalog context g u context' g' :
  honest_responses → rounds guc context g u context' g' → has_mirrors context = true →
  Forall (λ i, entry_rows i g) (entries context) → NoDup (all_keys (entries context)) →
  all_post (entries context) g u (entries context') g'.
Proof.
  intros Hhon.
  induction 1 as [|context g u context1 g1 u' context' g' Hok _ _ Hround _ IH]; intros Hm Hr Hnd.
  { by apply all_post_refl. }
  destruct Hround as (Hh & _ & l1 & Hms & Hok1 & _ & Hall). simpl in *. rewrite Hm in *.
  pose proof (messaged_all_post _ _ _ Hms Hr) as Hmp.
  assert (all_post (entries context) g u (entries context1) g1) as Hp1.
  { apply (all_post_trans _ _ false _ _ _ _ _ Hmp). apply processed_all_catalog; try done.
    - apply (co_failed _ _ _ Hok).
    - apply (ap_rows _ _ _ _ _ Hmp).
    - by rewrite (ap_keys _ _ _ _ _ Hmp). }
  eapply all_post_trans; [done|]. apply IH; [done|apply (ap_rows _ _ _ _ _ Hp1)|].
  by rewrite (ap_keys _ _ _ _ _ Hp1).
Qed.
End catalog.

(** ** Whole cycles *)

Lemma FtsGetPeerSegment_spec infos content db :
  match FtsGetPeerSegment infos content db with
  | Some m => m ∈ infos ∧ segindex m = content ∧ dbid m ≠ db
  | None => ∀ x, x ∈ infos → segindex x = content → dbid x = db
  end.
Proof.
  induction infos as [|y infos IH]; simpl.
  { by intros x ?%elem_of_nil. }
  destruct ((segindex y =? content) && negb (dbid y =? db)) eqn:Hy.
  - apply andb_true_iff in Hy as [?%Z.eqb_eq ?%negb_true_iff%Z.eqb_neq]. split_and!; try done. left.
  - destruct (FtsGetPeerSegment infos content db) as [m|].
    + destruct IH as (? & ? & ?). split_and!; try done. by right.
    + intros x [->|Hx]%elem_of_cons Hseg; [|by apply IH].
      apply andb_false_iff in Hy as [?%Z.eqb_neq|?%negb_false_iff%Z.eqb_eq]; [done|lia].
Qed.

Section cycle.
Context {W Conn : Type} `{LP : !Libpq W Conn} (guc : gucs).
Context (cdbs : CdbComponentDatabases) (Hwf : cdbs_wf cdbs).
Abbreviation info := (fts_segment_info Conn).
Abbreviation world := (fts_world W).
Abbreviation infos := (segment_db_info cdbs).

Lemma dbid_inj x y : x ∈ infos → y ∈ infos → dbid x = dbid y → x = y.
Proof. by apply NoDup_fmap_elem, (cw_dbid _ Hwf). Qed.

Lemma primary_inj p q :
  p ∈ primaries infos → q ∈ primaries infos → segindex p = segindex q → p = q.
Proof. by apply NoDup_fmap_elem, (cw_primary _ Hwf). Qed.

Lemma elem_of_primaries p :
  p ∈ primaries infos ↔ SEGMENT_IS_ACTIVE_PRIMARY p = true ∧ p ∈ infos.
Proof. unfold primaries. by rewrite list_elem_of_filter. Qed.

(** the two segments of a pair *)
Lemma peer_spec p m :
  p ∈ primaries infos → peer infos p = Some m →
  m ∈ infos ∧ segindex m = segindex p ∧ dbid m ≠ dbid p ∧ m ∉ primaries infos.
Proof.
  intros Hp Hm. unfold peer in Hm. pose proof (FtsGetPeerSegment_spec infos (segindex p) (dbid p)) as H.
  rewrite Hm in H. destruct H as (? & ? & Hne). split_and!; try done.
  intros Hm'. destruct Hne. f_equal. by apply primary_inj.
Qed.

Lemma keys_probe_entry p :
  keys (probe_entry (Conn := Conn) infos p) =
  match peer infos p with Some m => [dbid p; dbid m] | None => [] end.
Proof. done. Qed.

Lemma elem_of_keys p d :
  p ∈ primaries infos → d ∈ keys (probe_entry (Conn := Conn) infos p) →
  ∃ x, x ∈ infos ∧ dbid x = d ∧ segindex x = segindex p.
Proof.
  intros Hp. rewrite keys_probe_entry. destruct (peer infos p) as [m|] eqn:Hm.
  - destruct (peer_spec _ _ Hp Hm) as (Hin & Hseg & _).
    apply elem_of_primaries in Hp as [_ Hp].
    intros [->|[->|[]%elem_of_nil]%elem_of_cons]%elem_of_cons; eauto.
  - by intros []%elem_of_nil.
Qed.

Lemma NoDup_entries_keys ps :
  (∀ p, p ∈ ps → p ∈ primaries infos) → NoDup ps →
  NoDup (all_keys (probe_entry (Conn := Conn) infos <$> ps)).
Proof.
  intros Hsub Hnd. unfold all_keys. rewrite list_fmap_bind. apply NoDup_bind.
  - intros p q d Hp%Hsub Hq%Hsub Hd Hd'.
    apply elem_of_keys in Hd as (x & Hx & Hdx & Hsx); [|done].
    apply elem_of_keys in Hd' as (y & Hy & Hdy & Hsy); [|done].
    apply primary_inj; [done..|]. rewrite <-Hsx, <-Hsy. f_equal. apply dbid_inj; congruence.
  - intros p Hp%Hsub. simpl. rewrite keys_probe_entry.
    destruct (peer infos p) as [m|] eqn:Hm; [|constructor].
    destruct (peer_spec _ _ Hp Hm) as (_ & _ & Hne & _).
    apply NoDup_cons. rewrite list_elem_of_singleton. split; [done|apply NoDup_singleton].
  - done.
Qed.

Abbreviation probed := (probed_primaries infos (cluster_has_mirrors cdbs) infos).

Lemma elem_of_probed p :
  p ∈ probed ↔ to_probe infos (cluster_has_mirrors cdbs) p ∧ p ∈ primaries infos.
Proof. unfold probed_primaries. by rewrite list_elem_of_filter. Qed.

Lemma NoDup_probed : NoDup probed.
Proof. apply NoDup_filter. eapply NoDup_fmap_1, (cw_primary _ Hwf). Qed.

(** the configuration the cycle starts from: every segment has its row *)
Definition rows_present (g : fts_globals) : Prop :=
  ∀ x, x ∈ infos → is_Some (gp_segment_configuration g !! dbid x).

Lemma content_nonneg x : x ∈ infos → 0 ≤ segindex x.
Proof. intros Hx. by apply (proj1 (Forall_forall _ _) (cw_content _ Hwf)). Qed.

Lemma probe_entry_ok p :
  0 ≤ gp_fts_probe_retries guc → p ∈ probed →
  entry_ok guc (cluster_has_mirrors cdbs) (probe_entry (Conn := Conn) infos p) ∧
  resting (probe_entry (Conn := Conn) infos p).
Proof.
  intros Hret [Ht Hp]%elem_of_probed. split; [|done].
  assert (0 ≤ segindex p) by (apply content_nonneg; by apply elem_of_primaries).
  constructor; simpl; try done; [by eauto| |by left].
  intros Hm. destruct (Ht Hm) as [m Hpe]. exists m. split; [done|].
  apply content_nonneg. by eapply peer_spec.
Qed.

Lemma init_context_ok g :
  0 ≤ gp_fts_probe_retries guc → rows_present g → bms_wf (failedContentIds g) →
  ∃ context : fts_context Conn, FtsWalRepInitProbeContext cdbs = Ok context ∧
    has_mirrors context = cluster_has_mirrors cdbs ∧
    entries context = probe_entry infos <$> probed ∧ context_ok guc context g.
Proof.
  intros Hret Hrows Hfail. destruct (init_context (Conn := Conn) cdbs Hwf) as (context & ? & Hh & _ & He).
  exists context. split_and!; try done.
  constructor; rewrite ?Hh, ?He; try done; apply Forall_fmap, Forall_forall; intros p Hp.
  - by apply probe_entry_ok.
  - by apply probe_entry_ok.
  - apply elem_of_probed in Hp as [_ Hp]. apply elem_of_primaries in Hp as Hp'.
    destruct Hp' as [_ Hp']. split; simpl; [intros ? [= <-]; by apply Hrows|]. intros m Hm.
    apply Hrows. by eapply (peer_spec p).
Qed.

Lemma close_pairs n l (s : world) E :
  wp (each_pair n close_segment l)
    (λ l' s', globals s' = globals s ∧ Forall (λ i : info, conn i = None) (take n l')) E s.
Proof.
  revert l s. induction n as [|n IH]; intros l s; [by wp_steps|].
  destruct l as [|i l]; [by wp_steps|]. simpl. wp_step.
  apply wp_post with (λ i' s', globals s' = globals s ∧ conn i' = None).
  { unfold close_segment. destruct (conn i) eqn:Hc; by wp_steps. }
  intros i' s1 [Hg Hc]. wp_step. eapply wp_post; [apply IH|]. intros l' s2 [Hg2 Hl]. wp_steps.
  split; [congruence|]. by constructor.
Qed.

(** what a cycle that ends promises *)
Definition cycle_post (g : fts_globals) (u : bool) (context' : fts_context Conn)
    (g' : fts_globals) : Prop :=
  ∃ context context1,
    has_mirrors context = cluster_has_mirrors cdbs ∧
    entries context = probe_entry infos <$> probed ∧ context_ok guc context g ∧
    rounds guc context g u context1 g' ∧
    Forall (λ i, conn i = None) (entries context') ∧
    (skip_fts_probe g' = false → context' = context1 ∧ allDone context1 = true).

Lemma allDone_processed (context : fts_context Conn) :
  allDone context = true → Forall (λ i, state i = FTS_RESPONSE_PROCESSED) (entries context).
Proof.
  unfold allDone. intros H%Is_true_eq_left%forallb_True. eapply Forall_impl; [exact H|].
  by intros i ?%bool_decide_unpack.
Qed.

Lemma message_segments_spec fuel (s : world) :
  0 ≤ gp_fts_probe_retries guc → rows_present (globals s) →
  bms_wf (failedContentIds (globals s)) →
  wp (FtsWalRepMessageSegments guc fuel cdbs)
    (λ r s', match r with
             | None => True
             | Some (u, context') => cycle_post (globals s) u context' (globals s')
             end) (env_fault guc (cluster_has_mirrors cdbs)) s.
Proof.
  intros Hret Hrows Hfail. unfold FtsWalRepMessageSegments.
  destruct (init_context_ok (globals s)) as (context & Hinit & Hh & He & Hok); [done..|].
  wp_step. eapply wp_of_res; [done|]. wp_step.
  eapply wp_mono; [by apply probe_loop_spec| |by rewrite Hh].
  intros [[u c1]|] s1; [|by intros _; wp_steps]. intros (u' & Hr & -> & Hend).
  destruct (rounds_ok _ _ _ _ _ _ Hr Hok) as (Hok1 & _ & Hh1 & _).
  unfold FtsIsActive. do 4 wp_step. rewrite negb_involutive.
  destruct (skip_fts_probe (globals s1)) eqn:Hskip.
  - unfold for_each_pair. do 2 wp_step. eapply wp_post; [apply close_pairs|].
    intros l' s2 [Hg Hl]. wp_steps. exists context, c1. rewrite Hg. split_and!; try done.
    by rewrite Hskip.
  - wp_steps. exists context, c1. destruct Hend as [Hend|]; [|congruence].
    split_and!; try done. pose proof (allDone_processed _ Hend) as Hdone.
    pose proof (co_entries _ _ _ Hok1) as Hent. rewrite Forall_forall in *.
    intros i Hi. apply (eo_idle _ _ _ (Hent i Hi)). by rewrite (Hdone i Hi).
Qed.
End cycle.
