(* ===== verification/FtsProbeTheorems.v ===== *)
(** * Theorems about the FTS prober

    The properties of [ftsprobe.c] for every libpq environment, each with a run in
    a concrete environment that shows its hypotheses can hold. *)

From S2P Require Import Prelude Bitmapset BitmapsetFacts CLib FtsConfig Libpq FtsProbe.
From S2P Require Import FtsProbeSafety FtsProbeCycle.

(** ** A concrete environment

    Every connection has the status [st] from the start, every socket is always
    ready and every message is answered with [resp] (never completely, if [busy]);
    the state is the clock, which moves by one second per reading. *)
Section scripted.
Context (st : ConnStatusType) (busy : bool) (resp : PGresult).

Definition scripted : Libpq Z unit := {|
  PQconnectStart _ w := (Some tt, w);
  PQstatus _ _ := st;
  PQasyncStatus _ _ := PGASYNC_IDLE;
  PQerrorMessage _ _ := EmptyString;
  PQsocket _ _ := 3;
  PQconnectPoll _ w := (PGRES_POLLING_OK, w);
  PQsendQuery _ _ w := (true, w);
  PQconsumeInput _ w := (true, w);
  PQisBusy _ w := (busy, w);
  PQgetResult _ w := (Some resp, w);
  PQfinish _ w := w;
  sys_poll fds w := (mkPollAnswer (Z.of_nat (length fds)) false (pfd_events <$> fds), w);
  sys_time w := (w, w + 1);
  gettext s := s;
|}.
End scripted.

(** a response with the given flags *)
Definition response (mirror_up in_sync syncrep role_mirror retry : bool) : PGresult :=
  mkPGresult PGRES_TUPLES_OK 1 5
    (λ _ col, Z.b2z (nth (Z.to_nat col) [mirror_up; in_sync; syncrep; role_mirror; retry] false)).

(** one content with its primary (dbid 2) and its mirror (dbid 3), in sync *)
Definition demo_primary : GpSegConfigEntry :=
  mkSeg 2 0 ROLE_PRIMARY ROLE_PRIMARY MODE_INSYNC STATUS_UP 6000 "h1" "h1" "/d" (Some "10.0.0.1").
Definition demo_mirror : GpSegConfigEntry :=
  mkSeg 3 0 ROLE_MIRROR ROLE_MIRROR MODE_INSYNC STATUS_UP 6001 "h2" "h2" "/d" (Some "10.0.0.2").
Definition demo_cdbs : CdbComponentDatabases := mkCdbs [demo_primary; demo_mirror] 1.
Definition demo_globals : fts_globals :=
  mkGlobals {[2 := demo_primary; 3 := demo_mirror]} [] (mkProbeInfo 1 ∅ 0 0) None [] false.
Definition demo_gucs : gucs := mkGucs 2 20 true true true.
Definition demo_world : fts_world Z := mkWorld 100 demo_globals.

(** ** The cluster before a cycle *)

(** The configuration is well-formed, the copy the cycle works with is current, and
    the shared status says what the catalog says. *)
Record cluster_ok (cdbs : CdbComponentDatabases) (g : fts_globals) : Prop := {
  cl_wf : cdbs_wf cdbs;
  cl_failed : bms_wf (failedContentIds g);
  cl_rows : ∀ x, x ∈ segment_db_info cdbs →
    ∃ r, gp_segment_configuration g !! dbid x = Some r ∧ agrees r x;
  cl_pairs : ∀ p m, p ∈ primaries (segment_db_info cdbs) →
    peer (segment_db_info cdbs) p = Some m → pair_ok p m;
  cl_status : ∀ x, x ∈ segment_db_info cdbs → status_ok g (dbid x);
}.

(** one of the two segments is the acting primary of a well-formed pair *)
Definition pair_in_catalog (g : fts_globals) (d1 d2 : Z) : Prop :=
  ∃ r1 r2, gp_segment_configuration g !! d1 = Some r1 ∧
    gp_segment_configuration g !! d2 = Some r2 ∧
    (pair_ok r1 r2 ∨ pair_ok r2 r1) ∧ status_ok g d1 ∧ status_ok g d2.

Lemma cluster_ok_rows cdbs g : cluster_ok cdbs g → rows_present cdbs g.
Proof. intros [_ _ Hr _ _] x Hx. destruct (Hr x Hx) as (r & -> & _). done. Qed.

Lemma pair_ok_agrees p m rp rm : pair_ok p m → agrees rp p → agrees rm m → pair_ok rp rm.
Proof.
  unfold pair_ok, row_is, agrees. intros (ma & sy & H) (-> & -> & ->) (-> & -> & ->). by exists ma, sy.
Qed.

Lemma peer_probed cdbs p m :
  p ∈ primaries (segment_db_info cdbs) → peer (segment_db_info cdbs) p = Some m →
  p ∈ probed_primaries (segment_db_info cdbs) (cluster_has_mirrors cdbs) (segment_db_info cdbs).
Proof. intros Hp Hm. apply elem_of_probed. split; [|done]. intros _. by rewrite Hm. Qed.

Lemma entry_rows_pair {Conn} (i : fts_segment_info Conn) g d1 d2 :
  entry_rows i g → keys i ≡ₚ [d1; d2] → pair_in_catalog g d1 d2.
Proof.
  intros (p & m & rp & rm & Hp & Hm & Hne & Hrp & Hrm & Hok & Hsp & Hsm & _) Hk.
  unfold keys in Hk. rewrite Hp, Hm in Hk.
  apply Permutation_length_2_inv in Hk as [[= -> ->]|[= -> ->]].
  - exists rp, rm. split_and!; auto.
  - exists rm, rp. split_and!; auto.
Qed.

Section cluster.
Context {W Conn : Type} `{LP : !Libpq W Conn} (guc : gucs).
Context (cdbs : CdbComponentDatabases).

Lemma cluster_entry_rows g p :
  cluster_ok cdbs g → cluster_has_mirrors cdbs = true →
  p ∈ probed_primaries (segment_db_info cdbs) (cluster_has_mirrors cdbs) (segment_db_info cdbs) →
  entry_rows (probe_entry (Conn := Conn) (segment_db_info cdbs) p) g.
Proof.
  intros [Hwf _ Hr Hp Hs] Hm Hpr. apply elem_of_probed in Hpr as [Ht Hprim].
  destruct (Ht Hm) as [m Hpe]. destruct (peer_spec _ Hwf _ _ Hprim Hpe) as (Hin & _ & Hne & _).
  pose proof (proj1 (elem_of_primaries _ _) Hprim) as [_ Hpin].
  destruct (Hr p Hpin) as (rp & Hrp & Hap). destruct (Hr m Hin) as (rm & Hrm & Ham).
  exists p, m, rp, rm. split_and!; try done; [|by apply Hs..].
  eapply pair_ok_agrees; [|done..]. by eapply Hp.
Qed.

(** what a finished cycle does to the entries and their rows *)
Lemma cycle_catalog g u context' g' :
  honest_responses → cluster_ok cdbs g → cluster_has_mirrors cdbs = true →
  cycle_post guc cdbs g u context' g' →
  ∃ l', all_post (probe_entry (Conn := Conn) (segment_db_info cdbs) <$>
    probed_primaries (segment_db_info cdbs) (cluster_has_mirrors cdbs) (segment_db_info cdbs))
    g u l' g'.
Proof.
  intros Hhon Hcl Hm (context & context1 & Hh & He & Hok & Hr & _ & _).
  exists (entries context1). rewrite <-He.
  eapply rounds_catalog; try done; [congruence|..]; rewrite He.
  - apply Forall_fmap, Forall_forall. intros p Hp. by apply cluster_entry_rows.
  - apply NoDup_entries_keys; [apply (cl_wf _ _ Hcl)| |apply NoDup_probed, (cl_wf _ _ Hcl)].
    intros p Hp. by apply elem_of_probed in Hp as [_ ?].
Qed.

(** the pairs after a finished cycle, and when it reports an update *)
Lemma cycle_pairs g u context' g' :
  honest_responses → cluster_ok cdbs g → cluster_has_mirrors cdbs = true →
  cycle_post (Conn := Conn) guc cdbs g u context' g' →
  (∀ p m, p ∈ primaries (segment_db_info cdbs) → peer (segment_db_info cdbs) p = Some m →
     pair_in_catalog g' (dbid p) (dbid m)) ∧
  (u = true ↔ gp_segment_configuration g' ≠ gp_segment_configuration g).
Proof.
  intros Hhon Hcl Hm Hrun. destruct (cycle_catalog _ _ _ _ Hhon Hcl Hm Hrun) as (l' & Hall). split.
  - intros p m Hp Hpe. pose proof (peer_probed _ _ _ Hp Hpe) as Hin.
    eapply list_elem_of_fmap_2, list_elem_of_lookup in Hin as [k Hk].
    destruct (Forall2_lookup_l _ _ _ _ _ (ap_ents _ _ _ _ _ Hall) Hk) as (i' & Hi' & Hent).
    eapply entry_rows_pair.
    + eapply (Forall_lookup_1 _ _ _ _ (ap_rows _ _ _ _ _ Hall) Hi').
    + rewrite (ep_keys _ _ _ _ Hent), keys_probe_entry, Hpe. done.
  - split.
    + intros Hu Heq. destruct (ap_changed _ _ _ _ _ Hall Hu) as (k & i & i' & d & _ & _ & _ & Hne & _).
      by rewrite Heq in Hne.
    + intros Hne. destruct u; [done|]. by destruct Hne, (ap_same _ _ _ _ _ Hall).
Qed.
End cluster.

(** ** Safety *)


Lemma demo_wf : cdbs_wf demo_cdbs.
Proof.
  constructor; [| |apply NoDup_singleton|done].
  - by apply (bool_decide_unpack (NoDup [2; 3])).
  - repeat constructor; done.
Qed.

Lemma demo_rows : rows_present demo_cdbs demo_globals.
Proof.
  intros x [->|[->|[]%elem_of_nil]%elem_of_cons]%elem_of_cons; eexists; vm_compute; reflexivity.
Qed.


(** ** The catalog *)

(** C10: A probe cycle keeps the configuration well-formed.  For every content with a
    mirror, exactly one of its two segments is the acting primary, it is up, both
    have the same mode and are in sync only if both are up; and the shared status
    the dispatcher reads agrees with the catalog.  The cycle reports an update
    exactly when it changed gp_segment_configuration.  (Segments that answer report
    the mirror in sync only when it is up.) *)
Theorem probe_cycle_catalog {W Conn} `{LP : !Libpq W Conn} guc cdbs fuel (s : fts_world W)
    u context s' :
  honest_responses (Conn := Conn) → cluster_ok cdbs (globals s) →
  cluster_has_mirrors cdbs = true → 0 ≤ gp_fts_probe_retries guc →
  FtsWalRepMessageSegments (Conn := Conn) guc fuel cdbs s = Ok (Some (u, context), s') →
  (∀ p m, p ∈ primaries (segment_db_info cdbs) → peer (segment_db_info cdbs) p = Some m →
     pair_in_catalog (globals s') (dbid p) (dbid m)) ∧
  (u = true ↔ gp_segment_configuration (globals s') ≠ gp_segment_configuration (globals s)).
Proof.
  intros Hhon Hcl Hm Hret Hrun.
  eapply wp_Ok in Hrun; [|by apply message_segments_spec; [apply Hcl|done|apply cluster_ok_rows|apply Hcl]].
  exact (cycle_pairs guc cdbs (globals s) u context (globals s') Hhon Hcl Hm Hrun).
Qed.

Lemma demo_cluster : cluster_ok demo_cdbs demo_globals.
Proof.
  constructor; [exact demo_wf|exact I|..].
  - intros x [->|[->|[]%elem_of_nil]%elem_of_cons]%elem_of_cons;
      eexists; (split; [vm_compute; reflexivity|done]).
  - intros p m [Hp [->|[->|[]%elem_of_nil]%elem_of_cons]%elem_of_cons]%list_elem_of_filter;
      [|done]. intros [= <-]. by exists true, true.
  - intros x [->|[->|[]%elem_of_nil]%elem_of_cons]%elem_of_cons r; vm_compute; by intros [= <-].
Qed.

Lemma scripted_honest st busy resp :
  (response_flag resp Anum_fts_message_response_is_in_sync = true →
   response_flag resp Anum_fts_message_response_is_mirror_up = true) →
  @honest_responses Z unit (scripted st busy resp).
Proof. by intros H c w r w' [= <- <-]. Qed.

(** the mirror is reported down: it is marked down and the primary is told *)
Lemma probe_cycle_catalog_witness :
  match FtsWalRepMessageSegments
          (LP := scripted CONNECTION_OK false (response false false true false false))
          demo_gucs 20 demo_cdbs demo_world with
  | Ok (Some (u, context), s') => u = true ∧ pair_in_catalog (globals s') 2 3
  | _ => False
  end.
Proof.
  pose proof (@probe_cycle_catalog Z unit
    (scripted CONNECTION_OK false (response false false true false false))
    demo_gucs demo_cdbs 20 demo_world) as H.
  remember (FtsWalRepMessageSegments _ _ _ _) as r eqn:Hr. vm_compute in Hr. subst r.
  split; [reflexivity|].
  refine (proj1 (H _ _ _ (scripted_honest _ _ _ _) demo_cluster eq_refl _ eq_refl)
            demo_primary demo_mirror _ eq_refl); [done..|].
  apply list_elem_of_filter. split; [done|left].
Defined.

(** C11: Roles change only by promotion, and only when it is safe: if a probe cycle
    changes the role of any segment, that segment belongs to a pair whose two
    segments were both up and in sync before the cycle; afterwards the old primary is
    a mirror, down and not in sync, and the old mirror the primary, up and not in
    sync. *)
Theorem probe_cycle_promotion {W Conn} `{LP : !Libpq W Conn} guc cdbs fuel (s : fts_world W)
    u context s' d :
  honest_responses (Conn := Conn) → cluster_ok cdbs (globals s) →
  cluster_has_mirrors cdbs = true → 0 ≤ gp_fts_probe_retries guc →
  FtsWalRepMessageSegments (Conn := Conn) guc fuel cdbs s = Ok (Some (u, context), s') →
  ¬ same_role d (globals s) (globals s') →
  ∃ p m, p ∈ primaries (segment_db_info cdbs) ∧ peer (segment_db_info cdbs) p = Some m ∧
    (d = dbid p ∨ d = dbid m) ∧ promotion (dbid p) (dbid m) (globals s) (globals s').
Proof.
  intros Hhon Hcl Hm Hret Hrun Hrole.
  eapply wp_Ok in Hrun; [|by apply message_segments_spec; [apply Hcl|done|apply cluster_ok_rows|apply Hcl]].
  destruct (cycle_catalog _ _ _ _ _ _ Hhon Hcl Hm Hrun) as (l' & Hall).
  set (l := probe_entry (Conn := Conn) (segment_db_info cdbs) <$> _) in Hall.
  destruct (decide (d ∈ all_keys l)) as [Hd|Hd].
  2:{ destruct Hrole. unfold same_role. by destruct (ap_frame _ _ _ _ _ Hall d Hd) as [-> _]. }
  apply list_elem_of_bind in Hd as (i & Hd & Hi). apply list_elem_of_lookup in Hi as [k Hk].
  destruct (Forall2_lookup_l _ _ _ _ _ (ap_ents _ _ _ _ _ Hall) Hk) as (i' & Hi' & Hent).
  apply list_elem_of_lookup_2, list_elem_of_fmap in Hk as (p & -> & Hp).
  apply elem_of_probed in Hp as [Ht Hp]. destruct (Ht Hm) as [m Hpe].
  rewrite keys_probe_entry, Hpe in Hd. destruct (ep_roles _ _ _ _ Hent) as [Hs|(p' & m' & Hk & Hpr)].
  { destruct Hrole. apply Hs. by rewrite keys_probe_entry, Hpe. }
  rewrite keys_probe_entry, Hpe in Hk. injection Hk as <- <-.
  exists p, m. split_and!; try done. apply elem_of_cons in Hd as [Hd|Hd%list_elem_of_singleton]; auto.
Qed.

(** the primary does not answer: the mirror is promoted *)
Lemma probe_cycle_promotion_witness :
  match FtsWalRepMessageSegments
          (LP := scripted CONNECTION_BAD false (response false false false false false))
          demo_gucs 20 demo_cdbs demo_world with
  | Ok (Some (u, context), s') => ∃ p m, promotion (dbid p) (dbid m) demo_globals (globals s') ∧
      (3 = dbid p ∨ 3 = dbid m)
  | _ => False
  end.
Proof.
  pose proof (λ u c s', @probe_cycle_promotion Z unit
    (scripted CONNECTION_BAD false (response false false false false false))
    demo_gucs demo_cdbs 20 demo_world u c s' 3) as H.
  remember (FtsWalRepMessageSegments _ _ _ _) as r eqn:Hr. vm_compute in Hr. subst r.
  destruct (H _ _ _ (scripted_honest _ _ (response false false false false false) ltac:(done))
              demo_cluster eq_refl ltac:(done) eq_refl ltac:(by vm_compute))
    as (p & m & _ & _ & Hd & Hpr).
  exists p, m. exact (conj Hpr Hd).
Defined.

(** ** Rounds *)

(** C14: One round of the six steps refines its abstract description, in every
    environment: each exchange moves forward within its stage (probe, turn syncrep
    off, promote), every failure that reaches processResponse has used up
    gp_fts_probe_retries, and each response is then processed by one of the decisions
    of [processes], in the order of the entries. *)
Theorem probe_round_refines {W Conn} `{LP : !Libpq W Conn} guc (context : fts_context Conn)
    (s : fts_world W) :
  skip_fts_probe (globals s) = false → context_ok guc context (globals s) →
  match probe_round guc context s with
  | Ok (r, s') => round_post guc context (globals s) r (globals s') ∧
                  context_ok guc r.2 (globals s')
  | Err e => env_fault guc (has_mirrors context) e
  end.
Proof.
  intros Hskip Hok. pose proof (probe_round_spec guc context s Hskip Hok) as H. unfold wp in H.
  destruct (probe_round guc context s) as [[r s']|e]; [|done].
  split; [done|]. by apply (round_post_ok _ _ _ _ _ Hok).
Qed.

Definition demo_context : fts_context unit :=
  mkContext true 1 [probe_entry [demo_primary; demo_mirror] demo_primary].

Lemma demo_context_ok (LP : Libpq Z unit) : context_ok demo_gucs demo_context demo_globals.
Proof.
  constructor; [..|done]; (constructor; [|constructor]).
  - constructor; simpl; try done; try lia; [by exists demo_primary|].
    intros _. by exists demo_mirror.
  - done.
  - split; intros x [= <-]; eexists; vm_compute; reflexivity.
Qed.

Lemma probe_round_refines_witness :
  match probe_round (LP := scripted CONNECTION_OK false (response true true true false false))
          demo_gucs demo_context demo_world with
  | Ok (r, s') => bms_wf (failedContentIds (globals s'))
  | Err _ => False
  end.
Proof.
  pose proof (@probe_round_refines Z unit
    (scripted CONNECTION_OK false (response true true true false false))
    demo_gucs demo_context demo_world eq_refl (demo_context_ok _)) as H.
  destruct (probe_round _ _ _) as [[r s']|e] eqn:Hr; [apply (co_failed _ _ _ (proj2 H))|].
  vm_compute in Hr. discriminate Hr.
Defined.

Definition total_measure {Conn} (guc : gucs) (l : list (fts_segment_info Conn)) : Z :=
  foldr Z.add 0 (measure guc <$> l).

Lemma total_measure_progress {Conn} guc (l l' : list (fts_segment_info Conn)) :
  Forall2 (progress guc) l l' →
  total_measure guc l' ≤ total_measure guc l ∧
  (((λ i, (state i, retry_count i)) <$> l') = ((λ i, (state i, retry_count i)) <$> l) ∨
   total_measure guc l' < total_measure guc l).
Proof.
  unfold total_measure. induction 1 as [|i i' l l' Hp _ [IH1 IH2]]; [split; [done|by left]|].
  rewrite !fmap_cons; cbn [foldr].
  pose proof (progress_measure _ _ _ Hp). split; [lia|]. destruct IH2 as [->|?]; [|right; lia].
  destruct Hp as [[-> ->]|?]; [by left|right; lia].
Qed.

Lemma measure_bounds {Conn} guc hasmirrors (i : fts_segment_info Conn) `{!Libpq W Conn} :
  entry_ok guc hasmirrors i → 0 ≤ measure guc i ≤ 12 * gp_fts_probe_retries guc + 11.
Proof.
  intros Hi. pose proof (eo_retry _ _ _ Hi). unfold measure.
  assert (0 ≤ rank (state i) ≤ 3) by (by destruct (state i)).
  assert (0 ≤ stage_rank (stage_of (state i)) ≤ 2) by (by destruct (stage_of (state i))). nia.
Qed.

(** C15: A round either leaves the state and the retry count of every entry alone or
    strictly decreases a measure that is never negative and at most
    12 * gp_fts_probe_retries + 11 per entry: a cycle makes a bounded number of state
    transitions, whatever the environment does. *)
Theorem probe_round_progress {W Conn} `{LP : !Libpq W Conn} guc (context : fts_context Conn)
    (s : fts_world W) u context' s' :
  skip_fts_probe (globals s) = false → context_ok guc context (globals s) →
  probe_round guc context s = Ok ((u, context'), s') →
  0 ≤ total_measure guc (entries context') ∧
  total_measure guc (entries context) ≤
    (12 * gp_fts_probe_retries guc + 11) * Z.of_nat (length (entries context)) ∧
  (((λ i, (state i, retry_count i)) <$> entries context') =
     ((λ i, (state i, retry_count i)) <$> entries context) ∨
   total_measure guc (entries context') < total_measure guc (entries context)).
Proof.
  intros Hskip Hok Hrun. pose proof (probe_round_spec guc context s Hskip Hok) as H.
  eapply wp_Ok in Hrun; [|exact H]. destruct (round_post_ok _ _ _ _ _ Hok Hrun) as [Hok' _].
  assert (Hb : ∀ (c : fts_context Conn) g, context_ok guc c g →
    0 ≤ total_measure guc (entries c) ≤
    (12 * gp_fts_probe_retries guc + 11) * Z.of_nat (length (entries c))).
  { intros c g Hc. pose proof (co_entries _ _ _ Hc) as He. unfold total_measure.
    induction He as [|i l Hi _ IH]; [simpl; lia|]. rewrite fmap_cons, length_cons. cbn [foldr].
    pose proof (measure_bounds _ _ _ Hi). lia. }
  split_and!; [by apply (Hb _ _ Hok')|by apply (Hb _ _ Hok)|].
  by apply total_measure_progress, (round_post_progress _ _ _ _ _ Hrun).
Qed.

Lemma probe_round_progress_witness :
  match probe_round (LP := scripted CONNECTION_OK false (response true true true false false))
          demo_gucs demo_context demo_world with
  | Ok ((_, context'), _) => 0 ≤ total_measure demo_gucs (entries context')
  | Err _ => False
  end.
Proof.
  pose proof (λ u c s', @probe_round_progress Z unit
    (scripted CONNECTION_OK false (response true true true false false))
    demo_gucs demo_context demo_world u c s' eq_refl (demo_context_ok _)) as H.
  destruct (probe_round _ _ _) as [[[u c'] s']|e] eqn:Hr.
  - exact (proj1 (H u c' s' eq_refl)).
  - vm_compute in Hr. discriminate Hr.
Defined.

(** The context of a cycle has one entry per acting primary that is to be probed
    (all of them in a cluster without mirrors, those with a mirror otherwise), in the
    order of the configuration, each with its peer and a fresh exchange; the array
    is never overrun and no entry is left without its primary. *)
Theorem init_context_spec {Conn} cdbs :
  cdbs_wf cdbs →
  let infos := segment_db_info cdbs in
  let hasmirrors := cluster_has_mirrors cdbs in
  ∃ context : fts_context Conn, FtsWalRepInitProbeContext cdbs = Ok context ∧
    has_mirrors context = hasmirrors ∧
    num_pairs context = length (probed_primaries infos hasmirrors infos) ∧
    entries context = probe_entry infos <$> probed_primaries infos hasmirrors infos ∧
    (∀ p, p ∈ infos → SEGMENT_IS_ACTIVE_PRIMARY p = true →
       hasmirrors = false ∨ is_Some (peer infos p) →
       ∃ i, i ∈ entries context ∧ primary_cdbinfo i = Some p ∧
            mirror_cdbinfo i = peer infos p ∧ state i = FTS_PROBE_SEGMENT).
Proof.
  intros Hwf infos hasmirrors. destruct (init_context (Conn := Conn) cdbs Hwf) as (context & Hi & Hh & Hn & He).
  exists context. split_and!; try done. intros p Hp Hprim Hor.
  exists (probe_entry infos p). split_and!; try done. rewrite He.
  apply list_elem_of_fmap_2, elem_of_probed. split; [|by apply elem_of_primaries].
  intros Hm. destruct Hor as [Hor|?]; [|done]. subst hasmirrors. congruence.
Qed.

Lemma init_context_spec_witness :
  cluster_has_mirrors demo_cdbs = true ∧
  ∃ context : fts_context unit, FtsWalRepInitProbeContext demo_cdbs = Ok context ∧
    num_pairs context = 1%nat.
Proof.
  split; [reflexivity|].
  destruct (init_context_spec (Conn := unit) demo_cdbs demo_wf) as (context & Hi & _ & Hn & _).
  exists context. split; [exact Hi|exact Hn].
Defined.

(** ** Polling *)

(** a loop over the entries, entry by entry *)
Lemma each_pair_rel {W Conn} (pre : fts_segment_info Conn → Prop)
    (R : fts_segment_info Conn → fts_segment_info Conn → Prop) n body l (s : fts_world W) E :
  (∀ i, pre i → wp (body i) (λ i' s', R i i' ∧ s' = s) E s) → Forall pre (take n l) →
  wp (each_pair n body l)
    (λ l2 s', ∃ l1, l2 = l1 ++ drop n l ∧ Forall2 R (take n l) l1 ∧ s' = s) E s.
Proof.
  intros Hbody. revert l. induction n as [|n IH]; intros l Hpre.
  { wp_steps. by exists []. }
  destruct l as [|i l]; [wp_steps; by exists []|]. simpl in *. inversion_clear Hpre. wp_step.
  eapply wp_post; [by apply Hbody|]. intros i' s1 (? & ->). wp_step.
  eapply wp_post; [by apply IH|]. intros l2 s2 (l1 & -> & ? & ->). wp_steps.
  exists (i' :: l1). split_and!; auto.
Qed.

Section poll.
Context {W Conn : Type} `{LP : !Libpq W Conn} (guc : gucs).

(** the connection was started more than gp_fts_probe_timeout seconds ago *)
Definition timed_out (now : Z) (i : fts_segment_info Conn) : Prop :=
  gp_fts_probe_timeout guc < int32_of (now - startTime i).

(** what ftsPoll does to an entry, given poll()'s answer and the time *)
Definition polled_post (ans : poll_answer) (now : Z) (i i' : fts_segment_info Conn) : Prop :=
  if polled i then
    let rev := default 0 (revents ans !! Z.to_nat (fd_index i)) in
    poll_revents i' = rev ∧
    poll_events i' = (if any_bits rev (poll_events i) then 0 else poll_events i) ∧
    (IsFtsMessageStateFailed (state i') = true ↔
     IsFtsMessageStateFailed (state i) = true ∨ timed_out now i ∨
     (any_bits rev (poll_events i) = false ∧ rev ≠ 0))
  else i' = i.

Lemma nextFailedState_failed st :
  idle st = false → IsFtsMessageStateSuccess st = false →
  ∃ st', nextFailedState (W := W) st = mret st' ∧ IsFtsMessageStateFailed st' = true ∧
         idle st' = false ∧ IsFtsMessageStateSuccess st' = false.
Proof.
  intros Hi Hs. destruct (nextFailedState_pending (W := W) st Hi Hs) as (st' & ? & _ & ? & ? & ?).
  by exists st'.
Qed.

Lemma ftsCheckTimeout_post i now (s : fts_world W) E :
  IsFtsMessageStateSuccess (state i) = false → idle (state i) = false →
  wp (ftsCheckTimeout guc i now) (λ i' s', s' = s ∧
    poll_revents i' = poll_revents i ∧ poll_events i' = poll_events i ∧
    (IsFtsMessageStateFailed (state i') = true ↔
     IsFtsMessageStateFailed (state i) = true ∨ timed_out now i)) E s.
Proof.
  intros Hs Hi. unfold ftsCheckTimeout, timed_out. rewrite Hs. cbn [negb andb].
  destruct (Z.ltb_spec (gp_fts_probe_timeout guc) (int32_of (now - startTime i))) as [Hlt|Hge].
  - unfold fail_state. simpl. destruct (nextFailedState_failed _ Hi Hs) as (st' & -> & Hf & _ & _).
    wp_steps. split_and!; try done; simpl. split; [by right|done].
  - wp_steps. split_and!; try done. split; [by left|]. intros [?|?]; [done|lia].
Qed.

Lemma record_poll_post ans now hasmirrors i (s : fts_world W) E :
  entry_ok guc hasmirrors i → IsFtsMessageStateSuccess (state i) = false →
  wp (record_poll guc ans now i) (λ i' s', polled_post ans now i i' ∧ s' = s) E s.
Proof.
  intros Hok Hs. unfold record_poll, polled_post.
  destruct (polled i) eqn:Hpol; [|by wp_steps].
  destruct (polled_open _ _ _ Hok Hpol) as [[c Hc] Hidle].
  set (rev := default 0 _). cbn zeta. set (j := set_poll_revents rev i).
  apply wp_seq with (R := λ k s', s' = s ∧ IsFtsMessageStateSuccess (state k) = false ∧
    idle (state k) = false ∧ startTime k = startTime i ∧ poll_revents k = rev ∧
    poll_events k = (if any_bits rev (poll_events i) then 0 else poll_events i) ∧
    (IsFtsMessageStateFailed (state k) = true ↔
     IsFtsMessageStateFailed (state i) = true ∨
     (any_bits rev (poll_events i) = false ∧ rev ≠ 0))).
  - simpl. destruct (any_bits rev (poll_events i)) eqn:Hb.
    { wp_steps. split_and!; try done. split; [by left|]. by intros [?|[? _]]. }
    destruct (nextFailedState_failed _ Hidle Hs) as (st' & Hn & Hf & Hi' & Hs').
    assert (Hfail : rev ≠ 0 → wp (ftsInfo ← fail_state j;
      _ ← log_conn_status (log_emits_LOG guc) (conn ftsInfo); mret ftsInfo)
      (λ k s', s' = s ∧ IsFtsMessageStateSuccess (state k) = false ∧
        idle (state k) = false ∧ startTime k = startTime i ∧ poll_revents k = rev ∧
        poll_events k = poll_events i ∧
        (IsFtsMessageStateFailed (state k) = true ↔
         IsFtsMessageStateFailed (state i) = true ∨ (false = false ∧ rev ≠ 0))) E s).
    { intros Hr. unfold fail_state. simpl. rewrite Hn. wp_steps. unfold log_conn_status. simpl.
      rewrite Hc. wp_steps; split_and!; try done; (split; [by right|done]). }
    destruct (any_bits rev (Z.lor POLLHUP POLLERR)) eqn:Hh.
    + apply Hfail. intros ->. by vm_compute in Hh.
    + destruct (Z.eqb_spec rev 0) as [Hz|Hz]; cbn [negb]; [|by apply Hfail].
      wp_steps. split_and!; try done. split; [by left|]. by intros [?|[_ ?]].
  - intros k s' (-> & Hsk & Hik & Hst & Hrk & Hek & Hfk). cbn zeta.
    eapply wp_post; [by apply ftsCheckTimeout_post; destruct (negb _ && _)|].
    intros i' s' (-> & Hr' & He' & Hf'). split; [|done].
    destruct (negb _ && _); simpl in Hr', He', Hf';
      (split_and!; [congruence..|]); rewrite Hf', Hfk; unfold timed_out; simpl; rewrite Hst; tauto.
Qed.
End poll.

(** C16: ftsPoll polls exactly the entries that wait for their socket, each through its
    own descriptor.  It records what poll() reported for it, disarms it when the event
    it waits for arrived, and moves it to its failed state exactly when it had failed
    already, an unexpected event or an error arrived, or its connection was started
    more than gp_fts_probe_timeout seconds ago.  The only error is a failing poll(). *)
Theorem ftsPoll_spec {W Conn} `{LP : !Libpq W Conn} guc hasmirrors (context : fts_context Conn)
    (s : fts_world W) :
  Forall (entry_ok guc hasmirrors) (entries context) → Forall pending (entries context) →
  ∃ fds l, Forall2 (λ i i', ∃ x, i' = set_fd_index x i) (entries context) l ∧
    Forall (fd_index_ok (env s) 0 fds) l ∧
    length fds = length (filter (λ i, polled i = true) (entries context)) ∧
    match ftsPoll guc context s with
    | Ok (context', s') =>
        if decide (fds = []) then entries context' = l ∧ s' = s
        else ∃ ans w1 now w2, sys_poll fds (env s) = (ans, w1) ∧ sys_time w1 = (now, w2) ∧
               s' = mkWorld w2 (globals s) ∧ Forall2 (polled_post guc ans now) l (entries context')
    | Err e => e = ElogError "FTS: ftsPoll() failed"
    end.
Proof.
  intros Hok Hp.
  destruct (build_pollfds_spec (num_pairs context) 0 (perSegInfos context) s)
    as (fds & l & Heq & H2 & Hfd & Hlen).
  exists fds, l. split_and!; try done.
  cut (wp (ftsPoll guc context) (λ context' s',
    if decide (fds = []) then entries context' = l ∧ s' = s
    else ∃ ans w1 now w2, sys_poll fds (env s) = (ans, w1) ∧ sys_time w1 = (now, w2) ∧
      s' = mkWorld w2 (globals s) ∧ Forall2 (polled_post guc ans now) l (entries context'))
    (λ e, e = ElogError "FTS: ftsPoll() failed") s); [done|].
  unfold ftsPoll. apply wp_bind. unfold wp at 1. rewrite Heq. cbn zeta.
  set (c1 := mkContext _ _ (l ++ _)).
  assert (entries c1 = l) as Hc1.
  { apply take_app_drop. symmetry. by eapply Forall2_length. }
  destruct fds as [|fd fds]; [by wp_steps|].
  assert (Hl : Forall (λ i, entry_ok guc hasmirrors i ∧ pending i) (entries c1)).
  { rewrite Hc1. eapply (Forall2_Forall_r _ _ _ _ H2). eapply Forall_impl.
    - apply Forall_and; split; [exact Hok|exact Hp].
    - intros i [[] ?] ? [x ->]. by split; [constructor|]. }
  clearbody c1. subst l. wp_step. wp_step. wp_step; [done|]. wp_step. wp_step.
  unfold for_each_pair. wp_step. eapply wp_post.
  { eapply each_pair_rel; [|exact Hl]. intros i [Hi Hpi]. by eapply record_poll_post. }
  intros l2 s2 (l1 & -> & Hrel & ->). wp_steps. exists a, w, a0, w0. split_and!; try done.
  replace (entries (mkContext _ _ (l1 ++ _))) with l1; [done|].
  symmetry. apply take_app_drop. symmetry. by eapply Forall2_length.
Qed.

Lemma ftsPoll_spec_witness :
  ∃ fds l, Forall (fd_index_ok (LP := scripted CONNECTION_OK false (response true true true false false))
                     100 0 fds) (l : list (fts_segment_info unit)) ∧ length l = 1%nat.
Proof.
  destruct (@ftsPoll_spec Z unit (scripted CONNECTION_OK false (response true true true false false))
    demo_gucs true demo_context demo_world (co_entries _ _ _ (demo_context_ok _))
    ltac:(repeat constructor)) as (fds & l & H2 & Hfd & _).
  exists fds, l. split; [exact Hfd|]. symmetry. exact (Forall2_length _ _ _ H2).
Defined.

(** ** Double faults *)

Lemma app_row_ne {A} (l : list A) x : l ++ [x] ≠ l.
Proof. intros H%(f_equal length). rewrite length_app in H. simpl in H. lia. Qed.

(** Recording a segment as down or up touches only [failedContentIds] and the
    history: afterwards the content is a member exactly when the segment is down, all
    other contents keep their membership, and one history row is appended exactly
    when the membership changed, so that a lasting double fault is reported once. *)
Theorem updateSegmentDownStatus_spec {W} p alive hasmirrors (s : fts_world W) :
  bms_wf (failedContentIds (globals s)) → 0 ≤ segindex p →
  ∃ s', updateSegmentDownStatus (Some p) alive hasmirrors s = Ok (tt, s') ∧ env s' = env s ∧
    let g := globals s in let g' := globals s' in
    gp_segment_configuration g' = gp_segment_configuration g ∧ ftsProbeInfo g' = ftsProbeInfo g ∧
    bms_wf (failedContentIds g') ∧
    (bms_in (segindex p) (failedContentIds g') ↔ alive = false) ∧
    (∀ c, 0 ≤ c → c ≠ segindex p → bms_in c (failedContentIds g') ↔ bms_in c (failedContentIds g)) ∧
    (gp_configuration_history g' = gp_configuration_history g ↔
     (bms_in (segindex p) (failedContentIds g) ↔ alive = false)) ∧
    (length (gp_configuration_history g') ≤ S (length (gp_configuration_history g)))%nat.
Proof.
  intros Hwf Hseg.
  pose proof (updateSegmentDownStatus_post p alive hasmirrors s (λ _, False) Hwf Hseg) as H.
  unfold wp in H. destruct (updateSegmentDownStatus (Some p) alive hasmirrors s) as [[[] s']|e]; [|done].
  exists s'. destruct H as [Henv Hd]. split; [done|]. split; [done|]. cbn zeta.
  destruct (down_status_globals _ _ _ _ _ Hd Hwf) as (? & ? & ? & _ & _).
  do 3 (split; [done|]). unfold down_status_post in Hd. unfold bms_in.
  destruct (Z.testbit (bms_set (failedContentIds (globals s))) (segindex p)) eqn:Hin, alive;
    cbn [Bool.eqb] in Hd.
  - destruct Hd as (b & -> & Hb & Hset). simpl. rewrite Hset, length_app, Z.clearbit_eq. simpl.
    split_and!; [done|by intros; rewrite Z.clearbit_neq| |lia].
    split; [by intros []%app_row_ne|by intros [Hx _]; discriminate Hx].
  - rewrite Hd, Hin. split_and!; try done. lia.
  - rewrite Hd, Hin. split_and!; try done. lia.
  - destruct Hd as (b & -> & Hb & Hset). simpl. rewrite Hset, length_app, Z.setbit_eq by done. simpl.
    split_and!; [done|by intros; rewrite Z.setbit_neq| |lia].
    split; [by intros []%app_row_ne|by intros [_ Hx]; discriminate Hx].
Qed.

Lemma updateSegmentDownStatus_spec_witness :
  ∃ s', updateSegmentDownStatus (Some demo_primary) false true demo_world = Ok (tt, s') ∧
        bms_in 0 (failedContentIds (globals s')).
Proof.
  destruct (updateSegmentDownStatus_spec demo_primary false true demo_world I ltac:(done))
    as (s' & Hrun & _ & _ & _ & _ & Hin & _).
  exists s'. split; [exact Hrun|]. by apply Hin.
Defined.

(** ** A response that never completes

    ftsReceive leaves an entry alone when PQisBusy says that the response is not
    complete, but ftsPoll has already cleared its [poll_events]: the entry is not
    polled again, so its timeout is never evaluated. *)

Definition stuck_entry : fts_segment_info unit :=
  mkInfo (Some demo_primary) (Some demo_mirror) (mkResult 2 false false false false false false)
    FTS_PROBE_SEGMENT 0 POLLIN (-1) 100 0 (Some tt) 0 0 PM_NOT_IN_RESTART 0.
Definition stuck_context : fts_context unit := mkContext true 1 [stuck_entry].

Section hang.
#[local] Instance partial_response : Libpq Z unit :=
  scripted CONNECTION_OK true (response true true true false false).

Lemma stuck_round t :
  probe_round demo_gucs stuck_context (mkWorld t demo_globals) =
  Ok ((false, stuck_context), mkWorld (t + 1) demo_globals).
Proof. reflexivity. Qed.

Lemma loop_step fuel (c c' : fts_context unit) (s s' : fts_world Z) :
  allDone c = false → skip_fts_probe (globals s) = false →
  probe_round demo_gucs c s = Ok ((false, c'), s') →
  probe_loop demo_gucs (S fuel) false c s = probe_loop demo_gucs fuel false c' s'.
Proof.
  intros Hd Hs Hr. simpl. unfold mbind, M_bind, FtsIsActive, get_globals. simpl.
  rewrite Hd, Hs. simpl. by rewrite Hr.
Qed.

Lemma stuck_loop fuel t :
  ∃ t', probe_loop demo_gucs fuel false stuck_context (mkWorld t demo_globals) =
        Ok (None, mkWorld t' demo_globals).
Proof.
  revert t. induction fuel as [|fuel IH]; intros t; [by eexists|].
  rewrite (loop_step fuel stuck_context _ (mkWorld t demo_globals) _ eq_refl eq_refl (stuck_round t)).
  apply IH.
Qed.

(** C27: In an environment where the primary's response never completes the cycle does not
    end, however far the clock moves past gp_fts_probe_timeout. *)
Theorem probe_cycle_hangs_on_partial_response fuel :
  ∃ s', FtsWalRepMessageSegments demo_gucs fuel demo_cdbs demo_world = Ok (None, s').
Proof.
  do 3 (destruct fuel as [|fuel]; [eexists; vm_compute; reflexivity|]).
  destruct (stuck_loop fuel 106) as [t' Ht]. exists (mkWorld t' demo_globals).
  assert (probe_loop demo_gucs (S (S (S fuel))) false demo_context demo_world =
          Ok (None, mkWorld t' demo_globals)) as Hloop.
  { rewrite <-Ht. do 3 (erewrite loop_step; [|reflexivity|reflexivity|vm_compute; reflexivity]).
    reflexivity. }
  unfold FtsWalRepMessageSegments, mbind, M_bind.
  replace (of_res (FtsWalRepInitProbeContext demo_cdbs) demo_world) with
    (Ok (demo_context, demo_world) : res (fts_context unit * fts_world Z)) by reflexivity.
  cbv beta iota. by rewrite Hloop.
Qed.
End hang.
