(* ===== verification/FtsLoop.v ===== *)
(** * The main loop of the FTS process ([src/backend/fts/fts.c])

    One iteration of FtsLoop: the configuration is read, the shared status published,
    the segments probed, the dump file and the version updated, and the waiting
    backends told.  The iteration composes the models of [cdbutil.c]
    ([CdbComponents.v], [QEPool.v]) and of [ftsprobe.c] ([FtsProbe.v]): their
    environments are built here from one world, which has the catalog and the shared
    memory ([fts_globals]), the network and the other processes ([N]), and the files of
    the data directory ([D]).  The files are a part of their own: probing does not
    touch them.

    Signal handlers run at any time, so the flags they set are read from the
    environment.  Fault injection, interrupts, logging, transactions and memory contexts
    are not modelled. *)

From S2P Require Import Prelude Bitmapset CLib Qsort FtsConfig CdbComponents QEPool Libpq FtsProbe.

(** the settings the process reloads on SIGHUP *)
Record loop_gucs := mkLoopGucs {
  probe_gucs : gucs;
  gp_fts_probe_interval : Z;
}.

Class LoopEnv (N D : Type) := {
  (** the rows of gp_segment_configuration in the order of a heap scan *)
  scan_order : gmap Z GpSegConfigEntry → N → list GpSegConfigEntry;
  host_getaddrinfo : string → string → N → (Z * list addrinfo) * N;
  host_expand_version : N → Z;
  got_SIGHUP : N → bool;
  (** clears got_SIGHUP and reads the configuration files *)
  ProcessConfigFile : N → loop_gucs * N;
  probe_requested : N → bool;
  clear_probe_requested : N → N;
  (** timeout in milliseconds; [true] when the postmaster has died *)
  WaitLatch : Z → N → bool * N;
  disk_read : string → D → option string;
  disk_create : string → D → bool * D;
  disk_write : string → string → D → bool * D;
  disk_close : string → D → D;
  disk_rename : string → string → D → bool * D;
}.

Record loop_world (N D : Type) := mkLoopWorld { fts_part : fts_world N; disk : D }.
Arguments mkLoopWorld {N D}.
Arguments fts_part {N D}.
Arguments disk {N D}.

Section world.
Context {N D : Type} `{LE : !LoopEnv N D} `{HQ : !QEEnv N}.

Definition set_net (n : N) (w : loop_world N D) : loop_world N D :=
  mkLoopWorld (mkWorld n (globals (fts_part w))) (disk w).
Definition with_net {A} (f : N → A * N) (w : loop_world N D) : A * loop_world N D :=
  let '(a, n) := f (env (fts_part w)) in (a, set_net n w).
Definition with_disk {A} (f : D → A * D) (w : loop_world N D) : A * loop_world N D :=
  let '(a, d) := f (disk w) in (a, mkLoopWorld (fts_part w) d).

(** what [cdbutil.c] sees; FtsNotifyProber returns at once in the prober *)
#[export] Instance loop_components : ComponentsEnv (loop_world N D) := {|
  scan_gp_segment_configuration w :=
    scan_order (gp_segment_configuration (globals (fts_part w))) (env (fts_part w));
  pg_getaddrinfo_all name service := with_net (host_getaddrinfo name service);
  notify_prober w := w;
  fts_status_version w := status_version (ftsProbeInfo (globals (fts_part w)));
  GetGpExpandVersion w := host_expand_version (env (fts_part w));
  file_read f w := disk_read f (disk w);
  file_create f := with_disk (disk_create f);
  file_write f t := with_disk (disk_write f t);
  file_close f w := mkLoopWorld (fts_part w) (disk_close f (disk w));
  file_rename f g := with_disk (disk_rename f g);
|}.

(** connections to QEs, with the shared status *)
#[export] Instance loop_qes : QEEnv (loop_world N D) := {|
  proc_exit_inprogress w := proc_exit_inprogress (env (fts_part w));
  cdbconn_isBadConnection d w := cdbconn_isBadConnection d (env (fts_part w));
  mop_high_watermark d w := mop_high_watermark d (env (fts_part w));
  cdbconn_discardResults d n := with_net (cdbconn_discardResults d n);
  cdbconn_disconnect d w := set_net (cdbconn_disconnect d (env (fts_part w))) w;
  fts_probe_status d w := status_of (ftsProbeInfo (globals (fts_part w))) d;
  gp_vmem_protect_gang_cache_limit w := gp_vmem_protect_gang_cache_limit (env (fts_part w));
  TempNamespaceOidIsValid w := TempNamespaceOidIsValid (env (fts_part w));
  markCurrentGxactWriterGangLost w := set_net (markCurrentGxactWriterGangLost (env (fts_part w))) w;
  PQbypassConnCloseAtCancel b w := set_net (PQbypassConnCloseAtCancel b (env (fts_part w))) w;
|}.
End world.

Section loop.
Context {N D Conn : Type} `{LP : !Libpq N Conn} `{LE : !LoopEnv N D} `{HQ : !QEEnv N}.
Context (vars : backend_vars).
Abbreviation world := (loop_world N D).
Abbreviation SM := (M (session world)).

(** ** Reading the configuration *)

Definition upd_globals_of (f : fts_globals → fts_globals) (w : world) : world :=
  mkLoopWorld (mkWorld (env (fts_part w)) (f (globals (fts_part w)))) (disk w).
Definition upd_info (f : FtsProbeInfo → FtsProbeInfo) : SM unit :=
  env_effect (upd_globals_of (upd_probe_info f)).

(** status_version is a uint8 *)
Definition incr_version (i : FtsProbeInfo) : FtsProbeInfo :=
  mkProbeInfo (wrap 8 (status_version i + 1)) (probe_status i) (start_count i) (done_count i).

Fixpoint publish_status (infos : list ComponentInfo) : SM unit :=
  match infos with
  | [] => mret tt
  | segInfo :: infos =>
      let segStatus := if SEGMENT_IS_ALIVE (config segInfo) then 0 else FTS_STATUS_SET_DOWN 0 in
      _ ← upd_info (set_probe_status (dbid (config segInfo)) segStatus);
      publish_status infos
  end.

Definition readCdbComponentInfoAndUpdateStatus : SM Components :=
  cdbs ← cdbcomponent_getCdbComponents vars;
  _ ← publish_status (segment_infos cdbs);
  v ← env_ask fts_status_version;
  _ ← (if v =? 0 then _ ← upd_info incr_version; writeGpSegConfigToFTSFiles else mret tt);
  mret cdbs.

(** ** The loop *)

Record loop_state := mkLoopState {
  fts_session : session world;
  loop_settings : loop_gucs;
}.
Abbreviation LM := (M loop_state).

Definition in_session {A} (m : SM A) : LM A := λ s,
  match m (fts_session s) with
  | Ok (a, ss) => Ok (a, mkLoopState ss (loop_settings s))
  | Err e => Err e
  end.
Definition in_fts {A} (m : M (fts_world N) A) : SM A := λ ss,
  match m (fts_part (se_env ss)) with
  | Ok (a, w) => Ok (a, set_env (mkLoopWorld w (disk (se_env ss))) ss)
  | Err e => Err e
  end.
Definition net_call {A} (f : N → A * N) : LM A := in_session (env_call (with_net f)).

(** the counters are int32 and wrap around *)
Definition incr_start (i : FtsProbeInfo) : FtsProbeInfo :=
  mkProbeInfo (status_version i) (probe_status i) (swrap 32 (start_count i + 1)) (done_count i).
Definition set_done (i : FtsProbeInfo) : FtsProbeInfo :=
  mkProbeInfo (status_version i) (probe_status i) (start_count i) (start_count i).
Definition set_skip (b : bool) (g : fts_globals) : fts_globals :=
  mkGlobals (gp_segment_configuration g) (gp_configuration_history g) (ftsProbeInfo g)
    (failedContentIds g) (signals_sent g) b.

Definition reload_config : LM unit :=
  s ← get;
  if got_SIGHUP (env (fts_part (se_env (fts_session s)))) then
    gucs ← net_call ProcessConfigFile;
    modify (λ s, mkLoopState (fts_session s) gucs)
  else mret tt.

(** the probe and what follows from it, up to the notification of the backends; None when
    [fuel] rounds did not end the probe *)
Definition probe_and_publish (fuel : nat) (guc : gucs) : SM (option unit) :=
  _ ← upd_info incr_start;
  cdbs ← readCdbComponentInfoAndUpdateStatus;
  _ ← env_effect (λ w, set_net (clear_probe_requested (env (fts_part w))) w);
  _ ← env_effect (upd_globals_of (set_skip false));
  r ← in_fts (FtsWalRepMessageSegments (Conn := Conn) guc fuel (fts_view cdbs));
  match r with
  | None => mret None
  | Some (updated_probe_state, _) =>
      _ ← (if (updated_probe_state : bool) then
             _ ← writeGpSegConfigToFTSFiles; upd_info incr_version
           else mret tt);
      _ ← cdbcomponent_destroyCdbComponents;
      _ ← upd_info set_done;
      mret (Some tt)
  end.

Inductive loop_end := ProbeUnfinished | PostmasterDied | Continue.

Definition FtsLoop_iteration (fuel : nat) : LM loop_end :=
  _ ← reload_config;
  probe_start_time ← net_call sys_time;
  s ← get;
  r ← in_session (probe_and_publish fuel (probe_gucs (loop_settings s)));
  match r with
  | None => mret ProbeUnfinished
  | Some _ =>
      now ← net_call sys_time;
      let elapsed := now - probe_start_time in
      let interval := gp_fts_probe_interval (loop_settings s) in
      let timeout := if interval <=? elapsed then 0 else interval - elapsed in
      s ← get;
      let timeout :=
        if probe_requested (env (fts_part (se_env (fts_session s)))) then 0 else timeout in
      died ← net_call (WaitLatch (timeout * 1000));
      mret (if (died : bool) then PostmasterDied else Continue)
  end.

(** [n] iterations of while (true) *)
Fixpoint FtsLoop (n fuel : nat) : LM loop_end :=
  match n with
  | O => mret Continue
  | S n =>
      r ← FtsLoop_iteration fuel;
      match r with
      | Continue => FtsLoop n fuel
      | _ => mret r
      end
  end.
End loop.

Arguments loop_state : clear implicits.
