(* ===== verification/FtsLoopFacts.v ===== *)
(** * The FTS process keeps the cluster consistent

    The main loop of [FtsLoop.v] composes reading the configuration, probing and
    publishing.  Here the guarantees of the parts are joined: from a well-formed catalog
    every iteration ends with a well-formed catalog, a shared status and a dump file that
    agree with it, and a version that moved exactly when the catalog did. *)

From S2P Require Import Prelude Bitmapset BitmapsetFacts CLib Qsort QsortFacts FtsConfig.
From S2P Require Import CdbComponents CdbComponentsFacts SegConfigDump QEPool QEPoolFacts.
From S2P Require Import Libpq FtsProbe FtsProbeSafety FtsProbeCycle FtsProbeTheorems FtsLoop.

(** ** A mirrored cluster in the catalog *)

Definition rows_of (cat : gmap Z GpSegConfigEntry) : list GpSegConfigEntry := (map_to_list cat).*2.

Lemma elem_of_rows_of cat r : r ∈ rows_of cat ↔ ∃ d, cat !! d = Some r.
Proof.
  unfold rows_of. rewrite list_elem_of_fmap. split.
  - intros ([d x] & -> & Hx%elem_of_map_to_list). by exists d.
  - intros [d Hd]. exists (d, r). split; [done|]. by apply elem_of_map_to_list.
Qed.

(** the two rows of a content, and no other *)
Definition content_pair (cat : gmap Z GpSegConfigEntry) (content : Z) (p m : GpSegConfigEntry) : Prop :=
  p ∈ rows_of cat ∧ m ∈ rows_of cat ∧ segindex p = content ∧ segindex m = content ∧ pair_ok p m ∧
  ∀ r, r ∈ rows_of cat → segindex r = content → r = p ∨ r = m.

Record catalog_ok (vars : backend_vars) (cat : gmap Z GpSegConfigEntry) : Prop := {
  cat_key : ∀ d r, cat !! d = Some r → dbid r = d;
  cat_valid : valid_rows vars (rows_of cat);
  cat_pair : ∀ r, r ∈ rows_of cat → 0 ≤ segindex r → ∃ p m, content_pair cat (segindex r) p m;
}.

(** the session's copy of the segments: each row of a segment once, with an address *)
Record copies (cat : gmap Z GpSegConfigEntry) (infos : list GpSegConfigEntry) : Prop := {
  cps_in : ∀ x, x ∈ infos → 0 ≤ segindex x ∧ ∃ r, r ∈ rows_of cat ∧ same_row r x;
  cps_all : ∀ r, r ∈ rows_of cat → 0 ≤ segindex r → ∃ x, x ∈ infos ∧ same_row r x;
  cps_nodup : NoDup (dbid <$> infos);
}.

Lemma pair_ok_roles p m :
  pair_ok p m → SEGMENT_IS_ACTIVE_PRIMARY p = true ∧ SEGMENT_IS_ACTIVE_PRIMARY m = false.
Proof.
  intros (ma & sync & (Hp & _) & (Hm & _) & _). unfold SEGMENT_IS_ACTIVE_PRIMARY. by rewrite Hp, Hm.
Qed.

Lemma same_row_pair p m x y : pair_ok p m → same_row p x → same_row m y → pair_ok x y.
Proof. intros Hpm [h ->] [h' ->]. exact Hpm. Qed.

Section catalog.
Context (vars : backend_vars) (cat : gmap Z GpSegConfigEntry) (Hcat : catalog_ok vars cat).

Lemma rows_dbid r r' : r ∈ rows_of cat → r' ∈ rows_of cat → dbid r = dbid r' → r = r'.
Proof.
  intros [d Hd]%elem_of_rows_of [d' Hd']%elem_of_rows_of Heq.
  rewrite (cat_key _ _ Hcat _ _ Hd), (cat_key _ _ Hcat _ _ Hd') in Heq. congruence.
Qed.

Lemma rows_nodup : NoDup (dbid <$> rows_of cat).
Proof.
  unfold rows_of. rewrite <-list_fmap_compose.
  replace ((dbid ∘ snd) <$> map_to_list cat) with ((map_to_list cat).*1); [apply NoDup_fst_map_to_list|].
  apply list_fmap_ext. intros i [d r] Hi%list_elem_of_lookup_2%elem_of_map_to_list. simpl.
  symmetry. by apply (cat_key _ _ Hcat).
Qed.

Lemma copies_of scan cs infos :
  scan ≡ₚ rows_of cat → Forall2 same_row scan cs → infos ≡ₚ seg_rows cs → copies cat infos.
Proof.
  intros Hscan Hcs Hinfos. constructor.
  - intros x Hx. rewrite Hinfos in Hx. apply list_elem_of_filter in Hx as [Hge [k Hk]%list_elem_of_lookup].
    split; [lia|]. destruct (Forall2_lookup_r _ _ _ _ _ Hcs Hk) as (r & Hr & Hs). exists r.
    rewrite <-Hscan. split; [by eapply list_elem_of_lookup_2|done].
  - intros r Hr Hge. rewrite <-Hscan in Hr. apply list_elem_of_lookup in Hr as [k Hk].
    destruct (Forall2_lookup_l _ _ _ _ _ Hcs Hk) as (x & Hx & Hs). exists x. split; [|done].
    rewrite Hinfos. apply list_elem_of_filter. split; [|by eapply list_elem_of_lookup_2].
    destruct (same_row_fields _ _ Hs) as (-> & _). lia.
  - rewrite Hinfos. eapply sublist_NoDup; [|apply fmap_sublist, sublist_filter].
    replace (dbid <$> cs) with (dbid <$> scan); [rewrite Hscan; apply rows_nodup|].
    clear -Hcs. induction Hcs as [|r x scan cs Hs _ IH]; [done|]. csimpl. rewrite IH.
    by destruct (same_row_fields _ _ Hs) as (_ & -> & _).
Qed.

Lemma copies_positive infos n :
  copies cat infos → contents_upto n (segindex <$> infos) → 0 < n.
Proof.
  intros Hcp Hup. destruct (vr_contents _ _ (cat_valid _ _ Hcat)) as (k & Hk & Hrows).
  pose proof (proj2 (Hrows 0) ltac:(lia)) as (r & Hr0 & [_ Hr]%list_elem_of_filter)%list_elem_of_fmap.
  destruct (cps_all _ _ Hcp r Hr ltac:(lia)) as (x & Hx & Hs).
  assert (segindex x ∈ segindex <$> infos) as Hin%Hup by (by apply list_elem_of_fmap_2). lia.
Qed.

Section copy.
Context (infos : list GpSegConfigEntry) (n : Z) (Hcp : copies cat infos).
Context (Hn : 0 < n) (Hup : contents_upto n (segindex <$> infos)).

Lemma copy_dbid x y : x ∈ infos → y ∈ infos → dbid x = dbid y → x = y.
Proof. apply NoDup_fmap_elem, Hcp. Qed.

Lemma copy_of r x y :
  r ∈ rows_of cat → x ∈ infos → y ∈ infos → same_row r x → same_row r y → x = y.
Proof. intros _ Hx Hy [h ->] [h' ->]. by apply copy_dbid. Qed.

Lemma copy_pair x :
  x ∈ infos → ∃ p m, p ∈ infos ∧ m ∈ infos ∧ segindex p = segindex x ∧ segindex m = segindex x ∧
    pair_ok p m ∧ ∀ y, y ∈ infos → segindex y = segindex x → y = p ∨ y = m.
Proof.
  intros Hx. destruct (cps_in _ _ Hcp x Hx) as (Hge & r & Hr & Hs).
  destruct (same_row_fields _ _ Hs) as (Hseg & _). rewrite Hseg in *.
  destruct (cat_pair _ _ Hcat r Hr Hge) as (p & m & Hp & Hm & Hsp & Hsm & Hok & Hall).
  destruct (cps_all _ _ Hcp p Hp ltac:(lia)) as (px & Hpx & Hpr).
  destruct (cps_all _ _ Hcp m Hm ltac:(lia)) as (mx & Hmx & Hmr).
  exists px, mx. destruct (same_row_fields _ _ Hpr) as (-> & _), (same_row_fields _ _ Hmr) as (-> & _).
  split_and!; try done; [by eapply same_row_pair|]. intros y Hy Hsy.
  destruct (cps_in _ _ Hcp y Hy) as (_ & r' & Hr' & Hs'). destruct (same_row_fields _ _ Hs') as (Hsy' & _).
  destruct (Hall r' Hr' ltac:(congruence)) as [-> | ->]; [left|right]; by eapply copy_of.
Qed.

Lemma copy_primary_inj x y :
  x ∈ primaries infos → y ∈ primaries infos → segindex x = segindex y → x = y.
Proof.
  intros [Hpx Hx]%list_elem_of_filter [Hpy Hy]%list_elem_of_filter Heq.
  destruct (copy_pair x Hx) as (p & m & _ & _ & _ & _ & Hok & Hall). apply pair_ok_roles in Hok as [_ Hm].
  destruct (Hall x Hx eq_refl) as [-> | ->], (Hall y Hy (eq_sym Heq)) as [-> | ->]; congruence.
Qed.

Lemma copy_primaries : segindex <$> primaries infos ≡ₚ seqZ 0 n.
Proof.
  assert (NoDup (segindex <$> primaries infos)) as Hnd.
  { apply NoDup_fmap_2_strong; [apply copy_primary_inj|].
    apply NoDup_filter. by eapply NoDup_fmap_1, Hcp. }
  apply NoDup_Permutation; [done|apply NoDup_seqZ|]. intros i. rewrite elem_of_seqZ, list_elem_of_fmap. split.
  - intros (x & -> & [_ Hx]%list_elem_of_filter). assert (segindex x ∈ segindex <$> infos) as Hin%Hup; [|lia].
    by apply list_elem_of_fmap_2.
  - intros Hi. pose proof (proj2 (Hup i) ltac:(lia)) as (x & -> & Hx)%list_elem_of_fmap.
    destruct (copy_pair x Hx) as (p & m & Hp & _ & Hsp & _ & Hok & _). exists p. split; [done|].
    apply list_elem_of_filter. split; [by apply pair_ok_roles in Hok as [? _]|done].
Qed.

Lemma copy_wf : cdbs_wf (mkCdbs infos n).
Proof.
  constructor; simpl.
  - apply Hcp.
  - apply Forall_forall. intros x Hx. apply (cps_in _ _ Hcp x Hx).
  - rewrite copy_primaries. apply NoDup_seqZ.
  - rewrite <-(length_fmap segindex), copy_primaries, length_seqZ. lia.
Qed.

Lemma copy_peer p m :
  p ∈ primaries infos → peer infos p = Some m → pair_ok p m.
Proof.
  intros Hp Hpe. destruct (peer_spec _ copy_wf p m Hp Hpe) as (Hm & Hseg & Hne & Hnp). simpl in *.
  apply list_elem_of_filter in Hp as [Hpp Hp].
  destruct (copy_pair p Hp) as (p' & m' & _ & _ & _ & _ & Hok & Hall).
  pose proof (pair_ok_roles _ _ Hok) as [Hp' Hm'].
  destruct (Hall p Hp eq_refl) as [-> | ->]; [|congruence].
  destruct (Hall m Hm Hseg) as [-> | ->]; [done|done].
Qed.

Lemma copy_has_peer x : x ∈ primaries infos → ∃ m, peer infos x = Some m.
Proof.
  intros [Hpx Hx]%list_elem_of_filter. unfold peer.
  pose proof (FtsGetPeerSegment_spec infos (segindex x) (dbid x)) as H.
  destruct (FtsGetPeerSegment infos (segindex x) (dbid x)) as [m|]; [eauto|].
  destruct (copy_pair x Hx) as (p & m & Hp & Hm & Hsp & Hsm & Hok & _). apply pair_ok_roles in Hok as [Hpp Hmp].
  assert (p = x) as -> by (apply copy_dbid; [done..|]; by apply H).
  assert (m = x) as -> by (apply copy_dbid; [done..|]; by apply H). congruence.
Qed.

Lemma copy_mirrors : cluster_has_mirrors (mkCdbs infos n) = true.
Proof.
  unfold cluster_has_mirrors, total_segment_dbs; simpl. apply negb_true_iff, Z.eqb_neq.
  pose proof (cw_total _ copy_wf) as Htot. simpl in Htot. rewrite Htot.
  pose proof (proj2 (Hup 0) ltac:(lia)) as (x & _ & Hx)%list_elem_of_fmap.
  destruct (copy_pair x Hx) as (p & m & Hp & Hm & _ & _ & Hok & _). apply pair_ok_roles in Hok as [_ Hmp].
  assert (m :: primaries infos ⊆+ infos) as Hsub.
  { apply NoDup_submseteq.
    - constructor; [intros [? _]%list_elem_of_filter; congruence|].
      apply NoDup_filter. by eapply NoDup_fmap_1, Hcp.
    - intros y [->|[_ ?]%list_elem_of_filter]%elem_of_cons; done. }
  apply submseteq_length in Hsub. simpl in Hsub. lia.
Qed.
End copy.
End catalog.

(** ** The catalog after a cycle *)

(** a row without what FTS changes *)
Definition static_part (r : GpSegConfigEntry) : GpSegConfigEntry :=
  modify_row r ROLE_PRIMARY STATUS_UP MODE_INSYNC.

Lemma same_segment_static r r' : same_segment r r' → static_part r' = static_part r.
Proof. by intros (? & ? & ? & ->). Qed.

Lemma rows_of_fmap f cat : rows_of (f <$> cat) ≡ₚ f <$> rows_of cat.
Proof. unfold rows_of. rewrite map_to_list_fmap, <-!list_fmap_compose. done. Qed.

Lemma kept_static g g' :
  globals_kept g g' →
  static_part <$> gp_segment_configuration g' = static_part <$> gp_segment_configuration g.
Proof.
  intros Hk. apply map_eq. intros d. rewrite !lookup_fmap. pose proof (gk_rows _ _ Hk d) as Hr.
  destruct (gp_segment_configuration g' !! d) as [r'|] eqn:Hr', (gp_segment_configuration g !! d) as [r|] eqn:Hr0;
    simpl; try done.
  - f_equal. eapply same_segment_static, (gk_static _ _ Hk); eauto.
  - by destruct (proj1 Hr).
  - by destruct (proj2 Hr).
Qed.

Lemma kept_row g g' d r' :
  globals_kept g g' → gp_segment_configuration g' !! d = Some r' →
  ∃ r, gp_segment_configuration g !! d = Some r ∧ dbid r' = dbid r ∧ segindex r' = segindex r.
Proof.
  intros Hk Hr'. destruct (proj1 (gk_rows _ _ Hk d) ltac:(by rewrite Hr')) as [r Hr]. exists r.
  destruct (gk_static _ _ Hk d r r' Hr Hr') as (? & ? & ? & ->). done.
Qed.

Section after_cycle.
Context (vars : backend_vars) (g g' : fts_globals) (infos : list GpSegConfigEntry).
Context (Hcat : catalog_ok vars (gp_segment_configuration g)).
Context (Hcp : copies (gp_segment_configuration g) infos) (Hk : globals_kept g g').
Context (Hpairs : ∀ p m, p ∈ primaries infos → peer infos p = Some m → pair_in_catalog g' (dbid p) (dbid m)).

(** every segment row belongs to a pair that was probed *)
Lemma row_pair d r' :
  gp_segment_configuration g' !! d = Some r' → 0 ≤ segindex r' →
  ∃ p m, p ∈ infos ∧ m ∈ infos ∧ segindex p = segindex r' ∧ segindex m = segindex r' ∧
    pair_in_catalog g' (dbid p) (dbid m) ∧ (d = dbid p ∨ d = dbid m) ∧
    ∀ d2 r2, gp_segment_configuration g' !! d2 = Some r2 → segindex r2 = segindex r' →
      d2 = dbid p ∨ d2 = dbid m.
Proof.
  intros Hr' Hge.
  assert (∀ d2 r2, gp_segment_configuration g' !! d2 = Some r2 → 0 ≤ segindex r2 →
    ∃ y, y ∈ infos ∧ dbid y = d2 ∧ segindex y = segindex r2) as Hcopy.
  { intros d2 r2 Hr2 Hge2. destruct (kept_row g g' d2 r2 Hk Hr2) as (r & Hr & _ & Hseg).
    destruct (cps_all _ _ Hcp r) as (y & Hy & Hs); [apply elem_of_rows_of; eauto|lia|].
    destruct (same_row_fields _ _ Hs) as (Hsy & Hdy & _). exists y.
    rewrite Hdy, (cat_key _ _ Hcat _ _ Hr), Hsy. done. }
  destruct (Hcopy d r' Hr' Hge) as (x & Hx & Hdx & Hsx).
  destruct (copy_pair vars _ Hcat infos Hcp x Hx) as (p & m & Hp & Hm & Hsp & Hsm & Hok & Hall).
  pose proof (pair_ok_roles _ _ Hok) as [Hpp Hmp].
  assert (p ∈ primaries infos) as Hprim by (by apply list_elem_of_filter).
  destruct (copy_has_peer vars _ Hcat infos Hcp p Hprim) as (m0 & Hpe).
  assert (m0 = m) as ->.
  { unfold peer in Hpe. pose proof (FtsGetPeerSegment_spec infos (segindex p) (dbid p)) as H.
    rewrite Hpe in H. destruct H as (Hin & Hs0 & Hne). destruct (Hall m0 Hin ltac:(congruence)); congruence. }
  exists p, m. split_and!; try congruence; try done; [by apply Hpairs| |].
  - destruct (Hall x Hx eq_refl) as [-> | ->]; auto.
  - intros d2 r2 Hr2 Hs2. destruct (Hcopy d2 r2 Hr2 ltac:(lia)) as (y & Hy & <- & Hsy).
    destruct (Hall y Hy ltac:(congruence)) as [-> | ->]; auto.
Qed.

Lemma copy_row x r :
  x ∈ infos → gp_segment_configuration g' !! dbid x = Some r → segindex r = segindex x.
Proof.
  intros Hx Hr. destruct (kept_row g g' _ r Hk Hr) as (r0 & Hr0 & _ & ->).
  destruct (cps_in _ _ Hcp x Hx) as (_ & rx & [dx Hrx]%elem_of_rows_of & Hs).
  destruct (same_row_fields _ _ Hs) as (-> & Hdx & _). rewrite Hdx in Hr0.
  rewrite (cat_key _ _ Hcat _ _ Hrx) in Hr0. congruence.
Qed.

Lemma catalog_kept : catalog_ok vars (gp_segment_configuration g').
Proof.
  assert (∀ d r', gp_segment_configuration g' !! d = Some r' → dbid r' = d) as Hkey.
  { intros d r' Hr'. destruct (kept_row g g' d r' Hk Hr') as (r & Hr & -> & _). by apply (cat_key _ _ Hcat). }
  constructor; [done| |].
  - apply (proj2 (valid_rows_mapped vars static_part ltac:(done) _)).
    eapply valid_rows_perm; [by rewrite <-rows_of_fmap, (kept_static g g' Hk)|].
    eapply valid_rows_perm; [symmetry; apply rows_of_fmap|].
    apply (proj1 (valid_rows_mapped vars static_part ltac:(done) _)), Hcat.
  - intros r' [d Hr']%elem_of_rows_of Hge.
    destruct (row_pair d r' Hr' Hge) as (p & m & Hp & Hm & Hsp & Hsm & (r1 & r2 & H1 & H2 & Hok & _) & _ & Hall).
    pose proof (copy_row _ _ Hp H1). pose proof (copy_row _ _ Hm H2).
    destruct Hok as [Hok|Hok]; [exists r1, r2|exists r2, r1]; split_and!; try done;
      try (by apply elem_of_rows_of; eauto); try congruence;
      intros r [d2 Hr2]%elem_of_rows_of Hs2; destruct (Hall d2 r Hr2 Hs2); subst; simplify_eq; auto.
Qed.

(** the shared status of every segment agrees with its row *)
Lemma status_kept r' :
  r' ∈ rows_of (gp_segment_configuration g') → 0 ≤ segindex r' → status_ok g' (dbid r').
Proof.
  intros [d Hr']%elem_of_rows_of Hge. destruct (kept_row g g' d r' Hk Hr') as (r & Hr & Hd & _).
  rewrite Hd, (cat_key _ _ Hcat _ _ Hr).
  destruct (row_pair d r' Hr' Hge) as (p & m & _ & _ & _ & _ & (r1 & r2 & _ & _ & _ & Hs1 & Hs2) & [-> | ->] & _); done.
Qed.
End after_cycle.

(** ** One iteration *)

(** What the theorems assume of the rest of the system: a scan returns each row once, the
    name service does not return Unix sockets, the disk works, a segment reports its mirror
    in sync only when it is up, and the setting gp_fts_probe_retries is not negative. *)
Record loop_env_ok (N D Conn : Type) `{LP : !Libpq N Conn} `{LE : !LoopEnv N D} : Prop := {
  le_scan : ∀ cat n, scan_order cat n ≡ₚ rows_of cat;
  le_names : ∀ name service n, Forall (λ a, addr_family a ≠ AF_UNIX) (host_getaddrinfo name service n).1.2;
  le_disk : disk_ok (loop_world N D);
  le_honest : honest_responses (W := N) (Conn := Conn);
  le_retries : ∀ n, 0 ≤ gp_fts_probe_retries (probe_gucs (ProcessConfigFile n).1);
}.

(** the prober's variables inside of a transaction *)
Record prober_vars_ok (vars : backend_vars) : Prop := {
  pv_tx : IsTransactionState vars = true;
  pv_fts : am_ftsprobe vars = true;
  pv_qd : IS_HOT_STANDBY_QD vars = false;
}.

Section iteration.
Context {N D Conn : Type} `{LP : !Libpq N Conn} `{LE : !LoopEnv N D} `{HQ : !QEEnv N}.
Context (vars : backend_vars) (Hvars : prober_vars_ok vars) (Henv : loop_env_ok N D Conn).
Abbreviation world := (loop_world N D).
Implicit Types ss : session world.

Definition shared ss : fts_globals := globals (fts_part (se_env ss)).
Definition catalog ss : gmap Z GpSegConfigEntry := gp_segment_configuration (shared ss).

(** the shared memory, the catalog and the files are the same *)
Definition same_shared ss ss' : Prop :=
  shared ss' = shared ss ∧ disk (se_env ss') = disk (se_env ss).
#[local] Instance same_shared_preorder : PreOrder same_shared.
Proof. split; [done|]. intros s1 s2 s3 [? ?] [? ?]. split; congruence. Qed.

(** the dump file holds the rows of the catalog *)
Definition dump_current ss : Prop :=
  ∃ rows, rows ≡ₚ rows_of (catalog ss) ∧
    file_read GPSEGCONFIGDUMPFILE (se_env ss) = Some (dump_text rows).

Lemma info_shared ss :
  catalog_ok vars (catalog ss) →
  wp (getCdbComponentInfo vars)
    (λ comps ss', (∃ cs, Forall2 same_row (scan_gp_segment_configuration (se_env ss)) cs ∧ components_ok cs comps) ∧
       same_shared ss ss') (λ _, False) ss.
Proof.
  intros Hcat. apply wp_and.
  - apply info_total; [apply Hvars..| |].
    + intros name service w. pose proof (le_names _ _ _ Henv name service (env (fts_part w))) as Hn.
      simpl. unfold with_net. by destruct (host_getaddrinfo _ _ _) as [[ret addrs] n].
    + eapply valid_rows_perm; [symmetry; apply (le_scan _ _ _ Henv)|apply Hcat].
  - eapply wp_post; [apply (framed_getCdbComponentInfo vars same_shared)|done].
    + intros n p s. unfold wp, env_call. simpl. unfold with_net. by destruct (host_getaddrinfo _ _ _).
    + by intros h s.
    + unfold readGpSegConfigFromCatalog. rewrite (pv_tx _ Hvars). by intros s.
Qed.

(** the session after loading: a pool without QEs, a current copy *)
Lemma getComponents_shared ss :
  cdb_component_dbs ss = None → descriptors ss = ∅ → catalog_ok vars (catalog ss) →
  wp (cdbcomponent_getCdbComponents vars)
    (λ c ss', same_shared ss ss' ∧ cdb_component_dbs ss' = Some c ∧ pool_ok ss' ∧ no_active ss' ∧
       copies (catalog ss) (segment_db_info (fts_view c)) ∧ 0 < total_segments (fts_view c) ∧
       contents_upto (total_segments (fts_view c)) (segindex <$> segment_db_info (fts_view c)))
    (λ _, False) ss.
Proof.
  intros Hnone Hds Hcat. unfold cdbcomponent_getCdbComponents. apply wp_bind. unfold wp at 1, get.
  rewrite Hnone. eapply wp_seq.
  { apply wp_and; [by apply info_shared|]. apply (framed_info (W := world)). }
  intros comps ss1 (((cs & Hcs & Hok) & Hsh) & Hc1 & Hd1 & Hn1).
  do 2 apply wp_bind, wp_env_ask. apply wp_bind, wp_modify, wp_ret.
  injection (ck_totals _ _ Hok) as _ Hact _ _.
  assert (copies (catalog ss) (config <$> segment_infos comps)) as Hcp.
  { eapply copies_of; [done|apply (le_scan _ _ _ Henv)|exact Hcs|apply (ck_segments _ _ Hok)]. }
  pose proof (ck_contents _ _ Hok) as Hup. rewrite contents_configs in Hup. split_and!; [..|exact Hcp| |exact Hup].
  - exact Hsh.
  - done.
  - eexists. split; [done|]. simpl. rewrite Hd1, Hds. by eapply loaded_pool.
  - cbv [no_active cdbcomponent_activeQEsExist mbind M_bind get mret M_ret]. simpl. by rewrite Hact.
  - by eapply copies_positive.
Qed.

(** *** Publishing the status *)

Definition seg_status (c : GpSegConfigEntry) : Z :=
  if SEGMENT_IS_ALIVE c then 0 else FTS_STATUS_SET_DOWN 0.

Definition published (infos : list GpSegConfigEntry) (i : FtsProbeInfo) : FtsProbeInfo :=
  foldl (λ i c, set_probe_status (dbid c) (seg_status c) i) i infos.

(** only the shared memory changes, by [f] *)
Definition shared_change (f : fts_globals → fts_globals) ss ss' : Prop :=
  shared ss' = f (shared ss) ∧ disk (se_env ss') = disk (se_env ss) ∧ same_pool ss ss'.

Lemma upd_info_spec f ss E :
  wp (upd_info f) (λ _ ss', shared_change (upd_probe_info f) ss ss') E ss.
Proof. apply wp_env_effect. by split_and!. Qed.

Lemma publish_spec infos ss E :
  wp (publish_status infos)
    (λ _ ss', shared_change (upd_probe_info (published (config <$> infos))) ss ss') E ss.
Proof.
  revert ss. induction infos as [|c infos IH]; intros ss; cbn [publish_status].
  { apply wp_ret. split_and!; [|done..]. by destruct (shared ss). }
  eapply wp_seq; [apply upd_info_spec|]. intros [] ss1 (Hg & Hd & Hp).
  eapply wp_post; [apply IH|]. intros [] ss2 (Hg2 & Hd2 & Hp2). split_and!; [|congruence|by transitivity ss1].
  rewrite Hg2, Hg. done.
Qed.

Lemma published_other infos i d :
  d ∉ dbid <$> infos → status_of (published infos i) d = status_of i d.
Proof.
  revert i. induction infos as [|c infos IH]; intros i; [done|]. cbn [published foldl fmap list_fmap].
  intros [Hd Hn]%not_elem_of_cons. unfold published in IH. rewrite IH by done.
  unfold status_of, set_probe_status; simpl. by rewrite lookup_insert_ne.
Qed.

Lemma published_counts infos i : probe_counts (published infos i) = probe_counts i.
Proof. revert i. induction infos as [|c infos IH]; intros i; [done|]. apply (IH (set_probe_status _ _ i)). Qed.

Lemma published_status infos i c :
  NoDup (dbid <$> infos) → c ∈ infos →
  FTS_STATUS_IS_DOWN (status_of (published infos i) (dbid c)) = negb (SEGMENT_IS_ALIVE c).
Proof.
  revert i. induction infos as [|x infos IH]; intros i; [by intros _ ?%elem_of_nil|].
  rewrite fmap_cons. intros [Hn Hnd]%NoDup_cons [->|Hc]%elem_of_cons; [|by apply IH].
  change (published (x :: infos) i) with (published infos (set_probe_status (dbid x) (seg_status x) i)).
  rewrite published_other by done. unfold status_of, set_probe_status; simpl. rewrite lookup_insert_eq. simpl.
  unfold seg_status. by destruct (SEGMENT_IS_ALIVE x).
Qed.

(** *** The dump file *)

Definition file_change ss ss' : Prop := fts_part (se_env ss') = fts_part (se_env ss) ∧ same_pool ss ss'.
#[local] Instance file_change_preorder : PreOrder file_change.
Proof.
  split; [done|]. intros s1 s2 s3 [? ?] [? ?]. split; [congruence|by transitivity s2].
Qed.

Lemma framed_disk {A} (f : D → A * D) : framed file_change (env_call (W := world) (with_disk f)).
Proof. intros ss. unfold wp, env_call, with_disk. by destruct (f _). Qed.

Lemma write_configs_framed rows : framed file_change (write_configs (W := world) rows).
Proof.
  induction rows as [|c rows IH]; cbn [write_configs]; unfold elog_ERROR;
    repeat first [apply framed_disk|apply IH|frame_step].
Qed.

Lemma write_framed : framed file_change (writeGpSegConfigToFTSFiles (W := world)).
Proof.
  unfold writeGpSegConfigToFTSFiles, readGpSegConfigFromCatalog, elog_ERROR.
  repeat first [apply framed_disk|apply write_configs_framed|apply (framed_ask file_change)|by intros ?|frame_step].
Qed.

Lemma write_current ss :
  wp writeGpSegConfigToFTSFiles (λ _ ss', dump_current ss' ∧ file_change ss ss') (λ _, False) ss.
Proof.
  eapply wp_post; [apply wp_and; [apply write_dump_spec, Henv|apply write_framed]|].
  intros [] ss' [Hr Hch]. split; [|done]. exists (scan_gp_segment_configuration (se_env ss)).
  unfold catalog, shared. rewrite (proj1 Hch). split; [apply (le_scan _ _ _ Henv)|].
  by rewrite Hr, dump_text_erase.
Qed.

(** *** Before and after an iteration *)

Record ready ss : Prop := {
  rd_components : cdb_component_dbs ss = None;
  rd_descriptors : descriptors ss = ∅;
  rd_catalog : catalog_ok vars (catalog ss);
  rd_failed : bms_wf (failedContentIds (shared ss));
  rd_dump : status_version (ftsProbeInfo (shared ss)) ≠ 0 → dump_current ss;
}.

(** the version after the configuration is read *)
Definition started_version (v : Z) : Z := if v =? 0 then 1 else v.

Record loaded ss (c : Components) ss' : Prop := {
  ld_catalog : catalog ss' = catalog ss;
  ld_failed : failedContentIds (shared ss') = failedContentIds (shared ss);
  ld_counts : probe_counts (ftsProbeInfo (shared ss')) =
    (started_version (status_version (ftsProbeInfo (shared ss))),
     start_count (ftsProbeInfo (shared ss)), done_count (ftsProbeInfo (shared ss)));
  ld_status : ∀ x, x ∈ segment_db_info (fts_view c) → status_ok (shared ss') (dbid x);
  ld_components : cdb_component_dbs ss' = Some c;
  ld_pool : pool_ok ss';
  ld_active : no_active ss';
  ld_copies : copies (catalog ss) (segment_db_info (fts_view c));
  ld_contents : contents_upto (total_segments (fts_view c)) (segindex <$> segment_db_info (fts_view c));
  ld_dump : dump_current ss';
}.

Lemma no_active_same ss ss' : same_pool ss ss' → no_active ss → no_active ss'.
Proof.
  intros (Hc & _). unfold no_active, cdbcomponent_activeQEsExist. cbv [mbind M_bind get mret M_ret].
  rewrite Hc. by intros [= ->].
Qed.

Lemma pool_ok_same ss ss' : same_pool ss ss' → pool_ok ss → pool_ok ss'.
Proof. intros (Hc & Hd & Hn) (c & ? & ?). exists c. by rewrite Hc, Hd, Hn. Qed.

Lemma copies_status ss c ss' :
  catalog_ok vars (catalog ss) → copies (catalog ss) (segment_db_info (fts_view c)) →
  shared ss' = upd_probe_info (published (segment_db_info (fts_view c))) (shared ss) →
  ∀ x, x ∈ segment_db_info (fts_view c) → status_ok (shared ss') (dbid x).
Proof.
  intros Hcat Hcp Hg x Hx r Hr. rewrite Hg in Hr |- *. simpl in *.
  rewrite published_status by (done || apply Hcp).
  destruct (cps_in _ _ Hcp x Hx) as (_ & rx & [d Hrx]%elem_of_rows_of & Hs).
  destruct (same_row_fields _ _ Hs) as (_ & Hd & _ & _ & Hst & _).
  rewrite Hd, (cat_key _ _ Hcat _ _ Hrx) in Hr. unfold catalog in Hrx. rewrite Hrx in Hr. injection Hr as <-.
  unfold SEGMENT_IS_ALIVE. by rewrite Hst.
Qed.

Lemma read_spec ss :
  ready ss → wp (readCdbComponentInfoAndUpdateStatus vars) (loaded ss) (λ _, False) ss.
Proof.
  intros [Hnone Hds Hcat Hf Hdump]. unfold readCdbComponentInfoAndUpdateStatus.
  eapply wp_seq; [by apply getComponents_shared|].
  intros c ss1 ((Hg1 & Hd1) & Hc1 & Hp1 & Hna1 & Hcp & Hpos & Hup).
  eapply wp_seq; [apply publish_spec|]. intros [] ss2 (Hg2 & Hd2 & Hp2). rewrite Hg1 in Hg2.
  pose proof (copies_status _ _ _ Hcat Hcp Hg2) as Hst.
  apply wp_bind, wp_env_ask. simpl. fold (shared ss2).
  assert (status_version (ftsProbeInfo (shared ss2)) = status_version (ftsProbeInfo (shared ss))) as Hv.
  { rewrite Hg2. simpl. by injection (published_counts (config <$> segment_infos c) (ftsProbeInfo (shared ss))). }
  assert (probe_counts (ftsProbeInfo (shared ss2)) = probe_counts (ftsProbeInfo (shared ss))) as Hcnt2.
  { rewrite Hg2. apply published_counts. }
  rewrite Hv. unfold probe_counts in Hcnt2. injection Hcnt2 as _ Hst2 Hdn2.
  destruct (Z.eqb_spec (status_version (ftsProbeInfo (shared ss))) 0) as [Hv0|Hv0].
  - apply wp_bind. eapply wp_seq; [apply upd_info_spec|]. intros [] ss3 (Hg3 & Hd3 & Hp3).
    eapply wp_post; [apply write_current|]. intros [] ss4 (Hcur & Hw & Hp4). apply wp_ret.
    assert (shared ss4 = shared ss3) as Hg4 by (unfold shared; by rewrite Hw).
    assert (same_pool ss1 ss4) as Hp14 by (transitivity ss2; [done|]; by transitivity ss3).
    constructor; try done.
    + unfold catalog. by rewrite Hg4, Hg3, Hg2.
    + by rewrite Hg4, Hg3, Hg2.
    + unfold started_version. rewrite Hg4, Hg3, Hv0. unfold probe_counts; simpl. by rewrite Hst2, Hdn2, Hv, Hv0.
    + intros x Hx r Hr. rewrite Hg4, Hg3 in Hr |- *. by apply (Hst x Hx).
    + by rewrite (proj1 Hp14).
    + by eapply pool_ok_same.
    + by eapply no_active_same.
  - apply wp_bind, wp_ret, wp_ret. constructor; try done.
    + unfold catalog. by rewrite Hg2.
    + by rewrite Hg2.
    + unfold started_version, probe_counts. rewrite Hst2, Hdn2, Hv. by rewrite (proj2 (Z.eqb_neq _ _)).
    + by rewrite (proj1 Hp2).
    + by eapply pool_ok_same.
    + by eapply no_active_same.
    + destruct (Hdump Hv0) as (rows & Hr & Hread). exists rows. unfold catalog. rewrite Hg2. split; [done|].
      simpl in Hread |- *. by rewrite Hd2, Hd1.
Qed.

Record iterated ss ss' : Prop := {
  it_ready : ready ss';
  it_status : ∀ r, r ∈ rows_of (catalog ss') → 0 ≤ segindex r → status_ok (shared ss') (dbid r);
  it_dump : dump_current ss';
  it_start : start_count (ftsProbeInfo (shared ss')) = swrap 32 (start_count (ftsProbeInfo (shared ss)) + 1);
  it_done : done_count (ftsProbeInfo (shared ss')) = start_count (ftsProbeInfo (shared ss'));
  it_same : catalog ss' = catalog ss →
    status_version (ftsProbeInfo (shared ss')) = started_version (status_version (ftsProbeInfo (shared ss)));
  it_changed : catalog ss' ≠ catalog ss →
    status_version (ftsProbeInfo (shared ss')) =
      wrap 8 (started_version (status_version (ftsProbeInfo (shared ss))) + 1);
}.

Lemma loaded_cluster ss c ss' :
  catalog_ok vars (catalog ss) → bms_wf (failedContentIds (shared ss)) → loaded ss c ss' →
  cluster_ok (fts_view c) (shared ss') ∧ cluster_has_mirrors (fts_view c) = true.
Proof.
  intros Hcat Hf [Hc Hfail _ Hst _ _ _ Hcp Hup _].
  pose proof (copies_positive _ _ Hcat _ _ Hcp Hup) as Hpos.
  pose proof (copy_wf _ _ Hcat _ _ Hcp Hpos Hup) as Hwf.
  split; [|exact (copy_mirrors _ _ Hcat _ _ Hcp Hpos Hup)].
  constructor; [done|by rewrite Hfail| | |done].
  - intros x Hx. destruct (cps_in _ _ Hcp x Hx) as (_ & r & [d Hr]%elem_of_rows_of & Hs).
    destruct (same_row_fields _ _ Hs) as (_ & Hd & Hrole & _ & Hstat & Hmode). exists r.
    rewrite Hd, (cat_key _ _ Hcat _ _ Hr). unfold catalog in Hc. rewrite Hc. split; [done|].
    unfold agrees. by rewrite Hrole, Hstat, Hmode.
  - intros p m. exact (copy_peer _ _ Hcat _ _ Hcp Hpos Hup p m).
Qed.

Lemma wp_in_fts {A} (m : M (fts_world N) A) (Q : A → session world → Prop) E ss :
  wp m (λ a w, Q a (set_env (mkLoopWorld w (disk (se_env ss))) ss)) E (fts_part (se_env ss)) →
  wp (in_fts m) Q E ss.
Proof. unfold wp, in_fts. by destruct (m _) as [[a w]|e]. Qed.

(** probing a loaded configuration *)
Lemma probe_spec guc fuel ss c ss1 :
  0 ≤ gp_fts_probe_retries guc → ready ss → loaded ss c ss1 →
  wp (in_fts (FtsWalRepMessageSegments (Conn := Conn) guc fuel (fts_view c)))
    (λ r ss2, match r with
              | None => True
              | Some (u, _) =>
                  (u = true ↔ catalog ss2 ≠ catalog ss) ∧ catalog_ok vars (catalog ss2) ∧
                  (∀ r, r ∈ rows_of (catalog ss2) → 0 ≤ segindex r → status_ok (shared ss2) (dbid r)) ∧
                  bms_wf (failedContentIds (shared ss2)) ∧
                  probe_counts (ftsProbeInfo (shared ss2)) = probe_counts (ftsProbeInfo (shared ss1)) ∧
                  same_pool ss1 ss2 ∧ disk (se_env ss2) = disk (se_env ss1)
              end) (env_fault guc true) ss1.
Proof.
  intros Hret Hrd Hld. destruct (loaded_cluster _ _ _ (rd_catalog _ Hrd) (rd_failed _ Hrd) Hld) as [Hcl Hm].
  apply wp_in_fts. replace (env_fault guc true) with (env_fault guc (cluster_has_mirrors (fts_view c))) by (by rewrite Hm).
  eapply wp_post; [by apply message_segments_spec; [apply Hcl|done|apply cluster_ok_rows|apply Hcl]|].
  intros [[u context]|] w; [|done]. intros Hpost.
  destruct (cycle_pairs _ _ _ _ _ _ (le_honest _ _ _ Henv) Hcl Hm Hpost) as [Hpairs Hu].
  destruct Hpost as (context0 & context1 & _ & _ & Hok & Hr & _). fold (shared ss1) in *.
  destruct (rounds_ok _ _ _ _ _ _ Hr Hok) as (_ & Hk & _ & _).
  pose proof (ld_catalog _ _ _ Hld) as Hcat1. pose proof (rd_catalog _ Hrd) as Hcat. unfold catalog in Hcat1.
  assert (catalog_ok vars (gp_segment_configuration (shared ss1))) as Hok1 by (by rewrite Hcat1).
  assert (copies (gp_segment_configuration (shared ss1)) (segment_db_info (fts_view c))) as Hcp1
    by (rewrite Hcat1; apply Hld).
  unfold catalog at 1 2. rewrite <-Hcat1. split; [exact Hu|]. split_and!; try done.
  - eapply catalog_kept; done.
  - intros r. eapply status_kept; done.
  - apply (gk_failed _ _ Hk), Hcl.
  - apply (gk_counts _ _ Hk).
Qed.

(** *** Freeing the configuration *)

Lemma framed_effect (f : world → world) :
  (∀ w, globals (fts_part (f w)) = globals (fts_part w) ∧ disk (f w) = disk w) →
  framed same_shared (env_effect f).
Proof. intros Hf ss. apply wp_env_effect. apply Hf. Qed.

Lemma upd_components_framed f : framed same_shared (upd_components (W := world) f).
Proof. unfold upd_components. repeat first [by intros ?|frame_step]. Qed.

Lemma term_framed d : framed same_shared (cdbconn_termSegmentDescriptor (W := world) d).
Proof.
  unfold cdbconn_termSegmentDescriptor, get_desc.
  repeat first [apply upd_components_framed|by apply framed_effect|by intros ?|frame_step].
Qed.

Lemma cleanup_idle_framed p w kept rest : framed same_shared (cleanup_idle (W := world) p w kept rest).
Proof.
  revert kept. induction rest as [|d rest IH]; intros kept; cbn [cleanup_idle]; unfold get_desc;
    repeat first [apply upd_components_framed|apply term_framed|apply IH|frame_step].
Qed.

Lemma cleanup_positions_framed ps w : framed same_shared (cleanup_positions (W := world) ps w).
Proof.
  induction ps as [|p ps IH]; cbn [cleanup_positions]; unfold cleanupComponentIdleQEs, get_info;
    repeat first [apply cleanup_idle_framed|apply IH|frame_step].
Qed.

Lemma destroy_framed : framed same_shared (cdbcomponent_destroyCdbComponents (W := world)).
Proof.
  unfold cdbcomponent_destroyCdbComponents, cdbcomponent_cleanupIdleQEs.
  repeat first [apply cleanup_positions_framed|by apply framed_effect|by intros ?|frame_step].
Qed.

Lemma destroy_shared ss :
  pool_ok ss → no_active ss →
  wp cdbcomponent_destroyCdbComponents
    (λ _ ss', (cdb_component_dbs ss' = None ∧ descriptors ss' = ∅) ∧ same_shared ss ss') (λ _, False) ss.
Proof. intros Hp Hna. apply wp_and; [by apply destroy_pool, Hna; apply session_pool|apply destroy_framed]. Qed.

(** *** The whole iteration *)

(** the dump file and the version, when the catalog changed *)
Lemma publish_update u ss ss0 :
  (u = true ↔ catalog ss ≠ catalog ss0) → (catalog ss = catalog ss0 → dump_current ss) →
  wp (if u then _ ← writeGpSegConfigToFTSFiles; upd_info incr_version else mret tt)
    (λ _ ss', shared ss' = (if u then upd_probe_info incr_version else id) (shared ss) ∧
              same_pool ss ss' ∧ dump_current ss') (λ _, False) ss.
Proof.
  intros Hu Hdump. destruct u.
  - eapply wp_seq; [apply write_current|]. intros [] ss1 (Hcur & Hw & Hp1).
    eapply wp_post; [apply upd_info_spec|]. intros [] ss2 (Hg2 & Hd2 & Hp2).
    assert (shared ss1 = shared ss) as Hg1 by (unfold shared; by rewrite Hw).
    split_and!; [by rewrite Hg2, Hg1|by transitivity ss1|].
    destruct Hcur as (rows & Hr & Hread). exists rows. unfold catalog in *. rewrite Hg2. split; [done|].
    simpl in *. by rewrite Hd2.
  - apply wp_ret. split_and!; [done..|]. apply Hdump. destruct (decide (catalog ss = catalog ss0)) as [|Hne]; [done|].
    by pose proof (proj2 Hu Hne).
Qed.

Lemma iterated_intro ss ss0 c ss2 u ss3 ss4 ss5 :
  ready ss → shared ss0 = upd_probe_info incr_start (shared ss) → loaded ss0 c ss2 →
  (u = true ↔ catalog ss3 ≠ catalog ss0) → catalog_ok vars (catalog ss3) →
  (∀ r, r ∈ rows_of (catalog ss3) → 0 ≤ segindex r → status_ok (shared ss3) (dbid r)) →
  bms_wf (failedContentIds (shared ss3)) →
  probe_counts (ftsProbeInfo (shared ss3)) = probe_counts (ftsProbeInfo (shared ss2)) →
  shared ss4 = (if u then upd_probe_info incr_version else id) (shared ss3) → dump_current ss4 →
  shared ss5 = upd_probe_info set_done (shared ss4) → disk (se_env ss5) = disk (se_env ss4) →
  cdb_component_dbs ss5 = None → descriptors ss5 = ∅ → iterated ss ss5.
Proof.
  intros Hrd Hg0 Hld Hu Hcat Hst Hf Hcnt Hg4 Hcur Hg5 Hd5 Hn Hds.
  assert (catalog ss5 = catalog ss3) as Hc5 by (unfold catalog; rewrite Hg5, Hg4; by destruct u).
  assert (catalog ss0 = catalog ss) as Hc0 by (unfold catalog; by rewrite Hg0).
  assert (dump_current ss5) as Hcur5.
  { destruct Hcur as (rows & Hr & Hread). exists rows. unfold catalog in *. rewrite Hg5. split; [done|].
    simpl in *. by rewrite Hd5. }
  pose proof (ld_counts _ _ _ Hld) as Hl. rewrite <-Hcnt, Hg0 in Hl. injection Hl as Hv Hs Hd. simpl in *.
  constructor.
  - constructor; [done|done|by rewrite Hc5| |done]. rewrite Hg5, Hg4. by destruct u.
  - intros r. rewrite Hc5. intros Hr Hge d Hd'. rewrite Hg5, Hg4 in Hd' |- *.
    specialize (Hst r Hr Hge d). destruct u; by apply Hst.
  - done.
  - rewrite Hg5, Hg4. by destruct u.
  - by rewrite Hg5.
  - rewrite Hc5, <-Hc0. intros Heq. destruct u; [by destruct (proj1 Hu eq_refl)|]. by rewrite Hg5, Hg4.
  - rewrite Hc5, <-Hc0. intros Hne. rewrite (proj2 Hu Hne) in Hg4. rewrite Hg5, Hg4. simpl. by rewrite Hv.
Qed.

Lemma probe_and_publish_spec guc fuel ss :
  0 ≤ gp_fts_probe_retries guc → ready ss →
  wp (probe_and_publish (Conn := Conn) vars fuel guc)
    (λ r ss', r = Some tt → iterated ss ss') (env_fault guc true) ss.
Proof.
  intros Hret Hrd. unfold probe_and_publish. eapply wp_seq; [apply upd_info_spec|].
  intros [] ss0 (Hg0 & Hd0 & Hp0).
  assert (ready ss0) as Hrd0.
  { destruct Hrd as [H1 H2 H3 H4 H5], Hp0 as (Hc & Hds & _). constructor; unfold catalog in *; rewrite ?Hg0; try congruence.
    - done.
    - done.
    - intros Hv. destruct (H5 Hv) as (rows & Hr & Hread). exists rows. unfold catalog. rewrite Hg0.
      split; [done|]. simpl in *. congruence. }
  apply wp_seq with (loaded ss0); [by eapply wp_mono; [apply read_spec|..]|]. intros c ss1 Hld.
  do 2 apply wp_bind, wp_env_effect. set (ss2 := set_env _ (set_env _ ss1)).
  assert (loaded ss0 c ss2) as Hld2
    by (destruct Hld; constructor; try done; by apply (no_active_same ss1)). clearbody ss2. clear Hld ss1.
  eapply wp_seq; [by eapply probe_spec|].
  intros [[u context]|] ss3; [|intros _; by apply wp_ret].
  intros (Hu & Hcat3 & Hst3 & Hf3 & Hcnt3 & Hp3 & Hd3). apply wp_bind.
  eapply wp_mono; [apply (publish_update u ss3 ss0 Hu)| |done].
  { intros Heq. destruct (ld_dump _ _ _ Hld2) as (rows & Hr & Hread). exists rows.
    rewrite Heq, <-(ld_catalog _ _ _ Hld2). split; [done|]. simpl in *. by rewrite Hd3. }
  intros [] ss4 (Hg4 & Hp4 & Hcur). apply wp_bind.
  assert (same_pool ss2 ss4) as Hp24 by (by transitivity ss3).
  eapply wp_mono; [apply destroy_shared|..]; [| | |done].
  { eapply pool_ok_same; [done|apply Hld2]. }
  { eapply no_active_same; [done|apply Hld2]. }
  intros [] ss5 ((Hn5 & Hds5) & Hg5 & Hd5). apply wp_bind. eapply wp_post; [apply upd_info_spec|].
  intros [] ss6 (Hg6 & Hd6 & Hc6 & Hds6 & _). apply wp_ret. intros _.
  rewrite Hg5 in Hg6. apply (iterated_intro ss ss0 c ss2 u ss3 ss4); try done; congruence.
Qed.

(** *** The loop *)

Definition quiet ss ss' : Prop := same_shared ss ss' ∧ same_pool ss ss'.

Lemma dump_quiet ss ss' : quiet ss ss' → dump_current ss → dump_current ss'.
Proof.
  intros [[Hg Hd] _] (rows & Hr & Hread). exists rows. unfold catalog in *. rewrite Hg. split; [done|].
  simpl in *. by rewrite Hd.
Qed.

Lemma ready_quiet ss ss' : quiet ss ss' → ready ss → ready ss'.
Proof.
  intros Hq [H1 H2 H3 H4 H5]. pose proof Hq as [[Hg Hd] (Hc & Hds & _)].
  constructor; unfold catalog in *; rewrite ?Hg; try congruence. intros Hv. by eapply dump_quiet, H5.
Qed.

Lemma iterated_before ss ss1 ss2 : quiet ss ss1 → iterated ss1 ss2 → iterated ss ss2.
Proof. intros [[Hg _] _] []. constructor; unfold catalog in *; rewrite <-?Hg; done. Qed.

Lemma iterated_after ss ss1 ss2 : iterated ss ss1 → quiet ss1 ss2 → iterated ss ss2.
Proof.
  intros [] Hq. pose proof Hq as [[Hg _] _].
  constructor; unfold catalog in *; rewrite ?Hg; try done; [by eapply ready_quiet|by eapply dump_quiet].
Qed.

Definition loop_ready (s : loop_state N D) : Prop :=
  ready (fts_session s) ∧ 0 ≤ gp_fts_probe_retries (probe_gucs (loop_settings s)).

(** the errors that end the process: libpq has no memory, libpq reports an obsolete status,
    poll() fails *)
Definition loop_fault (e : fault) : Prop :=
  e = ElogError "FTS: cannot create libpq connection object, possibly out of memory" ∨
  e = ElogError "FTS: invalid response to PQconnectPoll" ∨
  e = ElogError "FTS: ftsPoll() failed".

Lemma wp_net_call {A} (f : N → A * N) (Q : A → loop_state N D → Prop) E s :
  (∀ n ss', quiet (fts_session s) ss' → Q (f n).1 (mkLoopState ss' (loop_settings s))) → wp (net_call f) Q E s.
Proof.
  intros Hpost. unfold wp, net_call, in_session, env_call, with_net.
  destruct s as [ss set]; simpl in *. specialize (Hpost (env (fts_part (se_env ss)))).
  destruct (f (env (fts_part (se_env ss)))) as [a n]. by apply Hpost.
Qed.

Lemma wp_in_session {A} (m : M (session world) A) (Q : A → loop_state N D → Prop) E s :
  wp m (λ a ss', Q a (mkLoopState ss' (loop_settings s))) E (fts_session s) → wp (in_session m) Q E s.
Proof. unfold wp, in_session. by destruct (m _) as [[a ss']|e]. Qed.

Lemma reload_spec s E :
  loop_ready s →
  wp reload_config (λ _ s', loop_ready s' ∧ quiet (fts_session s) (fts_session s')) E s.
Proof.
  intros [Hrd Hret]. unfold reload_config. apply wp_bind. unfold wp at 1, get. case_match; [|by apply wp_ret].
  apply wp_bind, wp_net_call. intros n ss' Hq. apply wp_modify. split; [|done].
  split; [by eapply ready_quiet|apply Henv].
Qed.

Lemma iteration_spec fuel s :
  loop_ready s →
  wp (FtsLoop_iteration (Conn := Conn) vars fuel)
    (λ r s', r ≠ ProbeUnfinished → loop_ready s' ∧ iterated (fts_session s) (fts_session s')) loop_fault s.
Proof.
  intros Hrd. unfold FtsLoop_iteration. eapply wp_seq; [by apply reload_spec|].
  intros [] s1 [[Hrd1 Hret1] Hq1]. apply wp_bind, wp_net_call. intros n ss2 Hq2. simpl.
  apply wp_bind. unfold wp at 1, get. apply wp_bind, wp_in_session. simpl.
  eapply wp_mono; [apply probe_and_publish_spec; [done|by eapply ready_quiet]|..].
  2: { intros e [?|[?|[?|(? & _)]]]; unfold loop_fault; auto; done. }
  intros [[]|] ss3; [|intros _; by apply wp_ret]. intros Hit. specialize (Hit eq_refl).
  apply wp_bind, wp_net_call. intros n4 ss4 Hq4. simpl. apply wp_bind. unfold wp at 1, get.
  apply wp_bind, wp_net_call. intros n5 ss5 Hq5. apply wp_ret. intros _. simpl in *.
  pose proof (iterated_before _ _ _ Hq1 (iterated_before _ _ _ Hq2
    (iterated_after _ _ _ (iterated_after _ _ _ Hit Hq4) Hq5))) as Hall.
  split; [|done]. split; [by apply Hall|done].
Qed.

Definition starts (s : loop_state N D) : Z := start_count (ftsProbeInfo (shared (fts_session s))).

Lemma loop_spec n fuel s :
  loop_ready s →
  wp (FtsLoop (Conn := Conn) vars (S n) fuel)
    (λ r s', r ≠ ProbeUnfinished →
       ∃ k s0, 1 ≤ k ≤ Z.of_nat (S n) ∧ (r = Continue → k = Z.of_nat (S n)) ∧
         loop_ready s' ∧ iterated (fts_session s0) (fts_session s') ∧ starts s' = swrap 32 (starts s + k))
    loop_fault s.
Proof.
  revert s. induction n as [|n IH]; intros s Hrd; cbn [FtsLoop]; apply wp_bind;
    (eapply wp_post; [by apply iteration_spec|]); intros r s1 Hit.
  all: assert (∀ k, r ≠ ProbeUnfinished → 1 ≤ k → (r = Continue → k = 1) →
     ∃ k' s0, 1 ≤ k' ≤ k ∧ (r = Continue → k' = k) ∧ loop_ready s1 ∧
       iterated (fts_session s0) (fts_session s1) ∧ starts s1 = swrap 32 (starts s + k')) as Hone
    by (intros k Hr Hk Hc; destruct (Hit Hr) as [Hrd1 Hit1]; exists 1, s;
        split_and!; [lia..|intros; symmetry; auto|done|done|apply (it_start _ _ Hit1)]).
  - destruct r; apply wp_ret; try done; intros Hr; apply Hone; done || lia.
  - destruct r; [by apply wp_ret|apply wp_ret; intros Hr; apply Hone; done || lia|].
    destruct (Hit ltac:(done)) as [Hrd1 Hit1]. eapply wp_post; [by apply IH|].
    intros r s2 Hs2 Hr. destruct (Hs2 Hr) as (k & s0 & Hk & Hc & Hrd2 & Hit2 & Hst). exists (k + 1), s0.
    split_and!; [lia..| |done|done|].
    + intros Hrc. specialize (Hc Hrc). lia.
    + rewrite Hst. unfold starts at 1. rewrite (it_start _ _ Hit1), swrap_add by lia. f_equal. unfold starts. lia.
Qed.
End iteration.

(** ** A concrete cluster

    The segments answer that the mirror is up and in sync, names resolve to one address,
    and the files are kept in a map. *)

Definition memory_host : LoopEnv Z (gmap string string) := {|
  scan_order cat _ := rows_of cat;
  host_getaddrinfo name service n := ((0, [mkAddr AF_INET "10.0.0.1"]), n);
  host_expand_version _ := 0;
  got_SIGHUP _ := false;
  ProcessConfigFile n := (mkLoopGucs demo_gucs 60, n);
  probe_requested _ := false;
  clear_probe_requested n := n;
  WaitLatch t n := (false, n + t / 1000);
  disk_read f d := d !! f;
  disk_create f d := (true, <[f := EmptyString]> d);
  disk_write f t d := (true, alter (λ c, c +:+ t) f d);
  disk_close f d := d;
  disk_rename f g d := (true, match d !! f with Some c => <[g := c]> (delete f d) | None => d end);
|}.

(** the mirror is reported down *)
Definition demo_libpq : Libpq Z unit := scripted CONNECTION_OK false (response false false true false false).

Definition demo_coordinator : GpSegConfigEntry :=
  mkSeg 1 (-1) ROLE_PRIMARY ROLE_PRIMARY MODE_NOTINSYNC STATUS_UP 5432 "h0" "h0" "/d" None.
Definition demo_catalog : gmap Z GpSegConfigEntry :=
  {[1 := demo_coordinator; 2 := demo_primary; 3 := demo_mirror]}.
Definition demo_loop : loop_state Z (gmap string string) :=
  mkLoopState
    (mkSession (mkLoopWorld (mkWorld 100 (mkGlobals demo_catalog [] (mkProbeInfo 0 ∅ 0 0) None [] false)) ∅)
       None None ∅ 1)
    (mkLoopGucs demo_gucs 60).

Lemma demo_catalog_rows : rows_of demo_catalog = [demo_mirror; demo_primary; demo_coordinator].
Proof. vm_compute. reflexivity. Qed.

Lemma demo_catalog_ok : catalog_ok prober_vars demo_catalog.
Proof.
  constructor.
  - intros d r. unfold demo_catalog. rewrite !lookup_insert_Some, lookup_singleton_Some.
    by intros [[<- <-]|[_ [[<- <-]|[_ [<- <-]]]]].
  - rewrite demo_catalog_rows. constructor.
    + repeat constructor; vm_compute; lia.
    + exists 1. split; [lia|]. intros i. vm_compute (seg_rows _). rewrite !fmap_cons, !elem_of_cons. simpl.
      rewrite elem_of_nil. lia.
    + vm_compute. lia.
    + exists demo_coordinator. split; [|done]. apply list_elem_of_filter. split; [done|]. right. right. left.
  - rewrite demo_catalog_rows. intros r Hr Hge. exists demo_primary, demo_mirror.
    assert (segindex r = 0) as -> by (by repeat (apply elem_of_cons in Hr as [->|Hr]); [..|apply elem_of_nil in Hr]).
    unfold content_pair. rewrite demo_catalog_rows. split_and!; try done.
    + right. left.
    + left.
    + by exists true, true.
    + intros x Hx. repeat (apply elem_of_cons in Hx as [->|Hx]); [auto..|done|by apply elem_of_nil in Hx].
Qed.

Lemma demo_loop_env : loop_env_ok Z (gmap string string) unit (LP := demo_libpq) (LE := memory_host).
Proof.
  constructor; try done.
  - repeat constructor; done.
  - constructor; simpl; unfold with_disk; simpl.
    + intros f w. by rewrite lookup_insert_eq.
    + intros f t l w Ht. split; [done|]. by rewrite lookup_alter_eq, Ht.
    + done.
    + intros f g t w Ht. rewrite Ht. by rewrite lookup_insert_eq.
    + done.
  - by apply scripted_honest.
Qed.

Lemma demo_loop_ready : loop_ready prober_vars demo_loop (LE := memory_host).
Proof. split; [|done]. constructor; [done|done|apply demo_catalog_ok|done|done]. Qed.


