(* ===== verification/FtsNotify.v ===== *)
(** * Waiting for a probe cycle ([src/backend/cdb/cdbfts.c])

    A backend that met an error calls FtsNotifyProber to have the segments probed, and
    waits for a cycle to end.  It and the FTS process share start_count and done_count,
    two int32 counters under a spin lock; each locked section is one step here.  The
    loops of the backend are its program counter; the steps of the FTS process are those
    of [FtsLoop.v].  The process may die in a cycle and be started again. *)

From S2P Require Import Prelude Bitmapset CLib FtsConfig Libpq FtsProbe FtsLoop.

Inductive notify_pc :=
  | NotCalled
  | WaitStart (initial_started : Z)
  | WaitDone (started : Z)
  | Returned.
#[export] Instance notify_pc_eq_dec : EqDecision notify_pc.
Proof. solve_decision. Defined.

(** one locked section of FtsNotifyProber, and whether PMSIGNAL_WAKEN_FTS is sent after it;
    [pid] is FtsProbePID() *)
Definition FtsNotifyProber_step (pid : Z) (am_fts : bool) (info : FtsProbeInfo) (pc : notify_pc)
    : notify_pc * bool :=
  match pc with
  | NotCalled =>
      if pid =? 0 then (Returned, false)
      else if am_fts then (Returned, false)
      else (WaitStart (start_count info), true)
  | WaitStart initial_started =>
      let started := start_count info in
      if negb (started =? initial_started) then (WaitDone started, false)
      else (WaitStart initial_started, false)
  | WaitDone started =>
      if 0 <=? swrap 32 (done_count info - started) then (Returned, false)
      else (WaitDone started, false)
  | Returned => (Returned, false)
  end.

(** The shared counters, the two processes (whether the backend has sent its signal), and
    the history: how many cycles were started, the number of the last one that ended, and
    how many had been started when the backend made its call. *)
Record notify_sys := mkNotify {
  ns_info : FtsProbeInfo;
  ns_probing : bool;
  ns_pc : notify_pc;
  ns_waken : bool;
  cycles_started : Z;
  last_done : Z;
  at_call : Z;
}.

(** Between two cycles that end, fewer than 2^31 are cut off by the death of the process. *)
Inductive notify_trans (pid : Z) : notify_sys → notify_sys → Prop :=
  | prober_start i pc w n ld ac :
      n + 1 - ld < 2 ^ 31 →
      notify_trans pid (mkNotify i false pc w n ld ac) (mkNotify (incr_start i) true pc w (n + 1) ld ac)
  | prober_done i pc w n ld ac :
      notify_trans pid (mkNotify i true pc w n ld ac) (mkNotify (set_done i) false pc w n n ac)
  | prober_dies i pc w n ld ac :
      notify_trans pid (mkNotify i true pc w n ld ac) (mkNotify i false pc w n ld ac)
  | status_changes i i' b pc w n ld ac :
      start_count i' = start_count i → done_count i' = done_count i →
      notify_trans pid (mkNotify i b pc w n ld ac) (mkNotify i' b pc w n ld ac)
  | backend_step i b pc w n ld ac pc' sent :
      FtsNotifyProber_step pid false i pc = (pc', sent) →
      notify_trans pid (mkNotify i b pc w n ld ac)
        (mkNotify i b pc' (w || sent) n ld (if decide (pc = NotCalled) then n else ac)).

(** shared memory is zeroed when the server starts *)
Inductive notify_reachable (pid : Z) : notify_sys → Prop :=
  | notify_init i :
      start_count i = 0 → done_count i = 0 →
      notify_reachable pid (mkNotify i false NotCalled false 0 0 0)
  | notify_next σ σ' : notify_reachable pid σ → notify_trans pid σ σ' → notify_reachable pid σ'.

(** ** The counters and the history *)

Definition pc_ok (pc : notify_pc) (σ : notify_sys) : Prop :=
  match pc with
  | NotCalled => True
  | WaitStart initial => initial = swrap 32 (at_call σ) ∧ ns_waken σ = true
  | WaitDone started => ∃ k, started = swrap 32 k ∧ at_call σ < k ≤ cycles_started σ ∧ ns_waken σ = true
  | Returned => cycles_started σ - at_call σ < 2 ^ 31 → at_call σ < last_done σ
  end.

Record notify_inv (σ : notify_sys) : Prop := {
  ni_start : start_count (ns_info σ) = swrap 32 (cycles_started σ);
  ni_done : done_count (ns_info σ) = swrap 32 (last_done σ);
  ni_order : 0 ≤ last_done σ ≤ cycles_started σ;
  ni_lag : cycles_started σ - last_done σ < 2 ^ 31;
  ni_call : at_call σ ≤ cycles_started σ;
  ni_pc : pc_ok (ns_pc σ) σ;
}.

Lemma swrap_sub_swrap n a b : 0 ≤ n → swrap n (swrap n a - swrap n b) = swrap n (a - b).
Proof.
  intros Hn. unfold swrap at 1 4. rewrite Zminus_mod, !swrap_mod, <-Zminus_mod by done. done.
Qed.

(** the comparison of the second loop decides the order of the cycles *)
Lemma done_check a b :
  - 2 ^ 31 ≤ a - b < 2 ^ 31 → (0 <=? swrap 32 (swrap 32 a - swrap 32 b)) = (b <=? a).
Proof.
  intros H. rewrite swrap_sub_swrap, swrap_id by lia.
  destruct (Z.leb_spec 0 (a - b)), (Z.leb_spec b a); lia || done.
Qed.

Lemma backend_inv pid i b pc w n ld ac pc' sent :
  pid ≠ 0 → notify_inv (mkNotify i b pc w n ld ac) → FtsNotifyProber_step pid false i pc = (pc', sent) →
  notify_inv (mkNotify i b pc' (w || sent) n ld (if decide (pc = NotCalled) then n else ac)).
Proof.
  intros Hpid [Hs Hd Ho Hl Hc Hpc] Hstep. simpl in *.
  destruct pc as [|initial|started|]; simpl in Hstep, Hpc.
  - rewrite (proj2 (Z.eqb_neq _ _) Hpid) in Hstep. injection Hstep as <- <-.
    constructor; simpl; try done. by rewrite orb_true_r.
  - destruct Hpc as [-> ->]. rewrite decide_False by done. simpl.
    destruct (Z.eqb_spec (start_count i) (swrap 32 ac)) as [|Hne]; injection Hstep as <- <-.
    + by constructor.
    + constructor; try done. simpl. exists n. rewrite Hs in Hne. split_and!; [done|..|lia|done].
      destruct (decide (n = ac)) as [->|]; [done|lia].
  - destruct Hpc as (k & -> & Hk & ->). rewrite decide_False by done. simpl.
    rewrite Hd in Hstep. destruct (0 <=? _) eqn:Hle; injection Hstep as <- <-.
    + constructor; try done. simpl. intros Hbound. rewrite done_check in Hle by lia.
      apply Z.leb_le in Hle. lia.
    + constructor; try done. simpl. by exists k.
  - injection Hstep as <- <-. rewrite decide_False by done. rewrite orb_false_r. by constructor.
Qed.

Lemma notify_reachable_inv pid σ : pid ≠ 0 → notify_reachable pid σ → notify_inv σ.
Proof.
  intros Hpid. induction 1 as [i Hs Hd|σ σ' _ IH Ht].
  { constructor; simpl; rewrite ?Hs, ?Hd; done || lia. }
  destruct Ht as [i pc w n ld ac Hb|i pc w n ld ac|i pc w n ld ac|i i' b pc w n ld ac Hs' Hd'|].
  5: by eapply backend_inv.
  all: destruct IH as [Hs Hd Ho Hl Hc Hpc]; simpl in *.
  - constructor; simpl; try lia; [by rewrite Hs, swrap_add|].
    destruct pc as [| |st|]; simpl in *; try done; [|intros; apply Hpc; lia].
    destruct Hpc as (k & ? & ? & ?). exists k. split_and!; done || lia.
  - constructor; simpl; try done; try lia.
    destruct pc as [| |st|]; simpl in *; try done. intros Hb. specialize (Hpc Hb). lia.
  - by constructor.
  - constructor; simpl; try done; congruence.
Qed.


