(* ===== verification/GpReplication.v ===== *)
(** * Replication status on a primary ([src/backend/replication/gp_replication.c])

    What a primary knows about its mirror: the status slots kept for FTS, which the
    walsender updates and the FTS handler reads, and the state of the walsenders.
    One operation runs at a time (the sources hold FTSReplicationStatusLock, the
    slot's mutex or SyncRepLock).  Writing gp_replication.conf and asking the
    postmaster to reload it are recorded as effects. *)

From S2P Require Import Prelude CLib.

Inductive WalSndState :=
  | WALSNDSTATE_STARTUP
  | WALSNDSTATE_BACKUP
  | WALSNDSTATE_CATCHUP
  | WALSNDSTATE_STREAMING
  | WALSNDSTATE_STOPPING.

#[export] Instance WalSndState_eq_dec : EqDecision WalSndState.
Proof. solve_decision. Defined.

Inductive WalSndError := WALSNDERROR_NONE | WALSNDERROR_WALREAD.

(** [struct WalSnd], the fields read here *)
Record WalSnd := mkWalSnd {
  pid : Z;
  wal_state : WalSndState;
  write : Z;
  caughtup_within_range : bool;
  is_for_gp_walreceiver : bool;
}.

Record FTSReplicationStatus := mkStatus {
  name : string;
  in_use : bool;
  con_attempt_count : Z;
  replica_disconnected_at : Z;
}.

Inductive repl_effect :=
  | SetGpReplicationConfig (guc value : string)
  | ReloadConf.

(** shared memory: FTSRepStatusCtl and WalSndCtl *)
Record repl_state := mkRepl {
  replications : list FTSReplicationStatus;
  walsnds : list WalSnd;
  sync_standbys_defined : bool;
  walsnd_error : WalSndError;
  effects : list repl_effect;
}.
Definition set_replications (l : list FTSReplicationStatus) (s : repl_state) : repl_state :=
  mkRepl l (walsnds s) (sync_standbys_defined s) (walsnd_error s) (effects s).
Definition add_effects (l : list repl_effect) (s : repl_state) : repl_state :=
  mkRepl (replications s) (walsnds s) (sync_standbys_defined s) (walsnd_error s) (effects s ++ l).

(** GUCs and the postmaster's start time *)
Record repl_config := mkReplConfig {
  gp_fts_replication_attempt_count : Z;
  gp_fts_mark_mirror_down_grace_period : Z;
  PMAcceptingConnectionsStartTime : Z;
}.

Definition GP_WALRECEIVER_APPNAME : string := "gp_walreceiver".

(** [strncmp(a, b, n) == 0] and [strcmp(a, b) == 0] *)
Definition strncmp_eq (n : nat) (a b : string) : bool :=
  bool_decide (String.substring 0 n a = String.substring 0 n b).
Definition strcmp_eq (a b : string) : bool := bool_decide (a = b).

(** [StrNCpy(dst, src, NAMEDATALEN)] *)
Definition StrNCpy (src : string) : string := String.substring 0 (NAMEDATALEN - 1) src.

Definition zero_status : FTSReplicationStatus := mkStatus EmptyString false 0 0.

Definition FTSReplicationStatusShmemInit (found : bool) (max_replication_status : nat)
    (s : repl_state) : repl_state :=
  if found then s else set_replications (replicate max_replication_status zero_status) s.

(** the loop of FTSReplicationStatusCreateIfNotExist from slot [i] on, [free] the first
    free slot so far: None when the status exists *)
Fixpoint scan_slots (app_name : string) (l : list FTSReplicationStatus) (i : nat)
    (free : option nat) : option (option nat) :=
  match l with
  | [] => Some free
  | slot :: l =>
      if in_use slot then
        if strncmp_eq NAMEDATALEN app_name (name slot) then None
        else scan_slots app_name l (S i) free
      else
        scan_slots app_name l (S i) (match free with None => Some i | Some _ => free end)
  end.

Definition too_many_msg : string :=
  "number of requested standby connections exceeds max_replication_status".

(** [application_name] is the GUC of this walsender *)
Definition FTSReplicationStatusCreateIfNotExist (application_name app_name : string)
    (s : repl_state) : res repl_state :=
  match scan_slots app_name (replications s) 0 None with
  | None => Ok s
  | Some (Some i) =>
      Ok (set_replications (<[i := mkStatus (StrNCpy application_name) true 0 0]>
                              (replications s)) s)
  | Some None => Err (ElogError too_many_msg)
  end.

Definition FTSReplicationStatusDrop (app_name : string) (s : repl_state) : repl_state :=
  set_replications
    ((λ slot, if in_use slot && strcmp_eq app_name (name slot)
              then mkStatus EmptyString false (con_attempt_count slot) (replica_disconnected_at slot)
              else slot) <$> replications s) s.

(** the index of the slot, None for NULL *)
Fixpoint find_slot (app_name : string) (l : list FTSReplicationStatus) (i : nat) : option nat :=
  match l with
  | [] => None
  | slot :: l => if in_use slot && strcmp_eq app_name (name slot) then Some i
                 else find_slot app_name l (S i)
  end.
Definition RetrieveFTSReplicationStatus (app_name : string) (s : repl_state) : option nat :=
  find_slot app_name (replications s) 0.

(** apply [f] to the slot a pointer refers to; nothing for NULL *)
Definition with_slot (f : FTSReplicationStatus → FTSReplicationStatus) (p : option nat)
    (s : repl_state) : repl_state :=
  match p with
  | None => s
  | Some i => set_replications (alter f i (replications s)) s
  end.
Definition slot_value {A} (zero : A) (f : FTSReplicationStatus → A) (p : option nat)
    (s : repl_state) : A :=
  match p with
  | None => zero
  | Some i => match replications s !! i with Some slot => f slot | None => zero end
  end.

Definition FTSReplicationStatusMarkDisconnect (now : Z) : option nat → repl_state → repl_state :=
  with_slot (λ slot, mkStatus (name slot) (in_use slot) (wrap 32 (con_attempt_count slot + 1)) now).
Definition FTSReplicationStatusClearAttempts : option nat → repl_state → repl_state :=
  with_slot (λ slot, mkStatus (name slot) (in_use slot) 0 (replica_disconnected_at slot)).
Definition FTSReplicationStatusRetrieveAttempts : option nat → repl_state → Z :=
  slot_value 0 con_attempt_count.
Definition FTSReplicationStatusClearDisconnectTime : option nat → repl_state → repl_state :=
  with_slot (λ slot, mkStatus (name slot) (in_use slot) (con_attempt_count slot) 0).
Definition FTSReplicationStatusRetrieveDisconnectTime : option nat → repl_state → Z :=
  slot_value 0 replica_disconnected_at.

Definition is_mirror_up (walsender : WalSnd) : bool :=
  let walsender_has_pid := negb (pid walsender =? 0) in
  let is_communicating_with_mirror :=
    (bool_decide (wal_state walsender = WALSNDSTATE_CATCHUP) && negb (write walsender =? 0))
    || bool_decide (wal_state walsender = WALSNDSTATE_STREAMING) in
  walsender_has_pid && is_communicating_with_mirror.

Definition FTSReplicationStatusUpdateForWalState (app_name : string) (state : WalSndState)
    (MyWalSnd : WalSnd) (now : Z) (s : repl_state) : repl_state :=
  match RetrieveFTSReplicationStatus app_name s with
  | None => s
  | Some i =>
      if is_mirror_up MyWalSnd then
        let s := FTSReplicationStatusClearDisconnectTime (Some i) s in
        if decide (state = WALSNDSTATE_STREAMING)
        then FTSReplicationStatusClearAttempts (Some i) s else s
      else if FTSReplicationStatusRetrieveDisconnectTime (Some i) s =? 0
      then FTSReplicationStatusMarkDisconnect now (Some i) s
      else s
  end.

Definition FTSReplicationStatusMarkDisconnectForReplication (app_name : string) (now : Z)
    (s : repl_state) : repl_state :=
  FTSReplicationStatusMarkDisconnect now (RetrieveFTSReplicationStatus app_name s) s.

(** the comparison is between uint32 and int, hence unsigned *)
Definition FTSGetReplicationDisconnectTime (cfg : repl_config) (app_name : string)
    (s : repl_state) : Z :=
  match RetrieveFTSReplicationStatus app_name s with
  | None => 0
  | Some i =>
      if FTSReplicationStatusRetrieveAttempts (Some i) s
           <=? wrap 32 (gp_fts_replication_attempt_count cfg)
      then FTSReplicationStatusRetrieveDisconnectTime (Some i) s
      else 0
  end.

Definition is_probe_retry_needed (cfg : repl_config) (now : Z) (s : repl_state) : bool :=
  let walsender_replica_disconnected_at :=
    FTSGetReplicationDisconnectTime cfg GP_WALRECEIVER_APPNAME s in
  let delta :=
    swrap 64 (now - Z.max walsender_replica_disconnected_at (PMAcceptingConnectionsStartTime cfg)) in
  (delta <? gp_fts_mark_mirror_down_grace_period cfg) && (0 <=? delta).

(** [FtsResponse] of [postmaster/fts.h] *)
Record FtsResponse := mkResponse {
  IsMirrorUp : bool;
  IsInSync : bool;
  IsSyncRepEnabled : bool;
  IsRoleMirror : bool;
  RequestRetry : bool;
}.

(** the loop over the walsenders: up, in sync, ready for syncrep *)
Fixpoint scan_walsenders (l : list WalSnd) : bool * bool * bool :=
  match l with
  | [] => (false, false, false)
  | walsender :: l =>
      if negb (is_for_gp_walreceiver walsender) then scan_walsenders l
      else
        let is_up := is_mirror_up walsender in
        let is_streaming := bool_decide (wal_state walsender = WALSNDSTATE_STREAMING) in
        let ready :=
          is_up && (bool_decide (wal_state walsender = WALSNDSTATE_STREAMING) ||
                    (bool_decide (wal_state walsender = WALSNDSTATE_CATCHUP) &&
                     caughtup_within_range walsender)) in
        (is_up, is_up && is_streaming, ready)
  end.

(** the response with its fields filled in, and [*ready_for_syncrep] *)
Definition GetMirrorStatus (cfg : repl_config) (now : Z) (response : FtsResponse)
    (s : repl_state) : FtsResponse * bool :=
  let '(up, insync, ready) := scan_walsenders (walsnds s) in
  let retry := if negb up then is_probe_retry_needed cfg now s else false in
  (mkResponse up insync (sync_standbys_defined s) (IsRoleMirror response) retry, ready).

Definition SetSyncStandbysDefined (s : repl_state) : repl_state :=
  if negb (sync_standbys_defined s)
  then add_effects [SetGpReplicationConfig "synchronous_standby_names" "*"; ReloadConf] s
  else s.

Definition UnsetSyncStandbysDefined (s : repl_state) : repl_state :=
  let s :=
    if sync_standbys_defined s
    then add_effects [SetGpReplicationConfig "synchronous_standby_names" EmptyString; ReloadConf] s
    else s in
  FTSReplicationStatusDrop GP_WALRECEIVER_APPNAME s.

Definition gp_replication_error (s : repl_state) : string :=
  match walsnd_error s with WALSNDERROR_WALREAD => "walread" | WALSNDERROR_NONE => "none" end.
