(* ===== verification/GpReplicationFacts.v ===== *)
(** * Theorems about the replication status of a primary *)

From S2P Require Import Prelude CLib GpReplication.

(** ** Strings *)

Lemma substring_length n s : (String.length (String.substring 0 n s) ≤ n)%nat.
Proof.
  revert n. induction s as [|c s IH]; intros [|n]; simpl; try lia. specialize (IH n). lia.
Qed.

Lemma strncmp_strcmp a b :
  (String.length a < NAMEDATALEN)%nat → (String.length b < NAMEDATALEN)%nat →
  strncmp_eq NAMEDATALEN a b = strcmp_eq a b.
Proof. intros Ha Hb. unfold strncmp_eq, strcmp_eq. by rewrite !substring_all by lia. Qed.

(** ** Slots *)

(** [slot] is the status of [app] *)
Definition is_status (app : string) (slot : FTSReplicationStatus) : Prop :=
  in_use slot = true ∧ name slot = app.

Lemma find_slot_spec app l i :
  match find_slot app l i with
  | Some k => ∃ j slot, k = (i + j)%nat ∧ l !! j = Some slot ∧ is_status app slot
  | None => ∀ slot, slot ∈ l → ¬ is_status app slot
  end.
Proof.
  revert i. induction l as [|slot l IH]; intros i; simpl.
  { by intros slot ?%elem_of_nil. }
  destruct (in_use slot && strcmp_eq app (name slot)) eqn:Hs.
  - apply andb_true_iff in Hs as [? ?%bool_decide_eq_true]. exists 0%nat, slot.
    split_and!; [lia|done..].
  - specialize (IH (S i)). destruct (find_slot app l (S i)) as [k|].
    + destruct IH as (j & slot' & -> & ? & ?). exists (S j), slot'. split_and!; [lia|done..].
    + intros x [->|Hx]%elem_of_cons; [|by apply IH]. intros [Hu Hn].
      apply andb_false_iff in Hs as [Hs|Hs]; [congruence|]. by apply bool_decide_eq_false in Hs.
Qed.

(** names of slots in use fit and are distinct *)
Definition slots_wf (l : list FTSReplicationStatus) : Prop :=
  (∀ slot, slot ∈ l → in_use slot = true → (String.length (name slot) < NAMEDATALEN)%nat) ∧
  (∀ i j a b, l !! i = Some a → l !! j = Some b → in_use a = true → in_use b = true →
     name a = name b → i = j).

Lemma scan_slots_spec app l i free :
  (String.length app < NAMEDATALEN)%nat →
  (∀ slot, slot ∈ l → in_use slot = true → (String.length (name slot) < NAMEDATALEN)%nat) →
  match scan_slots app l i free with
  | None => ∃ slot, slot ∈ l ∧ is_status app slot
  | Some r => (∀ slot, slot ∈ l → ¬ is_status app slot) ∧
      match free with
      | Some f => r = Some f
      | None =>
          match r with
          | Some k => ∃ j slot, k = (i + j)%nat ∧ l !! j = Some slot ∧ in_use slot = false
          | None => ∀ slot, slot ∈ l → in_use slot = true
          end
      end
  end.
Proof.
  intros Happ. revert i free. induction l as [|slot l IH]; intros i free Hl; simpl.
  { split; [by intros slot ?%elem_of_nil|]. destruct free; [done|]. by intros slot ?%elem_of_nil. }
  assert (Hl' : ∀ x, x ∈ l → in_use x = true → (String.length (name x) < NAMEDATALEN)%nat).
  { intros x Hx. apply Hl. by right. }
  destruct (in_use slot) eqn:Hu.
  - rewrite strncmp_strcmp; [|done|by apply Hl; [left|]]. unfold strcmp_eq.
    case_bool_decide as Hn; [exists slot; split; [left|done]|].
    specialize (IH (S i) free Hl'). destruct (scan_slots app l (S i) free) as [r|].
    + destruct IH as [Hno Hr]. split.
      * intros x [->|Hx]%elem_of_cons; [|by apply Hno]. intros [_ ?]. congruence.
      * destruct free; [done|]. destruct r as [k|].
        -- destruct Hr as (j & x & -> & ? & ?). exists (S j), x. split_and!; [lia|done..].
        -- intros x [->|Hx]%elem_of_cons; [done|by apply Hr].
    + destruct IH as (x & Hx & ?). exists x. split; [by right|done].
  - specialize (IH (S i) (match free with None => Some i | Some _ => free end) Hl').
    destruct (scan_slots app l (S i) _) as [r|].
    + destruct IH as [Hno Hr]. split.
      * intros x [->|Hx]%elem_of_cons; [|by apply Hno]. intros [? _]. congruence.
      * destruct free; [done|]. subst r. exists 0%nat, slot. split_and!; [lia|done..].
    + destruct IH as (x & Hx & ?). exists x. split; [by right|done].
Qed.

Lemma Retrieve_unique app s i slot :
  slots_wf (replications s) → replications s !! i = Some slot → is_status app slot →
  RetrieveFTSReplicationStatus app s = Some i.
Proof.
  intros [_ Huniq] Hi [Hu Hn]. unfold RetrieveFTSReplicationStatus.
  pose proof (find_slot_spec app (replications s) 0) as H.
  destruct (find_slot app (replications s) 0) as [k|].
  - destruct H as (j & x & -> & Hj & [Hux Hnx]). f_equal. simpl.
    by eapply Huniq; [| |exact Hux|exact Hu|congruence].
  - destruct (H slot); [by eapply list_elem_of_lookup_2|done].
Qed.

Lemma Retrieve_Some app s i :
  RetrieveFTSReplicationStatus app s = Some i →
  ∃ slot, replications s !! i = Some slot ∧ is_status app slot.
Proof.
  unfold RetrieveFTSReplicationStatus. intros Hi.
  pose proof (find_slot_spec app (replications s) 0) as H. rewrite Hi in H.
  destruct H as (j & slot & -> & ? & ?). by exists slot.
Qed.

Lemma Retrieve_None app s :
  RetrieveFTSReplicationStatus app s = None ↔
  ∀ slot, slot ∈ replications s → ¬ is_status app slot.
Proof.
  unfold RetrieveFTSReplicationStatus. pose proof (find_slot_spec app (replications s) 0) as H.
  destruct (find_slot app (replications s) 0) as [k|]; [|done]. split; [done|]. intros Hno.
  destruct H as (j & slot & _ & Hj & Hs). by destruct (Hno slot); [eapply list_elem_of_lookup_2|].
Qed.

Lemma slots_wf_insert l i app :
  slots_wf l → (String.length app < NAMEDATALEN)%nat →
  (∀ slot, slot ∈ l → ¬ is_status app slot) → slots_wf (<[i := mkStatus app true 0 0]> l).
Proof.
  intros [Hlen Huniq] Happ Hno. split.
  - intros slot (j & Hj)%list_elem_of_lookup Hu.
    apply list_lookup_insert_Some in Hj as [(_ & <- & _)|(_ & Hj)]; [done|].
    by eapply Hlen; [eapply list_elem_of_lookup_2|].
  - intros j k a b Ha Hb Hua Hub Hn.
    assert (∀ m c, <[i:=mkStatus app true 0 0]> l !! m = Some c → in_use c = true →
      (m = i ∧ c = mkStatus app true 0 0) ∨ (m ≠ i ∧ l !! m = Some c ∧ name c ≠ app)) as Hcase.
    { intros m c Hm Hu. apply list_lookup_insert_Some in Hm as [(-> & <- & _)|(Hne & Hm)]; [by left|].
      right. split_and!; try done. intros Hnc.
      destruct (Hno c); [by eapply list_elem_of_lookup_2|done]. }
    destruct (Hcase _ _ Ha Hua) as [(-> & ->)|(? & Ha' & Hna)],
      (Hcase _ _ Hb Hub) as [(-> & ->)|(? & Hb' & Hnb)]; simpl in *; try congruence.
    by eapply Huniq.
Qed.

Lemma slots_wf_fmap f l :
  slots_wf l → (∀ slot, in_use (f slot) = true → f slot = slot) → slots_wf (f <$> l).
Proof.
  intros [Hlen Huniq] Hf. split.
  - intros slot (x & -> & Hx)%list_elem_of_fmap Hu.
    pose proof (Hf x Hu) as Hx'. rewrite Hx' in *. by apply Hlen.
  - intros i j a b Ha Hb. rewrite list_lookup_fmap in Ha, Hb.
    apply fmap_Some in Ha as (x & Hx & ->). apply fmap_Some in Hb as (y & Hy & ->).
    intros Hux Huy. pose proof (Hf x Hux) as Hx'. pose proof (Hf y Huy) as Hy'.
    rewrite Hx', Hy' in *. by apply Huniq.
Qed.

Lemma dropped_status app s slot :
  slot ∈ replications (FTSReplicationStatusDrop app s) → ¬ is_status app slot.
Proof.
  simpl. intros (x & -> & Hx)%list_elem_of_fmap [Hu Hn].
  destruct (in_use x && strcmp_eq app (name x)) eqn:Hd; [done|].
  rewrite Hu in Hd. simpl in Hd. apply bool_decide_eq_false in Hd. by rewrite Hn in Hd.
Qed.

(** C20: The status slots of a primary are a map from replication names to statuses.
    Creating a status finds or makes exactly one slot with that name (an existing
    status is left alone, a new one starts with no attempts and no disconnect time)
    and fails only when every slot is taken by another name; dropping removes it and
    no other. *)
Theorem status_slot_lifecycle app s :
  slots_wf (replications s) → (String.length app < NAMEDATALEN)%nat →
  match FTSReplicationStatusCreateIfNotExist app app s with
  | Ok s' => slots_wf (replications s') ∧
      match RetrieveFTSReplicationStatus app s with
      | Some _ => s' = s
      | None => ∃ i, RetrieveFTSReplicationStatus app s' = Some i ∧
          replications s' = <[i := mkStatus app true 0 0]> (replications s)
      end
  | Err e => e = ElogError too_many_msg ∧ RetrieveFTSReplicationStatus app s = None ∧
      Forall (λ slot, in_use slot = true) (replications s)
  end ∧
  slots_wf (replications (FTSReplicationStatusDrop app s)) ∧
  RetrieveFTSReplicationStatus app (FTSReplicationStatusDrop app s) = None ∧
  (∀ i slot, replications s !! i = Some slot → ¬ is_status app slot →
     replications (FTSReplicationStatusDrop app s) !! i = Some slot).
Proof.
  intros Hwf Hlen. split; [|split_and!].
  - unfold FTSReplicationStatusCreateIfNotExist.
    pose proof (scan_slots_spec app (replications s) 0 None Hlen (proj1 Hwf)) as H.
    destruct (scan_slots app (replications s) 0 None) as [[i|]|].
    + destruct H as [Hno (j & slot & -> & Hj & Hu)].
      unfold StrNCpy. rewrite substring_all by (unfold NAMEDATALEN in *; lia).
      split; [by apply slots_wf_insert|]. rewrite (proj2 (Retrieve_None app s)) by done.
      exists j. split; [|done]. apply Retrieve_unique with (mkStatus app true 0 0); [| |done].
      { by apply slots_wf_insert. }
      simpl. apply list_lookup_insert_eq. by eapply lookup_lt_Some.
    + destruct H as [Hno Hall]. split_and!; [done|by apply Retrieve_None|by apply Forall_forall].
    + split; [done|]. destruct (RetrieveFTSReplicationStatus app s) eqn:Hr; [done|].
      destruct H as (slot & Hin & Hs). by destruct (proj1 (Retrieve_None app s) Hr slot).
  - apply slots_wf_fmap; [done|]. intros slot. by case_match.
  - apply Retrieve_None. intros slot. apply dropped_status.
  - intros i slot Hi Hs. simpl. rewrite list_lookup_fmap, Hi. simpl.
    destruct (in_use slot && strcmp_eq app (name slot)) eqn:Hd; [|done].
    apply andb_true_iff in Hd as [? ?%bool_decide_eq_true]. by destruct Hs.
Qed.

Definition demo_cfg : repl_config := mkReplConfig 10 30 1000.
Definition demo_repl : repl_state := mkRepl [zero_status] [] true WALSNDERROR_NONE [].

Lemma demo_slots_wf : slots_wf (replications demo_repl).
Proof.
  split.
  - by intros slot [->|[]%elem_of_nil]%elem_of_cons.
  - by intros [|i] [|j] a b.
Qed.

Lemma status_slot_lifecycle_witness :
  ∃ s', FTSReplicationStatusCreateIfNotExist GP_WALRECEIVER_APPNAME GP_WALRECEIVER_APPNAME demo_repl = Ok s' ∧
        slots_wf (replications s').
Proof.
  pose proof (status_slot_lifecycle GP_WALRECEIVER_APPNAME demo_repl demo_slots_wf ltac:(vm_compute; lia)) as [H _].
  eexists. split; [reflexivity|]. exact (proj1 H).
Defined.

(** ** Mirror status *)

(** the walsender that serves the mirror: the first one of a gp_walreceiver *)
Definition mirror_walsender (s : repl_state) : option WalSnd :=
  snd <$> list_find (λ w, is_for_gp_walreceiver w = true) (walsnds s).

(** a mirror that holds at least one chunk of WAL *)
Definition communicating (w : WalSnd) : Prop :=
  pid w ≠ 0 ∧ (wal_state w = WALSNDSTATE_STREAMING ∨ wal_state w = WALSNDSTATE_CATCHUP ∧ write w ≠ 0).

Lemma is_mirror_up_spec w : is_mirror_up w = true ↔ communicating w.
Proof.
  unfold is_mirror_up, communicating. rewrite andb_true_iff, orb_true_iff, andb_true_iff.
  rewrite !negb_true_iff, !Z.eqb_neq, !bool_decide_eq_true. tauto.
Qed.

Lemma scan_walsenders_spec l :
  scan_walsenders l =
  match snd <$> list_find (λ w, is_for_gp_walreceiver w = true) l with
  | None => (false, false, false)
  | Some w =>
      let streaming := bool_decide (wal_state w = WALSNDSTATE_STREAMING) in
      let catchup := bool_decide (wal_state w = WALSNDSTATE_CATCHUP) in
      (is_mirror_up w, is_mirror_up w && streaming,
       is_mirror_up w && (streaming || catchup && caughtup_within_range w))
  end.
Proof.
  induction l as [|w l IH]; [done|]. simpl.
  destruct (is_for_gp_walreceiver w); simpl; [done|]. rewrite IH.
  by destruct (list_find _ l) as [[i x]|].
Qed.

Lemma is_probe_retry_needed_spec cfg now s :
  is_probe_retry_needed cfg now s = true ↔
  0 ≤ swrap 64 (now - Z.max (FTSGetReplicationDisconnectTime cfg GP_WALRECEIVER_APPNAME s)
                            (PMAcceptingConnectionsStartTime cfg))
    < gp_fts_mark_mirror_down_grace_period cfg.
Proof.
  unfold is_probe_retry_needed. rewrite andb_true_iff, Z.ltb_lt, Z.leb_le. tauto.
Qed.

Lemma IsMirrorUp_spec cfg now response s :
  IsMirrorUp (fst (GetMirrorStatus cfg now response s)) = true ↔
  ∃ w, mirror_walsender s = Some w ∧ communicating w.
Proof.
  unfold GetMirrorStatus. rewrite scan_walsenders_spec. fold (mirror_walsender s).
  destruct (mirror_walsender s) as [w|]; simpl; rewrite ?Some_exists, ?None_exists; [|done].
  apply is_mirror_up_spec.
Qed.

Lemma IsInSync_spec cfg now response s :
  IsInSync (fst (GetMirrorStatus cfg now response s)) = true ↔
  ∃ w, mirror_walsender s = Some w ∧ pid w ≠ 0 ∧ wal_state w = WALSNDSTATE_STREAMING.
Proof.
  unfold GetMirrorStatus. rewrite scan_walsenders_spec. fold (mirror_walsender s).
  destruct (mirror_walsender s) as [w|]; simpl; rewrite ?Some_exists, ?None_exists; [|done].
  rewrite andb_true_iff, bool_decide_eq_true, is_mirror_up_spec. unfold communicating. tauto.
Qed.

