(* ===== verification/WalSender.v ===== *)
(** * Walsender slots ([src/backend/replication/walsender.c])

    How walsender processes take, update and give back their slots in shared memory,
    and the histories of such operations, interleaved with the FTS handler's: the
    state [GetMirrorStatus] reads.  Each operation is one step, as it changes a slot
    under the slot's mutex.  The positions sent and received, the lag tracker and the
    sync-rep queues are not part of the state. *)

From S2P Require Import Prelude CLib GpReplication.

Definition set_walsnds (l : list WalSnd) (s : repl_state) : repl_state :=
  mkRepl (replications s) l (sync_standbys_defined s) (walsnd_error s) (effects s).

(** a slot as [MemSet] leaves it *)
Definition zero_walsnd : WalSnd := mkWalSnd 0 WALSNDSTATE_STARTUP 0 false false.

Definition WalSndShmemInit (found : bool) (max_wal_senders : nat) (s : repl_state) : repl_state :=
  if found then s
  else mkRepl (replications s) (replicate max_wal_senders zero_walsnd) false WALSNDERROR_NONE (effects s).

Fixpoint find_free (l : list WalSnd) (i : nat) : option nat :=
  match l with
  | [] => None
  | walsnd :: l => if negb (pid walsnd =? 0) then find_free l (S i) else Some i
  end.

(** MyWalSnd is the index of the slot taken; None when every slot is in use, which
    InitProcess has excluded *)
Definition InitWalSenderSlot (MyProcPid : Z) (application_name : string) (s : repl_state)
    : option (nat * repl_state) :=
  match find_free (walsnds s) 0 with
  | None => None
  | Some i =>
      Some (i, set_walsnds
                 (<[i := mkWalSnd MyProcPid WALSNDSTATE_STARTUP 0 false
                           (strcmp_eq application_name GP_WALRECEIVER_APPNAME)]> (walsnds s)) s)
  end.

Section Operations.
(** the operations of the process that owns slot [MyWalSnd] *)
Context (MyWalSnd : nat) (application_name : string).

Definition set_walsnd (f : WalSnd → WalSnd) (s : repl_state) : repl_state :=
  set_walsnds (alter f MyWalSnd (walsnds s)) s.

(** the part of StartReplication that creates the FTS status *)
Definition StartReplication_status (s : repl_state) : res repl_state :=
  match walsnds s !! MyWalSnd with
  | None => Err (SegFault "MyWalSnd")
  | Some walsnd =>
      if is_for_gp_walreceiver walsnd
      then FTSReplicationStatusCreateIfNotExist application_name application_name s
      else Ok s
  end.

Definition with_state (state : WalSndState) (w : WalSnd) : WalSnd :=
  mkWalSnd (pid w) state (write w) (caughtup_within_range w) (is_for_gp_walreceiver w).

Definition WalSndSetState (state : WalSndState) (now : Z) (s : repl_state) : res repl_state :=
  match walsnds s !! MyWalSnd with
  | None => Err (SegFault "MyWalSnd")
  | Some walsnd =>
      if decide (wal_state walsnd = state) then Ok s
      else
        let s := set_walsnd (with_state state) s in
        if negb (is_for_gp_walreceiver walsnd) then Ok s
        else Ok (FTSReplicationStatusUpdateForWalState application_name state
                   (with_state state walsnd) now s)
  end.

Definition WalSndSetCaughtupWithinRange (b : bool) : repl_state → repl_state :=
  set_walsnd (λ w, mkWalSnd (pid w) (wal_state w) (write w) b (is_for_gp_walreceiver w)).

(** the part of ProcessStandbyReplyMessage that stores the position received *)
Definition store_reply (writePtr : Z) : repl_state → repl_state :=
  set_walsnd (λ w, mkWalSnd (pid w) (wal_state w) writePtr (caughtup_within_range w)
                     (is_for_gp_walreceiver w)).

Definition without_pid (w : WalSnd) : WalSnd :=
  mkWalSnd 0 (wal_state w) (write w) (caughtup_within_range w) (is_for_gp_walreceiver w).

Definition WalSndKill (now : Z) (s : repl_state) : res repl_state :=
  match walsnds s !! MyWalSnd with
  | None => Err (SegFault "MyWalSnd")
  | Some walsnd =>
      let s :=
        if is_for_gp_walreceiver walsnd
        then FTSReplicationStatusMarkDisconnectForReplication application_name now s
        else s in
      Ok (set_walsnd without_pid s)
  end.

End Operations.

(** ** Histories *)

Inductive wal_event :=
  | EvInit (MyProcPid : Z) (app : string)
  | EvStart (i : nat) (app : string)
  | EvSetState (i : nat) (app : string) (state : WalSndState) (now : Z)
  | EvCaughtup (i : nat) (app : string) (b : bool)
  | EvReply (i : nat) (app : string) (writePtr : Z)
  | EvKill (i : nat) (app : string) (now : Z)
  | EvSyncOn
  | EvSyncOff.

(** slot [i] belongs to a running process named [app] *)
Definition owner (i : nat) (app : string) (s : repl_state) : Prop :=
  ∃ w, walsnds s !! i = Some w ∧ pid w ≠ 0 ∧
       is_for_gp_walreceiver w = strcmp_eq app GP_WALRECEIVER_APPNAME.

Inductive wal_step : repl_state → wal_event → repl_state → Prop :=
  | step_init s MyProcPid app i s' :
      MyProcPid ≠ 0 → InitWalSenderSlot MyProcPid app s = Some (i, s') →
      wal_step s (EvInit MyProcPid app) s'
  | step_start s i app s' :
      owner i app s → StartReplication_status i app s = Ok s' →
      wal_step s (EvStart i app) s'
  | step_set_state s i app state now s' :
      owner i app s → WalSndSetState i app state now s = Ok s' →
      wal_step s (EvSetState i app state now) s'
  | step_caughtup s i app b :
      owner i app s → wal_step s (EvCaughtup i app b) (WalSndSetCaughtupWithinRange i b s)
  | step_reply s i app writePtr :
      owner i app s → wal_step s (EvReply i app writePtr) (store_reply i writePtr s)
  | step_kill s i app now s' :
      owner i app s → WalSndKill i app now s = Ok s' →
      wal_step s (EvKill i app now) s'
  | step_sync_on s : wal_step s EvSyncOn (SetSyncStandbysDefined s)
  | step_sync_off s : wal_step s EvSyncOff (UnsetSyncStandbysDefined s).

Inductive wal_steps :
    repl_state → list wal_event → repl_state → Prop :=
  | steps_nil s : wal_steps s [] s
  | steps_cons s ev s' tr s'' :
      wal_step s ev s' → wal_steps s' tr s'' → wal_steps s (ev :: tr) s''.

(** ** The mirror's walsender *)

(** slot [i] belongs to a running walsender of the mirror *)
Definition live_mirror (i : nat) (w : WalSnd) (s : repl_state) : Prop :=
  walsnds s !! i = Some w ∧ pid w ≠ 0 ∧ is_for_gp_walreceiver w = true.

(** a mirror connects only when no other walsender serves it *)
Definition connects_alone (s : repl_state) (ev : wal_event) : Prop :=
  match ev with
  | EvInit _ app => app = GP_WALRECEIVER_APPNAME → ∀ i w, ¬ live_mirror i w s
  | _ => True
  end.

Inductive wal_steps_alone :
    repl_state → list wal_event → repl_state → Prop :=
  | alone_nil s : wal_steps_alone s [] s
  | alone_cons s ev s' tr s'' :
      wal_step s ev s' → connects_alone s ev → wal_steps_alone s' tr s'' →
      wal_steps_alone s (ev :: tr) s''.
