(* ===== verification/WalSenderFacts.v ===== *)
(** * Theorems about walsender histories *)

From S2P Require Import Prelude CLib GpReplication GpReplicationFacts WalSender.

(** ** The slot that serves the mirror *)

(** slots before a running walsender of the mirror are not the mirror's *)
Definition mirror_first (s : repl_state) : Prop :=
  ∀ i w, live_mirror i w s → ∀ j v, (j < i)%nat → walsnds s !! j = Some v →
    is_for_gp_walreceiver v = false.

Lemma mirror_first_alter f i s s' :
  (∀ w, is_for_gp_walreceiver (f w) = is_for_gp_walreceiver w) →
  (∀ w, pid (f w) ≠ 0 → pid w ≠ 0) →
  walsnds s' = alter f i (walsnds s) → mirror_first s → mirror_first s'.
Proof.
  intros Hflag Hpid Hs Hm k w (Hk & Hp & Hg) j v Hjk Hj. rewrite Hs in Hk, Hj.
  assert (Hback : ∀ m x, alter f i (walsnds s) !! m = Some x →
    ∃ y, walsnds s !! m = Some y ∧ (pid x ≠ 0 → pid y ≠ 0) ∧
         is_for_gp_walreceiver x = is_for_gp_walreceiver y).
  { intros m x. destruct (decide (m = i)) as [->|].
    - rewrite list_lookup_alter_eq. intros (y & ? & ->)%fmap_Some. eauto.
    - rewrite list_lookup_alter_ne by done. eauto. }
  destruct (Hback _ _ Hk) as (w' & Hw' & Hpw & Hgw), (Hback _ _ Hj) as (v' & Hv' & _ & ->).
  eapply (Hm k w'); [split_and!; [done|auto|congruence]|done|done].
Qed.

Lemma mirror_first_same s s' : walsnds s' = walsnds s → mirror_first s → mirror_first s'.
Proof. unfold mirror_first, live_mirror. by intros ->. Qed.

Lemma find_free_spec l k i :
  find_free l k = Some i → ∃ j, i = (k + j)%nat ∧ (∃ w, l !! j = Some w ∧ pid w = 0) ∧
  ∀ m v, (m < j)%nat → l !! m = Some v → pid v ≠ 0.
Proof.
  revert k. induction l as [|w l IH]; intros k; simpl; [done|].
  destruct (pid w =? 0) eqn:Hp; simpl.
  - intros [= <-]. exists 0%nat. split_and!; [lia|exists w; split; [done|lia]|lia].
  - intros (j & -> & Hj & Hm)%IH. exists (S j). split_and!; [lia|done|].
    intros [|m] v Hlt; simpl; [intros [= <-]; lia|]. apply Hm. lia.
Qed.

Lemma mirror_first_init MyProcPid app s i s' :
  InitWalSenderSlot MyProcPid app s = Some (i, s') →
  (app = GP_WALRECEIVER_APPNAME → ∀ i w, ¬ live_mirror i w s) →
  mirror_first s → mirror_first s'.
Proof.
  unfold InitWalSenderSlot. destruct (find_free (walsnds s) 0) as [i'|] eqn:Hf; [|done].
  intros [= -> <-] Halone Hm. apply find_free_spec in Hf as (i'' & -> & _ & Hlive). simpl in *.
  intros k w (Hk & Hp & Hg) j v Hjk Hj. simpl in *.
  apply list_lookup_insert_Some in Hj as [(-> & <- & _)|(Hji & Hj)]; simpl.
  - rewrite list_lookup_insert_ne in Hk by lia.
    apply bool_decide_eq_false. intros Happ. by destruct (Halone Happ k w).
  - apply list_lookup_insert_Some in Hk as [(-> & <- & _)|(Hki & Hk)]; [|by apply (Hm k w (conj Hk (conj Hp Hg)) j)].
    apply bool_decide_eq_true in Hg. destruct (is_for_gp_walreceiver v) eqn:Hv; [|done].
    destruct (Halone Hg j v). split_and!; [done|by eapply Hlive|done].
Qed.

(** ** Operations and the walsender slots *)

Lemma walsnds_with_slot f p s : walsnds (with_slot f p s) = walsnds s.
Proof. by destruct p. Qed.

Lemma walsnds_update app state w now s :
  walsnds (FTSReplicationStatusUpdateForWalState app state w now s) = walsnds s.
Proof.
  unfold FTSReplicationStatusUpdateForWalState, FTSReplicationStatusClearDisconnectTime,
    FTSReplicationStatusClearAttempts, FTSReplicationStatusMarkDisconnect.
  repeat case_match; by rewrite ?walsnds_with_slot.
Qed.

Lemma walsnds_create a b s s' : FTSReplicationStatusCreateIfNotExist a b s = Ok s' → walsnds s' = walsnds s.
Proof. unfold FTSReplicationStatusCreateIfNotExist. repeat case_match; by intros [= <-]. Qed.

Lemma wal_step_mirror_first s ev s' :
  wal_step s ev s' → connects_alone s ev → mirror_first s → mirror_first s'.
Proof.
  destruct 1 as [s p app i s' Hp Hi|s i app s' Ho Hs|s i app state now s' Ho Hs|s i app b Ho|s i app b Ho|s i app now s' Ho Hs| |];
    simpl; intros Ha Hm.
  - by eapply mirror_first_init.
  - apply (mirror_first_same s); [|done]. revert Hs. unfold StartReplication_status.
    repeat case_match; try done; [apply walsnds_create|by intros [= <-]].
  - revert Hs. unfold WalSndSetState. repeat case_match; try done; intros [= <-]; [done|..];
      apply (mirror_first_alter (with_state state) i s); try done. by rewrite walsnds_update.
  - by eapply (mirror_first_alter _ i s); [| |reflexivity|].
  - by eapply (mirror_first_alter _ i s); [| |reflexivity|].
  - revert Hs. unfold WalSndKill. case_match; [|done]. intros [= <-].
    apply (mirror_first_alter without_pid i s); try done. simpl. f_equal. case_match; [|done]. unfold FTSReplicationStatusMarkDisconnectForReplication,
      FTSReplicationStatusMarkDisconnect. by rewrite walsnds_with_slot.
  - apply (mirror_first_same s); [|done]. unfold SetSyncStandbysDefined. by case_match.
  - apply (mirror_first_same s); [|done]. unfold UnsetSyncStandbysDefined. simpl. by case_match.
Qed.

Lemma mirror_walsender_live s :
  mirror_first s →
  (∀ w, mirror_walsender s = Some w → pid w ≠ 0 → ∃ i, live_mirror i w s) ∧
  (∀ i w, live_mirror i w s → mirror_walsender s = Some w).
Proof.
  intros Hm. unfold mirror_walsender. split.
  - intros w ([i w'] & Hf & ->)%fmap_Some Hp. apply list_find_Some in Hf as (Hi & Hg & _).
    by exists i.
  - intros i w Hl. apply fmap_Some. exists (i, w). split; [|done]. apply list_find_Some.
    destruct Hl as (Hi & Hp & Hg). split_and!; [done|done|]. intros j v Hj Hlt Hv.
    by rewrite (Hm i w (conj Hi (conj Hp Hg)) j v Hlt Hj) in Hv.
Qed.

Lemma wal_steps_mirror_first s tr s' : wal_steps_alone s tr s' → mirror_first s → mirror_first s'.
Proof. induction 1; [done|]. eauto using wal_step_mirror_first. Qed.

Lemma mirror_first_shmem n s : mirror_first (WalSndShmemInit false n s).
Proof. intros i w (Hi & Hp & _). simpl in Hi. by apply lookup_replicate in Hi as [-> _]. Qed.

(** C18: What GetMirrorStatus reports is the state of the mirror's running walsender.
    For every history of walsenders starting, replicating and exiting, interleaved
    with the FTS handler switching synchronous replication on and off, in which a
    mirror connects only when no walsender serves it yet, the mirror is reported up
    exactly when a running walsender serves it and has sent WAL, and in sync exactly
    when one streams, although slots of exited walsenders keep their flag. *)
Theorem GetMirrorStatus_live n s0 tr s cfg now response :
  wal_steps_alone (WalSndShmemInit false n s0) tr s →
  (IsMirrorUp (fst (GetMirrorStatus cfg now response s)) = true ↔
     ∃ i w, live_mirror i w s ∧ communicating w) ∧
  (IsInSync (fst (GetMirrorStatus cfg now response s)) = true ↔
     ∃ i w, live_mirror i w s ∧ wal_state w = WALSNDSTATE_STREAMING).
Proof.
  intros Hs. assert (Hm : mirror_first s).
  { eapply wal_steps_mirror_first; [done|]. apply mirror_first_shmem. }
  destruct (mirror_walsender_live s Hm) as [Hlive Hfind].
  rewrite IsMirrorUp_spec, IsInSync_spec. split; split.
  - intros (w & Hw & Hc). destruct (Hlive w Hw (proj1 Hc)) as [i Hi]. eauto.
  - intros (i & w & Hi & Hc). eauto.
  - intros (w & Hw & Hp & Hst). destruct (Hlive w Hw Hp) as [i Hi]. eauto.
  - intros (i & w & Hi & Hst). exists w. split_and!; [eauto|by apply Hi|done].
Qed.

Definition demo_walsnds : repl_state := WalSndShmemInit false 2 demo_repl.
Definition apply_ok (r : res repl_state) : repl_state :=
  match r with Ok s => s | Err _ => demo_walsnds end.
Definition demo_init (p : Z) (s : repl_state) : repl_state :=
  match InitWalSenderSlot p GP_WALRECEIVER_APPNAME s with Some (_, s') => s' | None => s end.

(** one mirror connects and streams *)
Definition demo_streaming : repl_state :=
  apply_ok (WalSndSetState 0 GP_WALRECEIVER_APPNAME WALSNDSTATE_STREAMING 2000 (demo_init 101 demo_walsnds)).

Ltac wal_run :=
  repeat (eapply steps_cons || eapply alone_cons);
  try solve [econstructor; [done|vm_compute; reflexivity]
            |econstructor; [eexists; vm_compute; split_and!; [reflexivity|done|reflexivity]
                           |vm_compute; reflexivity]].

Lemma GetMirrorStatus_live_witness :
  IsInSync (fst (GetMirrorStatus demo_cfg 2000 (mkResponse false false false false false) demo_streaming))
    = true.
Proof.
  apply (GetMirrorStatus_live 2 demo_repl
    [EvInit 101 GP_WALRECEIVER_APPNAME;
     EvSetState 0 GP_WALRECEIVER_APPNAME WALSNDSTATE_STREAMING 2000] demo_streaming demo_cfg 2000).
  - wal_run; [|done|constructor]. intros _ i w (Hi & Hp & _).
    by apply lookup_replicate in Hi as [-> _].
  - exists 0%nat, (mkWalSnd 101 WALSNDSTATE_STREAMING 0 false true). vm_compute. split_and!; done.
Defined.

(** the mirror connects again before its first walsender exits *)
Definition reconnect : list wal_event :=
  [EvInit 101 GP_WALRECEIVER_APPNAME;
   EvInit 102 GP_WALRECEIVER_APPNAME;
   EvKill 0 GP_WALRECEIVER_APPNAME 1999;
   EvSetState 1 GP_WALRECEIVER_APPNAME WALSNDSTATE_STREAMING 2000].
Definition demo_reconnected : repl_state :=
  apply_ok (WalSndSetState 1 GP_WALRECEIVER_APPNAME WALSNDSTATE_STREAMING 2000
    (apply_ok (WalSndKill 0 GP_WALRECEIVER_APPNAME 1999 (demo_init 102 (demo_init 101 demo_walsnds))))).


(** ** A mirror that keeps disconnecting *)

(** the mirror's status is in slot [i], with [c] attempts *)
Definition mirror_status (i : nat) (c : Z) (s : repl_state) : Prop :=
  slots_wf (replications s) ∧
  ∃ slot, replications s !! i = Some slot ∧ is_status GP_WALRECEIVER_APPNAME slot ∧
          con_attempt_count slot = c.

Lemma mirror_status_retrieve i c s :
  mirror_status i c s → RetrieveFTSReplicationStatus GP_WALRECEIVER_APPNAME s = Some i.
Proof. intros [Hwf (slot & Hi & Hs & _)]. by eapply Retrieve_unique. Qed.

Lemma slots_wf_alter f i l :
  slots_wf l → (∀ slot, in_use (f slot) = in_use slot ∧ name (f slot) = name slot) →
  slots_wf (alter f i l).
Proof.
  intros [Hlen Huniq] Hf.
  assert (Hback : ∀ m x, alter f i l !! m = Some x →
    ∃ y, l !! m = Some y ∧ in_use x = in_use y ∧ name x = name y).
  { intros m x. destruct (decide (m = i)) as [->|].
    - rewrite list_lookup_alter_eq. intros (y & ? & ->)%fmap_Some. exists y.
      destruct (Hf y). done.
    - rewrite list_lookup_alter_ne by done. eauto. }
  split.
  - intros slot (m & Hm)%list_elem_of_lookup Hu. apply Hback in Hm as (y & Hy & Huy & ->).
    apply Hlen; [by eapply list_elem_of_lookup_2|congruence].
  - intros m k a b (y & Hy & Huy & Hny)%Hback (z & Hz & Huz & Hnz)%Hback Hua Hub Hn.
    eapply Huniq; [done|done|congruence..].
Qed.

(** operations on a slot keep the status; [g] is what they do to the attempts *)
Lemma mirror_status_alter f g i c s s' :
  mirror_status i c s →
  (∀ slot, in_use (f slot) = in_use slot ∧ name (f slot) = name slot) →
  (∀ slot, con_attempt_count (f slot) = g (con_attempt_count slot)) →
  replications s' = alter f i (replications s) → mirror_status i (g c) s'.
Proof.
  intros [Hwf (slot & Hi & [Hu Hn] & Hc)] Hf Hg Hs. unfold mirror_status. rewrite Hs.
  split; [by apply slots_wf_alter|]. exists (f slot). rewrite list_lookup_alter_eq, Hi.
  destruct (Hf slot) as [Hfu Hfn]. unfold is_status. by rewrite Hfu, Hfn, Hg, Hc.
Qed.

Lemma mirror_status_same i c s s' :
  replications s' = replications s → mirror_status i c s → mirror_status i c s'.
Proof. unfold mirror_status. by intros ->. Qed.

Lemma mirror_status_create i c s s' :
  mirror_status i c s →
  FTSReplicationStatusCreateIfNotExist GP_WALRECEIVER_APPNAME GP_WALRECEIVER_APPNAME s = Ok s' → s' = s.
Proof.
  intros [Hwf (slot & Hi & Hs & _)]. unfold FTSReplicationStatusCreateIfNotExist.
  pose proof (scan_slots_spec GP_WALRECEIVER_APPNAME (replications s) 0 None
    ltac:(vm_compute; lia) (proj1 Hwf)) as H.
  destruct (scan_slots _ _ _ _) as [r|]; [|by intros [= <-]].
  destruct H as [Hno _]. by destruct (Hno slot (list_elem_of_lookup_2 _ _ _ Hi)).
Qed.

Lemma mirror_status_update i c s state w now :
  mirror_status i c s → state ≠ WALSNDSTATE_STREAMING → 0 ≤ c < 2 ^ 32 - 1 →
  ∃ c', mirror_status i c' (FTSReplicationStatusUpdateForWalState GP_WALRECEIVER_APPNAME state w now s) ∧
        c ≤ c' ≤ c + 1.
Proof.
  intros Hm Hst Hc. unfold FTSReplicationStatusUpdateForWalState.
  rewrite (mirror_status_retrieve _ _ _ Hm), decide_False by done.
  destruct (is_mirror_up w); [|case_match].
  - exists c. split; [|lia]. by eapply (mirror_status_alter _ id i c s); [| | |reflexivity].
  - exists (c + 1). split; [|lia].
    replace (c + 1) with (wrap 32 (c + 1)) by (unfold wrap; apply Z.mod_small; lia).
    by eapply (mirror_status_alter _ (λ c, wrap 32 (c + 1)) i c s); [| | |reflexivity].
  - exists c. split; [done|lia].
Qed.

(** [ev] does not stop the mirror's replication or let it stream *)
Definition failing (ev : wal_event) : Prop :=
  match ev with
  | EvSetState _ _ state _ => state ≠ WALSNDSTATE_STREAMING
  | EvSyncOff => False
  | _ => True
  end.
Definition mirror_exit (ev : wal_event) : Prop :=
  match ev with EvKill _ app _ => app = GP_WALRECEIVER_APPNAME | _ => False end.
#[export] Instance mirror_exit_dec ev : Decision (mirror_exit ev).
Proof. destruct ev; simpl; apply _. Defined.

Lemma owner_flag i app s w :
  owner i app s → walsnds s !! i = Some w → is_for_gp_walreceiver w = true →
  app = GP_WALRECEIVER_APPNAME.
Proof.
  intros (w' & Hw & _ & Hg) Hw' Hf. simplify_eq. rewrite Hf in Hg.
  by apply (bool_decide_eq_true_1 (app = GP_WALRECEIVER_APPNAME)).
Qed.

(** each event adds at most one attempt, an exit of the mirror's walsender exactly one *)
Lemma failing_step i c s ev s' :
  wal_step s ev s' → failing ev → mirror_status i c s → 0 ≤ c < 2 ^ 32 - 1 →
  ∃ c', mirror_status i c' s' ∧ c + (if decide (mirror_exit ev) then 1 else 0) ≤ c' ≤ c + 1.
Proof.
  destruct 1 as [s p app k s' Hp Hi|s k app s' Ho Hs|s k app state now s' Ho Hs
    |s k app b Ho|s k app b Ho|s k app now s' Ho Hs|s|s]; simpl; intros Hf Hm Hc;
    rewrite ?(decide_False (P := False)) by tauto; try done.
  - exists c. split; [|lia]. revert Hi. unfold InitWalSenderSlot. case_match; [|done].
    by intros [= <- <-].
  - exists c. split; [|lia]. revert Hs. unfold StartReplication_status.
    destruct (walsnds s !! k) as [w|] eqn:Hw; [|done].
    destruct (is_for_gp_walreceiver w) eqn:Hg; [|by intros [= <-]].
    rewrite (owner_flag _ _ _ _ Ho Hw Hg). intros ->%(mirror_status_create i c); done.
  - revert Hs. unfold WalSndSetState. destruct (walsnds s !! k) as [w|] eqn:Hw; [|done].
    case_decide; [intros [= <-]; exists c; split; [done|lia]|].
    destruct (is_for_gp_walreceiver w) eqn:Hg; simpl; intros [= <-];
      [|exists c; split; [done|lia]].
    rewrite (owner_flag _ _ _ _ Ho Hw Hg).
    destruct (mirror_status_update i c (set_walsnd k (with_state state) s) state
      (with_state state w) now Hm Hf Hc) as (c' & ? & ?). exists c'. split; [done|lia].
  - exists c. split; [done|lia].
  - exists c. split; [done|lia].
  - revert Hs. unfold WalSndKill. destruct (walsnds s !! k) as [w|] eqn:Hw; [|done].
    destruct Ho as (w' & Hw' & Hp & Hg). simplify_eq. rewrite Hg. intros [= <-].
    unfold strcmp_eq. case_bool_decide as Happ.
    + rewrite decide_True by done. exists (wrap 32 (c + 1)). split.
      * apply (mirror_status_same _ _ (FTSReplicationStatusMarkDisconnectForReplication app now s)); [done|].
        unfold FTSReplicationStatusMarkDisconnectForReplication.
        rewrite Happ, (mirror_status_retrieve _ _ _ Hm).
        by eapply (mirror_status_alter _ (λ c, wrap 32 (c + 1)) i c s); [| | |reflexivity].
      * unfold wrap. rewrite Z.mod_small by lia. lia.
    + rewrite decide_False by done. exists c. split; [done|lia].
  - exists c. split; [|lia]. apply (mirror_status_same _ _ s); [|done].
    unfold SetSyncStandbysDefined. by case_match.
Qed.

Lemma failing_steps i c s tr s' :
  wal_steps s tr s' → Forall failing tr → mirror_status i c s → 0 ≤ c →
  c + Z.of_nat (length tr) < 2 ^ 32 →
  ∃ c', mirror_status i c' s' ∧
        c + Z.of_nat (length (filter mirror_exit tr)) ≤ c' ≤ c + Z.of_nat (length tr).
Proof.
  intros Hs. revert c. induction Hs as [s|s ev s' tr s'' Hev _ IH]; intros c HF Hm Hc Hlen.
  { exists c. split; [done|]. simpl. lia. }
  inversion HF; subst. cbn [length] in Hlen.
  destruct (failing_step i c s ev s') as (c1 & Hm1 & Hc1); [done..|lia|].
  destruct (IH c1) as (c2 & Hm2 & Hc2); [done|done|case_decide; lia|lia|].
  exists c2. split; [done|]. rewrite filter_cons. cbn [length].
  destruct (decide (mirror_exit ev)); cbn [length]; lia.
Qed.

(** C19: A mirror that keeps disconnecting is reported down.  When the walsenders that
    serve the mirror have exited more often than gp_fts_replication_attempt_count
    without streaming in between, the times of their disconnects, which each exit
    renews, no longer count: a retry is requested only within the grace period after
    the start of the primary. *)
Theorem flapping_mirror_not_retried cfg now i c s tr s' :
  wal_steps s tr s' → Forall failing tr → mirror_status i c s → 0 ≤ c →
  c + Z.of_nat (length tr) < 2 ^ 32 → 0 ≤ gp_fts_replication_attempt_count cfg < 2 ^ 31 →
  0 ≤ PMAcceptingConnectionsStartTime cfg →
  gp_fts_replication_attempt_count cfg < Z.of_nat (length (filter mirror_exit tr)) →
  is_probe_retry_needed cfg now s' = true ↔
  0 ≤ swrap 64 (now - PMAcceptingConnectionsStartTime cfg) < gp_fts_mark_mirror_down_grace_period cfg.
Proof.
  intros Hs HF Hm Hc Hlen Hcount Hstart Hexits.
  destruct (failing_steps i c s tr s') as (c' & Hm' & Hc'); [done..|].
  rewrite is_probe_retry_needed_spec. unfold FTSGetReplicationDisconnectTime.
  rewrite (mirror_status_retrieve _ _ _ Hm').
  destruct Hm' as [_ (slot & Hi & _ & Hslot)]. simpl. rewrite Hi, Hslot.
  unfold wrap. rewrite (Z.mod_small _ (2 ^ 32)) by lia.
  destruct (c' <=? gp_fts_replication_attempt_count cfg) eqn:Hle; [lia|].
  by rewrite Z.max_r by done.
Qed.

(** a primary that allows one attempt, and a walsender of its mirror that exits twice *)
Definition flapping_cfg : repl_config := mkReplConfig 1 30 1000.
Definition flapping_start : repl_state :=
  mkRepl [mkStatus GP_WALRECEIVER_APPNAME true 0 0] [zero_walsnd] true WALSNDERROR_NONE [].
Definition flapping : list wal_event :=
  [EvInit 101 GP_WALRECEIVER_APPNAME; EvKill 0 GP_WALRECEIVER_APPNAME 1998;
   EvInit 102 GP_WALRECEIVER_APPNAME; EvKill 0 GP_WALRECEIVER_APPNAME 1999].
Definition demo_exit (now : Z) (s : repl_state) : repl_state :=
  apply_ok (WalSndKill 0 GP_WALRECEIVER_APPNAME now s).
Definition flapping_end : repl_state :=
  demo_exit 1999 (demo_init 102 (demo_exit 1998 (demo_init 101 flapping_start))).

Lemma flapping_status : mirror_status 0 0 flapping_start.
Proof.
  split; [|by eexists]. split.
  - intros slot [->|[]%elem_of_nil]%elem_of_cons _. vm_compute. lia.
  - by intros [|i] [|j] a b.
Qed.

Lemma flapping_mirror_not_retried_witness :
  is_probe_retry_needed flapping_cfg 2000 flapping_end = true ↔ 0 ≤ swrap 64 (2000 - 1000) < 30.
Proof.
  apply (flapping_mirror_not_retried flapping_cfg 2000 0 0 flapping_start flapping flapping_end);
    try (vm_compute; done).
  - unfold flapping. wal_run. constructor.
  - repeat constructor.
  - exact flapping_status.
Defined.
