(* ===== verification/ReplSlot.v ===== *)
(** * Replication slots of a segment ([src/backend/replication/slot.c])

    The operations the FTS handler uses when it promotes a mirror: creating a slot,
    reserving WAL for it, saving it and releasing it.  The segment's other processes,
    its recovery state, its clock and its disk are an environment, [SegmentEnv]: the
    theorems hold for every environment unless they name what they assume of it.
    A slot has the fields these operations read or write.  Spinlocks, condition
    variables and the xmin horizons are not modelled. *)

From S2P Require Import Prelude CLib GpReplication.

(** ** The environment of a segment's backend *)

Inductive DBState :=
  | DB_STARTUP
  | DB_SHUTDOWNED
  | DB_SHUTDOWNED_IN_RECOVERY
  | DB_SHUTDOWNING
  | DB_IN_CRASH_RECOVERY
  | DB_IN_ARCHIVE_RECOVERY
  | DB_IN_PRODUCTION.
#[export] Instance DBState_eq_dec : EqDecision DBState.
Proof. solve_decision. Defined.

(** the result of opening the probe file: a descriptor or errno *)
Inductive open_result := Opened | ENOENT | EINVAL | EOTHER.

Class SegmentEnv (W : Type) := {
  (** the probe file in the data directory: open without and with O_CREAT, read,
      lseek to the start, write, close, unlink *)
  open_probe_file : W → open_result * W;
  create_probe_file : W → bool * W;
  read_probe_file : W → Z * list Z * W;
  seek_probe_file : W → bool * W;
  write_probe_file : list Z → W → Z * W;
  close_probe_file : W → W;
  unlink_probe_file : W → W;
  (** files of replication slots: whether the directory can be made and renamed, and
      the state file written, renamed and synced *)
  make_slot_directory : W → bool * W;
  write_slot_file : W → bool * W;
  rename_slot_directory : W → bool * W;
  (** fopen of the promote signal file *)
  create_promote_file : W → bool * W;
  (** time(NULL) *)
  unix_time : W → Z * W;
  (** xlog.c *)
  GetCurrentDBState : W → DBState * W;
  RecoveryInProgress : W → bool * W;
  GetRedoRecPtr : W → Z * W;
  GetXLogInsertRecPtr : W → Z * W;
  LogStandbySnapshot : W → W;
  XLogGetLastRemovedSegno : W → Z * W;
}.

(** ** Slots *)

Inductive ReplicationSlotPersistency := RS_PERSISTENT | RS_EPHEMERAL | RS_TEMPORARY.
#[export] Instance ReplicationSlotPersistency_eq_dec : EqDecision ReplicationSlotPersistency.
Proof. solve_decision. Defined.

Record ReplicationSlotPersistentData := mkSlotData {
  slot_name : string;
  database : Z;
  persistency : ReplicationSlotPersistency;
  restart_lsn : Z;
}.

Record ReplicationSlot := mkSlot {
  slot_in_use : bool;
  active_pid : Z;
  just_dirtied : bool;
  dirty : bool;
  data : ReplicationSlotPersistentData;
}.
Definition set_active_pid (p : Z) (s : ReplicationSlot) : ReplicationSlot :=
  mkSlot (slot_in_use s) p (just_dirtied s) (dirty s) (data s).
Definition set_dirty (jd d : bool) (s : ReplicationSlot) : ReplicationSlot :=
  mkSlot (slot_in_use s) (active_pid s) jd d (data s).
Definition set_restart_lsn (lsn : Z) (s : ReplicationSlot) : ReplicationSlot :=
  mkSlot (slot_in_use s) (active_pid s) (just_dirtied s) (dirty s)
    (mkSlotData (slot_name (data s)) (database (data s)) (persistency (data s)) lsn).

(** a backend of the segment: its environment, the shared memory it works on, the
    slot state files on disk by directory, the bytes it sent to its client and the promote requests it
    signalled to the postmaster *)
Record segment (W : Type) := mkSegment {
  seg_env : W;
  repl : repl_state;
  replication_slots : list ReplicationSlot;
  slot_files : gmap string ReplicationSlotPersistentData;
  replicationSlotMinLSN : Z;
  MyReplicationSlot : option nat;
  sent : list Z;
  promote_signals : nat;
}.
Arguments mkSegment {W}.
Arguments seg_env {W}.
Arguments repl {W}.
Arguments replication_slots {W}.
Arguments slot_files {W}.
Arguments replicationSlotMinLSN {W}.
Arguments MyReplicationSlot {W}.
Arguments sent {W}.
Arguments promote_signals {W}.

(** constants of the process *)
Record seg_config := mkSegConfig {
  am_mirror : bool;
  GpIdentity_dbid : Z;
  GpIdentity_segindex : Z;
  MyProcPid : Z;
  MyDatabaseId : Z;
  wal_segment_size : Z;
  USE_ASSERT_CHECKING : bool;
  replication_config : repl_config;
}.

Section Slots.
Context {W : Type} `{SegmentEnv W} (cfg : seg_config).
Abbreviation SM := (M (segment W)).

Definition seg_call {A} (f : W → A * W) : SM A := λ s,
  let '(a, w) := f (seg_env s) in
  Ok (a, mkSegment w (repl s) (replication_slots s) (slot_files s) (replicationSlotMinLSN s)
           (MyReplicationSlot s) (sent s) (promote_signals s)).
Definition seg_do (f : W → W) : SM unit := seg_call (λ w, (tt, f w)).

Definition set_slots (l : list ReplicationSlot) (s : segment W) : segment W :=
  mkSegment (seg_env s) (repl s) l (slot_files s) (replicationSlotMinLSN s)
    (MyReplicationSlot s) (sent s) (promote_signals s).
Definition set_slot_files (f : gmap string ReplicationSlotPersistentData) (s : segment W) : segment W :=
  mkSegment (seg_env s) (repl s) (replication_slots s) f (replicationSlotMinLSN s)
    (MyReplicationSlot s) (sent s) (promote_signals s).
Definition set_MyReplicationSlot (p : option nat) (s : segment W) : segment W :=
  mkSegment (seg_env s) (repl s) (replication_slots s) (slot_files s) (replicationSlotMinLSN s)
    p (sent s) (promote_signals s).

(** [*MyReplicationSlot], and an update through it *)
Definition my_slot : SM ReplicationSlot :=
  s ← get;
  i ← deref "MyReplicationSlot" (MyReplicationSlot s);
  deref "MyReplicationSlot" (replication_slots s !! i).
Definition upd_my_slot (f : ReplicationSlot → ReplicationSlot) : SM unit :=
  s ← get;
  i ← deref "MyReplicationSlot" (MyReplicationSlot s);
  put (set_slots (alter f i (replication_slots s)) s).

Definition slot_char (c : ascii) : bool :=
  let n := Z.of_nat (nat_of_ascii c) in
  ((97 <=? n) && (n <=? 122)) || ((48 <=? n) && (n <=? 57)) || (n =? 95).
Fixpoint valid_chars (s : string) : bool :=
  match s with EmptyString => true | String c s => slot_char c && valid_chars s end.

Definition ReplicationSlotValidateName (name : string) : SM bool :=
  if Nat.eqb (String.length name) 0 then elog_ERROR "replication slot name is too short"
  else if Nat.leb NAMEDATALEN (String.length name) then elog_ERROR "replication slot name is too long"
  else if negb (valid_chars name)
  then elog_ERROR "replication slot name contains invalid character"
  else mret true.

Definition named (name : string) (s : ReplicationSlot) : bool :=
  slot_in_use s && strcmp_eq name (slot_name (data s)).

(** the scan of ReplicationSlotCreate: None on a name collision, else the first free
    slot *)
Fixpoint find_free_slot (name : string) (l : list ReplicationSlot) (i : nat) (slot : option nat)
    : option (option nat) :=
  match l with
  | [] => Some slot
  | s :: l =>
      if named name s then None
      else find_free_slot name l (S i)
             (if negb (slot_in_use s) && bool_decide (slot = None) then Some i else slot)
  end.

Definition slot_path (name : string) : string := "pg_replslot/" ++ name.
Definition slot_tmppath (name : string) : string := "pg_replslot/" ++ name ++ ".tmp".

(** SaveSlotToPath for slot [i]: the state file in the directory [dir] is written when
    the slot is dirty *)
Definition SaveSlotToPath (i : nat) (dir : string) : SM unit :=
  s ← get;
  slot ← deref "slot" (replication_slots s !! i);
  let was_dirty := dirty slot in
  _ ← put (set_slots (alter (λ r, set_dirty false (dirty r) r) i (replication_slots s)) s);
  if negb was_dirty then mret tt
  else
    ok ← seg_call write_slot_file;
    if negb ok then elog_ERROR "could not save replication slot"
    else
      s ← get;
      _ ← put (set_slot_files (<[dir := data slot]> (slot_files s)) s);
      s ← get;
      put (set_slots
             (alter (λ r, if negb (just_dirtied r) then set_dirty false false r else r) i
                    (replication_slots s)) s).

(** the state file is written in a temporary directory, which is then renamed *)
Definition CreateSlotOnDisk (i : nat) : SM unit :=
  s ← get;
  slot ← deref "slot" (replication_slots s !! i);
  let path := slot_path (slot_name (data slot)) in
  let tmppath := slot_tmppath (slot_name (data slot)) in
  made ← seg_call make_slot_directory;
  if negb made then elog_ERROR "could not create directory"
  else
    s ← get;
    _ ← put (set_slots (alter (λ r, set_dirty (just_dirtied r) true r) i (replication_slots s))
               (set_slot_files (delete tmppath (slot_files s)) s));
    _ ← SaveSlotToPath i tmppath;
    renamed ← seg_call rename_slot_directory;
    if negb renamed then elog_ERROR "could not rename file"
    else
      s ← get;
      d ← deref "tmppath" (slot_files s !! tmppath);
      put (set_slot_files (<[path := d]> (delete tmppath (slot_files s))) s).

Definition ReplicationSlotCreate (name : string) (db_specific : bool)
    (pers : ReplicationSlotPersistency) : SM unit :=
  _ ← ReplicationSlotValidateName name;
  s ← get;
  match find_free_slot name (replication_slots s) 0 None with
  | None => elog_ERROR "replication slot already exists"
  | Some None => elog_ERROR "all replication slots are in use"
  | Some (Some i) =>
      _ ← put (set_slots (alter (λ r,
             mkSlot (slot_in_use r) (active_pid r) false false
               (mkSlotData (StrNCpy name) (if db_specific then MyDatabaseId cfg else 0) pers 0)) i
             (replication_slots s)) s);
      _ ← CreateSlotOnDisk i;
      s ← get;
      put (set_MyReplicationSlot (Some i)
             (set_slots (alter (λ r, mkSlot true (MyProcPid cfg) (just_dirtied r) (dirty r) (data r)) i
                               (replication_slots s)) s))
  end.

(** the loop's update of [min_required], and its result: the smallest restart LSN of the
    slots in use, 0 when there is none *)
Definition required_step (min_required : Z) (s : ReplicationSlot) : Z :=
  if negb (slot_in_use s) then min_required
  else
    let lsn := restart_lsn (data s) in
    if negb (lsn =? 0) && ((min_required =? 0) || (lsn <? min_required)) then lsn
    else min_required.
Definition required_lsn (l : list ReplicationSlot) : Z := foldl required_step 0 l.

Definition ReplicationSlotsComputeRequiredLSN : SM unit :=
  modify (λ s,
    mkSegment (seg_env s) (repl s) (replication_slots s) (slot_files s)
      (required_lsn (replication_slots s)) (MyReplicationSlot s) (sent s) (promote_signals s)).

Definition SlotIsLogical (s : ReplicationSlot) : bool := negb (database (data s) =? 0).

(** one round of ReplicationSlotReserveWal: whether all required WAL is still there *)
Definition reserve_wal_round : SM bool :=
  recovering ← seg_call RecoveryInProgress;
  slot ← my_slot;
  _ ← (if negb recovering && SlotIsLogical slot then
         lsn ← seg_call GetXLogInsertRecPtr;
         _ ← upd_my_slot (set_restart_lsn lsn);
         seg_do LogStandbySnapshot
       else
         lsn ← seg_call GetRedoRecPtr;
         upd_my_slot (set_restart_lsn lsn));
  _ ← ReplicationSlotsComputeRequiredLSN;
  slot ← my_slot;
  removed ← seg_call XLogGetLastRemovedSegno;
  mret (removed <? restart_lsn (data slot) / wal_segment_size cfg).

(** None: the loop needs more rounds than [fuel] *)
Fixpoint ReplicationSlotReserveWal (fuel : nat) : SM (option unit) :=
  match fuel with
  | O => mret None
  | S fuel =>
      reserved ← reserve_wal_round;
      if (reserved : bool) then mret (Some tt) else ReplicationSlotReserveWal fuel
  end.

Definition ReplicationSlotMarkDirty : SM unit := upd_my_slot (set_dirty true true).

Definition ReplicationSlotSave : SM unit :=
  s ← get;
  i ← deref "MyReplicationSlot" (MyReplicationSlot s);
  slot ← deref "MyReplicationSlot" (replication_slots s !! i);
  SaveSlotToPath i (slot_path (slot_name (data slot))).

(** dropping slot [i]: its directory is renamed away, then the slot is freed *)
Definition ReplicationSlotDropPtr (i : nat) : SM unit :=
  renamed ← seg_call rename_slot_directory;
  s ← get;
  slot ← deref "slot" (replication_slots s !! i);
  if negb renamed && bool_decide (persistency (data slot) = RS_PERSISTENT) then
    elog_ERROR "could not rename file"
  else
    _ ← put (set_slots (alter (λ r, mkSlot false 0 (just_dirtied r) (dirty r) (data r)) i
                              (replication_slots s))
               (if (renamed : bool) then set_slot_files (delete (slot_path (slot_name (data slot))) (slot_files s)) s
                else s));
    ReplicationSlotsComputeRequiredLSN.

Definition ReplicationSlotRelease : SM unit :=
  s ← get;
  i ← deref "MyReplicationSlot" (MyReplicationSlot s);
  slot ← deref "MyReplicationSlot" (replication_slots s !! i);
  _ ← (if decide (persistency (data slot) = RS_EPHEMERAL) then
         _ ← put (set_MyReplicationSlot None s);
         ReplicationSlotDropPtr i
       else mret tt);
  _ ← (if decide (persistency (data slot) = RS_PERSISTENT) then
         s ← get;
         put (set_slots (alter (set_active_pid 0) i (replication_slots s)) s)
       else mret tt);
  modify (set_MyReplicationSlot None).

End Slots.
