(* ===== verification/FtsHandler.v ===== *)
(** * The FTS message handler of a segment ([src/backend/fts/ftsmessagehandler.c])

    What a segment does with the messages PROBE, SYNCREP_OFF and PROMOTE of the
    prober, from the text of the query to the bytes of the response. *)

From S2P Require Import Prelude CLib Libpq PqProtocol FtsProbe GpReplication ReplSlot.

Definition FTS_PROBE_MAGIC_STRING : string := "FtS PrObEr MaGiC StRiNg, pRoBiNg cHeCk.......".
(** configure's default block size *)
Definition BLCKSZ : Z := 32768.
Definition INTERNAL_WAL_REPLICATION_SLOT_NAME : string := "internal_wal_replication_slot".
Definition BOOLOID : Z := 16.

(** the buffer after strncpy of the magic string: the string, then zeros *)
Definition magic_block : list Z :=
  string_bytes FTS_PROBE_MAGIC_STRING ++
  replicate (Z.to_nat BLCKSZ - length (string_bytes FTS_PROBE_MAGIC_STRING)) 0.
(** [strncmp(data, FTS_PROBE_MAGIC_STRING, magic_len) == 0], the NUL included *)
Definition is_magic (block : list Z) : bool :=
  let magic := string_bytes FTS_PROBE_MAGIC_STRING ++ [0] in
  bool_decide (take (length magic) block = magic).

Section Handler.
Context {W : Type} `{SegmentEnv W} (cfg : seg_config).
Abbreviation SM := (M (segment W)).

(** ** Disk check *)

(** the probe file exists: read it, check it and write it back *)
Definition check_existing : SM bool :=
  '(len, block) ← seg_call read_probe_file;
  if len <? 0 then mret true
  else if negb (len =? BLCKSZ) then mret true
  else if negb (is_magic block) then mret true
  else
    seeked ← seg_call seek_probe_file;
    if negb seeked then mret true
    else
      written ← seg_call (write_probe_file block);
      mret (negb (written =? BLCKSZ)).

(** the body of checkIODataDirectory up to its report: whether the check failed *)
Definition probe_disk : SM bool :=
  opened ← seg_call open_probe_file;
  '(fd_open, failure) ←
    match opened with
    | Opened => failure ← check_existing; mret (true, failure)
    | ENOENT =>
        created ← seg_call create_probe_file;
        if negb created then mret (false, true)
        else
          written ← seg_call (write_probe_file magic_block);
          mret (true, negb (written =? BLCKSZ))
    | EINVAL => mret (false, false)
    | EOTHER => mret (false, true)
    end;
  if (fd_open : bool) then
    _ ← seg_do close_probe_file;
    _ ← (if (failure : bool) then seg_do unlink_probe_file else mret tt);
    mret failure
  else mret failure.

Definition checkIODataDirectory : SM bool :=
  failure ← probe_disk;
  if (failure : bool) then elog_ERROR "disk IO check during FTS probe failed" else mret failure.

(** ** Responses *)

Definition send_column (name : string) (attnum : Z) : M StringInfo unit :=
  _ ← pq_sendstring name;
  _ ← pq_sendint 0 4;
  _ ← pq_sendint attnum 2;
  _ ← pq_sendint BOOLOID 4;
  _ ← pq_sendint 1 2;
  _ ← pq_sendint (-1) 4;
  pq_sendint 0 2.

Definition row_description : M StringInfo unit :=
  _ ← pq_sendint Natts_fts_message_response 2;
  _ ← send_column "is_mirror_up" Anum_fts_message_response_is_mirror_up;
  _ ← send_column "is_in_sync" Anum_fts_message_response_is_in_sync;
  _ ← send_column "is_syncrep_enabled" Anum_fts_message_response_is_syncrep_enabled;
  _ ← send_column "is_role_mirror" Anum_fts_message_response_is_role_mirror;
  send_column "request_retry" Anum_fts_message_response_request_retry.

Definition send_flag (b : bool) : M StringInfo unit :=
  _ ← pq_sendint 1 4;
  pq_sendint (Z.b2z b) 1.

Definition data_row (response : FtsResponse) : M StringInfo unit :=
  _ ← pq_sendint Natts_fts_message_response 2;
  _ ← send_flag (IsMirrorUp response);
  _ ← send_flag (IsInSync response);
  _ ← send_flag (IsSyncRepEnabled response);
  _ ← send_flag (IsRoleMirror response);
  send_flag (RequestRetry response).

(** the bytes of the response *)
Definition response_bytes (response : FtsResponse) (messagetype : string) : res (list Z) :=
  t ← pq_message "T" row_description;
  d ← pq_message "D" (data_row response);
  mret (t ++ d ++ EndCommand messagetype).

Definition SendFtsResponse (response : FtsResponse) (messagetype : string) : SM unit := λ s,
  match response_bytes response messagetype with
  | Ok b => Ok (tt, mkSegment (seg_env s) (repl s) (replication_slots s) (slot_files s)
                      (replicationSlotMinLSN s) (MyReplicationSlot s) (sent s ++ b)
                      (promote_signals s))
  | Err e => Err e
  end.

(** ** Handlers *)

Definition set_repl (r : repl_state) (s : segment W) : segment W :=
  mkSegment (seg_env s) r (replication_slots s) (slot_files s) (replicationSlotMinLSN s)
    (MyReplicationSlot s) (sent s) (promote_signals s).
Definition upd_repl (f : repl_state → repl_state) : SM unit :=
  modify (λ s, set_repl (f (repl s)) s).

Definition initial_response : FtsResponse := mkResponse false false false false false.

(** GetMirrorStatus reads the clock only when the mirror is not up *)
Definition get_mirror_status (response : FtsResponse) : SM (FtsResponse * bool) :=
  s ← get;
  let '(up, _, _) := scan_walsenders (walsnds (repl s)) in
  now ← (if (up : bool) then mret 0 else seg_call unix_time);
  s ← get;
  mret (GetMirrorStatus (replication_config cfg) now response (repl s)).

Definition HandleFtsWalRepProbe : SM unit :=
  response ←
    (if am_mirror cfg then mret (mkResponse false false false true false)
     else
       '(response, ready_for_syncrep) ← get_mirror_status initial_response;
       if negb (IsSyncRepEnabled response) && ready_for_syncrep then
         _ ← upd_repl SetSyncStandbysDefined;
         mret (mkResponse (IsMirrorUp response) (IsInSync response) true (IsRoleMirror response)
                 (RequestRetry response))
       else mret response);
  _ ← checkIODataDirectory;
  SendFtsResponse response FTS_MSG_PROBE.

Definition HandleFtsWalRepSyncRepOff : SM unit :=
  _ ← upd_repl UnsetSyncStandbysDefined;
  '(response, _) ← get_mirror_status initial_response;
  SendFtsResponse response FTS_MSG_SYNCREP_OFF.

(** the scan of CreateReplicationSlotOnPromote: the last slot of that name *)
Fixpoint find_named (name : string) (l : list ReplicationSlot) (i : nat) (found : option nat)
    : option nat :=
  match l with
  | [] => found
  | s :: l => find_named name l (S i) (if named name s then Some i else found)
  end.

(** [fuel] bounds the rounds of ReplicationSlotReserveWal; None when they are not enough *)
Definition CreateReplicationSlotOnPromote (fuel : nat) (name : string) : SM (option unit) :=
  s ← get;
  let found := find_named name (replication_slots s) 0 (MyReplicationSlot s) in
  _ ← put (set_MyReplicationSlot found s);
  _ ← (match found with
       | None => ReplicationSlotCreate cfg name false RS_PERSISTENT
       | Some _ => mret tt
       end);
  slot ← my_slot;
  if restart_lsn (data slot) =? 0 then
    reserved ← ReplicationSlotReserveWal cfg fuel;
    match reserved with
    | None => mret None
    | Some _ =>
        _ ← ReplicationSlotMarkDirty;
        _ ← ReplicationSlotSave;
        slot ← my_slot;
        _ ← (if negb (active_pid slot =? 0) then ReplicationSlotRelease else mret tt);
        _ ← modify (set_MyReplicationSlot None);
        mret (Some tt)
    end
  else
    _ ← modify (set_MyReplicationSlot None);
    mret (Some tt).

(** SignalPromote of [src/backend/access/transam/xlog.c] *)
Definition SignalPromote : SM unit :=
  created ← seg_call create_promote_file;
  if (created : bool) then
    modify (λ s, mkSegment (seg_env s) (repl s) (replication_slots s) (slot_files s)
                   (replicationSlotMinLSN s) (MyReplicationSlot s) (sent s) (S (promote_signals s)))
  else mret tt.

Definition HandleFtsWalRepPromote (fuel : nat) : SM (option unit) :=
  let response := mkResponse false false false (am_mirror cfg) false in
  state ← seg_call GetCurrentDBState;
  redo ← seg_call GetRedoRecPtr;
  if bool_decide (state = DB_IN_ARCHIVE_RECOVERY) && negb (redo =? 0) then
    _ ← upd_repl UnsetSyncStandbysDefined;
    created ← CreateReplicationSlotOnPromote fuel INTERNAL_WAL_REPLICATION_SLOT_NAME;
    match created with
    | None => mret None
    | Some _ =>
        _ ← SignalPromote;
        _ ← SendFtsResponse response FTS_MSG_PROMOTE;
        mret (Some tt)
    end
  else
    _ ← SendFtsResponse response FTS_MSG_PROMOTE;
    mret (Some tt).

(** ** Dispatch *)

(** [FTS_MSG_FORMAT] as sscanf reads it *)
Definition FTS_MSG_FORMAT : list scan_dir :=
  [SStr] ++ lit " dbid=" ++ [SDec] ++ lit " contid=" ++ [SDec].

(** a message for another segment is reported, and in builds with assertions fatal;
    [%s] has no width, so a first word that does not fit into [message_type] leaves the
    buffer *)
Definition HandleFtsMessage (fuel : nat) (query_string : string) : SM (option unit) :=
  _ ← (let '(word, _) := scan_word (strip_spaces query_string) in
       if Nat.ltb (String.length word) FTS_MSG_MAX_LEN then mret tt
       else throw (SegFault "message_type"));
  match sscanf FTS_MSG_FORMAT query_string with
  | [VStr message_type; VInt dbid; VInt contid] =>
      _ ← (if USE_ASSERT_CHECKING cfg && negb (dbid =? GpIdentity_dbid cfg)
           then elog_ERROR "received dbid doesn't match this segments configured dbid"
           else mret tt);
      _ ← (if USE_ASSERT_CHECKING cfg && negb (contid =? GpIdentity_segindex cfg)
           then elog_ERROR "received contentid doesn't match this segments configured contentid"
           else mret tt);
      if starts_with query_string FTS_MSG_PROBE then
        _ ← HandleFtsWalRepProbe;
        mret (Some tt)
      else if starts_with query_string FTS_MSG_SYNCREP_OFF then
        _ ← HandleFtsWalRepSyncRepOff;
        mret (Some tt)
      else if starts_with query_string FTS_MSG_PROMOTE then
        HandleFtsWalRepPromote fuel
      else elog_ERROR ("received unknown FTS query: " ++ query_string)
  | _ => elog_ERROR ("received invalid FTS query: " ++ query_string)
  end.

End Handler.
