(* ===== verification/FtsHandlerFacts.v ===== *)
(** * Theorems about the FTS message handler *)

From stdpp Require Import pretty.
From S2P Require Import Prelude CLib Libpq PqProtocol PqProtocolFacts FtsConfig FtsProbe.
From S2P Require Import GpReplication GpReplicationFacts ReplSlot FtsHandler.

(** ** Responses on the wire *)

Definition built (sends : M StringInfo unit) : list Z :=
  match sends [] with Ok (_, buf) => buf | Err _ => [] end.

Definition response_messages (response : FtsResponse) (messagetype : string)
    : list (ascii * list Z) :=
  [("T"%char, built row_description); ("D"%char, built (data_row response));
   ("C"%char, string_bytes messagetype ++ [0])].

Lemma response_bytes_wire response messagetype :
  response_bytes response messagetype = Ok (wire (response_messages response messagetype)).
Proof. unfold wire. cbn [response_messages fmap list_fmap concat]. rewrite app_nil_r. done. Qed.

(** the connection while the answer of a simple query comes in *)
Definition querying (r : option pg_result) : pg_conn := mkConn [] PGASYNC_BUSY false r PGQUERY_SIMPLE.

Definition response_columns : list PGresAttDesc :=
  (λ p, mkAttDesc (string_bytes p.1) 0 p.2 0 BOOLOID 1 (-1)) <$>
  [("is_mirror_up", 0); ("is_in_sync", 1); ("is_syncrep_enabled", 2); ("is_role_mirror", 3);
   ("request_retry", 4)].
Definition response_row (response : FtsResponse) : list (option (list Z)) :=
  (λ b, Some [Z.b2z b]) <$>
  [IsMirrorUp response; IsInSync response; IsSyncRepEnabled response; IsRoleMirror response;
   RequestRetry response].
Definition response_result (response : FtsResponse) : pg_result :=
  mkResultSet PGRES_TUPLES_OK response_columns [response_row response].

Lemma response_script other response messagetype :
  Forall (λ b, b ≠ 0) (string_bytes messagetype) →
  Z.of_nat (length (string_bytes messagetype)) ≤ 29995 →
  script other (querying None) (response_messages response messagetype)
    (set_asyncStatus PGASYNC_READY (querying (Some (response_result response)))).
Proof.
  intros Htag Hlen. econstructor; [split; [by vm_compute|]|].
  { intros buf rest. instantiate (1 := querying (Some (mkResultSet PGRES_TUPLES_OK response_columns []))).
    reflexivity. }
  econstructor; [split|].
  { by destruct response as [[] [] [] [] []]. }
  { intros buf rest. instantiate (1 := querying (Some (response_result response))).
    by destruct response as [[] [] [] [] []]. }
  econstructor; [split|constructor].
  - cbn [snd]. rewrite length_app. simpl. lia.
  - intros buf rest. cbn [fst snd]. unfold handle_message, busy_message.
    rewrite <- app_assoc. cbn [app]. by rewrite pqGets_bytes.
Qed.

Lemma message_tags tag :
  tag ∈ [FTS_MSG_PROBE; FTS_MSG_SYNCREP_OFF; FTS_MSG_PROMOTE] →
  Forall (λ b, b ≠ 0) (string_bytes tag) ∧ Z.of_nat (length (string_bytes tag)) ≤ 29995.
Proof.
  intros Htag.
  assert (Hall : Forall (λ t, Forall (λ b, b ≠ 0) (string_bytes t) ∧
    Z.of_nat (length (string_bytes t)) ≤ 29995) [FTS_MSG_PROBE; FTS_MSG_SYNCREP_OFF; FTS_MSG_PROMOTE]).
  { repeat constructor; done. }
  by apply (proj1 (Forall_forall _ _) Hall).
Qed.

Lemma bytes_not_nil response tag : wire (response_messages response tag) ≠ [].
Proof. done. Qed.

(** C22: A response arrives as it was sent.  For every response of a handler, split in
    any way into the pieces the coordinator's socket delivers, libpq's parser ends with
    one result of five columns and one row, PQisBusy turns false, and the flags that
    probeRecordResponse stores are the fields of the response. *)
Theorem response_roundtrip {Conn} other response tag bytes chunks (i : fts_segment_info Conn) :
  tag ∈ [FTS_MSG_PROBE; FTS_MSG_SYNCREP_OFF; FTS_MSG_PROMOTE] →
  response_bytes response tag = Ok bytes → concat chunks = bytes →
  let c := receive other (querying None) chunks in
  PQisBusy_conn other c = (false, c) ∧
  ∃ r c', PQgetResult_conn other c = Some (Some r, c') ∧
    pg_resultStatus (result_view r) = PGRES_TUPLES_OK ∧
    pg_ntuples (result_view r) = FTS_MESSAGE_RESPONSE_NTUPLES ∧
    pg_nfields (result_view r) = Natts_fts_message_response ∧
    result (probeRecordResponse i (result_view r)) =
      mkResult (res_dbid (result i)) true (IsMirrorUp response) (IsInSync response)
        (IsSyncRepEnabled response) (IsRoleMirror response) (RequestRetry response).
Proof.
  intros Htag Hb Hc. apply message_tags in Htag as [Hz Hl].
  rewrite response_bytes_wire in Hb. injection Hb as <-. cbv zeta.
  assert (Heq : receive other (querying None) chunks =
    set_asyncStatus PGASYNC_READY (querying (Some (response_result response)))).
  { apply (receive_script other chunks (querying None) (response_messages response tag)
      (set_asyncStatus PGASYNC_READY (querying (Some (response_result response)))) []);
      [by apply response_script|done|]. intros ->. by destruct (bytes_not_nil response tag). }
  rewrite Heq. split; [done|]. eexists _, _. split; [reflexivity|].
  split_and!; try done. by destruct response as [[] [] [] [] []].
Qed.

(** the segment entry of a prober that waits for its answer *)
Definition waiting_info : fts_segment_info unit :=
  mkInfo None None (mkResult 2 false false false false false false) FTS_PROBE_SEGMENT 0 0 0 0 0
    (Some tt) 0 0 PM_NOT_IN_RESTART 0.

Definition demo_response : FtsResponse := mkResponse true true true false false.
Definition demo_bytes : list Z := wire (response_messages demo_response FTS_MSG_PROBE).

(** the response comes byte by byte *)
Lemma response_roundtrip_witness :
  PQisBusy_conn (λ _ _ _ _, None)
    (receive (λ _ _ _ _, None) (querying None) ((λ b, [b]) <$> demo_bytes)) =
  (false, receive (λ _ _ _ _, None) (querying None) ((λ b, [b]) <$> demo_bytes)).
Proof.
  apply (response_roundtrip (λ _ _ _ _, None) demo_response FTS_MSG_PROBE demo_bytes
    ((λ b, [b]) <$> demo_bytes) waiting_info); [left|apply response_bytes_wire|vm_compute; reflexivity].
Defined.

(** ** Messages *)

(** the prober's message for [db] and [content], of type [t] *)
Definition message_text (t : string) (db content : Z) : string :=
  t ++ " dbid=" ++ fmt_d db ++ " contid=" ++ fmt_d content.

Lemma fts_message_fits t db content :
  t ∈ [FTS_MSG_PROBE; FTS_MSG_SYNCREP_OFF; FTS_MSG_PROMOTE] →
  - 2 ^ 31 ≤ db < 2 ^ 31 → - 2 ^ 31 ≤ content < 2 ^ 31 →
  fts_message t db content = message_text t db content.
Proof.
  intros Ht Hdb Hc. unfold fts_message, snprintf. fold (message_text t db content).
  apply substring_all. unfold message_text. rewrite !string_length_app.
  assert (String.length t ≤ 11)%nat.
  { repeat (apply elem_of_cons in Ht as [->|Ht]; [vm_compute; lia|]). by apply elem_of_nil in Ht. }
  pose proof (fmt_d_length db Hdb). pose proof (fmt_d_length content Hc).
  unfold FTS_MSG_MAX_LEN. simpl String.length in *. lia.
Qed.

Lemma sscanf_text t db content :
  t ∈ [FTS_MSG_PROBE; FTS_MSG_SYNCREP_OFF; FTS_MSG_PROMOTE] →
  - 2 ^ 31 ≤ db < 2 ^ 31 → - 2 ^ 31 ≤ content < 2 ^ 31 →
  sscanf FTS_MSG_FORMAT (message_text t db content) = [VStr t; VInt db; VInt content].
Proof.
  intros Ht Hdb Hc.
  assert (Htail : sscanf (lit " dbid=" ++ [SDec] ++ lit " contid=" ++ [SDec])
    (" dbid=" +:+ fmt_d db +:+ " contid=" +:+ fmt_d content) = [VInt db; VInt content]).
  { change (sscanf (SDec :: lit " contid=" ++ [SDec]) (fmt_d db +:+ " contid=" +:+ fmt_d content)
      = [VInt db; VInt content]).
    rewrite sscanf_dec by done. f_equal.
    change (sscanf [SDec] (fmt_d content) = [VInt content]).
    by rewrite <- (string_app_nil (fmt_d content)), sscanf_dec. }
  unfold message_text, FTS_MSG_FORMAT.
  repeat (apply elem_of_cons in Ht as [->|Ht]; [by rewrite <- Htail|]). by apply elem_of_nil in Ht.
Qed.

Section Dispatch.
Context {W : Type} `{SegmentEnv W} (cfg : seg_config).

Lemma HandleFtsMessage_text fuel t db content :
  t ∈ [FTS_MSG_PROBE; FTS_MSG_SYNCREP_OFF; FTS_MSG_PROMOTE] →
  - 2 ^ 31 ≤ db < 2 ^ 31 → - 2 ^ 31 ≤ content < 2 ^ 31 →
  GpIdentity_dbid cfg = db → GpIdentity_segindex cfg = content → ∀ s : segment W,
  HandleFtsMessage cfg fuel (message_text t db content) s =
  (if decide (t = FTS_MSG_PROBE) then _ ← HandleFtsWalRepProbe cfg; mret (Some tt)
   else if decide (t = FTS_MSG_SYNCREP_OFF) then _ ← HandleFtsWalRepSyncRepOff cfg; mret (Some tt)
   else HandleFtsWalRepPromote cfg fuel) s.
Proof.
  intros Ht Hdb Hc Hid Hseg s. unfold HandleFtsMessage. rewrite sscanf_text by done.
  rewrite Hid, Hseg, !Z.eqb_refl, !andb_false_r.
  repeat (apply elem_of_cons in Ht as [->|Ht]; [reflexivity|]). by apply elem_of_nil in Ht.
Qed.
End Dispatch.

(** C23: What the prober sends is what the segment does.  The message that the prober
    formats for a segment entry is not truncated by its buffer, is scanned back to the
    segment's own dbid and content id, and selects the handler of the entry's state;
    the word it starts with fits the handler's buffer. *)
Theorem message_dispatch {W} `{SegmentEnv W} cfg fuel (p : CdbComponentDatabaseInfo) (s : segment W) :
  - 2 ^ 31 ≤ dbid p < 2 ^ 31 → - 2 ^ 31 ≤ segindex p < 2 ^ 31 →
  GpIdentity_dbid cfg = dbid p → GpIdentity_segindex cfg = segindex p →
  let handle st := HandleFtsMessage cfg fuel (fts_message (message_type_of st) (dbid p) (segindex p)) s in
  handle FTS_PROBE_SEGMENT = (_ ← HandleFtsWalRepProbe cfg; mret (Some tt)) s ∧
  handle FTS_SYNCREP_OFF_SEGMENT = (_ ← HandleFtsWalRepSyncRepOff cfg; mret (Some tt)) s ∧
  handle FTS_PROMOTE_SEGMENT = HandleFtsWalRepPromote cfg fuel s.
Proof.
  intros Hdb Hc Hid Hseg. cbv beta zeta.
  rewrite !fts_message_fits, !HandleFtsMessage_text; try done; by (repeat constructor).
Qed.

(** ** A segment for examples *)

(** an environment in which everything works: the probe file on disk with the offset
    of its descriptor, the clock at 2000 and WAL from segment 1 on *)
Record healthy := mkHealthy { probe_file : option (list Z * nat); db_state : DBState }.

#[export] Instance healthy_env : SegmentEnv healthy := {
  open_probe_file w :=
    match probe_file w with
    | Some (b, _) => (Opened, mkHealthy (Some (b, 0%nat)) (db_state w))
    | None => (ENOENT, w)
    end;
  create_probe_file w := (true, mkHealthy (Some ([], 0%nat)) (db_state w));
  read_probe_file w :=
    match probe_file w with
    | Some (b, pos) =>
        let block := take (Z.to_nat BLCKSZ) (drop pos b) in
        (Z.of_nat (length block), block, mkHealthy (Some (b, pos + length block)%nat) (db_state w))
    | None => (-1, [], w)
    end;
  seek_probe_file w :=
    (true, mkHealthy ((λ p, (fst p, 0%nat)) <$> probe_file w) (db_state w));
  write_probe_file block w :=
    (Z.of_nat (length block),
     mkHealthy ((λ p, let '(b, pos) := p in
                      (take pos b ++ block ++ drop (pos + length block) b,
                       pos + length block)%nat) <$> probe_file w) (db_state w));
  close_probe_file w := w;
  unlink_probe_file w := mkHealthy None (db_state w);
  make_slot_directory w := (true, w);
  write_slot_file w := (true, w);
  rename_slot_directory w := (true, w);
  create_promote_file w := (true, w);
  unix_time w := (2000, w);
  GetCurrentDBState w := (db_state w, w);
  RecoveryInProgress w := (bool_decide (db_state w = DB_IN_ARCHIVE_RECOVERY), w);
  GetRedoRecPtr w := (2 ^ 26 + 40, w);
  GetXLogInsertRecPtr w := (2 ^ 26 + 80, w);
  LogStandbySnapshot w := w;
  XLogGetLastRemovedSegno w := (0, w);
}.

Definition demo_seg_cfg (mirror : bool) : seg_config :=
  mkSegConfig mirror 2 0 77 0 (2 ^ 26) false demo_cfg.
Definition demo_segment (st : DBState) : segment healthy :=
  mkSegment (mkHealthy None st) demo_repl
    [mkSlot false 0 false false (mkSlotData EmptyString 0 RS_PERSISTENT 0)] ∅ 0 None [] 0.
Definition demo_info : CdbComponentDatabaseInfo :=
  mkSeg 2 0 ROLE_PRIMARY ROLE_PRIMARY MODE_INSYNC STATUS_UP 6000 "sdw1" "sdw1" "/data1" None.

Lemma message_dispatch_witness :
  HandleFtsMessage (demo_seg_cfg false) 1
    (fts_message (message_type_of FTS_PROMOTE_SEGMENT) (dbid demo_info) (segindex demo_info))
    (demo_segment DB_IN_PRODUCTION) =
  HandleFtsWalRepPromote (demo_seg_cfg false) 1 (demo_segment DB_IN_PRODUCTION).
Proof.
  apply (message_dispatch (demo_seg_cfg false) 1 demo_info (demo_segment DB_IN_PRODUCTION)); done.
Defined.

(** ** The disk check *)

Section Disk.
Context {W : Type} `{SegmentEnv W} (cfg : seg_config).

(** A disk that works, as POSIX describes the calls: [file] is what the probe file
    holds and the offset of the open descriptor. *)
Record working_disk (file : W → option (list Z * nat)) : Prop := {
  wd_open : ∀ w,
    match file w with
    | Some (b, _) => fst (open_probe_file w) = Opened ∧ file (snd (open_probe_file w)) = Some (b, 0%nat)
    | None => fst (open_probe_file w) = ENOENT ∧ file (snd (open_probe_file w)) = None
    end;
  wd_create : ∀ w, file w = None →
    fst (create_probe_file w) = true ∧ file (snd (create_probe_file w)) = Some ([], 0%nat);
  wd_read : ∀ w b pos, file w = Some (b, pos) →
    let block := take (Z.to_nat BLCKSZ) (drop pos b) in
    fst (read_probe_file w) = (Z.of_nat (length block), block) ∧
    file (snd (read_probe_file w)) = Some (b, (pos + length block)%nat);
  wd_seek : ∀ w b pos, file w = Some (b, pos) →
    fst (seek_probe_file w) = true ∧ file (snd (seek_probe_file w)) = Some (b, 0%nat);
  wd_write : ∀ block w b pos, file w = Some (b, pos) →
    fst (write_probe_file block w) = Z.of_nat (length block) ∧
    file (snd (write_probe_file block w)) =
      Some (take pos b ++ block ++ drop (pos + length block) b, (pos + length block)%nat);
  wd_close : ∀ w, file (close_probe_file w) = file w;
  wd_unlink : ∀ w, file (unlink_probe_file w) = None;
}.

Definition good_block (b : list Z) : bool :=
  Nat.leb (Z.to_nat BLCKSZ) (length b) && is_magic (take (Z.to_nat BLCKSZ) b).

Context (file : W → option (list Z * nat)) (Hdisk : working_disk file).
Implicit Types s : segment W.

Definition contents s : option (list Z) := fst <$> file (seg_env s).

Lemma magic_block_length : length magic_block = Z.to_nat BLCKSZ.
Proof.
  unfold magic_block. rewrite length_app, length_replicate.
  change (length (string_bytes FTS_PROBE_MAGIC_STRING)) with 45%nat. unfold BLCKSZ. lia.
Qed.

Lemma wp_seg_call {A} (f : W → A * W) Q E s :
  Q (fst (f (seg_env s)))
    (mkSegment (snd (f (seg_env s))) (repl s) (replication_slots s) (slot_files s)
       (replicationSlotMinLSN s) (MyReplicationSlot s) (sent s) (promote_signals s)) →
  wp (seg_call f) Q E s.
Proof. unfold wp, seg_call. by destruct (f (seg_env s)) as [a w]. Qed.

Lemma check_existing_spec s b E :
  file (seg_env s) = Some (b, 0%nat) →
  wp check_existing (λ failure s', failure = negb (good_block b) ∧
    ∃ pos, file (seg_env s') = Some (b, pos)) E s.
Proof.
  intros Hf. unfold check_existing, good_block. apply wp_bind, wp_seg_call. cbn [seg_env].
  destruct (wd_read file Hdisk _ _ _ Hf) as [-> Hread]. rewrite drop_0 in Hread |- *.
  set (block := take (Z.to_nat BLCKSZ) b) in *.
  assert (Hlen : length block = Nat.min (Z.to_nat BLCKSZ) (length b)) by apply length_take.
  assert (HB : BLCKSZ = 32768) by done.
  rewrite (proj2 (Z.ltb_ge _ _)) by lia.
  destruct (Z.eqb_spec (Z.of_nat (length block)) BLCKSZ) as [Hb|Hb]; cbn [negb].
  2:{ apply wp_ret. rewrite (proj2 (Nat.leb_gt _ _)) by lia. simpl. eauto. }
  rewrite (proj2 (Nat.leb_le _ _)) by lia. cbn [andb].
  destruct (is_magic block); cbn [negb]; [|apply wp_ret; simpl; eauto].
  apply wp_bind, wp_seg_call. cbn [seg_env].
  destruct (wd_seek file Hdisk _ _ _ Hread) as [-> Hseek]. cbn [negb].
  apply wp_bind, wp_seg_call. cbn [seg_env].
  destruct (wd_write file Hdisk block _ _ _ Hseek) as [-> Hwrite].
  apply wp_ret. cbn [seg_env]. rewrite Hb, Z.eqb_refl. split; [done|]. rewrite Hwrite.
  exists (0 + length block)%nat. do 2 f_equal. cbn [take app Nat.add]. subst block.
  rewrite length_take, Nat.min_l by lia. by rewrite take_drop.
Qed.

Lemma good_magic_block : good_block magic_block = true.
Proof.
  unfold good_block. rewrite magic_block_length, Nat.leb_refl, <- magic_block_length, firstn_all.
  vm_compute. reflexivity.
Qed.

(** the file after a check that did not fail *)
Definition checked (old : option (list Z)) : list Z := default magic_block old.

Lemma probe_disk_spec s E :
  wp probe_disk (λ failure s',
    failure = negb (good_block (checked (contents s))) ∧
    contents s' = if failure then None else Some (checked (contents s))) E s.
Proof.
  unfold probe_disk, contents. apply wp_bind, wp_seg_call. cbn [seg_env].
  pose proof (wd_open file Hdisk (seg_env s)) as Hopen.
  destruct (file (seg_env s)) as [[b pos]|] eqn:Hf; destruct Hopen as [-> Hopen]; simpl fmap.
  - change (checked (Some b)) with b. apply wp_bind, wp_bind. eapply wp_post; [apply check_existing_spec; exact Hopen|].
    intros failure s' (-> & pos' & Hs'). apply wp_ret. apply wp_bind, wp_seg_call. cbn [seg_env fst snd].
    apply wp_bind. destruct (good_block b); cbn [negb].
    + apply wp_ret, wp_ret. cbn [seg_env]. by rewrite (wd_close file Hdisk), Hs'.
    + apply wp_seg_call. apply wp_ret. cbn [seg_env snd]. by rewrite (wd_unlink file Hdisk).
  - change (checked None) with magic_block. apply wp_bind, wp_bind, wp_seg_call. cbn [seg_env].
    destruct (wd_create file Hdisk _ Hopen) as [-> Hcreate]. cbn [negb].
    apply wp_bind, wp_seg_call. cbn [seg_env].
    destruct (wd_write file Hdisk magic_block _ _ _ Hcreate) as [-> Hwrite].
    rewrite magic_block_length, Z2Nat.id, Z.eqb_refl by done. cbn [negb].
    apply wp_ret. apply wp_bind, wp_seg_call, wp_bind, wp_ret, wp_ret. cbn [seg_env fst snd].
    rewrite good_magic_block, (wd_close file Hdisk), Hwrite. split; [done|].
    cbn [take app fst fmap option_fmap option_map]. by rewrite drop_nil, app_nil_r.
Qed.
End Disk.

#[local] Opaque magic_block good_block BLCKSZ.

(** C25: The disk check reports a damaged probe file once.  On a disk that works, the
    check fails exactly when the probe file is there but short or without the magic
    string; then it removes the file, and otherwise leaves the magic block in it, so
    the next check succeeds in every case. *)
Theorem disk_check_heals {W} `{SegmentEnv W} (file : W → option (list Z * nat)) (s : segment W) :
  working_disk file →
  ∃ failure s', probe_disk s = Ok (failure, s') ∧
    (failure = true ↔ ∃ b, contents file s = Some b ∧ good_block b = false) ∧
    contents file s' = (if failure then None else Some (checked (contents file s))) ∧
    ∃ s'', checkIODataDirectory s' = Ok (false, s'').
Proof.
  intros Hdisk. pose proof (probe_disk_spec file Hdisk s (λ _, False)) as Hwp. unfold wp in Hwp.
  destruct (probe_disk s) as [[failure s']|] eqn:Hs; [|done]. destruct Hwp as [Hfail Hcont].
  exists failure, s'. split; [reflexivity|]. split; [|split; [exact Hcont|]].
  - rewrite Hfail, negb_true_iff. clear. destruct (contents file s) as [b|].
    + change (checked (Some b)) with b. by rewrite Some_exists.
    + change (checked None) with magic_block. by rewrite good_magic_block, None_exists.
  - unfold checkIODataDirectory. pose proof (probe_disk_spec file Hdisk s' (λ _, False)) as Hwp.
    unfold wp in Hwp. destruct (probe_disk s') as [[f2 s'']|] eqn:Hs2; [|done].
    destruct Hwp as [Hf2 _].
    assert (f2 = false) as ->.
    { rewrite Hf2, Hcont. destruct failure; [|exact (eq_sym Hfail)].
      change (checked None) with magic_block. by rewrite good_magic_block. }
    exists s''. unfold mbind, M_bind. by rewrite Hs2.
Qed.

Lemma healthy_working : working_disk probe_file.
Proof.
  split.
  - intros w. simpl. by destruct (probe_file w) as [[b pos]|] eqn:Hf.
  - done.
  - intros w b pos Hf. simpl. by rewrite Hf.
  - intros w b pos Hf. simpl. by rewrite Hf.
  - intros block w b pos Hf. simpl. by rewrite Hf.
  - done.
  - done.
Qed.

(** a probe file with other text in it *)
Definition damaged_segment : segment healthy :=
  mkSegment (mkHealthy (Some (string_bytes "garbage", 0%nat)) DB_IN_PRODUCTION) demo_repl [] ∅ 0 None [] 0.

Lemma disk_check_heals_witness :
  ∃ failure s', probe_disk damaged_segment = Ok (failure, s') ∧
    (failure = true ↔ ∃ b, contents probe_file damaged_segment = Some b ∧ good_block b = false).
Proof.
  destruct (disk_check_heals probe_file damaged_segment healthy_working) as (f & s' & H1 & H2 & _).
  exists f, s'. exact (conj H1 H2).
Defined.

(** ** Every message handled gets one response *)

Section Responses.
Context {W : Type} `{SegmentEnv W} (cfg : seg_config).
Implicit Types s : segment W.

Lemma wp_get (Q : segment W → segment W → Prop) E s : Q s s → wp get Q E s.
Proof. done. Qed.
Lemma wp_put (Q : unit → segment W → Prop) E s s' : Q tt s' → wp (put s') Q E s.
Proof. done. Qed.
Lemma wp_deref_any {A} what (p : option A) Q (E : fault → Prop) s :
  E (SegFault what) → (∀ a, p = Some a → Q a s) → wp (deref what p) Q E s.
Proof. intros He HQ. destruct p; [by apply HQ|done]. Qed.

(** [m] sends nothing *)
Definition silent {A} (m : M (segment W) A) : Prop :=
  ∀ s, wp m (λ _ s', sent s' = sent s) (λ _, True) s.

Lemma silent_bind {A B} (m : M (segment W) A) (f : A → M (segment W) B) :
  silent m → (∀ a, silent (f a)) → silent (m ≫= f).
Proof.
  intros Hm Hf s. eapply wp_seq; [apply Hm|]. intros a s' Hs. eapply wp_post; [apply Hf|].
  intros b s'' Hs''. by rewrite Hs''.
Qed.
Lemma silent_ret {A} (a : A) : silent (mret a).
Proof. done. Qed.
Lemma silent_throw {A} e : silent (throw (A := A) e).
Proof. done. Qed.
Lemma silent_elog {A} msg : silent (elog_ERROR (A := A) msg).
Proof. done. Qed.
Lemma silent_deref {A} what (p : option A) : silent (deref what p).
Proof. by destruct p. Qed.
Lemma silent_seg_call {A} (f : W → A * W) : silent (seg_call f).
Proof. intros s. by apply wp_seg_call. Qed.
Lemma silent_seg_do (f : W → W) : silent (seg_do f).
Proof. apply silent_seg_call. Qed.
Lemma silent_modify f : (∀ s, sent (f s) = sent s) → silent (modify f).
Proof. intros Hf s. apply wp_modify, Hf. Qed.
(** reading the state, to write it back changed elsewhere *)
Lemma silent_get {A} (f : segment W → M (segment W) A) :
  (∀ s, wp (f s) (λ _ s', sent s' = sent s) (λ _, True) s) → silent (get ≫= f).
Proof. intros Hf s. apply wp_bind, wp_get, Hf. Qed.
Lemma silent_wp {A} (m : M (segment W) A) s :
  silent m → wp m (λ _ s', sent s' = sent s) (λ _, True) s.
Proof. auto. Qed.
Lemma silent_put_bind {A} (s0 s : segment W) (m : M (segment W) A) :
  sent s0 = sent s → silent m → wp (_ ← put s0; m) (λ _ s', sent s' = sent s) (λ _, True) s.
Proof. intros Hs Hm. apply wp_bind, wp_put. eapply wp_post; [apply Hm|]. intros a s'. congruence. Qed.
Lemma wp_assoc {A B C} (m : M (segment W) A) (f : A → M (segment W) B) (g : B → M (segment W) C) Q E s :
  wp (m ≫= λ a, f a ≫= g) Q E s → wp ((m ≫= f) ≫= g) Q E s.
Proof. unfold wp, mbind, M_bind. by destruct (m s) as [[a s']|e]. Qed.
End Responses.

Create HintDb silent.
#[export] Hint Resolve silent_ret silent_throw silent_elog silent_deref silent_seg_call silent_seg_do : silent.

Ltac silent_step :=
  match goal with
  | |- silent (get ≫= _) => apply silent_get; intros
  | |- silent (_ ≫= _) => apply silent_bind; [|intros]
  | |- silent (if _ then _ else _) => case_match
  | |- silent (match _ with _ => _ end) => case_match
  | |- silent (modify _) => apply silent_modify; intros; reflexivity
  | |- silent _ => solve [eauto with silent]
  | |- wp ((_ ≫= _) ≫= _) _ _ _ => apply wp_assoc
  | |- wp ((if _ then _ else _) ≫= _) _ _ _ => case_match
  | |- wp (put _ ≫= _) _ _ _ => apply silent_put_bind; [by repeat case_match|]
  | |- wp (put _) _ _ _ => apply wp_put; by repeat case_match
  | |- wp (deref _ _ ≫= _) _ _ _ => apply wp_bind, wp_deref_any; [done|intros]
  | |- wp (if _ then _ else _) _ _ _ => case_match
  | |- wp (match _ with _ => _ end) _ _ _ => case_match
  | |- wp _ _ _ _ => apply silent_wp
  end.
Ltac silent_steps := repeat (cbv zeta; silent_step).

Section Silent.
Context {W : Type} `{SegmentEnv W} (cfg : seg_config).

Lemma silent_my_slot : silent (W := W) my_slot.
Proof. unfold my_slot. silent_steps. Qed.
Lemma silent_upd_my_slot f : silent (W := W) (upd_my_slot f).
Proof. unfold upd_my_slot. silent_steps. Qed.
#[local] Hint Resolve silent_my_slot silent_upd_my_slot : silent.

Lemma silent_SaveSlotToPath i dir : silent (W := W) (SaveSlotToPath i dir).
Proof. unfold SaveSlotToPath. silent_steps. Qed.
#[local] Hint Resolve silent_SaveSlotToPath : silent.

Lemma silent_CreateSlotOnDisk i : silent (W := W) (CreateSlotOnDisk i).
Proof. unfold CreateSlotOnDisk. silent_steps. Qed.
#[local] Hint Resolve silent_CreateSlotOnDisk : silent.

Lemma silent_ReplicationSlotCreate name d p : silent (W := W) (ReplicationSlotCreate cfg name d p).
Proof. unfold ReplicationSlotCreate, ReplicationSlotValidateName. silent_steps. Qed.

Lemma silent_reserve fuel : silent (W := W) (ReplicationSlotReserveWal cfg fuel).
Proof.
  induction fuel; simpl; [done|]. unfold reserve_wal_round, ReplicationSlotsComputeRequiredLSN.
  silent_steps.
Qed.
#[local] Hint Resolve silent_ReplicationSlotCreate silent_reserve : silent.

Lemma silent_release : silent (W := W) ReplicationSlotRelease.
Proof.
  unfold ReplicationSlotRelease, ReplicationSlotDropPtr, ReplicationSlotsComputeRequiredLSN.
  silent_steps.
Qed.
Lemma silent_save : silent (W := W) ReplicationSlotSave.
Proof. unfold ReplicationSlotSave. silent_steps. Qed.
#[local] Hint Resolve silent_release silent_save : silent.

Lemma silent_promote_slot fuel name : silent (W := W) (CreateReplicationSlotOnPromote cfg fuel name).
Proof.
  unfold CreateReplicationSlotOnPromote, ReplicationSlotMarkDirty. silent_steps.
Qed.

Lemma silent_checkIO : silent (W := W) checkIODataDirectory.
Proof. unfold checkIODataDirectory, probe_disk, check_existing. silent_steps. Qed.

Lemma silent_signal : silent (W := W) SignalPromote.
Proof. unfold SignalPromote. silent_steps. Qed.
End Silent.

Section Answers.
Context {W : Type} `{SegmentEnv W} (cfg : seg_config).
Implicit Types s : segment W.

(** what the prober may rely on in a response to a message of type [tag] *)
Definition truthful (response : FtsResponse) (tag : string) : Prop :=
  (IsInSync response = true → IsMirrorUp response = true) ∧
  (RequestRetry response = true → IsMirrorUp response = false) ∧
  (tag ≠ FTS_MSG_SYNCREP_OFF → IsRoleMirror response = am_mirror cfg) ∧
  (tag = FTS_MSG_PROBE → IsInSync response = true → IsSyncRepEnabled response = true) ∧
  (am_mirror cfg = true → tag ≠ FTS_MSG_SYNCREP_OFF → IsMirrorUp response = false).

Definition answered s s' : Prop :=
  ∃ response tag bytes,
    tag ∈ [FTS_MSG_PROBE; FTS_MSG_SYNCREP_OFF; FTS_MSG_PROMOTE] ∧
    response_bytes response tag = Ok bytes ∧ sent s' = sent s ++ bytes ∧ truthful response tag.

Lemma send_answers response tag s s0 :
  tag ∈ [FTS_MSG_PROBE; FTS_MSG_SYNCREP_OFF; FTS_MSG_PROMOTE] → truthful response tag →
  sent s = sent s0 → wp (SendFtsResponse response tag) (λ _ s', answered s0 s') (λ _, True) s.
Proof.
  intros Htag Ht Hs. unfold wp, SendFtsResponse. rewrite response_bytes_wire.
  exists response, tag, (wire (response_messages response tag)).
  rewrite response_bytes_wire. simpl. by rewrite Hs.
Qed.

Lemma GetMirrorStatus_flags now response (r : repl_state) :
  let '(resp, ready) := GetMirrorStatus (replication_config cfg) now response r in
  (IsInSync resp = true → IsMirrorUp resp = true) ∧ (IsInSync resp = true → ready = true) ∧
  (RequestRetry resp = true → IsMirrorUp resp = false) ∧ IsRoleMirror resp = IsRoleMirror response.
Proof.
  unfold GetMirrorStatus. rewrite scan_walsenders_spec.
  destruct (snd <$> _) as [w|]; simpl; [|done].
  destruct (is_mirror_up w), (bool_decide (wal_state w = WALSNDSTATE_STREAMING)); simpl; done.
Qed.

Lemma get_mirror_status_flags response s :
  wp (get_mirror_status cfg response) (λ r s',
    sent s' = sent s ∧ (IsInSync r.1 = true → IsMirrorUp r.1 = true) ∧
    (IsInSync r.1 = true → r.2 = true) ∧
    (RequestRetry r.1 = true → IsMirrorUp r.1 = false) ∧ IsRoleMirror r.1 = IsRoleMirror response)
    (λ _, True) s.
Proof.
  unfold get_mirror_status. apply wp_bind, wp_get. destruct (scan_walsenders _) as [[up i] rd].
  apply wp_bind. destruct up; [apply wp_ret|apply wp_seg_call]; apply wp_bind, wp_get, wp_ret;
    (match goal with |- context [GetMirrorStatus _ ?n ?r ?x] =>
       pose proof (GetMirrorStatus_flags n r x) as Hf end);
    by destruct (GetMirrorStatus _ _ _ _).
Qed.

Lemma probe_answers s : wp (HandleFtsWalRepProbe cfg) (λ _ s', answered s s') (λ _, True) s.
Proof.
  unfold HandleFtsWalRepProbe.
  eapply (wp_seq _ _ (λ r s', sent s' = sent s ∧ truthful r FTS_MSG_PROBE)).
  - destruct (am_mirror cfg) eqn:Hm.
    { apply wp_ret. split; [done|]. unfold truthful. rewrite Hm. simpl. by split_and!. }
    eapply wp_seq; [apply get_mirror_status_flags|].
    intros [r ready] s1 (Hs & Hsync & Hready & Hretry & Hrole). simpl in *.
    destruct (negb (IsSyncRepEnabled r) && ready) eqn:Hset.
    + apply wp_bind, wp_modify, wp_ret. split; [done|]. unfold truthful. rewrite Hm. simpl. by split_and!.
    + apply wp_ret. split; [done|]. unfold truthful. rewrite Hm. split_and!; try done.
      intros _ Hin. rewrite (Hready Hin) in Hset. by destruct (IsSyncRepEnabled r).
  - intros r s1 [Hs Ht]. eapply wp_seq; [apply silent_checkIO|]. intros u s2 Hs2.
    apply send_answers; [left|done|]. simpl in Hs2. congruence.
Qed.

Lemma syncrep_off_answers s :
  wp (HandleFtsWalRepSyncRepOff cfg) (λ _ s', answered s s') (λ _, True) s.
Proof.
  unfold HandleFtsWalRepSyncRepOff. apply wp_bind, wp_modify.
  eapply wp_seq; [apply get_mirror_status_flags|].
  intros [r ready] s1 (Hs & Hsync & Hready & Hretry & Hrole). simpl in *.
  apply send_answers; [right; left| |done]. unfold truthful. by split_and!.
Qed.

Lemma promote_answers fuel s :
  wp (HandleFtsWalRepPromote cfg fuel) (λ r s', r = Some tt → answered s s') (λ _, True) s.
Proof.
  unfold HandleFtsWalRepPromote. apply wp_bind, wp_seg_call, wp_bind, wp_seg_call. cbn [seg_env].
  assert (Ht : truthful (mkResponse false false false (am_mirror cfg) false) FTS_MSG_PROMOTE) by done.
  assert (Hin : FTS_MSG_PROMOTE ∈ [FTS_MSG_PROBE; FTS_MSG_SYNCREP_OFF; FTS_MSG_PROMOTE]) by by repeat constructor.
  case_match.
  - apply wp_bind, wp_modify. eapply wp_seq; [apply silent_promote_slot|].
    intros [[]|] s1 Hs1; [|by apply wp_ret].
    eapply wp_seq; [apply silent_signal|]. intros u s2 Hs2. simpl in *.
    eapply wp_seq; [by apply (send_answers _ _ _ s); [..|congruence]|]. intros v s3 Hs3.
    by apply wp_ret.
  - eapply wp_seq; [by apply (send_answers _ _ _ s)|]. intros v s3 Hs3. by apply wp_ret.
Qed.
End Answers.


Definition promote_query : string := "PROMOTE dbid=2 contid=0".
Definition demo_promoted : segment healthy :=
  match HandleFtsMessage (demo_seg_cfg true) 1 promote_query (demo_segment DB_IN_ARCHIVE_RECOVERY) with
  | Ok (_, s) => s
  | Err _ => demo_segment DB_IN_ARCHIVE_RECOVERY
  end.

