(* ===== verification/FtsPromotion.v ===== *)
(** * Promotion of a mirror by the FTS handler

    What HandleFtsWalRepPromote leaves behind on a mirror that is in archive recovery,
    in shared memory and on disk, and that it can be repeated. *)

From S2P Require Import Prelude CLib Libpq PqProtocol FtsProbe GpReplication GpReplicationFacts.
From S2P Require Import ReplSlot FtsHandler FtsHandlerFacts.

(** ** Scans of the slots *)

Lemma alter_as_insert {A} (f : A → A) (i : nat) (l : list A) x : l !! i = Some x → alter f i l = <[i := f x]> l.
Proof.
  revert i. induction l as [|y l IH]; intros [|i]; simpl; intros Hx; simplify_eq; [done|].
  f_equal. by apply IH.
Qed.
Lemma alter_insert {A} (f : A → A) (i : nat) (l : list A) x :
  (i < length l)%nat → alter f i (<[i := x]> l) = <[i := f x]> l.
Proof.
  intros Hi. rewrite (alter_as_insert f i _ x) by (by apply list_lookup_insert_eq).
  apply list_insert_insert_eq.
Qed.

Lemma find_free_slot_spec name l k acc :
  (∀ r, r ∈ l → named name r = false) →
  ∃ r, find_free_slot name l k acc = Some r ∧
    (acc = None → match r with
      | Some i => ∃ j old, i = (k + j)%nat ∧ l !! j = Some old ∧ slot_in_use old = false
      | None => ∀ r, r ∈ l → slot_in_use r = true
      end) ∧ (∀ i, acc = Some i → r = Some i).
Proof.
  revert k acc. induction l as [|r l IH]; intros k acc Hn; simpl.
  { exists acc. split_and!; [done|intros ->; by intros r ?%elem_of_nil|done]. }
  rewrite Hn by left.
  destruct (IH (S k) (if negb (slot_in_use r) && bool_decide (acc = None) then Some k else acc))
    as (res & -> & Hnone & Hsome); [intros; apply Hn; by right|].
  exists res. split_and!; [done| |].
  - intros ->. rewrite bool_decide_eq_true_2, andb_true_r in Hnone, Hsome by done.
    destruct (slot_in_use r) eqn:Hu; simpl in *.
    + specialize (Hnone eq_refl). destruct res as [i|].
      * destruct Hnone as (j & old & -> & ? & ?). exists (S j), old. split_and!; [lia|done..].
      * intros x [->|Hx]%elem_of_cons; [done|by apply Hnone].
    + rewrite (Hsome k eq_refl). exists 0%nat, r. split_and!; [lia|done..].
  - intros i ->. rewrite bool_decide_eq_false_2, andb_false_r in Hsome by done. by apply Hsome.
Qed.

Lemma find_named_none name l k acc :
  (∀ r, r ∈ l → named name r = false) → find_named name l k acc = acc.
Proof.
  revert k acc. induction l as [|r l IH]; intros k acc Hn; simpl; [done|].
  rewrite Hn by left. apply IH. intros. apply Hn. by right.
Qed.

Lemma find_named_one name l k acc i r :
  l !! i = Some r → named name r = true →
  (∀ j x, j ≠ i → l !! j = Some x → named name x = false) →
  find_named name l k acc = Some (k + i)%nat.
Proof.
  revert k acc i. induction l as [|y l IH]; intros k acc [|i] Hi Hr Hother; simpl in *; simplify_eq.
  - rewrite Hr. rewrite find_named_none; [f_equal; lia|].
    intros x (j & Hj)%list_elem_of_lookup. by apply (Hother (S j)).
  - rewrite (IH (S k) _ i) by (done || intros j x Hne; apply (Hother (S j)); lia). f_equal. lia.
Qed.

(** ** The slot of a promoted mirror *)

Section Promotion.
Context {W : Type} `{SegmentEnv W} (cfg : seg_config) (lsn : Z).
Implicit Types s : segment W.

(** A mirror in archive recovery with its last redo point at [lsn], whose WAL is there,
    on a disk that works. *)
Record promotable : Prop := {
  pr_state : ∀ w, fst (GetCurrentDBState w) = DB_IN_ARCHIVE_RECOVERY;
  pr_recovering : ∀ w, fst (RecoveryInProgress w) = true;
  pr_redo : ∀ w, fst (GetRedoRecPtr w) = lsn;
  pr_valid : lsn ≠ 0;
  pr_wal : ∀ w, fst (XLogGetLastRemovedSegno w) < lsn / wal_segment_size cfg;
  pr_mkdir : ∀ w, fst (make_slot_directory w) = true;
  pr_write : ∀ w, fst (write_slot_file w) = true;
  pr_rename : ∀ w, fst (rename_slot_directory w) = true;
  pr_promote : ∀ w, fst (create_promote_file w) = true;
}.
Context (Hp : promotable).

Definition with_env (w : W) s : segment W :=
  mkSegment w (repl s) (replication_slots s) (slot_files s) (replicationSlotMinLSN s)
    (MyReplicationSlot s) (sent s) (promote_signals s).

Lemma wp_const {A} (f : W → A * W) a Q E s :
  (∀ w, fst (f w) = a) → (∀ w, Q a (with_env w s)) → wp (seg_call f) Q E s.
Proof. intros Hf HQ. apply wp_seg_call. rewrite Hf. apply HQ. Qed.

Lemma save_spec i r dir s E :
  replication_slots s !! i = Some r → dirty r = true →
  wp (SaveSlotToPath i dir) (λ _ s', ∃ w, s' =
    set_slot_files (<[dir := data r]> (slot_files s))
      (set_slots (<[i := set_dirty false false r]> (replication_slots s)) (with_env w s))) E s.
Proof.
  intros Hi Hd. assert (Hlt : (i < length (replication_slots s))%nat) by by eapply lookup_lt_Some.
  unfold SaveSlotToPath. apply wp_bind, wp_get, wp_bind. eapply wp_deref; [exact Hi|].
  cbv zeta. rewrite Hd. apply wp_bind, wp_put. cbn [negb].
  apply wp_bind, (wp_const _ true); [apply Hp|]. intros w. cbn [negb].
  apply wp_bind, wp_get, wp_bind, wp_put, wp_bind, wp_get, wp_put. exists w.
  cbn. by rewrite (alter_as_insert (λ x, set_dirty false (dirty x) x) i _ r Hi), alter_insert.
Qed.

(** the data of the slot, before and after WAL is reserved *)
Definition slot_at (l : Z) : ReplicationSlotPersistentData :=
  mkSlotData INTERNAL_WAL_REPLICATION_SLOT_NAME 0 RS_PERSISTENT l.
Abbreviation NAME := INTERNAL_WAL_REPLICATION_SLOT_NAME.

Lemma create_spec s E :
  (∀ r, r ∈ replication_slots s → named NAME r = false) →
  (∃ r, r ∈ replication_slots s ∧ slot_in_use r = false) →
  wp (ReplicationSlotCreate cfg NAME false RS_PERSISTENT) (λ _ s', ∃ i w,
    (i < length (replication_slots s))%nat ∧ s' =
    set_MyReplicationSlot (Some i)
      (set_slot_files (<[slot_path NAME := slot_at 0]> (delete (slot_tmppath NAME) (slot_files s)))
        (set_slots (<[i := mkSlot true (MyProcPid cfg) false false (slot_at 0)]> (replication_slots s))
          (with_env w s)))) E s.
Proof.
  intros Hno (r & Hr & Hfree). unfold ReplicationSlotCreate. apply wp_bind.
  change (ReplicationSlotValidateName NAME) with (mret true : M (segment W) bool). apply wp_ret.
  apply wp_bind, wp_get.
  destruct (find_free_slot_spec NAME (replication_slots s) 0 None Hno) as (res & -> & Hres & _).
  specialize (Hres eq_refl). destruct res as [i|]; [|by rewrite Hres in Hfree].
  destruct Hres as (j & old & -> & Hj & Hu). cbn [Nat.add].
  assert (Hlt : (j < length (replication_slots s))%nat) by by eapply lookup_lt_Some.
  apply wp_bind, wp_put. rewrite (alter_as_insert _ _ _ old Hj).
  change (StrNCpy NAME) with NAME. fold (slot_at 0). rewrite Hu.
  unfold CreateSlotOnDisk. apply wp_bind, wp_bind, wp_get, wp_bind. cbn [replication_slots set_slots].
  eapply wp_deref; [by apply list_lookup_insert_eq|]. cbv zeta. cbn [data slot_name slot_at].
  apply wp_bind, (wp_const _ true); [apply Hp|]. intros w1. cbn [negb].
  apply wp_bind, wp_get, wp_bind, wp_put. cbn [replication_slots with_env set_slots set_slot_files slot_files].
  rewrite alter_insert by done. apply wp_bind.
  eapply wp_post; [apply save_spec; [by apply list_lookup_insert_eq|done]|].
  intros u s' (w2 & ->). apply wp_bind, (wp_const _ true); [apply Hp|]. intros w3. cbn [negb].
  apply wp_bind, wp_get, wp_bind. cbn [slot_files with_env set_slots set_slot_files].
  eapply wp_deref; [by apply lookup_insert_eq|]. apply wp_put, wp_bind, wp_get, wp_put.
  exists j, w3. split; [done|]. cbn. rewrite list_insert_insert_eq, alter_insert by done. cbn.
  rewrite delete_insert_eq, delete_delete_eq. done.
Qed.

Lemma reserve_spec fuel i r s E :
  MyReplicationSlot s = Some i → replication_slots s !! i = Some r →
  wp (ReplicationSlotReserveWal cfg (S fuel)) (λ o s', o = Some tt ∧ ∃ w,
    let slots := <[i := set_restart_lsn lsn r]> (replication_slots s) in
    s' = mkSegment w (repl s) slots (slot_files s) (required_lsn slots) (Some i) (sent s)
           (promote_signals s)) E s.
Proof.
  intros Hmy Hi. assert (Hlt : (i < length (replication_slots s))%nat) by by eapply lookup_lt_Some.
  cbn [ReplicationSlotReserveWal]. unfold reserve_wal_round, my_slot, upd_my_slot.
  apply wp_bind, wp_bind, (wp_const _ true); [apply Hp|]. intros w1.
  apply wp_bind, wp_bind, wp_get, wp_bind. eapply wp_deref; [exact Hmy|]. eapply wp_deref; [exact Hi|].
  cbn [negb andb]. apply wp_bind, wp_bind, (wp_const _ lsn); [apply Hp|]. intros w2.
  apply wp_bind, wp_get, wp_bind. eapply wp_deref; [exact Hmy|]. apply wp_put.
  cbn [replication_slots with_env]. rewrite (alter_as_insert _ _ _ r Hi).
  apply wp_bind, wp_modify, wp_bind, wp_bind, wp_get, wp_bind. eapply wp_deref; [exact Hmy|].
  eapply wp_deref; [by apply list_lookup_insert_eq|].
  apply wp_bind, wp_seg_call. apply wp_ret. cbn [data set_restart_lsn restart_lsn].
  rewrite (proj2 (Z.ltb_lt _ _)) by apply Hp. apply wp_ret. split; [done|]. eexists. by rewrite <- Hmy.
Qed.

(** the slot as promotion leaves it: persistent, owned by no process, clean *)
Definition promoted_slot : ReplicationSlot := mkSlot true 0 false false (slot_at lsn).

(** [s'] is [s] with the slot created in a free entry *)
Definition slot_created s s' : Prop :=
  ∃ i w, (i < length (replication_slots s))%nat ∧ s' =
    mkSegment w (repl s) (<[i := promoted_slot]> (replication_slots s))
      (<[slot_path NAME := slot_at lsn]> (delete (slot_tmppath NAME) (slot_files s)))
      (required_lsn (<[i := mkSlot true (MyProcPid cfg) false false (slot_at lsn)]> (replication_slots s)))
      None (sent s) (promote_signals s).

Lemma create_on_promote_spec fuel s E :
  MyReplicationSlot s = None → MyProcPid cfg ≠ 0 →
  (∀ r, r ∈ replication_slots s → named NAME r = false) →
  (∃ r, r ∈ replication_slots s ∧ slot_in_use r = false) →
  wp (CreateReplicationSlotOnPromote cfg (S fuel) NAME) (λ o s', o = Some tt ∧ slot_created s s') E s.
Proof.
  intros Hmy Hpid Hno Hfree. unfold CreateReplicationSlotOnPromote.
  apply wp_bind, wp_get. cbv zeta. rewrite find_named_none, Hmy by done.
  apply wp_bind, wp_put, wp_bind.
  eapply wp_post; [by apply create_spec|]. intros u s1 (i & w1 & Hlt & ->).
  apply wp_bind. unfold my_slot at 1. apply wp_bind, wp_get, wp_bind. eapply wp_deref; [reflexivity|].
  eapply wp_deref; [by apply list_lookup_insert_eq|]. cbn [data slot_at restart_lsn Z.eqb].
  apply wp_bind. eapply wp_post; [eapply reserve_spec; [reflexivity|by apply list_lookup_insert_eq]|].
  intros o s2 (-> & w2 & ->). cbn [replication_slots set_MyReplicationSlot set_slot_files set_slots].
  rewrite list_insert_insert_eq.
  unfold ReplicationSlotMarkDirty, upd_my_slot. apply wp_bind, wp_bind, wp_get, wp_bind.
  eapply wp_deref; [reflexivity|]. apply wp_put. cbn [replication_slots set_slots]. rewrite alter_insert by done.
  unfold ReplicationSlotSave. apply wp_bind, wp_bind, wp_get, wp_bind. eapply wp_deref; [reflexivity|].
  apply wp_bind. eapply wp_deref; [by apply list_lookup_insert_eq|].
  eapply wp_post; [apply save_spec; [by apply list_lookup_insert_eq|done]|]. intros v s3 (w3 & ->).
  apply wp_bind. unfold my_slot. apply wp_bind, wp_get, wp_bind. eapply wp_deref; [reflexivity|].
  cbn [replication_slots set_slots set_slot_files with_env]. rewrite list_insert_insert_eq.
  eapply wp_deref; [by apply list_lookup_insert_eq|].
  cbn [active_pid set_dirty set_restart_lsn]. rewrite (proj2 (Z.eqb_neq _ _)) by done. cbn [negb].
  unfold ReplicationSlotRelease. apply wp_bind, wp_bind, wp_get, wp_bind. eapply wp_deref; [reflexivity|].
  apply wp_bind. eapply wp_deref; [by apply list_lookup_insert_eq|]. cbn.
  apply wp_bind, wp_ret, wp_bind, wp_bind, wp_get, wp_put, wp_modify, wp_bind, wp_modify, wp_ret.
  split; [done|]. exists i, w3. split; [done|]. cbn. rewrite alter_insert by done.
  by rewrite insert_insert_eq.
Qed.

(** a slot that a previous request created is left alone *)
Lemma create_on_promote_again fuel i r s E :
  replication_slots s !! i = Some r → named NAME r = true → restart_lsn (data r) ≠ 0 →
  (∀ j x, j ≠ i → replication_slots s !! j = Some x → named NAME x = false) →
  wp (CreateReplicationSlotOnPromote cfg fuel NAME) (λ o s', o = Some tt ∧
    s' = set_MyReplicationSlot None s) E s.
Proof.
  intros Hi Hn Hl Hother. unfold CreateReplicationSlotOnPromote. apply wp_bind, wp_get. cbv zeta.
  rewrite (find_named_one _ _ _ _ i r) by done. cbn [Nat.add].
  apply wp_bind, wp_put, wp_bind, wp_ret, wp_bind. unfold my_slot.
  apply wp_bind, wp_get, wp_bind. eapply wp_deref; [reflexivity|]. eapply wp_deref; [exact Hi|].
  rewrite (proj2 (Z.eqb_neq _ _)) by done. by apply wp_bind, wp_modify, wp_ret.
Qed.

(** the handler around the creation of the slot *)
Lemma promote_spec fuel s E (P : segment W → Prop) :
  (∀ w, wp (CreateReplicationSlotOnPromote cfg fuel NAME) (λ o s', o = Some tt ∧ P s') E
          (set_repl (UnsetSyncStandbysDefined (repl s)) (with_env w s))) →
  wp (HandleFtsWalRepPromote cfg fuel) (λ o s', o = Some tt ∧ ∃ s1 w b,
    P s1 ∧ s' = mkSegment w (repl s1) (replication_slots s1) (slot_files s1)
      (replicationSlotMinLSN s1) (MyReplicationSlot s1) (sent s1 ++ b) (S (promote_signals s1))) E s.
Proof.
  intros HP. unfold HandleFtsWalRepPromote.
  apply wp_bind, (wp_const _ DB_IN_ARCHIVE_RECOVERY); [apply Hp|]. intros w1.
  apply wp_bind, (wp_const _ lsn); [apply Hp|]. intros w2.
  rewrite bool_decide_eq_true_2, (proj2 (Z.eqb_neq _ _)) by (done || apply Hp). cbn [negb andb].
  apply wp_bind, wp_modify, wp_bind. eapply wp_post; [apply (HP w2)|]. intros o s1 [-> HP1].
  apply wp_bind. unfold SignalPromote. apply wp_bind, (wp_const _ true); [apply Hp|]. intros w3.
  apply wp_modify, wp_bind. unfold wp, SendFtsResponse. rewrite response_bytes_wire.
  split; [done|]. exists s1, w3. eexists. by split.
Qed.
End Promotion.

(** ** WAL is kept for the slot *)

Lemma required_step_bound acc r :
  0 ≤ acc → 0 ≤ restart_lsn (data r) →
  0 ≤ required_step acc r ∧ (acc ≠ 0 → 0 < required_step acc r ≤ acc) ∧
  (slot_in_use r = true → restart_lsn (data r) ≠ 0 → 0 < required_step acc r ≤ restart_lsn (data r)).
Proof.
  intros Ha Hr. unfold required_step. destruct (slot_in_use r); simpl; [|lia].
  destruct (Z.eqb_spec (restart_lsn (data r)) 0), (Z.eqb_spec acc 0),
    (Z.ltb_spec (restart_lsn (data r)) acc); simpl; lia.
Qed.

Lemma required_lsn_bound l acc :
  0 ≤ acc → Forall (λ r, 0 ≤ restart_lsn (data r)) l →
  0 ≤ foldl required_step acc l ∧ (acc ≠ 0 → 0 < foldl required_step acc l ≤ acc) ∧
  (∀ r, r ∈ l → slot_in_use r = true → restart_lsn (data r) ≠ 0 →
     0 < foldl required_step acc l ≤ restart_lsn (data r)).
Proof.
  intros Ha HF. revert acc Ha. induction HF as [|r l Hr HF IH]; intros acc Ha; simpl.
  { split_and!; [done|lia|by intros r ?%elem_of_nil]. }
  destruct (required_step_bound acc r Ha Hr) as (H0 & H1 & H2).
  destruct (IH (required_step acc r) H0) as (I0 & I1 & I2).
  split_and!; [done|lia|]. intros x [->|Hx]%elem_of_cons Hu Hl; [|by apply I2].
  specialize (H2 Hu Hl). specialize (I1 ltac:(lia)). lia.
Qed.

(** C24: Promotion can be repeated.  On a mirror in archive recovery without a slot for
    its future mirror, PROMOTE creates that slot in a free entry, with the redo point as
    its restart LSN, in shared memory and on disk; from then on WAL after that point is
    kept; the status of the old replication is dropped and the postmaster is signalled.
    A second PROMOTE signals again and changes neither the slots nor their files. *)
Theorem promotion_idempotent {W} `{SegmentEnv W} cfg lsn fuel (s : segment W) :
  promotable cfg lsn → MyReplicationSlot s = None → MyProcPid cfg ≠ 0 → 0 ≤ lsn →
  Forall (λ r, 0 ≤ restart_lsn (data r)) (replication_slots s) →
  (∀ r, r ∈ replication_slots s → named INTERNAL_WAL_REPLICATION_SLOT_NAME r = false) →
  (∃ r, r ∈ replication_slots s ∧ slot_in_use r = false) →
  ∃ i s1 s2,
    HandleFtsWalRepPromote cfg (S fuel) s = Ok (Some tt, s1) ∧
    replication_slots s1 = <[i := promoted_slot lsn]> (replication_slots s) ∧
    slot_files s1 !! slot_path INTERNAL_WAL_REPLICATION_SLOT_NAME = Some (slot_at lsn) ∧
    0 < replicationSlotMinLSN s1 ≤ lsn ∧
    RetrieveFTSReplicationStatus GP_WALRECEIVER_APPNAME (repl s1) = None ∧
    promote_signals s1 = S (promote_signals s) ∧
    HandleFtsWalRepPromote cfg fuel s1 = Ok (Some tt, s2) ∧
    replication_slots s2 = replication_slots s1 ∧ slot_files s2 = slot_files s1 ∧
    promote_signals s2 = S (promote_signals s1).
Proof.
  intros Hp Hmy Hpid Hlsn Hpos Hno Hfree.
  pose proof (promote_spec cfg lsn Hp (S fuel) s (λ _, False)
    (slot_created cfg lsn (set_repl (UnsetSyncStandbysDefined (repl s)) s))
    (λ w, create_on_promote_spec cfg lsn Hp fuel
       (set_repl (UnsetSyncStandbysDefined (repl s)) (with_env w s)) (λ _, False) Hmy Hpid Hno Hfree))
    as H1. unfold wp in H1.
  destruct (HandleFtsWalRepPromote cfg (S fuel) s) as [[o s1]|]; [|done].
  destruct H1 as (-> & s1' & w1 & b1 & (i & w & Hlt & ->) & ->). cbn in Hlt.
  set (s1 := mkSegment _ _ _ _ _ _ _ _). exists i, s1.
  assert (Hi : replication_slots s1 !! i = Some (promoted_slot lsn)) by by apply list_lookup_insert_eq.
  assert (Hagain : ∀ w2, wp (CreateReplicationSlotOnPromote cfg fuel INTERNAL_WAL_REPLICATION_SLOT_NAME)
    (λ o s', o = Some tt ∧ ∃ w, s' =
       set_MyReplicationSlot None (set_repl (UnsetSyncStandbysDefined (repl s1)) (with_env w s1)))
    (λ _, False) (set_repl (UnsetSyncStandbysDefined (repl s1)) (with_env w2 s1))).
  { intros w2. eapply wp_post;
      [apply (create_on_promote_again cfg fuel i (promoted_slot lsn)); [exact Hi|done|apply Hp|]
      |intros o s' [-> ->]; by eauto].
    intros j x Hj Hx. cbn in Hx. rewrite list_lookup_insert_ne in Hx by done.
    apply Hno. by eapply list_elem_of_lookup_2. }
  pose proof (promote_spec cfg lsn Hp fuel s1 (λ _, False) _ Hagain) as H2.
  unfold wp in H2. destruct (HandleFtsWalRepPromote cfg fuel s1) as [[o2 s2]|]; [|done].
  destruct H2 as (-> & s2' & w2 & b2 & (w3 & ->) & ->). eexists. split; [reflexivity|].
  split; [reflexivity|]. split; [apply lookup_insert_eq|]. split.
  - cbn. apply (required_lsn_bound _ 0 ltac:(done)) with
      (r := mkSlot true (MyProcPid cfg) false false (slot_at lsn)).
    + by apply Forall_insert.
    + apply list_elem_of_lookup. exists i. by apply list_lookup_insert_eq.
    + done.
    + apply Hp.
  - split; [|done]. apply Retrieve_None. intros slot. apply dropped_status.
Qed.

(** a mirror in archive recovery whose disk works *)
#[export] Instance recovering_env : SegmentEnv unit := {
  open_probe_file w := (Opened, w);
  create_probe_file w := (true, w);
  read_probe_file w := (BLCKSZ, magic_block, w);
  seek_probe_file w := (true, w);
  write_probe_file _ w := (BLCKSZ, w);
  close_probe_file w := w;
  unlink_probe_file w := w;
  make_slot_directory w := (true, w);
  write_slot_file w := (true, w);
  rename_slot_directory w := (true, w);
  create_promote_file w := (true, w);
  unix_time w := (2000, w);
  GetCurrentDBState w := (DB_IN_ARCHIVE_RECOVERY, w);
  RecoveryInProgress w := (true, w);
  GetRedoRecPtr w := (2 ^ 26 + 40, w);
  GetXLogInsertRecPtr w := (2 ^ 26 + 80, w);
  LogStandbySnapshot w := w;
  XLogGetLastRemovedSegno w := (0, w);
}.
Definition recovering_segment : segment unit :=
  mkSegment tt demo_repl [mkSlot false 0 false false (mkSlotData EmptyString 0 RS_PERSISTENT 0)]
    ∅ 0 None [] 0.

Lemma recovering_promotable : promotable (W := unit) (demo_seg_cfg true) (2 ^ 26 + 40).
Proof. by split. Qed.

Lemma promotion_idempotent_witness :
  ∃ i s1 s2, HandleFtsWalRepPromote (demo_seg_cfg true) 1 recovering_segment = Ok (Some tt, s1) ∧
    replication_slots s1 = <[i := promoted_slot (2 ^ 26 + 40)]> (replication_slots recovering_segment) ∧
    HandleFtsWalRepPromote (demo_seg_cfg true) 0 s1 = Ok (Some tt, s2).
Proof.
  destruct (promotion_idempotent (demo_seg_cfg true) (2 ^ 26 + 40) 0 recovering_segment
    recovering_promotable) as (i & s1 & s2 & H1 & H2 & _ & _ & _ & _ & H3 & _).
  - reflexivity.
  - discriminate.
  - lia.
  - constructor; [done|constructor].
  - by intros r [->|[]%elem_of_nil]%elem_of_cons.
  - eexists. split; [left|reflexivity].
  - exists i, s1, s2. exact (conj H1 (conj H2 H3)).
Defined.
