(* ===== verification/Elog.v ===== *)
(** * Errors that are caught

    A backend that raises ERROR does not end: PG_TRY blocks and the main loop catch the
    error, and what the code changed before it stays changed.  The transaction machinery
    is about exactly these states, so its model keeps the state of a computation that
    raises.  [Raised] carries the level of ereport(): ERROR is caught by PG_CATCH, FATAL
    ends the process and PANIC the server.  [LOOPING] is not a level of the program: it
    marks a loop that is still running when its fuel is used up, so a specification that
    does not allow it says that the loop ends. *)
From S2P Require Import Prelude.

Inductive elevel := ERROR | FATAL | PANIC | LOOPING.

#[export] Instance elevel_eq_dec : EqDecision elevel.
Proof. solve_decision. Defined.

Inductive outcome (A : Type) :=
  | Done (a : A)
  | Raised (l : elevel) (msg : string).
Arguments Done {A} _.
Arguments Raised {A} _ _.

Definition X (S A : Type) : Type := S → outcome A * S.

#[export] Instance X_ret S : MRet (X S) := λ A a s, (Done a, s).
#[export] Instance X_bind S : MBind (X S) := λ A B f m s,
  match m s with
  | (Done a, s') => f a s'
  | (Raised l msg, s') => (Raised l msg, s')
  end.

Definition xget {S} : X S S := λ s, (Done s, s).
Definition xmodify {S} (f : S → S) : X S unit := λ s, (Done tt, f s).
(** read a part of the state *)
Definition xread {S A} (f : S → A) : X S A := λ s, (Done (f s), s).
Definition elog {S A} (l : elevel) (msg : string) : X S A := λ s, (Raised l msg, s).
Definition out_of_fuel {S A} : X S A := elog LOOPING EmptyString.

(** PG_TRY { m } PG_CATCH { h }: only ERROR reaches the handler *)
Definition pg_try {S A} (m : X S A) (h : string → X S A) : X S A := λ s,
  match m s with
  | (Raised ERROR msg, s') => h msg s'
  | r => r
  end.

Definition xwhen {S} (b : bool) (m : X S unit) : X S unit := if b then m else mret tt.

(** ** Weakest preconditions *)

Definition xwp {S A} (m : X S A) (Q : A → S → Prop) (E : elevel → string → S → Prop) (s : S) : Prop :=
  match m s with
  | (Done a, s') => Q a s'
  | (Raised l msg, s') => E l msg s'
  end.

Section xwp_rules.
Context {S : Type}.
Implicit Types E : elevel → string → S → Prop.

Lemma xwp_ret {A} (a : A) (Q : A → S → Prop) E s : Q a s → xwp (mret a) Q E s.
Proof. done. Qed.

Lemma xwp_bind {A B} (m : X S A) (f : A → X S B) (Q : B → S → Prop) E s :
  xwp m (λ a, xwp (f a) Q E) E s → xwp (m ≫= f) Q E s.
Proof. unfold xwp, mbind, X_bind. by destruct (m s) as [[a|l msg] s']. Qed.

Lemma xwp_modify (f : S → S) (Q : unit → S → Prop) E s : Q tt (f s) → xwp (xmodify f) Q E s.
Proof. done. Qed.
Lemma xwp_get (Q : S → S → Prop) E s : Q s s → xwp xget Q E s.
Proof. done. Qed.
Lemma xwp_read {A} (f : S → A) (Q : A → S → Prop) E s : Q (f s) s → xwp (xread f) Q E s.
Proof. done. Qed.
Lemma xwp_elog {A} l msg (Q : A → S → Prop) E s : E l msg s → xwp (elog l msg) Q E s.
Proof. done. Qed.

Lemma xwp_mono {A} (m : X S A) (Q Q' : A → S → Prop) E E' s :
  xwp m Q' E' s → (∀ a s', Q' a s' → Q a s') → (∀ l msg s', E' l msg s' → E l msg s') →
  xwp m Q E s.
Proof. unfold xwp. destruct (m s) as [[a|l msg] s']; eauto. Qed.

(** sequencing with a known specification of the first part *)
Lemma xwp_seq {A B} (m : X S A) (f : A → X S B) (R : A → S → Prop) (Q : B → S → Prop) E s :
  xwp m R E s → (∀ a s', R a s' → xwp (f a) Q E s') → xwp (m ≫= f) Q E s.
Proof. intros Hm Hf. apply xwp_bind. by eapply xwp_mono. Qed.

Lemma xwp_conj {A} (m : X S A) (Q Q' : A → S → Prop) E E' s :
  xwp m Q E s → xwp m Q' E' s →
  xwp m (λ a s', Q a s' ∧ Q' a s') (λ l msg s', E l msg s' ∧ E' l msg s') s.
Proof. unfold xwp. by destruct (m s) as [[a|l msg] s']. Qed.

Lemma xwp_try {A} (m : X S A) h (Q : A → S → Prop) E s :
  xwp m Q (λ l msg s', match l with ERROR => xwp (h msg) Q E s' | _ => E l msg s' end) s →
  xwp (pg_try m h) Q E s.
Proof. unfold xwp, pg_try. by destruct (m s) as [[a|[] msg] s']. Qed.

Lemma xwp_when b (m : X S unit) (Q : unit → S → Prop) E s :
  (b = true → xwp m Q E s) → (b = false → Q tt s) → xwp (xwhen b m) Q E s.
Proof. intros H1 H2. destruct b; [by apply H1|by apply H2]. Qed.

(** what a specification says of a run *)
Lemma xwp_Done {A} (m : X S A) (Q : A → S → Prop) E s a s' :
  xwp m Q E s → m s = (Done a, s') → Q a s'.
Proof. unfold xwp. intros H Heq. by rewrite Heq in H. Qed.
Lemma xwp_Raised {A} (m : X S A) (Q : A → S → Prop) E s l msg s' :
  xwp m Q E s → m s = (Raised l msg, s') → E l msg s'.
Proof. unfold xwp. intros H Heq. by rewrite Heq in H. Qed.
End xwp_rules.

(** ** Frames

    Computations that change the state along [R] only, also when they raise. *)
Section xframed.
Context {S : Type} (R : relation S) `{!PreOrder R}.

Definition xframed {A} (m : X S A) : Prop := ∀ s, R s (m s).2.

Lemma xframed_ret {A} (a : A) : xframed (mret a).
Proof. intros s. simpl. reflexivity. Qed.
Lemma xframed_bind {A B} (m : X S A) (f : A → X S B) :
  xframed m → (∀ a, xframed (f a)) → xframed (m ≫= f).
Proof.
  intros Hm Hf s. unfold mbind, X_bind. specialize (Hm s).
  destruct (m s) as [[a|l msg] s']; simpl in *; [|done].
  transitivity s'; [done|apply Hf].
Qed.
Lemma xframed_elog {A} l msg : xframed (elog (A := A) l msg).
Proof. intros s. simpl. reflexivity. Qed.
Lemma xframed_get : xframed xget.
Proof. intros s. simpl. reflexivity. Qed.
Lemma xframed_read {A} (f : S → A) : xframed (xread f).
Proof. intros s. simpl. reflexivity. Qed.
Lemma xframed_modify f : (∀ s, R s (f s)) → xframed (xmodify f).
Proof. intros Hf s. apply Hf. Qed.
Lemma xframed_try {A} (m : X S A) h :
  xframed m → (∀ msg, xframed (h msg)) → xframed (pg_try m h).
Proof.
  intros Hm Hh s. unfold pg_try. specialize (Hm s).
  destruct (m s) as [[a|[] msg] s']; simpl in *; [done| |done..].
  transitivity s'; [done|apply Hh].
Qed.
Lemma xframed_when b (m : X S unit) : xframed m → xframed (xwhen b m).
Proof. destruct b; [done|]. intros _. apply xframed_ret. Qed.

Lemma xframed_xwp {A} (m : X S A) (Q : A → S → Prop) E s :
  xframed m → xwp m Q E s →
  xwp m (λ a s', Q a s' ∧ R s s') (λ l msg s', E l msg s' ∧ R s s') s.
Proof. intros Hm. specialize (Hm s). unfold xwp. by destruct (m s) as [[a|l msg] s']. Qed.
End xframed.

Create HintDb xframed.

(** one step of a proof that a computation is framed *)
Ltac xframe_step :=
  first
    [ progress intros
    | match goal with |- PreOrder _ => apply _ end
    | solve [auto with xframed nocore]
    | apply xframed_ret
    | apply xframed_elog
    | apply xframed_get
    | apply xframed_read
    | apply xframed_when
    | apply xframed_try
    | apply xframed_bind
    | match goal with
      | |- xframed _ (match ?x with _ => _ end) => destruct x
      | |- xframed _ (if ?x then _ else _) => destruct x
      end ].

(** one step of a weakest-precondition proof of straight-line code *)
Ltac xwp_step :=
  lazymatch goal with
  | |- xwp (mbind _ _) _ _ _ => apply xwp_bind
  | |- xwp (mret _) _ _ _ => apply xwp_ret
  | |- xwp (xmodify _) _ _ _ => apply xwp_modify
  | |- xwp xget _ _ _ => apply xwp_get
  | |- xwp (xread _) _ _ _ => apply xwp_read
  | |- xwp (elog _ _) _ _ _ => apply xwp_elog
  end.
