(* ===== verification/Dtm.v ===== *)
(** * Distributed transactions: data and state

    The types of [src/include/cdb/cdbtm.h], [cdbdtxcontextinfo.h], [cdblocaldistribxact.h],
    the transaction states of [src/backend/access/transam/xact.c] and the entries of
    [twophase.c], and the state of a backend process: its transaction variables, its
    distributed-transaction variables, the server it runs on (the write-ahead log and the
    shared memory) and an environment for what it calls. *)
From S2P Require Import Prelude CLib BitUtils Bitmapset Elog.

(** ** Transaction states (xact.c) *)

Inductive TransState :=
  | TRANS_DEFAULT | TRANS_START | TRANS_INPROGRESS | TRANS_COMMIT | TRANS_ABORT | TRANS_PREPARE.

Inductive TBlockState :=
  | TBLOCK_DEFAULT | TBLOCK_STARTED
  | TBLOCK_BEGIN | TBLOCK_INPROGRESS | TBLOCK_IMPLICIT_INPROGRESS | TBLOCK_PARALLEL_INPROGRESS
  | TBLOCK_END | TBLOCK_ABORT | TBLOCK_ABORT_END | TBLOCK_ABORT_PENDING | TBLOCK_PREPARE
  | TBLOCK_SUBBEGIN | TBLOCK_SUBINPROGRESS | TBLOCK_SUBRELEASE | TBLOCK_SUBCOMMIT
  | TBLOCK_SUBABORT | TBLOCK_SUBABORT_END | TBLOCK_SUBABORT_PENDING
  | TBLOCK_SUBRESTART | TBLOCK_SUBABORT_RESTART.

#[export] Instance TransState_eq_dec : EqDecision TransState.
Proof. solve_decision. Defined.
#[export] Instance TBlockState_eq_dec : EqDecision TBlockState.
Proof. solve_decision. Defined.

Definition InvalidTransactionId : Z := 0.
Definition TransactionIdIsValid (xid : Z) : bool := negb (xid =? InvalidTransactionId).
Definition InvalidSubTransactionId : Z := 0.
Definition TopSubTransactionId : Z := 1.
Definition FirstCommandId : Z := 0.
Definition InvalidCommandId : Z := 2 ^ 32 - 1.

(** Isolation levels (xact.h) *)
Definition XACT_READ_UNCOMMITTED : Z := 0.
Definition XACT_READ_COMMITTED : Z := 1.
Definition XACT_REPEATABLE_READ : Z := 2.
Definition XACT_SERIALIZABLE : Z := 3.

(** A level of the transaction stack.  The stack is a list, so there is no [parent]
    field; [curTransactionOwner] says whether the resource owner has been created. *)
Record TransactionStateData := mkTransactionState {
  name : option string;
  savepointLevel : Z;
  state : TransState;
  blockState : TBlockState;
  nestingLevel : Z;
  fullTransactionId : Z;
  subTransactionId : Z;
  childXids : list Z;
  curTransactionOwner : bool;
  prevXactReadOnly : bool;
  parallelModeLevel : Z;
  chain : bool }.

Definition set_name (v : option string) (s : TransactionStateData) : TransactionStateData :=
  mkTransactionState v (savepointLevel s) (state s) (blockState s) (nestingLevel s)
    (fullTransactionId s) (subTransactionId s) (childXids s) (curTransactionOwner s)
    (prevXactReadOnly s) (parallelModeLevel s) (chain s).
Definition set_savepointLevel (v : Z) (s : TransactionStateData) : TransactionStateData :=
  mkTransactionState (name s) v (state s) (blockState s) (nestingLevel s) (fullTransactionId s)
    (subTransactionId s) (childXids s) (curTransactionOwner s) (prevXactReadOnly s)
    (parallelModeLevel s) (chain s).
Definition set_state (v : TransState) (s : TransactionStateData) : TransactionStateData :=
  mkTransactionState (name s) (savepointLevel s) v (blockState s) (nestingLevel s)
    (fullTransactionId s) (subTransactionId s) (childXids s) (curTransactionOwner s)
    (prevXactReadOnly s) (parallelModeLevel s) (chain s).
Definition set_blockState (v : TBlockState) (s : TransactionStateData) : TransactionStateData :=
  mkTransactionState (name s) (savepointLevel s) (state s) v (nestingLevel s)
    (fullTransactionId s) (subTransactionId s) (childXids s) (curTransactionOwner s)
    (prevXactReadOnly s) (parallelModeLevel s) (chain s).
Definition set_nestingLevel (v : Z) (s : TransactionStateData) : TransactionStateData :=
  mkTransactionState (name s) (savepointLevel s) (state s) (blockState s) v (fullTransactionId s)
    (subTransactionId s) (childXids s) (curTransactionOwner s) (prevXactReadOnly s)
    (parallelModeLevel s) (chain s).
Definition set_fullTransactionId (v : Z) (s : TransactionStateData) : TransactionStateData :=
  mkTransactionState (name s) (savepointLevel s) (state s) (blockState s) (nestingLevel s) v
    (subTransactionId s) (childXids s) (curTransactionOwner s) (prevXactReadOnly s)
    (parallelModeLevel s) (chain s).
Definition set_subTransactionId (v : Z) (s : TransactionStateData) : TransactionStateData :=
  mkTransactionState (name s) (savepointLevel s) (state s) (blockState s) (nestingLevel s)
    (fullTransactionId s) v (childXids s) (curTransactionOwner s) (prevXactReadOnly s)
    (parallelModeLevel s) (chain s).
Definition set_childXids (v : list Z) (s : TransactionStateData) : TransactionStateData :=
  mkTransactionState (name s) (savepointLevel s) (state s) (blockState s) (nestingLevel s)
    (fullTransactionId s) (subTransactionId s) v (curTransactionOwner s) (prevXactReadOnly s)
    (parallelModeLevel s) (chain s).
Definition set_curTransactionOwner (v : bool) (s : TransactionStateData) : TransactionStateData :=
  mkTransactionState (name s) (savepointLevel s) (state s) (blockState s) (nestingLevel s)
    (fullTransactionId s) (subTransactionId s) (childXids s) v (prevXactReadOnly s)
    (parallelModeLevel s) (chain s).
Definition set_prevXactReadOnly (v : bool) (s : TransactionStateData) : TransactionStateData :=
  mkTransactionState (name s) (savepointLevel s) (state s) (blockState s) (nestingLevel s)
    (fullTransactionId s) (subTransactionId s) (childXids s) (curTransactionOwner s) v
    (parallelModeLevel s) (chain s).
Definition set_parallelModeLevel (v : Z) (s : TransactionStateData) : TransactionStateData :=
  mkTransactionState (name s) (savepointLevel s) (state s) (blockState s) (nestingLevel s)
    (fullTransactionId s) (subTransactionId s) (childXids s) (curTransactionOwner s)
    (prevXactReadOnly s) v (chain s).
Definition set_chain (v : bool) (s : TransactionStateData) : TransactionStateData :=
  mkTransactionState (name s) (savepointLevel s) (state s) (blockState s) (nestingLevel s)
    (fullTransactionId s) (subTransactionId s) (childXids s) (curTransactionOwner s)
    (prevXactReadOnly s) (parallelModeLevel s) v.

(** ** Distributed transactions (cdbtm.h) *)

Inductive DtxState :=
  | DTX_STATE_NONE
  | DTX_STATE_ACTIVE_DISTRIBUTED
  | DTX_STATE_ONE_PHASE_COMMIT
  | DTX_STATE_NOTIFYING_ONE_PHASE_COMMIT
  | DTX_STATE_PREPARING
  | DTX_STATE_PREPARED
  | DTX_STATE_INSERTING_COMMITTED
  | DTX_STATE_INSERTED_COMMITTED
  | DTX_STATE_NOTIFYING_COMMIT_PREPARED
  | DTX_STATE_INSERTING_FORGET_COMMITTED
  | DTX_STATE_INSERTED_FORGET_COMMITTED
  | DTX_STATE_NOTIFYING_ABORT_NO_PREPARED
  | DTX_STATE_NOTIFYING_ABORT_SOME_PREPARED
  | DTX_STATE_NOTIFYING_ABORT_PREPARED
  | DTX_STATE_RETRY_COMMIT_PREPARED
  | DTX_STATE_RETRY_ABORT_PREPARED.

Inductive DtxProtocolCommand :=
  | DTX_PROTOCOL_COMMAND_NONE
  | DTX_PROTOCOL_COMMAND_ABORT_NO_PREPARED
  | DTX_PROTOCOL_COMMAND_PREPARE
  | DTX_PROTOCOL_COMMAND_ABORT_SOME_PREPARED
  | DTX_PROTOCOL_COMMAND_COMMIT_ONEPHASE
  | DTX_PROTOCOL_COMMAND_COMMIT_PREPARED
  | DTX_PROTOCOL_COMMAND_ABORT_PREPARED
  | DTX_PROTOCOL_COMMAND_RETRY_COMMIT_PREPARED
  | DTX_PROTOCOL_COMMAND_RETRY_ABORT_PREPARED
  | DTX_PROTOCOL_COMMAND_RECOVERY_COMMIT_PREPARED
  | DTX_PROTOCOL_COMMAND_RECOVERY_ABORT_PREPARED
  | DTX_PROTOCOL_COMMAND_SUBTRANSACTION_BEGIN_INTERNAL
  | DTX_PROTOCOL_COMMAND_SUBTRANSACTION_ROLLBACK_INTERNAL
  | DTX_PROTOCOL_COMMAND_SUBTRANSACTION_RELEASE_INTERNAL.

Inductive DtxContext :=
  | DTX_CONTEXT_LOCAL_ONLY
  | DTX_CONTEXT_QD_DISTRIBUTED_CAPABLE
  | DTX_CONTEXT_QD_RETRY_PHASE_2
  | DTX_CONTEXT_QE_ENTRY_DB_SINGLETON
  | DTX_CONTEXT_QE_AUTO_COMMIT_IMPLICIT
  | DTX_CONTEXT_QE_TWO_PHASE_EXPLICIT_WRITER
  | DTX_CONTEXT_QE_TWO_PHASE_IMPLICIT_WRITER
  | DTX_CONTEXT_QE_READER
  | DTX_CONTEXT_QE_PREPARED
  | DTX_CONTEXT_QE_FINISH_PREPARED.

#[export] Instance DtxState_eq_dec : EqDecision DtxState.
Proof. solve_decision. Defined.
#[export] Instance DtxProtocolCommand_eq_dec : EqDecision DtxProtocolCommand.
Proof. solve_decision. Defined.
#[export] Instance DtxContext_eq_dec : EqDecision DtxContext.
Proof. solve_decision. Defined.

Definition InvalidDistributedTransactionId : Z := 0.
Definition FirstDistributedTransactionId : Z := 1.
Definition LastDistributedTransactionId : Z := 2 ^ 64 - 1.

(** the two bits of DtxRecoveryEvent *)
Definition DTX_RECOVERY_EVENT_ABORT_PREPARED : Z := 1.
Definition DTX_RECOVERY_EVENT_BUMP_GXID : Z := 2.

Inductive LocalDistribXactState :=
  | LOCALDISTRIBXACT_STATE_NONE
  | LOCALDISTRIBXACT_STATE_ACTIVE
  | LOCALDISTRIBXACT_STATE_COMMITTED
  | LOCALDISTRIBXACT_STATE_ABORTED
  | LOCALDISTRIBXACT_STATE_PREPARED.

#[export] Instance LocalDistribXactState_eq_dec : EqDecision LocalDistribXactState.
Proof. solve_decision. Defined.

(** shared-memory part of the state of a distributed transaction *)
Record TMGXACT := mkTMGXACT {
  gxid : Z;
  xminDistributedSnapshot : Z;
  includeInCkpt : bool;
  sessionId : Z }.

Definition set_gxid (v : Z) (s : TMGXACT) : TMGXACT :=
  mkTMGXACT v (xminDistributedSnapshot s) (includeInCkpt s) (sessionId s).
Definition set_xminDistributedSnapshot (v : Z) (s : TMGXACT) : TMGXACT :=
  mkTMGXACT (gxid s) v (includeInCkpt s) (sessionId s).
Definition set_includeInCkpt (v : bool) (s : TMGXACT) : TMGXACT :=
  mkTMGXACT (gxid s) (xminDistributedSnapshot s) v (sessionId s).
Definition set_sessionId (v : Z) (s : TMGXACT) : TMGXACT :=
  mkTMGXACT (gxid s) (xminDistributedSnapshot s) (includeInCkpt s) v.

(** private part of it *)
Record TMGXACTLOCAL := mkTMGXACTLOCAL {
  dtxState : DtxState;
  explicitBeginRemembered : bool;
  isOnePhaseCommit : bool;
  writerGangLost : bool;
  dtxSegmentsMap : Bitmapset;
  dtxSegments : list Z;
  waitGxids : list Z }.

Definition set_dtxState (v : DtxState) (s : TMGXACTLOCAL) : TMGXACTLOCAL :=
  mkTMGXACTLOCAL v (explicitBeginRemembered s) (isOnePhaseCommit s) (writerGangLost s)
    (dtxSegmentsMap s) (dtxSegments s) (waitGxids s).
Definition set_explicitBeginRemembered (v : bool) (s : TMGXACTLOCAL) : TMGXACTLOCAL :=
  mkTMGXACTLOCAL (dtxState s) v (isOnePhaseCommit s) (writerGangLost s) (dtxSegmentsMap s)
    (dtxSegments s) (waitGxids s).
Definition set_isOnePhaseCommit (v : bool) (s : TMGXACTLOCAL) : TMGXACTLOCAL :=
  mkTMGXACTLOCAL (dtxState s) (explicitBeginRemembered s) v (writerGangLost s) (dtxSegmentsMap s)
    (dtxSegments s) (waitGxids s).
Definition set_writerGangLost (v : bool) (s : TMGXACTLOCAL) : TMGXACTLOCAL :=
  mkTMGXACTLOCAL (dtxState s) (explicitBeginRemembered s) (isOnePhaseCommit s) v
    (dtxSegmentsMap s) (dtxSegments s) (waitGxids s).
Definition set_dtxSegmentsMap (v : Bitmapset) (s : TMGXACTLOCAL) : TMGXACTLOCAL :=
  mkTMGXACTLOCAL (dtxState s) (explicitBeginRemembered s) (isOnePhaseCommit s) (writerGangLost s)
    v (dtxSegments s) (waitGxids s).
Definition set_dtxSegments (v : list Z) (s : TMGXACTLOCAL) : TMGXACTLOCAL :=
  mkTMGXACTLOCAL (dtxState s) (explicitBeginRemembered s) (isOnePhaseCommit s) (writerGangLost s)
    (dtxSegmentsMap s) v (waitGxids s).
Definition set_waitGxids (v : list Z) (s : TMGXACTLOCAL) : TMGXACTLOCAL :=
  mkTMGXACTLOCAL (dtxState s) (explicitBeginRemembered s) (isOnePhaseCommit s) (writerGangLost s)
    (dtxSegmentsMap s) (dtxSegments s) v.

Record DistributedSnapshot := mkDistributedSnapshot {
  xminAllDistributedSnapshots : Z;
  distribSnapshotId : Z;
  ds_xmin : Z;
  ds_xmax : Z;
  ds_count : Z;
  inProgressXidArray : list Z }.

Record DtxContextInfo := mkDtxContextInfo {
  distributedXid : Z;
  haveDistributedSnapshot : bool;
  cursorContext : bool;
  distributedSnapshot : DistributedSnapshot;
  distributedTxnOptions : Z;
  segmateSync : Z;
  info_nestingLevel : Z;
  curcid : Z }.

(** ** The server: write-ahead log and shared memory *)

(** a checkpoint: the position from which the log is replayed, the counters, and the
    distributed transactions that are committed and not forgotten *)
Record CheckPoint := mkCheckPoint {
  ckpt_shutdown : bool;
  ckpt_redo : Z;
  ckpt_nextXid : Z;
  ckpt_nextGxid : Z;
  ckpt_committed : list Z }.

(** The transaction records of the log (and NEXTGXID and checkpoints of the
    coordinator), with the fields that recovery uses. *)
Inductive XLogRecord :=
  | XLOG_XACT_COMMIT (xid : Z) (subxacts : list Z) (distrib_xid : Z)
  | XLOG_XACT_DISTRIBUTED_COMMIT (xid : Z) (subxacts : list Z) (distrib_xid : Z)
  | XLOG_XACT_DISTRIBUTED_FORGET (gxid : Z)
  | XLOG_XACT_ABORT (xid : Z) (subxacts : list Z)
  | XLOG_XACT_PREPARE (xid : Z) (subxacts : list Z) (gid : string) (owner databaseid : Z)
  | XLOG_XACT_COMMIT_PREPARED (twophase_xid : Z) (subxacts : list Z) (distrib_xid : Z)
  | XLOG_XACT_ABORT_PREPARED (twophase_xid : Z) (subxacts : list Z)
  | XLOG_NEXTGXID (gxid : Z)
  | XLOG_CHECKPOINT (c : CheckPoint)
  | XLOG_OTHER (xid : Z).

Inductive XidStatus := XID_COMMITTED | XID_ABORTED.

#[export] Instance XidStatus_eq_dec : EqDecision XidStatus.
Proof. solve_decision. Defined.

(** An entry of TwoPhaseState->prepXacts.  [gxact_children] is what the two-phase state
    data of the entry holds; [gxact_distrib] is the state in its dummy PGPROC. *)
Record GlobalTransactionData := mkGlobalTransaction {
  gxact_xid : Z;
  gxact_gid : string;
  gxact_children : list Z;
  gxact_owner : Z;
  gxact_databaseId : Z;
  locking_backend : option Z;
  valid : bool;
  gxact_distrib : LocalDistribXactState }.

Definition set_gxact_xid (v : Z) (g : GlobalTransactionData) : GlobalTransactionData :=
  mkGlobalTransaction v (gxact_gid g) (gxact_children g) (gxact_owner g) (gxact_databaseId g)
    (locking_backend g) (valid g) (gxact_distrib g).
Definition set_gxact_gid (v : string) (g : GlobalTransactionData) : GlobalTransactionData :=
  mkGlobalTransaction (gxact_xid g) v (gxact_children g) (gxact_owner g) (gxact_databaseId g)
    (locking_backend g) (valid g) (gxact_distrib g).
Definition set_gxact_children (v : list Z) (g : GlobalTransactionData) : GlobalTransactionData :=
  mkGlobalTransaction (gxact_xid g) (gxact_gid g) v (gxact_owner g) (gxact_databaseId g)
    (locking_backend g) (valid g) (gxact_distrib g).
Definition set_gxact_owner (v : Z) (g : GlobalTransactionData) : GlobalTransactionData :=
  mkGlobalTransaction (gxact_xid g) (gxact_gid g) (gxact_children g) v (gxact_databaseId g)
    (locking_backend g) (valid g) (gxact_distrib g).
Definition set_gxact_databaseId (v : Z) (g : GlobalTransactionData) : GlobalTransactionData :=
  mkGlobalTransaction (gxact_xid g) (gxact_gid g) (gxact_children g) (gxact_owner g) v
    (locking_backend g) (valid g) (gxact_distrib g).
Definition set_locking_backend (v : option Z) (g : GlobalTransactionData) : GlobalTransactionData :=
  mkGlobalTransaction (gxact_xid g) (gxact_gid g) (gxact_children g) (gxact_owner g)
    (gxact_databaseId g) v (valid g) (gxact_distrib g).
Definition set_valid (v : bool) (g : GlobalTransactionData) : GlobalTransactionData :=
  mkGlobalTransaction (gxact_xid g) (gxact_gid g) (gxact_children g) (gxact_owner g)
    (gxact_databaseId g) (locking_backend g) v (gxact_distrib g).
Definition set_gxact_distrib (v : LocalDistribXactState) (g : GlobalTransactionData) : GlobalTransactionData :=
  mkGlobalTransaction (gxact_xid g) (gxact_gid g) (gxact_children g) (gxact_owner g)
    (gxact_databaseId g) (locking_backend g) (valid g) v.

(** [xlog] is the list of records inserted, a position is a number of records and the
    first [xlog_flushed] of them are on disk. *)
Record server := mkServer {
  xlog : list XLogRecord;
  xlog_flushed : Z;
  clog : gmap Z XidStatus;
  distributedlog : gmap Z Z;
  prepXacts : list GlobalTransactionData;
  nextXid : Z;
  nextGxid : Z;
  GxidCount : Z;
  latestCompletedGxid : Z;
  DtxRecoveryEvents : Z;
  DtmStarted : bool;
  CommittedGxidArray : list Z }.

Definition set_xlog (v : list XLogRecord) (s : server) : server :=
  mkServer v (xlog_flushed s) (clog s) (distributedlog s) (prepXacts s) (nextXid s) (nextGxid s)
    (GxidCount s) (latestCompletedGxid s) (DtxRecoveryEvents s) (DtmStarted s)
    (CommittedGxidArray s).
Definition set_xlog_flushed (v : Z) (s : server) : server :=
  mkServer (xlog s) v (clog s) (distributedlog s) (prepXacts s) (nextXid s) (nextGxid s)
    (GxidCount s) (latestCompletedGxid s) (DtxRecoveryEvents s) (DtmStarted s)
    (CommittedGxidArray s).
Definition set_clog (v : gmap Z XidStatus) (s : server) : server :=
  mkServer (xlog s) (xlog_flushed s) v (distributedlog s) (prepXacts s) (nextXid s) (nextGxid s)
    (GxidCount s) (latestCompletedGxid s) (DtxRecoveryEvents s) (DtmStarted s)
    (CommittedGxidArray s).
Definition set_distributedlog (v : gmap Z Z) (s : server) : server :=
  mkServer (xlog s) (xlog_flushed s) (clog s) v (prepXacts s) (nextXid s) (nextGxid s)
    (GxidCount s) (latestCompletedGxid s) (DtxRecoveryEvents s) (DtmStarted s)
    (CommittedGxidArray s).
Definition set_prepXacts (v : list GlobalTransactionData) (s : server) : server :=
  mkServer (xlog s) (xlog_flushed s) (clog s) (distributedlog s) v (nextXid s) (nextGxid s)
    (GxidCount s) (latestCompletedGxid s) (DtxRecoveryEvents s) (DtmStarted s)
    (CommittedGxidArray s).
Definition set_nextXid (v : Z) (s : server) : server :=
  mkServer (xlog s) (xlog_flushed s) (clog s) (distributedlog s) (prepXacts s) v (nextGxid s)
    (GxidCount s) (latestCompletedGxid s) (DtxRecoveryEvents s) (DtmStarted s)
    (CommittedGxidArray s).
Definition set_nextGxid (v : Z) (s : server) : server :=
  mkServer (xlog s) (xlog_flushed s) (clog s) (distributedlog s) (prepXacts s) (nextXid s) v
    (GxidCount s) (latestCompletedGxid s) (DtxRecoveryEvents s) (DtmStarted s)
    (CommittedGxidArray s).
Definition set_GxidCount (v : Z) (s : server) : server :=
  mkServer (xlog s) (xlog_flushed s) (clog s) (distributedlog s) (prepXacts s) (nextXid s)
    (nextGxid s) v (latestCompletedGxid s) (DtxRecoveryEvents s) (DtmStarted s)
    (CommittedGxidArray s).
Definition set_latestCompletedGxid (v : Z) (s : server) : server :=
  mkServer (xlog s) (xlog_flushed s) (clog s) (distributedlog s) (prepXacts s) (nextXid s)
    (nextGxid s) (GxidCount s) v (DtxRecoveryEvents s) (DtmStarted s) (CommittedGxidArray s).
Definition set_DtxRecoveryEvents (v : Z) (s : server) : server :=
  mkServer (xlog s) (xlog_flushed s) (clog s) (distributedlog s) (prepXacts s) (nextXid s)
    (nextGxid s) (GxidCount s) (latestCompletedGxid s) v (DtmStarted s) (CommittedGxidArray s).
Definition set_DtmStarted (v : bool) (s : server) : server :=
  mkServer (xlog s) (xlog_flushed s) (clog s) (distributedlog s) (prepXacts s) (nextXid s)
    (nextGxid s) (GxidCount s) (latestCompletedGxid s) (DtxRecoveryEvents s) v
    (CommittedGxidArray s).
Definition set_CommittedGxidArray (v : list Z) (s : server) : server :=
  mkServer (xlog s) (xlog_flushed s) (clog s) (distributedlog s) (prepXacts s) (nextXid s)
    (nextGxid s) (GxidCount s) (latestCompletedGxid s) (DtxRecoveryEvents s) (DtmStarted s) v.

(** ** A backend process *)

Inductive GpRoleValue := GP_ROLE_DISPATCH | GP_ROLE_EXECUTE | GP_ROLE_UTILITY.

#[export] Instance GpRoleValue_eq_dec : EqDecision GpRoleValue.
Proof. solve_decision. Defined.

(** what does not change while a process runs *)
Class Backend := {
  Gp_role : GpRoleValue;
  Gp_is_writer : bool;
  IS_QUERY_DISPATCHER : bool;
  MyBackendId : Z;
  gp_session_id : Z;
  UserId : Z;
  superuser_arg : Z → bool;
  MyDatabaseId : Z;
  SharedLocalSnapshotSlot_present : bool;
  DefaultXactIsoLevel : Z;
  DefaultXactReadOnly : bool;
  DefaultXactDeferrable : bool;
  max_prepared_xacts : Z;
  gp_gxid_prefetch_num : Z;
  dtx_phase2_retry_second : Z;
  max_tm_gxacts : Z }.

Section role.
Context `{Backend}.
Definition is_role (r : GpRoleValue) : bool := bool_decide (Gp_role = r).
Definition is_dispatch : bool := is_role GP_ROLE_DISPATCH.
Definition is_execute : bool := is_role GP_ROLE_EXECUTE.
Definition is_utility : bool := is_role GP_ROLE_UTILITY.
End role.

(** Variables of xact.c and twophase.c.  [subtransactions] holds the levels above
    TopTransactionStateData, the current one first; MyLockedGxact names the entry it
    points to by its identifier. *)
Record xact_vars := mkXactVars {
  TopTransactionStateData : TransactionStateData;
  subtransactions : list TransactionStateData;
  currentSubTransactionId : Z;
  currentCommandId : Z;
  currentCommandIdUsed : bool;
  XactIsoLevel : Z;
  XactReadOnly : bool;
  XactDeferrable : bool;
  save_XactIsoLevel : Z;
  save_XactReadOnly : bool;
  save_XactDeferrable : bool;
  XactTopFullTransactionId : Z;
  prepareGID : option string;
  XactLastRecEnd : Z;
  TopXactexecutorDidWriteXLog : bool;
  MyLockedGxact : option string;
  proc_exit_inprogress : bool }.

Definition set_TopTransactionStateData (v : TransactionStateData) (s : xact_vars) : xact_vars :=
  mkXactVars v (subtransactions s) (currentSubTransactionId s) (currentCommandId s)
    (currentCommandIdUsed s) (XactIsoLevel s) (XactReadOnly s) (XactDeferrable s)
    (save_XactIsoLevel s) (save_XactReadOnly s) (save_XactDeferrable s)
    (XactTopFullTransactionId s) (prepareGID s) (XactLastRecEnd s) (TopXactexecutorDidWriteXLog s)
    (MyLockedGxact s) (proc_exit_inprogress s).
Definition set_subtransactions (v : list TransactionStateData) (s : xact_vars) : xact_vars :=
  mkXactVars (TopTransactionStateData s) v (currentSubTransactionId s) (currentCommandId s)
    (currentCommandIdUsed s) (XactIsoLevel s) (XactReadOnly s) (XactDeferrable s)
    (save_XactIsoLevel s) (save_XactReadOnly s) (save_XactDeferrable s)
    (XactTopFullTransactionId s) (prepareGID s) (XactLastRecEnd s) (TopXactexecutorDidWriteXLog s)
    (MyLockedGxact s) (proc_exit_inprogress s).
Definition set_currentSubTransactionId (v : Z) (s : xact_vars) : xact_vars :=
  mkXactVars (TopTransactionStateData s) (subtransactions s) v (currentCommandId s)
    (currentCommandIdUsed s) (XactIsoLevel s) (XactReadOnly s) (XactDeferrable s)
    (save_XactIsoLevel s) (save_XactReadOnly s) (save_XactDeferrable s)
    (XactTopFullTransactionId s) (prepareGID s) (XactLastRecEnd s) (TopXactexecutorDidWriteXLog s)
    (MyLockedGxact s) (proc_exit_inprogress s).
Definition set_currentCommandId (v : Z) (s : xact_vars) : xact_vars :=
  mkXactVars (TopTransactionStateData s) (subtransactions s) (currentSubTransactionId s) v
    (currentCommandIdUsed s) (XactIsoLevel s) (XactReadOnly s) (XactDeferrable s)
    (save_XactIsoLevel s) (save_XactReadOnly s) (save_XactDeferrable s)
    (XactTopFullTransactionId s) (prepareGID s) (XactLastRecEnd s) (TopXactexecutorDidWriteXLog s)
    (MyLockedGxact s) (proc_exit_inprogress s).
Definition set_currentCommandIdUsed (v : bool) (s : xact_vars) : xact_vars :=
  mkXactVars (TopTransactionStateData s) (subtransactions s) (currentSubTransactionId s)
    (currentCommandId s) v (XactIsoLevel s) (XactReadOnly s) (XactDeferrable s)
    (save_XactIsoLevel s) (save_XactReadOnly s) (save_XactDeferrable s)
    (XactTopFullTransactionId s) (prepareGID s) (XactLastRecEnd s) (TopXactexecutorDidWriteXLog s)
    (MyLockedGxact s) (proc_exit_inprogress s).
Definition set_XactIsoLevel (v : Z) (s : xact_vars) : xact_vars :=
  mkXactVars (TopTransactionStateData s) (subtransactions s) (currentSubTransactionId s)
    (currentCommandId s) (currentCommandIdUsed s) v (XactReadOnly s) (XactDeferrable s)
    (save_XactIsoLevel s) (save_XactReadOnly s) (save_XactDeferrable s)
    (XactTopFullTransactionId s) (prepareGID s) (XactLastRecEnd s) (TopXactexecutorDidWriteXLog s)
    (MyLockedGxact s) (proc_exit_inprogress s).
Definition set_XactReadOnly (v : bool) (s : xact_vars) : xact_vars :=
  mkXactVars (TopTransactionStateData s) (subtransactions s) (currentSubTransactionId s)
    (currentCommandId s) (currentCommandIdUsed s) (XactIsoLevel s) v (XactDeferrable s)
    (save_XactIsoLevel s) (save_XactReadOnly s) (save_XactDeferrable s)
    (XactTopFullTransactionId s) (prepareGID s) (XactLastRecEnd s) (TopXactexecutorDidWriteXLog s)
    (MyLockedGxact s) (proc_exit_inprogress s).
Definition set_XactDeferrable (v : bool) (s : xact_vars) : xact_vars :=
  mkXactVars (TopTransactionStateData s) (subtransactions s) (currentSubTransactionId s)
    (currentCommandId s) (currentCommandIdUsed s) (XactIsoLevel s) (XactReadOnly s) v
    (save_XactIsoLevel s) (save_XactReadOnly s) (save_XactDeferrable s)
    (XactTopFullTransactionId s) (prepareGID s) (XactLastRecEnd s) (TopXactexecutorDidWriteXLog s)
    (MyLockedGxact s) (proc_exit_inprogress s).
Definition set_save_XactIsoLevel (v : Z) (s : xact_vars) : xact_vars :=
  mkXactVars (TopTransactionStateData s) (subtransactions s) (currentSubTransactionId s)
    (currentCommandId s) (currentCommandIdUsed s) (XactIsoLevel s) (XactReadOnly s)
    (XactDeferrable s) v (save_XactReadOnly s) (save_XactDeferrable s)
    (XactTopFullTransactionId s) (prepareGID s) (XactLastRecEnd s) (TopXactexecutorDidWriteXLog s)
    (MyLockedGxact s) (proc_exit_inprogress s).
Definition set_save_XactReadOnly (v : bool) (s : xact_vars) : xact_vars :=
  mkXactVars (TopTransactionStateData s) (subtransactions s) (currentSubTransactionId s)
    (currentCommandId s) (currentCommandIdUsed s) (XactIsoLevel s) (XactReadOnly s)
    (XactDeferrable s) (save_XactIsoLevel s) v (save_XactDeferrable s)
    (XactTopFullTransactionId s) (prepareGID s) (XactLastRecEnd s) (TopXactexecutorDidWriteXLog s)
    (MyLockedGxact s) (proc_exit_inprogress s).
Definition set_save_XactDeferrable (v : bool) (s : xact_vars) : xact_vars :=
  mkXactVars (TopTransactionStateData s) (subtransactions s) (currentSubTransactionId s)
    (currentCommandId s) (currentCommandIdUsed s) (XactIsoLevel s) (XactReadOnly s)
    (XactDeferrable s) (save_XactIsoLevel s) (save_XactReadOnly s) v (XactTopFullTransactionId s)
    (prepareGID s) (XactLastRecEnd s) (TopXactexecutorDidWriteXLog s) (MyLockedGxact s)
    (proc_exit_inprogress s).
Definition set_XactTopFullTransactionId (v : Z) (s : xact_vars) : xact_vars :=
  mkXactVars (TopTransactionStateData s) (subtransactions s) (currentSubTransactionId s)
    (currentCommandId s) (currentCommandIdUsed s) (XactIsoLevel s) (XactReadOnly s)
    (XactDeferrable s) (save_XactIsoLevel s) (save_XactReadOnly s) (save_XactDeferrable s) v
    (prepareGID s) (XactLastRecEnd s) (TopXactexecutorDidWriteXLog s) (MyLockedGxact s)
    (proc_exit_inprogress s).
Definition set_prepareGID (v : option string) (s : xact_vars) : xact_vars :=
  mkXactVars (TopTransactionStateData s) (subtransactions s) (currentSubTransactionId s)
    (currentCommandId s) (currentCommandIdUsed s) (XactIsoLevel s) (XactReadOnly s)
    (XactDeferrable s) (save_XactIsoLevel s) (save_XactReadOnly s) (save_XactDeferrable s)
    (XactTopFullTransactionId s) v (XactLastRecEnd s) (TopXactexecutorDidWriteXLog s)
    (MyLockedGxact s) (proc_exit_inprogress s).
Definition set_XactLastRecEnd (v : Z) (s : xact_vars) : xact_vars :=
  mkXactVars (TopTransactionStateData s) (subtransactions s) (currentSubTransactionId s)
    (currentCommandId s) (currentCommandIdUsed s) (XactIsoLevel s) (XactReadOnly s)
    (XactDeferrable s) (save_XactIsoLevel s) (save_XactReadOnly s) (save_XactDeferrable s)
    (XactTopFullTransactionId s) (prepareGID s) v (TopXactexecutorDidWriteXLog s)
    (MyLockedGxact s) (proc_exit_inprogress s).
Definition set_TopXactexecutorDidWriteXLog (v : bool) (s : xact_vars) : xact_vars :=
  mkXactVars (TopTransactionStateData s) (subtransactions s) (currentSubTransactionId s)
    (currentCommandId s) (currentCommandIdUsed s) (XactIsoLevel s) (XactReadOnly s)
    (XactDeferrable s) (save_XactIsoLevel s) (save_XactReadOnly s) (save_XactDeferrable s)
    (XactTopFullTransactionId s) (prepareGID s) (XactLastRecEnd s) v (MyLockedGxact s)
    (proc_exit_inprogress s).
Definition set_MyLockedGxact (v : option string) (s : xact_vars) : xact_vars :=
  mkXactVars (TopTransactionStateData s) (subtransactions s) (currentSubTransactionId s)
    (currentCommandId s) (currentCommandIdUsed s) (XactIsoLevel s) (XactReadOnly s)
    (XactDeferrable s) (save_XactIsoLevel s) (save_XactReadOnly s) (save_XactDeferrable s)
    (XactTopFullTransactionId s) (prepareGID s) (XactLastRecEnd s) (TopXactexecutorDidWriteXLog s)
    v (proc_exit_inprogress s).
Definition set_proc_exit_inprogress (v : bool) (s : xact_vars) : xact_vars :=
  mkXactVars (TopTransactionStateData s) (subtransactions s) (currentSubTransactionId s)
    (currentCommandId s) (currentCommandIdUsed s) (XactIsoLevel s) (XactReadOnly s)
    (XactDeferrable s) (save_XactIsoLevel s) (save_XactReadOnly s) (save_XactDeferrable s)
    (XactTopFullTransactionId s) (prepareGID s) (XactLastRecEnd s) (TopXactexecutorDidWriteXLog s)
    (MyLockedGxact s) v.

(** the level CurrentTransactionState points to *)
Definition CurrentTransactionState (x : xact_vars) : TransactionStateData :=
  match subtransactions x with
  | [] => TopTransactionStateData x
  | s :: _ => s
  end.

(** update the current level *)
Definition upd_current (f : TransactionStateData → TransactionStateData) (x : xact_vars) : xact_vars :=
  match subtransactions x with
  | [] => set_TopTransactionStateData (f (TopTransactionStateData x)) x
  | s :: rest => set_subtransactions (f s :: rest) x
  end.

(** Variables of cdbtm.c and the distributed part of MyProc *)
Record dtx_vars := mkDtxVars {
  DistributedTransactionContext : DtxContext;
  QEDtxContextInfo : DtxContextInfo;
  MyTmGxact : TMGXACT;
  MyTmGxactLocal : TMGXACTLOCAL;
  localDistribXact_state : LocalDistribXactState;
  localDistribXact_xid : Z;
  syncCount : Z }.

Definition set_DistributedTransactionContext (v : DtxContext) (s : dtx_vars) : dtx_vars :=
  mkDtxVars v (QEDtxContextInfo s) (MyTmGxact s) (MyTmGxactLocal s) (localDistribXact_state s)
    (localDistribXact_xid s) (syncCount s).
Definition set_QEDtxContextInfo (v : DtxContextInfo) (s : dtx_vars) : dtx_vars :=
  mkDtxVars (DistributedTransactionContext s) v (MyTmGxact s) (MyTmGxactLocal s)
    (localDistribXact_state s) (localDistribXact_xid s) (syncCount s).
Definition set_MyTmGxact (v : TMGXACT) (s : dtx_vars) : dtx_vars :=
  mkDtxVars (DistributedTransactionContext s) (QEDtxContextInfo s) v (MyTmGxactLocal s)
    (localDistribXact_state s) (localDistribXact_xid s) (syncCount s).
Definition set_MyTmGxactLocal (v : TMGXACTLOCAL) (s : dtx_vars) : dtx_vars :=
  mkDtxVars (DistributedTransactionContext s) (QEDtxContextInfo s) (MyTmGxact s) v
    (localDistribXact_state s) (localDistribXact_xid s) (syncCount s).
Definition set_localDistribXact_state (v : LocalDistribXactState) (s : dtx_vars) : dtx_vars :=
  mkDtxVars (DistributedTransactionContext s) (QEDtxContextInfo s) (MyTmGxact s)
    (MyTmGxactLocal s) v (localDistribXact_xid s) (syncCount s).
Definition set_localDistribXact_xid (v : Z) (s : dtx_vars) : dtx_vars :=
  mkDtxVars (DistributedTransactionContext s) (QEDtxContextInfo s) (MyTmGxact s)
    (MyTmGxactLocal s) (localDistribXact_state s) v (syncCount s).
Definition set_syncCount (v : Z) (s : dtx_vars) : dtx_vars :=
  mkDtxVars (DistributedTransactionContext s) (QEDtxContextInfo s) (MyTmGxact s)
    (MyTmGxactLocal s) (localDistribXact_state s) (localDistribXact_xid s) v.

Record proc (W : Type) := mkProc {
  xa : xact_vars;
  dx : dtx_vars;
  sv : server;
  env : W }.
Arguments mkProc {W}.
Arguments xa {W} _.
Arguments dx {W} _.
Arguments sv {W} _.
Arguments env {W} _.

Definition upd_xa {W} (f : xact_vars → xact_vars) (p : proc W) : proc W :=
  mkProc (f (xa p)) (dx p) (sv p) (env p).
Definition upd_dx {W} (f : dtx_vars → dtx_vars) (p : proc W) : proc W :=
  mkProc (xa p) (f (dx p)) (sv p) (env p).
Definition upd_sv {W} (f : server → server) (p : proc W) : proc W :=
  mkProc (xa p) (dx p) (f (sv p)) (env p).
Definition upd_env {W} (f : W → W) (p : proc W) : proc W :=
  mkProc (xa p) (dx p) (sv p) (f (env p)).

Section access.
Context {W : Type}.
Notation X := (X (proc W)).

Definition modify_xa (f : xact_vars → xact_vars) : X unit := xmodify (upd_xa f).
Definition modify_dx (f : dtx_vars → dtx_vars) : X unit := xmodify (upd_dx f).
Definition modify_sv (f : server → server) : X unit := xmodify (upd_sv f).
Definition get_xa {A} (f : xact_vars → A) : X A := xread (λ p, f (xa p)).
Definition get_dx {A} (f : dtx_vars → A) : X A := xread (λ p, f (dx p)).
Definition get_sv {A} (f : server → A) : X A := xread (λ p, f (sv p)).
Definition modify_tm (f : TMGXACT → TMGXACT) : X unit :=
  modify_dx (λ d, set_MyTmGxact (f (MyTmGxact d)) d).
Definition modify_tml (f : TMGXACTLOCAL → TMGXACTLOCAL) : X unit :=
  modify_dx (λ d, set_MyTmGxactLocal (f (MyTmGxactLocal d)) d).
Definition get_tm {A} (f : TMGXACT → A) : X A := get_dx (λ d, f (MyTmGxact d)).
Definition get_tml {A} (f : TMGXACTLOCAL → A) : X A := get_dx (λ d, f (MyTmGxactLocal d)).

(** an operation of the environment *)
Definition on_env {A} (f : W → A * W) : X A :=
  λ p, let '(a, w) := f (env p) in (Done a, upd_env (λ _, w) p).

(** XLogInsert(): append a record; XactLastRecEnd is its end *)
Definition XLogInsert (r : XLogRecord) : X Z := λ p,
  let lsn := Z.of_nat (length (xlog (sv p))) + 1 in
  (Done lsn,
   upd_xa (set_XactLastRecEnd lsn) (upd_sv (λ s, set_xlog (xlog s ++ [r]) s) p)).

(** XLogFlush(): everything up to the position is on disk afterwards *)
Definition XLogFlush (lsn : Z) : X unit :=
  modify_sv (λ s, set_xlog_flushed (Z.max (xlog_flushed s) lsn) s).
End access.

(** ** What the transaction code calls *)

(** Calls of xact.c into other modules that can raise, in the groups the code makes them *)
Inductive hook :=
  | AtStart_Xact            (* VirtualXactLockTableInsert .. AfterTriggerBeginXact *)
  | AfterStart              (* cdbcomponent_updateCdbComponents, AssignResGroupOnCoordinator *)
  | AtCCI                   (* AtCCI_LocalCache *)
  | PreCommit               (* deferred triggers .. PreCommit_CheckForSerializationFailure *)
  | PreCommit_Late          (* Debug_abort_after_distributed_prepared, AtEOXact_RelationMap *)
  | PrePrepare              (* the same for PrepareTransaction, up to PrePrepare_Locks *)
  | AtPrepare               (* StartPrepare, AtPrepare_* *)
  | AtSubStart              (* AtSubStart_*, AfterTriggerBeginSubXact *)
  | AtSubStart_Callbacks    (* SUBXACT_EVENT_START_SUB *)
  | PreCommitSub            (* SUBXACT_EVENT_PRE_COMMIT_SUB *)
  | CheckInterrupts         (* CHECK_FOR_INTERRUPTS *)
  | PostFinishPrepared.     (* what FinishPreparedTransaction does after the record *)

(** a result of a command on a segment: did it succeed, its tag, the transactions it waits
    for, and the first column of its rows *)
Record pg_result := mkPgResult {
  res_ok : bool;
  res_cmdStatus : string;
  res_waitGxids : list Z;
  res_rows : list string }.

(** what the coordinator sends to segments: a command of the transaction protocol, or a
    statement, with the transaction context for it *)
Inductive dispatch_msg :=
  | DtxCommand (c : DtxProtocolCommand) (gid : string) (info : option DtxContextInfo)
  | QueryCommand (text : string) (info : DtxContextInfo).

(** Waiting for segments raises an error, or returns the error of a QE, or results
    (NULL is [None]). *)
Inductive dispatch_result :=
  | DispatchRaised (l : elevel) (msg : string)
  | DispatchQEError (msg : string)
  | DispatchResults (rs : option (list pg_result)).

Class XactEnv (W : Type) := {
  run_hook : hook → W → option (elevel * string) * W;
  (** does the transaction have files to delete, and invalidation messages *)
  pending_deletes : W → bool;
  pending_invals : W → bool;
  (** AllocateGang and cdbdisp_dispatchToGang: an error, or the command has been sent;
      the flag says that a connection of the writer gang was found lost *)
  dispatch_send : dispatch_msg → list Z → W → (option (elevel * string) * bool) * W;
  (** cdbdisp_waitDispatchFinish .. cdbdisp_destroyDispatcherState *)
  dispatch_wait : W → (dispatch_result * bool) * W;
  cdbcomponent_getCdbComponentsList : W → list Z;
  getgpsegmentCount : W → Z;
  (** cleaning up the dispatcher at abort: was the writer gang found lost *)
  cleanup_dispatcher : W → (unit * bool) * W;
  ResetAllGangs : W → W;
  DisconnectAndDestroyAllGangs : bool → W → W;
  time : W → Z;
  pg_usleep : Z → W → W;
  (** quoting of a savepoint name (ruleutils.c) *)
  quote_identifier : string → string;
  GxactLockTableWait : Z → W → W }.

(** an operation of the environment that may raise *)
Definition may_raise {W} (f : W → option (elevel * string) * W) : X (proc W) unit :=
  r ← on_env f;
  match r with
  | Some (l, msg) => elog l msg
  | None => mret tt
  end.
Definition call_hook {W} `{XactEnv W} (h : hook) : X (proc W) unit := may_raise (run_hook h).

(** the fault of a library routine: an error, or the crash of the process *)
Definition lift_res {S A} (r : res A) : X S A :=
  match r with
  | Ok a => mret a
  | Err (ElogError msg) => elog ERROR msg
  | Err (SegFault what) => elog PANIC what
  end.
