(* ===== verification/DtxInfo.v ===== *)
(** * The transaction context sent to segments

    [src/backend/cdb/cdbdtxcontextinfo.c] and the serialization of distributed snapshots
    in [src/backend/cdb/cdbdistributedsnapshot.c].  A snapshot's array of transactions in
    progress is the list of its first [count] entries.  The receiver trusts the lengths
    in the message; a message that is too short is read past its end, which is [None]. *)
From S2P Require Import Prelude CLib BitUtils Bitmapset Elog Dtm.

Definition DistributedSnapshot_Reset (ds : DistributedSnapshot) : DistributedSnapshot :=
  mkDistributedSnapshot 0 0 0 0 0 [].

Definition DistributedSnapshot_Copy (target source : DistributedSnapshot) : DistributedSnapshot :=
  mkDistributedSnapshot (xminAllDistributedSnapshots source) (distribSnapshotId source)
    (ds_xmin source) (ds_xmax source) (ds_count source)
    (take (Z.to_nat (ds_count source)) (inProgressXidArray source)).

Definition DistributedSnapshot_SerializeSize (ds : DistributedSnapshot) : Z :=
  4 + 3 * 8 + 4 + 8 * ds_count ds.

Definition DistributedSnapshot_Serialize (ds : DistributedSnapshot) : list Z :=
  le_bytes 8 (xminAllDistributedSnapshots ds) ++
  le_bytes 4 (distribSnapshotId ds) ++
  le_bytes 8 (ds_xmin ds) ++
  le_bytes 8 (ds_xmax ds) ++
  le_bytes 4 (ds_count ds) ++
  (take (Z.to_nat (ds_count ds)) (inProgressXidArray ds) ≫= le_bytes 8).

(** memcpy from the message: the bytes and the rest *)
Definition take_bytes (n : nat) (p : list Z) : option (list Z * list Z) :=
  if (n <=? length p)%nat then Some (take n p, drop n p) else None.
Definition read_uint (n : nat) (p : list Z) : option (Z * list Z) :=
  '(b, p) ← take_bytes n p; Some (le_value b, p).
Definition read_int (n : nat) (p : list Z) : option (Z * list Z) :=
  '(v, p) ← read_uint n p; Some (swrap (8 * Z.of_nat n) v, p).
Definition read_bool (p : list Z) : option (bool * list Z) :=
  '(v, p) ← read_uint 1 p; Some (negb (v =? 0), p).

Fixpoint read_xids (n : nat) (p : list Z) : option (list Z * list Z) :=
  match n with
  | O => Some ([], p)
  | S n' => '(x, p) ← read_uint 8 p; '(l, p) ← read_xids n' p; Some (x :: l, p)
  end.

Definition DistributedSnapshot_Deserialize (buf : list Z) : option (DistributedSnapshot * list Z) :=
  '(xminAll, p) ← read_uint 8 buf;
  '(id, p) ← read_uint 4 p;
  '(xmin, p) ← read_uint 8 p;
  '(xmax, p) ← read_uint 8 p;
  '(count, p) ← read_int 4 p;
  '(xids, p) ← (if 0 <? count then read_xids (Z.to_nat count) p else Some ([], p));
  Some (mkDistributedSnapshot xminAll id xmin xmax count xids, p).

(** the flag of cursors is not reset *)
Definition DtxContextInfo_Reset (i : DtxContextInfo) : DtxContextInfo :=
  mkDtxContextInfo InvalidDistributedTransactionId false (cursorContext i)
    (DistributedSnapshot_Reset (distributedSnapshot i)) 0 0 0 0.

Definition DtxContextInfo_SerializeSize (i : DtxContextInfo) : Z :=
  8 +
  (if negb (distributedXid i =? InvalidDistributedTransactionId) then 21 + 4 else 0) +
  4 + 4 + 1 + 1 +
  (if haveDistributedSnapshot i then DistributedSnapshot_SerializeSize (distributedSnapshot i) else 0) +
  4.

Definition byte_of_bool (b : bool) : Z := if b then 1 else 0.

Definition DtxContextInfo_Serialize (i : DtxContextInfo) : list Z :=
  le_bytes 8 (distributedXid i) ++
  (if negb (distributedXid i =? InvalidDistributedTransactionId) then le_bytes 4 (curcid i) else []) ++
  le_bytes 4 (segmateSync i) ++
  le_bytes 4 (info_nestingLevel i) ++
  [byte_of_bool (haveDistributedSnapshot i)] ++
  [byte_of_bool (cursorContext i)] ++
  (if haveDistributedSnapshot i then DistributedSnapshot_Serialize (distributedSnapshot i) else []) ++
  le_bytes 4 (distributedTxnOptions i).

Definition DtxContextInfo_Deserialize (serialized : list Z) (old : DtxContextInfo)
    : option DtxContextInfo :=
  let r := DtxContextInfo_Reset old in
  if bool_decide (serialized = []) then Some r
  else
    '(xid, p) ← read_uint 8 serialized;
    '(cid, p) ← (if negb (xid =? InvalidDistributedTransactionId) then read_uint 4 p else Some (0, p));
    '(sync, p) ← read_uint 4 p;
    '(nesting, p) ← read_uint 4 p;
    '(have, p) ← read_bool p;
    '(cursor, p) ← read_bool p;
    '(ds, p) ← (if have then DistributedSnapshot_Deserialize p
                else Some (distributedSnapshot r, p));
    '(opts, p) ← read_int 4 p;
    Some (mkDtxContextInfo xid have cursor ds opts sync nesting cid).

Definition DtxContextInfo_Copy (target source : DtxContextInfo) : DtxContextInfo :=
  mkDtxContextInfo (distributedXid source) (haveDistributedSnapshot source) (cursorContext source)
    (if haveDistributedSnapshot source
     then DistributedSnapshot_Copy (distributedSnapshot target) (distributedSnapshot source)
     else DistributedSnapshot_Reset (distributedSnapshot target))
    (distributedTxnOptions source) (segmateSync source) (info_nestingLevel source) (curcid source).

(** ** The receiver reads what was sent *)

Lemma take_bytes_app n b p : length b = n → take_bytes n (b ++ p) = Some (b, p).
Proof.
  intros Hb. unfold take_bytes. rewrite length_app, (proj2 (Nat.leb_le _ _)) by lia.
  by rewrite take_app_length', drop_app_length'.
Qed.

Lemma read_uint_le n z p :
  is_word (8 * Z.of_nat n) z → read_uint n (le_bytes n z ++ p) = Some (z, p).
Proof.
  intros Hz. unfold read_uint. rewrite take_bytes_app by apply le_bytes_length. cbn.
  rewrite le_value_bytes. unfold wrap. by rewrite Z.mod_small.
Qed.

Lemma read_int_le z p : - 2 ^ 31 ≤ z < 2 ^ 31 → read_int 4 (le_bytes 4 z ++ p) = Some (z, p).
Proof.
  intros Hz. unfold read_int, read_uint. rewrite take_bytes_app by apply le_bytes_length.
  cbn [mbind option_bind]. rewrite le_value_bytes. change (8 * Z.of_nat 4) with 32.
  assert (swrap 32 (wrap 32 z) = swrap 32 z) as ->; [|by rewrite swrap_id].
  unfold swrap, wrap. by rewrite Z.mod_mod.
Qed.

Lemma read_bool_byte b p : read_bool (byte_of_bool b :: p) = Some (b, p).
Proof. by destruct b. Qed.

Lemma read_xids_le l p :
  Forall (is_word 64) l → read_xids (length l) ((l ≫= le_bytes 8) ++ p) = Some (l, p).
Proof.
  intros HF. induction HF as [|x l Hx HF IH]; [done|].
  cbn [length read_xids]. rewrite bind_cons, <-app_assoc, read_uint_le by done.
  cbn [mbind option_bind]. by rewrite IH.
Qed.

Record snapshot_wf (ds : DistributedSnapshot) : Prop := {
  sw_all : is_word 64 (xminAllDistributedSnapshots ds);
  sw_id : is_word 32 (distribSnapshotId ds);
  sw_xmin : is_word 64 (ds_xmin ds);
  sw_xmax : is_word 64 (ds_xmax ds);
  sw_count : 0 ≤ ds_count ds < 2 ^ 31;
  sw_length : Z.of_nat (length (inProgressXidArray ds)) = ds_count ds;
  sw_xids : Forall (is_word 64) (inProgressXidArray ds) }.

Lemma snapshot_roundtrip ds p :
  snapshot_wf ds →
  DistributedSnapshot_Deserialize (DistributedSnapshot_Serialize ds ++ p) = Some (ds, p).
Proof.
  intros [Hall Hid Hmin Hmax Hc Hlen Hxids]. destruct ds as [all id xmin xmax count l].
  unfold DistributedSnapshot_Serialize, DistributedSnapshot_Deserialize.
  cbn [xminAllDistributedSnapshots distribSnapshotId ds_xmin ds_xmax ds_count inProgressXidArray] in *.
  rewrite take_ge by lia. rewrite <-!app_assoc.
  rewrite read_uint_le by done; cbn [mbind option_bind].
  rewrite read_uint_le by done; cbn [mbind option_bind].
  rewrite read_uint_le by done; cbn [mbind option_bind].
  rewrite read_uint_le by done; cbn [mbind option_bind].
  rewrite read_int_le by lia; cbn [mbind option_bind].
  replace (Z.to_nat count) with (length l) by lia.
  destruct (Z.ltb_spec 0 count).
  - by rewrite read_xids_le.
  - assert (l = []) as -> by (apply nil_length_inv; lia). done.
Qed.

Lemma xids_length l : length (l ≫= le_bytes 8) = (8 * length l)%nat.
Proof.
  induction l as [|x l IH]; [done|].
  rewrite bind_cons, length_app, le_bytes_length, IH. cbn [length]. lia.
Qed.

Lemma snapshot_length ds :
  snapshot_wf ds →
  Z.of_nat (length (DistributedSnapshot_Serialize ds)) = DistributedSnapshot_SerializeSize ds.
Proof.
  intros [_ _ _ _ Hc Hlen _]. unfold DistributedSnapshot_Serialize, DistributedSnapshot_SerializeSize.
  rewrite !length_app, !le_bytes_length, take_ge by lia.
  rewrite xids_length. lia.
Qed.

(** what DtxContextInfo_CreateOnCoordinator builds *)
Record context_wf (i : DtxContextInfo) : Prop := {
  cw_xid : is_word 64 (distributedXid i);
  cw_curcid : is_word 32 (curcid i);
  cw_no_curcid : distributedXid i = InvalidDistributedTransactionId → curcid i = 0;
  cw_sync : is_word 32 (segmateSync i);
  cw_nesting : is_word 32 (info_nestingLevel i);
  cw_snapshot : haveDistributedSnapshot i = true → snapshot_wf (distributedSnapshot i);
  cw_no_snapshot : haveDistributedSnapshot i = false →
    distributedSnapshot i = mkDistributedSnapshot 0 0 0 0 0 [];
  cw_options : - 2 ^ 31 ≤ distributedTxnOptions i < 2 ^ 31 }.

(** C8: A segment reads exactly the transaction context that the coordinator sent: for
    every context that DtxContextInfo_CreateOnCoordinator can build, whatever bytes follow
    it in the buffer and whatever context was there before, DtxContextInfo_Deserialize
    returns it; and the size that the coordinator sends is the number of bytes written plus,
    when there is a distributed transaction, the 21 bytes of an identifier that
    DtxContextInfo_Serialize does not write. *)
Theorem dtx_context_roundtrip (i old : DtxContextInfo) (rest : list Z) :
  context_wf i →
  DtxContextInfo_Deserialize (DtxContextInfo_Serialize i ++ rest) old = Some i ∧
  DtxContextInfo_SerializeSize i =
    Z.of_nat (length (DtxContextInfo_Serialize i)) +
    (if distributedXid i =? InvalidDistributedTransactionId then 0 else 21).
Proof.
  intros [Hxid Hcid Hno Hsync Hnest Hds Hnds Hopt].
  destruct i as [xid have cursor ds opts sync nest cid].
  cbn [distributedXid haveDistributedSnapshot cursorContext distributedSnapshot
       distributedTxnOptions segmateSync info_nestingLevel curcid] in *.
  split.
  - unfold DtxContextInfo_Deserialize, DtxContextInfo_Serialize.
    cbn [distributedXid haveDistributedSnapshot cursorContext distributedSnapshot
         distributedTxnOptions segmateSync info_nestingLevel curcid].
    rewrite bool_decide_false by (intros [=]).
    rewrite <-!app_assoc, read_uint_le by done; cbn [mbind option_bind].
    destruct (Z.eqb_spec xid InvalidDistributedTransactionId) as [He|Hne]; cbn [negb];
      [rewrite Hno by done; cbn [app mbind option_bind]
      |rewrite read_uint_le by done; cbn [mbind option_bind]].
    all: rewrite read_uint_le by done; cbn [mbind option_bind].
    all: rewrite read_uint_le by done; cbn [mbind option_bind app].
    all: rewrite !read_bool_byte; cbn [mbind option_bind].
    all: rewrite read_bool_byte; cbn [mbind option_bind].
    all: destruct have; [rewrite snapshot_roundtrip by auto|rewrite Hnds by done]; cbn [mbind option_bind app].
    all: rewrite read_int_le by done; cbn; done.
  - unfold DtxContextInfo_SerializeSize, DtxContextInfo_Serialize; cbn [distributedXid
      haveDistributedSnapshot distributedSnapshot].
    rewrite !length_app, !le_bytes_length.
    destruct have; [pose proof (snapshot_length _ (Hds eq_refl))|];
      destruct (xid =? InvalidDistributedTransactionId); cbn [negb length];
      rewrite ?le_bytes_length; lia.
Qed.

(** the context of a statement in a transaction, with a snapshot *)
Definition example_context : DtxContextInfo :=
  mkDtxContextInfo (2 ^ 40) true false (mkDistributedSnapshot 7 3 9 12 2 [9; 11]) 5 2 1 4.

Lemma dtx_context_roundtrip_witness :
  context_wf example_context ∧
  DtxContextInfo_Deserialize (DtxContextInfo_Serialize example_context ++ [0; 1]) example_context =
    Some example_context ∧
  DtxContextInfo_SerializeSize example_context =
    Z.of_nat (length (DtxContextInfo_Serialize example_context)) + 21.
Proof.
  assert (context_wf example_context) as Hwf.
  { split; [vm_compute; split; congruence..|done|vm_compute; split; congruence|vm_compute; split; congruence| |done|].
    - intros _. split; [vm_compute; split; congruence..|by vm_compute|].
      repeat constructor; vm_compute; congruence.
    - vm_compute; split; congruence. }
  split; [exact Hwf|]. apply (dtx_context_roundtrip example_context example_context [0; 1] Hwf).
Defined.
