(* ===== verification/CdbTm.v ===== *)
(** * The distributed transaction manager of the coordinator

    [src/backend/cdb/cdbtm.c]: the state machine of a distributed transaction in the
    process that coordinates it (the QD), the identifiers of transactions, and the
    transaction options sent to segments; [src/backend/cdb/cdbtmutils.c].  What a
    segment does with the commands is in [CdbTmQE.v]. *)
From S2P Require Import Prelude CLib BitUtils Bitmapset Elog Dtm DtxInfo.

(** ** Identifiers (cdbtmutils.c) *)

Definition TMGIDSIZE : Z := 21.

(** the value of [%lu] for the number read *)
Definition scan_ulong (v : Z) : Z :=
  if Z.abs v <=? 2 ^ 64 - 1 then wrap 64 v else 2 ^ 64 - 1.

Definition dtxFormGid (gxid : Z) : string := fmt_d gxid.

Definition DtxStateToString (s : DtxState) : string :=
  match s with
  | DTX_STATE_NONE => "None"
  | DTX_STATE_ACTIVE_DISTRIBUTED => "Active Distributed"
  | DTX_STATE_ONE_PHASE_COMMIT => "One Phase Commit (Before Notifying)"
  | DTX_STATE_NOTIFYING_ONE_PHASE_COMMIT => "Notifying One Phase"
  | DTX_STATE_PREPARING => "Preparing"
  | DTX_STATE_PREPARED => "Prepared"
  | DTX_STATE_INSERTING_COMMITTED => "Inserting Committed"
  | DTX_STATE_INSERTED_COMMITTED => "Inserted Committed"
  | DTX_STATE_NOTIFYING_COMMIT_PREPARED => "Notifying Commit Prepared"
  | DTX_STATE_INSERTING_FORGET_COMMITTED => "Inserting Forget Committed"
  | DTX_STATE_INSERTED_FORGET_COMMITTED => "Inserted Forget Committed"
  | DTX_STATE_NOTIFYING_ABORT_NO_PREPARED => "Notifying Abort (No Prepared)"
  | DTX_STATE_NOTIFYING_ABORT_SOME_PREPARED => "Notifying Abort (Some Prepared)"
  | DTX_STATE_NOTIFYING_ABORT_PREPARED => "Notifying Abort Prepared"
  | DTX_STATE_RETRY_COMMIT_PREPARED => "Retry Commit Prepared"
  | DTX_STATE_RETRY_ABORT_PREPARED => "Retry Abort Prepared"
  end.

Definition DtxProtocolCommandToString (c : DtxProtocolCommand) : string :=
  match c with
  | DTX_PROTOCOL_COMMAND_NONE => "None"
  | DTX_PROTOCOL_COMMAND_ABORT_NO_PREPARED => "Distributed Abort (No Prepared)"
  | DTX_PROTOCOL_COMMAND_PREPARE => "Distributed Prepare"
  | DTX_PROTOCOL_COMMAND_ABORT_SOME_PREPARED => "Distributed Abort (Some Prepared)"
  | DTX_PROTOCOL_COMMAND_COMMIT_ONEPHASE => "Distributed Commit (one-phase)"
  | DTX_PROTOCOL_COMMAND_COMMIT_PREPARED => "Distributed Commit Prepared"
  | DTX_PROTOCOL_COMMAND_ABORT_PREPARED => "Distributed Abort Prepared"
  | DTX_PROTOCOL_COMMAND_RETRY_COMMIT_PREPARED => "Retry Distributed Commit Prepared"
  | DTX_PROTOCOL_COMMAND_RETRY_ABORT_PREPARED => "Retry Distributed Abort Prepared"
  | DTX_PROTOCOL_COMMAND_RECOVERY_COMMIT_PREPARED => "Recovery Commit Prepared"
  | DTX_PROTOCOL_COMMAND_RECOVERY_ABORT_PREPARED => "Recovery Abort Prepared"
  | DTX_PROTOCOL_COMMAND_SUBTRANSACTION_BEGIN_INTERNAL => " Begin Internal Subtransaction"
  | DTX_PROTOCOL_COMMAND_SUBTRANSACTION_RELEASE_INTERNAL => "Release Current Subtransaction"
  | DTX_PROTOCOL_COMMAND_SUBTRANSACTION_ROLLBACK_INTERNAL => "Rollback Current Subtransaction"
  end.

Definition DtxContextToString (c : DtxContext) : string :=
  match c with
  | DTX_CONTEXT_LOCAL_ONLY => "Local Only"
  | DTX_CONTEXT_QD_DISTRIBUTED_CAPABLE => "Coordinator Distributed-Capable"
  | DTX_CONTEXT_QD_RETRY_PHASE_2 => "Coordinator Retry Phase 2"
  | DTX_CONTEXT_QE_ENTRY_DB_SINGLETON => "Segment Entry DB Singleton"
  | DTX_CONTEXT_QE_AUTO_COMMIT_IMPLICIT => "Segment Auto-Commit Implicit"
  | DTX_CONTEXT_QE_TWO_PHASE_EXPLICIT_WRITER => "Segment Two-Phase Explicit Writer"
  | DTX_CONTEXT_QE_TWO_PHASE_IMPLICIT_WRITER => "Segment Two-Phase Implicit Writer"
  | DTX_CONTEXT_QE_READER => "Segment Reader"
  | DTX_CONTEXT_QE_PREPARED => "Segment Prepared"
  | DTX_CONTEXT_QE_FINISH_PREPARED => "Segment Finish Prepared"
  end.

(** ** Transaction options *)

Definition GP_OPT_NEED_DTX : Z := 1.
Definition GP_OPT_ISOLATION_LEVEL_MASK : Z := 14.
Definition GP_OPT_READ_UNCOMMITTED : Z := 2.
Definition GP_OPT_READ_COMMITTED : Z := 4.
Definition GP_OPT_REPEATABLE_READ : Z := 6.
Definition GP_OPT_SERIALIZABLE : Z := 8.
Definition GP_OPT_READ_ONLY : Z := 16.
Definition GP_OPT_EXPLICT_BEGIN : Z := 32.
Definition GP_OPT_SYNCHRONIZATION_SET : Z := 64.

Definition isMppTxOptions_ReadOnly (txnOptions : Z) : bool :=
  negb (Z.land txnOptions GP_OPT_READ_ONLY =? 0).
Definition isMppTxOptions_NeedDtx (txnOptions : Z) : bool :=
  negb (Z.land txnOptions GP_OPT_NEED_DTX =? 0).
Definition isMppTxOptions_ExplicitBegin (txnOptions : Z) : bool :=
  negb (Z.land txnOptions GP_OPT_EXPLICT_BEGIN =? 0).
Definition isMppTxOptions_SynchronizationSet (txnOptions : Z) : bool :=
  negb (Z.land txnOptions GP_OPT_SYNCHRONIZATION_SET =? 0).

Section cdbtm.
Context {W : Type} `{XactEnv W} `{Backend}.
Notation X := (X (proc W)).

Definition dtxDeformGid (gid : string) : X Z :=
  match scan_number 10 (strip_spaces gid) with
  | Some (v, _) => mret (scan_ulong v)
  | None =>
      if is_utility then mret 0
      else elog ERROR ("Bad distributed transaction identifier " +:+ gid)
  end.

Definition mppTxOptions_IsoLevel (txnOptions : Z) : X Z :=
  let level := Z.land txnOptions GP_OPT_ISOLATION_LEVEL_MASK in
  if level =? GP_OPT_SERIALIZABLE then mret XACT_SERIALIZABLE
  else if level =? GP_OPT_REPEATABLE_READ then mret XACT_REPEATABLE_READ
  else if level =? GP_OPT_READ_COMMITTED then mret XACT_READ_COMMITTED
  else if level =? GP_OPT_READ_UNCOMMITTED then mret XACT_READ_UNCOMMITTED
  else elog ERROR "transaction options from QD did not include isolation level".

(** ** Accessors *)

Definition setDistributedTransactionContext (c : DtxContext) : X unit :=
  modify_dx (set_DistributedTransactionContext c).

Definition requireDistributedTransactionContext (c : DtxContext) : X unit :=
  cur ← get_dx DistributedTransactionContext;
  if bool_decide (cur = c) then mret tt
  else elog FATAL ("Expected segment distributed transaction context to be " +:+
                   DtxContextToString c +:+ ", found " +:+ DtxContextToString cur).

Definition isDtxContext (d : dtx_vars) : bool :=
  negb (bool_decide (DistributedTransactionContext d = DTX_CONTEXT_LOCAL_ONLY)).

Definition getDistributedTransactionId : X Z :=
  get_dx (λ d, if isDtxContext d then gxid (MyTmGxact d) else InvalidDistributedTransactionId).

Definition isPreparedDtxTransaction (d : dtx_vars) : bool :=
  bool_decide (dtxState (MyTmGxactLocal d) = DTX_STATE_PREPARED).

Definition isCurrentDtxActivated (d : dtx_vars) : bool :=
  negb (bool_decide (dtxState (MyTmGxactLocal d) = DTX_STATE_NONE)).

Definition setCurrentDtxState (s : DtxState) : X unit := modify_tml (set_dtxState s).
Definition getCurrentDtxState : X DtxState := get_tml dtxState.
Definition currentGxactWriterGangLost : X bool := get_tml writerGangLost.
Definition markCurrentGxactWriterGangLost : X unit := modify_tml (set_writerGangLost true).

Definition CurrentDtxIsRollingback (d : dtx_vars) : bool :=
  match dtxState (MyTmGxactLocal d) with
  | DTX_STATE_NOTIFYING_ABORT_NO_PREPARED | DTX_STATE_NOTIFYING_ABORT_SOME_PREPARED
  | DTX_STATE_NOTIFYING_ABORT_PREPARED | DTX_STATE_RETRY_ABORT_PREPARED => true
  | _ => false
  end.

Definition mppTxnOptions (needDtx : bool) : X Z :=
  iso ← get_xa XactIsoLevel;
  ro ← get_xa XactReadOnly;
  explicit ← get_dx (λ d, isCurrentDtxActivated d && explicitBeginRemembered (MyTmGxactLocal d));
  let options := 0 in
  let options := if needDtx : bool then Z.lor options GP_OPT_NEED_DTX else options in
  let options :=
    if iso =? XACT_READ_COMMITTED then Z.lor options GP_OPT_READ_COMMITTED
    else if iso =? XACT_REPEATABLE_READ then Z.lor options GP_OPT_REPEATABLE_READ
    else if iso =? XACT_SERIALIZABLE then Z.lor options GP_OPT_SERIALIZABLE
    else if iso =? XACT_READ_UNCOMMITTED then Z.lor options GP_OPT_READ_UNCOMMITTED
    else options in
  let options := if ro : bool then Z.lor options GP_OPT_READ_ONLY else options in
  let options := if explicit : bool then Z.lor options GP_OPT_EXPLICT_BEGIN else options in
  mret options.

Definition mppTxnOptionsForSync (needDtx isSync : bool) : X Z :=
  flags ← mppTxnOptions needDtx;
  mret (if isSync then Z.lor flags GP_OPT_SYNCHRONIZATION_SET else flags).

(** ** Identifiers of distributed transactions *)

(** XLogPutNextGxid() of xlog.c *)
Definition XLogPutNextGxid (next : Z) : X unit :=
  recptr ← XLogInsert (XLOG_NEXTGXID next);
  XLogFlush recptr.

(** GxidBumpLock is free; when another backend holds it this one only waits *)
Definition bumpGxid : X unit :=
  count ← get_sv GxidCount;
  if Z.shiftr gp_gxid_prefetch_num 1 <? count then mret tt
  else
    next ← get_sv nextGxid;
    let nextCount := wrap 32 (count + gp_gxid_prefetch_num) in
    let nextLimit := wrap 64 (next + nextCount) in
    if LastDistributedTransactionId - gp_gxid_prefetch_num <=? nextLimit
    then elog PANIC "Will soon reach the limit of global transactions"
    else
      XLogPutNextGxid nextLimit;;
      modify_sv (λ s, set_GxidCount (wrap 32 (GxidCount s + gp_gxid_prefetch_num)) s).

Definition SetDtxRecoveryEvent (event : Z) : X unit :=
  modify_sv (λ s, set_DtxRecoveryEvents (Z.lor (DtxRecoveryEvents s) event) s).
Definition GetDtxRecoveryEvent : X Z := get_sv DtxRecoveryEvents.

(** for (;;) { .. } of currentDtxActivate *)
Fixpoint take_gxid (fuel : nat) : X unit :=
  match fuel with
  | O => out_of_fuel
  | S fuel' =>
      count ← get_sv GxidCount;
      xwhen (count =? 0) bumpGxid;;
      count ← get_sv GxidCount;
      if 0 <? count then
        next ← get_sv nextGxid;
        modify_tm (set_gxid next);;
        modify_sv (λ s, set_GxidCount (GxidCount s - 1) (set_nextGxid (wrap 64 (nextGxid s + 1)) s))
      else take_gxid fuel'
  end.

Definition currentDtxActivate : X unit :=
  count ← get_sv GxidCount;
  ev ← GetDtxRecoveryEvent;
  xwhen ((count <=? Z.shiftr gp_gxid_prefetch_num 1) &&
         (Z.land ev DTX_RECOVERY_EVENT_BUMP_GXID =? 0))
    (SetDtxRecoveryEvent DTX_RECOVERY_EVENT_BUMP_GXID);;
  take_gxid 1;;
  modify_tm (set_sessionId gp_session_id);;
  setCurrentDtxState DTX_STATE_ACTIVE_DISTRIBUTED.

(** ** Sending commands to segments *)

(** A call of the dispatcher.  Recycling a lost connection of the writer gang calls
    markCurrentGxactWriterGangLost (cdbcomponent_recycleIdleQE, cdbgang_createGang_async). *)
Definition dispatcher_call {A} (f : W → (A * bool) * W) : X A :=
  r ← on_env f;
  xwhen r.2 markCurrentGxactWriterGangLost;;
  mret r.1.

Definition raise_opt (r : option (elevel * string)) : X unit :=
  match r with Some (l, msg) => elog l msg | None => mret tt end.

(** the loop of addToGxactDtxSegments over the descriptors of the gang *)
Fixpoint add_segments (segs : list Z) : X unit :=
  match segs with
  | [] => mret tt
  | segindex :: rest =>
      (if segindex =? -1 then mret tt
       else
         m ← get_tml dtxSegmentsMap;
         known ← lift_res (bms_is_member segindex m);
         if known : bool then mret tt
         else
           m' ← lift_res (bms_add_member m segindex);
           modify_tml (set_dtxSegmentsMap m');;
           modify_tml (λ l, set_dtxSegments (dtxSegments l ++ [segindex]) l));;
      add_segments rest
  end.

Definition addToGxactDtxSegments (gang : list Z) : X unit :=
  activated ← get_dx isCurrentDtxActivated;
  if negb activated then mret tt
  else
    n ← get_tml (λ l, Z.of_nat (length (dtxSegments l)));
    total ← xread (λ p, getgpsegmentCount (env p));
    if total <=? n then mret tt else add_segments gang.

(** waitGxids of the results, sorted, without repetitions (a first -1 is dropped too) *)
Fixpoint remove_repeats (last : Z) (l : list Z) : list Z :=
  match l with
  | [] => []
  | x :: l' => if x =? last then remove_repeats last l' else x :: remove_repeats x l'
  end.

Definition collect_waits (rs : list pg_result) : list Z :=
  remove_repeats (-1) (merge_sort Z.le (concat (map res_waitGxids rs))).

Definition result_failed (tag : string) (r : pg_result) : bool :=
  negb (res_ok r && String.prefix (res_cmdStatus r) tag).

(** CdbDispatchDtxProtocolCommand (cdbdisp_dtx.c) and the evaluation of its results *)
Definition doDispatchDtxProtocolCommand (c : DtxProtocolCommand) (gid : string) (raiseError : bool)
    (segs : list Z) (info : option DtxContextInfo) : X bool :=
  if bool_decide (segs = []) then mret true
  else if TMGIDSIZE <=? Z.of_nat (String.length gid)
  then elog PANIC "Distribute transaction identifier too long"
  else
    sent ← dispatcher_call (dispatch_send (DtxCommand c gid info) segs);
    raise_opt sent;;
    addToGxactDtxSegments segs;;
    r ← dispatcher_call dispatch_wait;
    match r with
    | DispatchRaised l msg => elog l msg
    | DispatchQEError msg => if raiseError then elog ERROR msg else mret false
    | DispatchResults None => mret false
    | DispatchResults (Some rs) =>
        let failed := existsb (result_failed (DtxProtocolCommandToString c)) rs in
        let waits := collect_waits rs in
        xwhen (negb (bool_decide (concat (map res_waitGxids rs) = [])))
          (modify_tml (set_waitGxids waits));;
        mret (negb failed)
    end.

Definition currentDtxDispatchProtocolCommand (c : DtxProtocolCommand) (raiseError : bool) : X bool :=
  g ← getDistributedTransactionId;
  segs ← get_tml dtxSegments;
  doDispatchDtxProtocolCommand c (dtxFormGid g) raiseError segs None.

(** ** The context sent with a command *)

(** a snapshot that a query uses: its command id and its distributed snapshot, if any *)
Definition query_snapshot : Type := Z * option DistributedSnapshot.

Definition DtxContextInfo_CreateOnCoordinator (old : DtxContextInfo) (inCursor : bool) (txnOptions : Z)
    (snapshot : option query_snapshot) : X DtxContextInfo :=
  g ← getDistributedTransactionId;
  let cid := match snapshot with Some (c, _) => c | None => 0 end in
  xwhen (negb inCursor) (modify_dx (λ d, set_syncCount (wrap 32 (syncCount d + 1)) d));;
  sync ← get_dx syncCount;
  if sync =? 2 ^ 32 - 1 then elog FATAL "cannot have more than 2^32-2 commands in a session"
  else
    nesting ← get_xa (λ x, nestingLevel (CurrentTransactionState x));
    let r := DtxContextInfo_Reset old in
    let ds := match snapshot with Some (_, ds) => ds | None => None end in
    mret (mkDtxContextInfo g (bool_decide (is_Some ds)) inCursor
            (match ds with
             | Some source => DistributedSnapshot_Copy (distributedSnapshot r) source
             | None => distributedSnapshot r
             end)
            txnOptions sync (wrap 32 nesting)
            (if negb (g =? InvalidDistributedTransactionId) then cid else 0)).

Definition emptyDtxContextInfo : DtxContextInfo :=
  mkDtxContextInfo 0 false false (mkDistributedSnapshot 0 0 0 0 0 []) 0 0 0 0.

(** qdSerializeDtxContextInfo (cdbdisp_dtx.c), up to the serialization, which is in [DtxInfo.v] *)
Definition qdSerializeDtxContextInfo (inCursor : bool) (txnOptions : Z)
    (snapshot : option query_snapshot) : X DtxContextInfo :=
  ctx ← get_dx DistributedTransactionContext;
  match ctx with
  | DTX_CONTEXT_QD_DISTRIBUTED_CAPABLE | DTX_CONTEXT_LOCAL_ONLY =>
      DtxContextInfo_CreateOnCoordinator emptyDtxContextInfo inCursor txnOptions snapshot
  | _ => elog FATAL ("Unexpected distribute transaction context: " +:+ DtxContextToString ctx)
  end.

Definition IsTransactionState (x : xact_vars) : bool :=
  bool_decide (state (CurrentTransactionState x) = TRANS_INPROGRESS).

Definition setupDtxTransaction : X unit :=
  active ← get_xa IsTransactionState;
  if negb active then elog ERROR "DTM transaction is not active"
  else
    activated ← get_dx isCurrentDtxActivated;
    xwhen (negb activated) currentDtxActivate;;
    st ← getCurrentDtxState;
    if bool_decide (st = DTX_STATE_ACTIVE_DISTRIBUTED) then mret tt
    else elog ERROR ("DTM transaction state is invalid: " +:+ DtxStateToString st).

Definition isDtxExplicitBegin (d : dtx_vars) : bool :=
  isCurrentDtxActivated d && explicitBeginRemembered (MyTmGxactLocal d).

Definition rememberDtxExplicitBegin : X unit := modify_tml (set_explicitBeginRemembered true).

Definition sendDtxExplicitBegin : X unit :=
  if negb is_dispatch then mret tt
  else setupDtxTransaction;; rememberDtxExplicitBegin.

(** CdbDispatchCommand and CdbDispatchCommandToSegments, to all segments
    (cdbdisp_query.c): the results, or an error raised.  [needTwoPhase] is the flag
    DF_NEED_TWO_PHASE; there is no snapshot. *)
Definition CdbDispatchCommand (strCommand : string) (needTwoPhase : bool) : X (list pg_result) :=
  xwhen needTwoPhase setupDtxTransaction;;
  options ← mppTxnOptionsForSync needTwoPhase false;
  info ← qdSerializeDtxContextInfo false options None;
  segs ← xread (λ p, cdbcomponent_getCdbComponentsList (env p));
  sent ← dispatcher_call (dispatch_send (QueryCommand strCommand info) segs);
  raise_opt sent;;
  (explicit ← get_dx isDtxExplicitBegin;
   xwhen (needTwoPhase || explicit) (addToGxactDtxSegments segs));;
  r ← dispatcher_call dispatch_wait;
  match r with
  | DispatchRaised l msg => elog l msg
  | DispatchQEError msg => elog ERROR msg
  | DispatchResults None => mret []
  | DispatchResults (Some rs) => mret rs
  end.

Definition dispatchDtxCommand (cmd : string) : X bool :=
  lost ← currentGxactWriterGangLost;
  if lost : bool then mret false
  else
    rs ← CdbDispatchCommand cmd true;
    if bool_decide (rs = []) then mret false
    else mret (negb (existsb (result_failed cmd) rs)).

Definition doDispatchSubtransactionInternalCmd (cmdType : DtxProtocolCommand) : X bool :=
  lost ← currentGxactWriterGangLost;
  if lost : bool then mret false
  else
    activated ← get_dx isCurrentDtxActivated;
    xwhen (bool_decide (cmdType = DTX_PROTOCOL_COMMAND_SUBTRANSACTION_BEGIN_INTERNAL) && negb activated)
      currentDtxActivate;;
    options ← mppTxnOptions true;
    info ← qdSerializeDtxContextInfo false options None;
    g ← getDistributedTransactionId;
    segs ← xread (λ p, cdbcomponent_getCdbComponentsList (env p));
    succeeded ← doDispatchDtxProtocolCommand cmdType (dtxFormGid g) true segs (Some info);
    if succeeded : bool then mret true
    else elog ERROR "dispatching subtransaction internal command failed".

(** ** The context of a transaction *)

Definition isDtxQueryDispatcher : X bool :=
  started ← get_sv DtmStarted;
  mret (is_dispatch && started && SharedLocalSnapshotSlot_present).

Definition setupRegularDtxContext : X unit :=
  ctx ← get_dx DistributedTransactionContext;
  match ctx with
  | DTX_CONTEXT_QD_DISTRIBUTED_CAPABLE | DTX_CONTEXT_QE_TWO_PHASE_EXPLICIT_WRITER => mret tt
  | DTX_CONTEXT_LOCAL_ONLY =>
      qd ← isDtxQueryDispatcher;
      xwhen qd (setDistributedTransactionContext DTX_CONTEXT_QD_DISTRIBUTED_CAPABLE)
  | _ => elog ERROR ("setupRegularDtxContext finds unexpected DistributedTransactionContext = " +:+
                     DtxContextToString ctx)
  end.

Definition finishDistributedTransactionContext : X unit :=
  activated ← get_dx isCurrentDtxActivated;
  st ← getCurrentDtxState;
  if activated && negb (bool_decide (st = DTX_STATE_RETRY_COMMIT_PREPARED)) &&
     negb (bool_decide (st = DTX_STATE_RETRY_ABORT_PREPARED))
  then elog FATAL "Unexpected dtx status"
  else
    setDistributedTransactionContext DTX_CONTEXT_LOCAL_ONLY;;
    modify_dx (λ d, set_QEDtxContextInfo (DtxContextInfo_Reset (QEDtxContextInfo d)) d).

Definition insertingDistributedCommitted : X unit := setCurrentDtxState DTX_STATE_INSERTING_COMMITTED.

Definition insertedDistributedCommitted : X unit :=
  setCurrentDtxState DTX_STATE_INSERTED_COMMITTED;;
  xwhen IS_QUERY_DISPATCHER (modify_tm (set_includeInCkpt true)).

(** PG_TRY around a broadcast: an error counts as a failure *)
Definition try_broadcast (c : DtxProtocolCommand) : X bool :=
  pg_try (currentDtxDispatchProtocolCommand c true) (λ _, mret false).

Definition reset_gangs : X unit := on_env (λ w, (tt, ResetAllGangs w)).

(** ** Committing *)

Definition doPrepareTransaction : X unit :=
  call_hook CheckInterrupts;;
  setCurrentDtxState DTX_STATE_PREPARING;;
  succeeded ← currentDtxDispatchProtocolCommand DTX_PROTOCOL_COMMAND_PREPARE true;
  if succeeded : bool then setCurrentDtxState DTX_STATE_PREPARED
  else elog ERROR "The distributed transaction 'Prepare' broadcast failed to one or more segments".

(** RecordDistributedForgetCommitted() of xact.c: the record is not flushed *)
Definition RecordDistributedForgetCommitted (g : Z) : X unit :=
  XLogInsert (XLOG_XACT_DISTRIBUTED_FORGET g);; mret tt.

Definition doInsertForgetCommitted : X unit :=
  setCurrentDtxState DTX_STATE_INSERTING_FORGET_COMMITTED;;
  g ← getDistributedTransactionId;
  RecordDistributedForgetCommitted g;;
  setCurrentDtxState DTX_STATE_INSERTED_FORGET_COMMITTED;;
  modify_tm (set_includeInCkpt false).

Definition doNotifyingOnePhaseCommit : X unit :=
  segs ← get_tml dtxSegments;
  if bool_decide (segs = []) then mret tt
  else
    setCurrentDtxState DTX_STATE_NOTIFYING_ONE_PHASE_COMMIT;;
    succeeded ← currentDtxDispatchProtocolCommand DTX_PROTOCOL_COMMAND_COMMIT_ONEPHASE true;
    if succeeded : bool then mret tt else elog ERROR "one phase commit notification failed".

Definition get_time : X Z := xread (λ p, time (env p)).

(** Each round sleeps for at least a tenth of a second (the first round of an abort does
    not), so the clock ends the loops after at most this many rounds. *)
Definition phase2_rounds : nat := S (10 * Z.to_nat (dtx_phase2_retry_second + 1)).

(** the pause before a round: longer after ten rounds *)
Definition phase2_sleep (retry : Z) : X unit :=
  on_env (λ w, (tt, pg_usleep (100 * 1000 * Z.min (Z.max (retry - 10) 1) 50) w)).

(** while (!succeeded && !retry_timedout) of doNotifyingCommitPrepared *)
Fixpoint retry_commit_prepared (rounds : nat) (retry retry_time_start : Z) : X bool :=
  match rounds with
  | O => out_of_fuel
  | S rounds' =>
      let retry := retry + 1 in
      phase2_sleep retry;;
      reset_gangs;;
      succeeded ← try_broadcast DTX_PROTOCOL_COMMAND_RETRY_COMMIT_PREPARED;
      now ← get_time;
      if succeeded : bool then mret true
      else if dtx_phase2_retry_second <? now - retry_time_start then mret false
      else retry_commit_prepared rounds' retry retry_time_start
  end.

Definition doNotifyingCommitPrepared : X unit :=
  setCurrentDtxState DTX_STATE_NOTIFYING_COMMIT_PREPARED;;
  succeeded ← try_broadcast DTX_PROTOCOL_COMMAND_COMMIT_PREPARED;
  xwhen (negb succeeded)
    (setCurrentDtxState DTX_STATE_RETRY_COMMIT_PREPARED;;
     setDistributedTransactionContext DTX_CONTEXT_QD_RETRY_PHASE_2);;
  retry_time_start ← get_time;
  succeeded ← (if succeeded || (dtx_phase2_retry_second =? 0) then mret succeeded
               else retry_commit_prepared phase2_rounds 0 retry_time_start);
  (if succeeded : bool then mret tt
   else elog PANIC "unable to complete 'Commit Prepared' broadcast");;
  doInsertForgetCommitted.

Definition notifyCommittedDtxTransactionIsNeeded (d : dtx_vars) : bool :=
  bool_decide (DistributedTransactionContext d = DTX_CONTEXT_QD_DISTRIBUTED_CAPABLE) &&
  isCurrentDtxActivated d.

Fixpoint wait_gxids (l : list Z) : X unit :=
  match l with
  | [] => mret tt
  | g :: l' => on_env (λ w, (tt, GxactLockTableWait g w));; wait_gxids l'
  end.

Definition notifyCommittedDtxTransaction : X unit :=
  st ← getCurrentDtxState;
  (match st with
   | DTX_STATE_INSERTED_COMMITTED => doNotifyingCommitPrepared
   | DTX_STATE_NOTIFYING_ONE_PHASE_COMMIT | DTX_STATE_ONE_PHASE_COMMIT => mret tt
   | _ =>
       xid ← get_xa XactTopFullTransactionId;
       elog (if TransactionIdIsValid xid then PANIC else ERROR) "Unexpected DTX state"
   end);;
  waits ← get_tml waitGxids;
  wait_gxids waits.

(** resetTmGxact() *)
Definition resetTmGxact : X unit :=
  modify_tm (λ t, set_sessionId 0 (set_includeInCkpt false (set_xminDistributedSnapshot 0 t)));;
  modify_tml (λ _, mkTMGXACTLOCAL DTX_STATE_NONE false false false None [] []).

Definition prepareDtxTransaction : X unit :=
  ctx ← get_dx DistributedTransactionContext;
  if negb (bool_decide (ctx = DTX_CONTEXT_QD_DISTRIBUTED_CAPABLE)) then mret tt
  else
    activated ← get_dx isCurrentDtxActivated;
    if negb activated then resetTmGxact
    else
      xid ← get_xa XactTopFullTransactionId;
      wrote ← get_xa TopXactexecutorDidWriteXLog;
      nsegs ← get_tml (λ l, Z.of_nat (length (dtxSegments l)));
      if negb wrote || (negb (TransactionIdIsValid xid) && (nsegs <? 2)) then
        setCurrentDtxState DTX_STATE_ONE_PHASE_COMMIT;;
        doNotifyingOnePhaseCommit
      else doPrepareTransaction.

(** ** Rolling back *)

(** while (!succeeded && !retry_timedout) of retryAbortPrepared *)
Fixpoint retry_abort_loop (rounds : nat) (retry retry_time_start : Z) : X bool :=
  match rounds with
  | O => out_of_fuel
  | S rounds' =>
      let retry := retry + 1 in
      xwhen (1 <? retry) (phase2_sleep retry);;
      reset_gangs;;
      succeeded ← pg_try
        (all ← xread (λ p, cdbcomponent_getCdbComponentsList (env p));
         modify_tml (set_dtxSegments all);;
         currentDtxDispatchProtocolCommand DTX_PROTOCOL_COMMAND_RETRY_ABORT_PREPARED true)
        (λ _, mret false);
      now ← get_time;
      if succeeded : bool then mret true
      else if dtx_phase2_retry_second <? now - retry_time_start then mret false
      else retry_abort_loop rounds' retry retry_time_start
  end.

Definition retryAbortPrepared : X unit :=
  retry_time_start ← get_time;
  succeeded ← (if dtx_phase2_retry_second =? 0 then mret false
               else retry_abort_loop phase2_rounds 0 retry_time_start);
  if succeeded : bool then mret tt
  else
    reset_gangs;;
    SetDtxRecoveryEvent DTX_RECOVERY_EVENT_ABORT_PREPARED.

Definition doNotifyingAbort : X unit :=
  st ← getCurrentDtxState;
  match st with
  | DTX_STATE_NOTIFYING_ABORT_NO_PREPARED =>
      succeeded ← currentDtxDispatchProtocolCommand DTX_PROTOCOL_COMMAND_ABORT_NO_PREPARED false;
      if succeeded : bool then mret tt else reset_gangs
  | DTX_STATE_NOTIFYING_ABORT_SOME_PREPARED | DTX_STATE_NOTIFYING_ABORT_PREPARED =>
      succeeded ← try_broadcast
        (if bool_decide (st = DTX_STATE_NOTIFYING_ABORT_SOME_PREPARED)
         then DTX_PROTOCOL_COMMAND_ABORT_SOME_PREPARED
         else DTX_PROTOCOL_COMMAND_ABORT_PREPARED);
      if succeeded : bool then mret tt
      else
        setCurrentDtxState DTX_STATE_RETRY_ABORT_PREPARED;;
        setDistributedTransactionContext DTX_CONTEXT_QD_RETRY_PHASE_2;;
        retryAbortPrepared
  | DTX_STATE_RETRY_ABORT_PREPARED => retryAbortPrepared
  | _ => elog PANIC ("Unexpected Dtx state: " +:+ DtxStateToString st)
  end.

Definition destroy_gangs (resetSession : bool) : X unit :=
  on_env (λ w, (tt, DisconnectAndDestroyAllGangs resetSession w)).

(** the second half of rollbackDtxTransaction, with the state set *)
Definition broadcast_rollback (next : DtxState) : X unit :=
  setCurrentDtxState next;;
  exiting ← get_xa proc_exit_inprogress;
  if exiting : bool then
    if bool_decide (next = DTX_STATE_NOTIFYING_ABORT_NO_PREPARED) then destroy_gangs false
    else elog FATAL "Unable to complete the 'Abort Prepared' broadcast"
  else doNotifyingAbort.

Definition rollbackDtxTransaction : X unit :=
  ctx ← get_dx DistributedTransactionContext;
  activated ← get_dx isCurrentDtxActivated;
  if negb (bool_decide (ctx = DTX_CONTEXT_QD_DISTRIBUTED_CAPABLE)) || negb activated then mret tt
  else
    st ← getCurrentDtxState;
    match st with
    | DTX_STATE_ACTIVE_DISTRIBUTED | DTX_STATE_ONE_PHASE_COMMIT
    | DTX_STATE_NOTIFYING_ONE_PHASE_COMMIT =>
        segs ← get_tml dtxSegments;
        lost ← currentGxactWriterGangLost;
        if bool_decide (segs = []) || lost then mret tt
        else broadcast_rollback DTX_STATE_NOTIFYING_ABORT_NO_PREPARED
    | DTX_STATE_PREPARING =>
        lost ← currentGxactWriterGangLost;
        broadcast_rollback (if lost : bool then DTX_STATE_RETRY_ABORT_PREPARED
                            else DTX_STATE_NOTIFYING_ABORT_SOME_PREPARED)
    | DTX_STATE_PREPARED => broadcast_rollback DTX_STATE_NOTIFYING_ABORT_PREPARED
    | DTX_STATE_NOTIFYING_ABORT_NO_PREPARED =>
        exiting ← get_xa proc_exit_inprogress;
        if exiting : bool then destroy_gangs false else reset_gangs
    | DTX_STATE_NOTIFYING_ABORT_SOME_PREPARED | DTX_STATE_NOTIFYING_ABORT_PREPARED =>
        elog FATAL "Unable to complete the 'Abort Prepared' broadcast"
    | DTX_STATE_NOTIFYING_COMMIT_PREPARED | DTX_STATE_INSERTING_COMMITTED
    | DTX_STATE_INSERTED_COMMITTED | DTX_STATE_INSERTING_FORGET_COMMITTED
    | DTX_STATE_INSERTED_FORGET_COMMITTED | DTX_STATE_RETRY_COMMIT_PREPARED
    | DTX_STATE_RETRY_ABORT_PREPARED => mret tt
    | DTX_STATE_NONE => elog PANIC "Unrecognized dtx state"
    end.
End cdbtm.
