(* ===== verification/TwoPhase.v ===== *)
(** * Prepared transactions

    [src/backend/access/transam/twophase.c]: the entries of prepared transactions, from
    MarkAsPreparing to FinishPreparedTransaction, and the records written for them
    (XactLogCommitRecord and XactLogAbortRecord of [xact.c]); the distributed log
    ([distributedlog.c]) and the commit log as maps.  The two-phase state data of an entry
    is kept with the entry, whether the program would find it in the log or in a file. *)
From S2P Require Import Prelude CLib BitUtils Bitmapset Elog Dtm DtxInfo CdbTm.

Definition GIDSIZE : Z := 200.

(** START_CRIT_SECTION() .. END_CRIT_SECTION(): an error inside is a PANIC *)
Definition crit_section {S A} (m : X S A) : X S A := λ s,
  match m s with
  | (Raised ERROR msg, s') => (Raised PANIC msg, s')
  | r => r
  end.

Definition TransactionIdDidCommit (s : server) (xid : Z) : bool :=
  bool_decide (clog s !! xid = Some XID_COMMITTED).
Definition TransactionIdDidAbort (s : server) (xid : Z) : bool :=
  bool_decide (clog s !! xid = Some XID_ABORTED).

(** set the status of a transaction and its children in pg_xact *)
Fixpoint set_tree (xids : list Z) (st : XidStatus) (m : gmap Z XidStatus) : gmap Z XidStatus :=
  match xids with
  | [] => m
  | x :: xids' => set_tree xids' st (<[x := st]> m)
  end.

Definition upd_gxact (gid : string) (f : GlobalTransactionData → GlobalTransactionData)
    (l : list GlobalTransactionData) : list GlobalTransactionData :=
  map (λ g, if bool_decide (gxact_gid g = gid) then f g else g) l.

(** remove the entry at [i]: the last entry takes its place *)
Definition remove_swap {A} (i : nat) (l : list A) : list A :=
  match last l with
  | Some z => take (length l - 1) (<[i := z]> l)
  | None => l
  end.

Section twophase.
Context {W : Type} `{XactEnv W} `{Backend}.
Notation X := (X (proc W)).

Definition TransactionIdCommitTree (xid : Z) (children : list Z) : X unit :=
  modify_sv (λ s, set_clog (set_tree (xid :: children) XID_COMMITTED (clog s)) s).
Definition TransactionIdAbortTree (xid : Z) (children : list Z) : X unit :=
  modify_sv (λ s, set_clog (set_tree (xid :: children) XID_ABORTED (clog s)) s).

(** ** The distributed log of a segment *)

(** the loop of DistributedLog_SetCommittedWithinAPage; 0 is the absence of an entry *)
Fixpoint DistributedLog_SetCommitted (xids : list Z) (distribXid : Z) : X unit :=
  match xids with
  | [] => mret tt
  | x :: xids' =>
      cur ← get_sv (λ s, default 0 (distributedlog s !! x));
      (if negb (cur =? 0) then
         if cur =? distribXid then mret tt
         else elog ERROR "Current distributed xid does not match input distributed xid"
       else modify_sv (λ s, set_distributedlog (<[x := distribXid]> (distributedlog s)) s));;
      DistributedLog_SetCommitted xids' distribXid
  end.

Definition DistributedLog_SetCommittedTree (xid : Z) (xids : list Z) (distribXid : Z) : X unit :=
  if IS_QUERY_DISPATCHER then mret tt
  else
    DistributedLog_SetCommitted [xid] distribXid;;
    DistributedLog_SetCommitted xids distribXid.

(** ** Records of the end of a transaction (xact.c) *)

Definition GetCurrentTransactionIdIfAny : X Z :=
  get_xa (λ x, fullTransactionId (CurrentTransactionState x)).

Definition XactLogCommitRecord (subxacts : list Z) (twophase_xid : Z) : X Z :=
  prepared ← get_dx isPreparedDtxTransaction;
  distrib_xid ← getDistributedTransactionId;
  xid ← GetCurrentTransactionIdIfAny;
  xwhen prepared insertingDistributedCommitted;;
  recptr ← XLogInsert
    (if prepared : bool then XLOG_XACT_DISTRIBUTED_COMMIT xid subxacts distrib_xid
     else if negb (TransactionIdIsValid twophase_xid) then XLOG_XACT_COMMIT xid subxacts distrib_xid
     else XLOG_XACT_COMMIT_PREPARED twophase_xid subxacts distrib_xid);
  xwhen prepared insertedDistributedCommitted;;
  mret recptr.

Definition XactLogAbortRecord (subxacts : list Z) (twophase_xid : Z) : X Z :=
  xid ← GetCurrentTransactionIdIfAny;
  XLogInsert
    (if negb (TransactionIdIsValid twophase_xid) then XLOG_XACT_ABORT xid subxacts
     else XLOG_XACT_ABORT_PREPARED twophase_xid subxacts).

(** ** Entries *)

Definition modify_gxact (gid : string) (f : GlobalTransactionData → GlobalTransactionData) : X unit :=
  modify_sv (λ s, set_prepXacts (upd_gxact gid f (prepXacts s)) s).

Definition MarkAsPreparing (xid : Z) (children : list Z) (gid : string) : X unit :=
  if GIDSIZE <=? Z.of_nat (String.length gid) then elog ERROR "transaction identifier is too long"
  else if max_prepared_xacts =? 0 then elog ERROR "prepared transactions are disabled"
  else
    l ← get_sv prepXacts;
    if existsb (λ g, bool_decide (gxact_gid g = gid)) l
    then elog ERROR "transaction identifier is already in use"
    else if max_prepared_xacts <=? Z.of_nat (length l)
    then elog ERROR "maximum number of prepared transactions reached"
    else
      st ← get_dx localDistribXact_state;
      modify_sv (λ s, set_prepXacts
        (prepXacts s ++ [mkGlobalTransaction xid gid children UserId MyDatabaseId
                           (Some MyBackendId) false st]) s);;
      modify_xa (set_MyLockedGxact (Some gid)).

(** LocalDistribXact_ChangeState (cdblocaldistribxact.c): the new state, or a PANIC *)
Definition LocalDistribXact_ChangeState (oldState newState : LocalDistribXactState)
    : X LocalDistribXactState :=
  match newState with
  | LOCALDISTRIBXACT_STATE_PREPARED | LOCALDISTRIBXACT_STATE_COMMITTED =>
      if bool_decide (oldState = LOCALDISTRIBXACT_STATE_ACTIVE) then mret newState
      else elog PANIC "Expected distributed transaction to be in state Active"
  | LOCALDISTRIBXACT_STATE_ABORTED =>
      if bool_decide (oldState = LOCALDISTRIBXACT_STATE_ACTIVE) ||
         bool_decide (oldState = LOCALDISTRIBXACT_STATE_ABORTED) then mret newState
      else elog PANIC "Expected distributed transaction to be in state Active or Abort Delivery"
  | LOCALDISTRIBXACT_STATE_ACTIVE | LOCALDISTRIBXACT_STATE_NONE =>
      elog PANIC "Unexpected distributed to local transaction new state"
  end.

Definition find_gxact (gid : string) (l : list GlobalTransactionData) : option GlobalTransactionData :=
  find (λ g, bool_decide (gxact_gid g = gid)) l.

Definition MarkAsPrepared (gid : string) : X unit :=
  modify_gxact gid (set_valid true);;
  e ← get_sv (λ s, find_gxact gid (prepXacts s));
  match e with
  | None => mret tt
  | Some g =>
      st ← LocalDistribXact_ChangeState (gxact_distrib g) LOCALDISTRIBXACT_STATE_PREPARED;
      modify_gxact gid (set_gxact_distrib st)
  end.

(** EndPrepare(): the record is on disk before the entry becomes valid *)
Definition EndPrepare (xid : Z) (children : list Z) (gid : string) : X unit :=
  crit_section
    (recptr ← XLogInsert (XLOG_XACT_PREPARE xid children gid UserId MyDatabaseId);
     XLogFlush recptr;;
     MarkAsPrepared gid;;
     modify_xa (set_MyLockedGxact (Some gid))).

Definition RemoveGXact (gid : string) : X unit :=
  l ← get_sv prepXacts;
  match list_find (λ g, gxact_gid g = gid) l with
  | Some (i, _) => modify_sv (λ s, set_prepXacts (remove_swap i (prepXacts s)) s)
  | None => elog ERROR "failed to find entry in GlobalTransaction array"
  end.

Definition AtAbort_Twophase : X unit :=
  locked ← get_xa MyLockedGxact;
  match locked with
  | None => mret tt
  | Some gid =>
      e ← get_sv (λ s, find_gxact gid (prepXacts s));
      (match e with
       | Some g => if valid g then modify_gxact gid (set_locking_backend None) else RemoveGXact gid
       | None => RemoveGXact gid
       end);;
      modify_xa (set_MyLockedGxact None)
  end.

Definition PostPrepare_Twophase (gid : string) : X unit :=
  modify_gxact gid (set_locking_backend None);;
  modify_xa (set_MyLockedGxact None).

Definition LockGXact (gid : string) (raiseErrorIfNotFound : bool) : X (option GlobalTransactionData) :=
  e ← get_sv (λ s, find (λ g, valid g && bool_decide (gxact_gid g = gid)) (prepXacts s));
  match e with
  | None =>
      if raiseErrorIfNotFound
      then elog ERROR ("prepared transaction with identifier does not exist: " +:+ gid)
      else mret None
  | Some g =>
      if bool_decide (is_Some (locking_backend g))
      then elog ERROR "prepared transaction is busy"
      else if negb (UserId =? gxact_owner g) && negb (superuser_arg UserId)
      then elog ERROR "permission denied to finish prepared transaction"
      else if negb (MyDatabaseId =? gxact_databaseId g) && negb is_execute
      then elog ERROR "prepared transaction belongs to another database"
      else
        modify_gxact gid (set_locking_backend (Some MyBackendId));;
        modify_xa (set_MyLockedGxact (Some gid));;
        mret (Some g)
  end.

(** ** Finishing a prepared transaction *)

Definition RecordTransactionCommitPrepared (xid : Z) (children : list Z) (gid : string) : X unit :=
  crit_section
    (distribXid ← dtxDeformGid gid;
     recptr ← XactLogCommitRecord children xid;
     XLogFlush recptr;;
     DistributedLog_SetCommittedTree xid children distribXid;;
     TransactionIdCommitTree xid children).

Definition RecordTransactionAbortPrepared (xid : Z) (children : list Z) (gid : string) : X unit :=
  committed ← get_sv (λ s, TransactionIdDidCommit s xid);
  if committed : bool then elog PANIC "cannot abort transaction, it was already committed"
  else
    crit_section
      (recptr ← XactLogAbortRecord children xid;
       XLogFlush recptr;;
       TransactionIdAbortTree xid children).

Definition FinishPreparedTransaction (gid : string) (isCommit raiseErrorIfNotFound : bool) : X bool :=
  e ← LockGXact gid raiseErrorIfNotFound;
  match e with
  | None => mret false
  | Some g =>
      let xid := gxact_xid g in
      let children := gxact_children g in
      (if isCommit then RecordTransactionCommitPrepared xid children gid
       else RecordTransactionAbortPrepared xid children gid);;
      modify_gxact gid (set_valid false);;
      call_hook PostFinishPrepared;;
      RemoveGXact gid;;
      modify_xa (set_MyLockedGxact None);;
      mret true
  end.
End twophase.

(** ** Removing an entry *)

(** the order of the entries is not kept *)
Lemma remove_swap_perm {A} i (l : list A) x : l !! i = Some x → l ≡ₚ x :: remove_swap i l.
Proof.
  intros Hi. destruct l as [|z l _] using rev_ind; [done|]. unfold remove_swap. rewrite last_snoc.
  rewrite length_app. cbn [length]. replace (length l + 1 - 1)%nat with (length l) by lia.
  destruct (decide (i < length l)%nat) as [Hlt|Hge].
  - rewrite lookup_app_l in Hi by done. rewrite insert_app_l by done. rewrite take_app_length' by (by rewrite length_insert).
    destruct (list_elem_of_split_length _ _ _ Hi) as (l1 & l2 & -> & ->). rewrite insert_app_r_alt by done.
    rewrite Nat.sub_diag. cbn. rewrite <- app_assoc. cbn. rewrite <- !Permutation_middle.
    by rewrite app_nil_r.
  - assert (i = length l) as ->. { apply lookup_lt_Some in Hi. rewrite length_app in Hi. cbn in Hi. lia. }
    rewrite list_lookup_middle in Hi by done. injection Hi as ->.
    rewrite insert_app_r_alt, Nat.sub_diag by done. rewrite take_app_length. by rewrite Permutation_app_comm.
Qed.

Lemma remove_swap_spec {A} i (l : list A) x :
  NoDup l → l !! i = Some x → NoDup (remove_swap i l) ∧ ∀ y, y ∈ remove_swap i l ↔ y ∈ l ∧ y ≠ x.
Proof.
  intros Hn Hi%remove_swap_perm. rewrite Hi in Hn. apply NoDup_cons in Hn as [Hx Hn]. split; [done|].
  intros y. assert (y ∈ l ↔ y ∈ x :: remove_swap i l) as -> by (by rewrite <- Hi). set_solver.
Qed.
