(* ===== verification/Xact.v ===== *)
(** * Transactions

    [src/backend/access/transam/xact.c]: the low-level routines that start, commit,
    prepare and abort a transaction or a subtransaction, with the calls of the
    distributed transaction manager in them, and the state machine of transaction blocks
    above them.  The stack of transaction states is a list, so the routines that follow
    [parent] pointers recurse over it.  Calls into other modules are the hooks of
    [Dtm.v]; those after the commit record and those of abort processing do not raise. *)
From S2P Require Import Prelude CLib BitUtils Bitmapset Elog Dtm DtxInfo CdbTm TwoPhase.

(** the levels from the current one outwards, with identifiers assigned to those that
    lack one, outermost first *)
Fixpoint assign_chain (l : list TransactionStateData) (next : Z) : list TransactionStateData * Z :=
  match l with
  | [] => ([], next)
  | s :: rest =>
      if TransactionIdIsValid (fullTransactionId s) then (s :: rest, next)
      else
        let '(rest', next') := assign_chain rest next in
        (set_fullTransactionId next' s :: rest', next' + 1)
  end.

(** write back the levels, the topmost being the last *)
Fixpoint write_levels (l : list TransactionStateData) (x : xact_vars) : xact_vars :=
  match l with
  | [] => x
  | [t] => set_subtransactions [] (set_TopTransactionStateData t x)
  | s :: rest =>
      let x' := write_levels rest x in set_subtransactions (s :: subtransactions x') x'
  end.

Definition levels (x : xact_vars) : list TransactionStateData :=
  subtransactions x ++ [TopTransactionStateData x].

(** the block states of the levels of a loop over [parent]: changed by [f] up to the
    first level for which it is not defined *)
Fixpoint mark_levels (f : TBlockState → option TBlockState) (l : list TransactionStateData)
    : list TransactionStateData * bool :=
  match l with
  | [] => ([], true)
  | s :: rest =>
      match f (blockState s) with
      | Some b => let '(rest', ok) := mark_levels f rest in (set_blockState b s :: rest', ok)
      | None => (s :: rest, false)
      end
  end.

Section xact.
Context {W : Type} `{XactEnv W} `{Backend}.
Notation X := (X (proc W)).

Definition modify_current (f : TransactionStateData → TransactionStateData) : X unit :=
  modify_xa (upd_current f).
Definition get_current {A} (f : TransactionStateData → A) : X A :=
  get_xa (λ x, f (CurrentTransactionState x)).
Definition set_block (b : TBlockState) : X unit := modify_current (set_blockState b).
Definition set_trans (t : TransState) : X unit := modify_current (set_state t).
Definition IsInParallelMode : X bool := get_current (λ s, negb (parallelModeLevel s =? 0)).

(** ** Transaction identifiers *)

Definition AssignTransactionId : X unit :=
  ctx ← get_dx DistributedTransactionContext;
  parallel ← IsInParallelMode;
  match ctx with
  | DTX_CONTEXT_QE_READER | DTX_CONTEXT_QE_ENTRY_DB_SINGLETON =>
      elog ERROR ("AssignTransactionId() called by " +:+ DtxContextToString ctx +:+ " process")
  | _ =>
      if parallel : bool then elog ERROR "cannot assign XIDs during a parallel operation"
      else
        ls ← get_xa levels;
        next ← get_sv nextXid;
        let '(ls', next') := assign_chain ls next in
        modify_xa (write_levels ls');;
        modify_sv (set_nextXid next');;
        modify_xa (λ x, set_XactTopFullTransactionId (fullTransactionId (TopTransactionStateData x)) x)
  end.

Definition GetCurrentTransactionId : X Z :=
  xid ← GetCurrentTransactionIdIfAny;
  xwhen (negb (TransactionIdIsValid xid)) AssignTransactionId;;
  GetCurrentTransactionIdIfAny.

(** a command marks the tuples it writes with the command id (GetCurrentCommandId(true)) *)
Definition CommandCounterIncrement : X unit :=
  used ← get_xa currentCommandIdUsed;
  if negb used then mret tt
  else
    parallel ← IsInParallelMode;
    if parallel : bool then elog ERROR "cannot start commands during a parallel operation"
    else
      cid ← get_xa currentCommandId;
      if wrap 32 (cid + 1) =? InvalidCommandId
      then elog ERROR "cannot have more than 2^32-2 commands in a transaction"
      else
        modify_xa (λ x, set_currentCommandIdUsed false (set_currentCommandId (wrap 32 (cid + 1)) x));;
        call_hook AtCCI.

(** ** Starting *)

(** StartTransaction sets the fields of the topmost level *)
Definition start_top (t : TransactionStateData) : TransactionStateData :=
  set_childXids [] (set_subTransactionId TopSubTransactionId (set_nestingLevel 1
    (set_fullTransactionId InvalidTransactionId (set_state TRANS_START t)))).

(** transaction characteristics as sent by the coordinator *)
Definition assume_characteristics : X unit :=
  opts ← get_dx (λ d, distributedTxnOptions (QEDtxContextInfo d));
  iso ← mppTxOptions_IsoLevel opts;
  modify_xa (λ x, set_XactReadOnly (isMppTxOptions_ReadOnly opts) (set_XactIsoLevel iso x)).

Definition assume_gxid : X unit :=
  g ← get_dx (λ d, distributedXid (QEDtxContextInfo d));
  modify_tm (set_gxid g).

Definition start_dtx_context : X unit :=
  ctx ← get_dx DistributedTransactionContext;
  match ctx with
  | DTX_CONTEXT_LOCAL_ONLY =>
      xwhen is_utility (modify_dx (set_localDistribXact_state LOCALDISTRIBXACT_STATE_ACTIVE))
  | DTX_CONTEXT_QD_RETRY_PHASE_2 | DTX_CONTEXT_QE_FINISH_PREPARED => mret tt
  | DTX_CONTEXT_QD_DISTRIBUTED_CAPABLE =>
      modify_dx (set_localDistribXact_state LOCALDISTRIBXACT_STATE_ACTIVE)
  | DTX_CONTEXT_QE_TWO_PHASE_EXPLICIT_WRITER | DTX_CONTEXT_QE_TWO_PHASE_IMPLICIT_WRITER =>
      g ← get_dx (λ d, distributedXid (QEDtxContextInfo d));
      if g =? InvalidDistributedTransactionId
      then elog ERROR "distributed transaction id is invalid in context"
      else
        assume_characteristics;;
        assume_gxid;;
        modify_dx (λ d, set_localDistribXact_state LOCALDISTRIBXACT_STATE_ACTIVE
                          (set_localDistribXact_xid g d))
  | DTX_CONTEXT_QE_AUTO_COMMIT_IMPLICIT => assume_characteristics;; assume_gxid
  | DTX_CONTEXT_QE_ENTRY_DB_SINGLETON | DTX_CONTEXT_QE_READER => assume_gxid;; assume_characteristics
  | DTX_CONTEXT_QE_PREPARED =>
      elog FATAL ("Unexpected segment distribute transaction context: " +:+ DtxContextToString ctx)
  end.

Definition StartTransaction : X unit :=
  modify_xa (λ x, set_subtransactions [] (set_TopTransactionStateData (start_top (TopTransactionStateData x)) x));;
  modify_xa (λ x, set_XactIsoLevel DefaultXactIsoLevel (set_XactDeferrable DefaultXactDeferrable
                    (set_XactReadOnly DefaultXactReadOnly x)));;
  modify_xa (λ x, set_currentCommandIdUsed false (set_currentCommandId FirstCommandId
                    (set_currentSubTransactionId TopSubTransactionId x)));;
  modify_xa (set_TopXactexecutorDidWriteXLog false);;
  modify_current (set_curTransactionOwner true);;
  start_dtx_context;;
  call_hook AtStart_Xact;;
  set_trans TRANS_INPROGRESS;;
  call_hook AfterStart.

(** ** Ending: the records *)

Definition TransactionIdLatest (mainxid : Z) (xids : list Z) : Z := fold_right Z.max mainxid xids.

Definition RecordTransactionCommit : X Z :=
  ctx ← get_dx DistributedTransactionContext;
  top ← get_xa XactTopFullTransactionId;
  let isOnePhase (d : dtx_vars) := is_execute && isOnePhaseCommit (MyTmGxactLocal d) in
  isOnePhaseQE ← get_dx isOnePhase;
  let xid := match ctx with
             | DTX_CONTEXT_QE_ENTRY_DB_SINGLETON | DTX_CONTEXT_QE_READER => InvalidTransactionId
             | _ => top
             end in
  let markXidCommitted := TransactionIdIsValid xid in
  children ← get_current childXids;
  last_end ← get_xa XactLastRecEnd;
  prepared ← get_dx isPreparedDtxTransaction;
  deletes ← xread (λ p, pending_deletes (env p));
  invals ← xread (λ p, pending_invals (env p));
  if negb markXidCommitted && deletes
  then elog ERROR "cannot commit a transaction that deleted files but has no xid"
  else
    xwhen (negb markXidCommitted && invals) (XLogInsert (XLOG_OTHER InvalidTransactionId);; mret tt);;
    if negb markXidCommitted && negb prepared && (last_end =? 0) && negb invals
    then mret InvalidTransactionId
    else
      (if markXidCommitted || prepared then
         crit_section
           (XactLogCommitRecord children InvalidTransactionId;;
            lsn ← get_xa XactLastRecEnd;
            XLogFlush lsn;;
            xwhen markXidCommitted
              (g ← getDistributedTransactionId;
               xwhen (prepared || isOnePhaseQE) (DistributedLog_SetCommittedTree xid children g);;
               TransactionIdCommitTree xid children))
       else
         lsn ← get_xa XactLastRecEnd;
         XLogFlush lsn);;
      modify_xa (set_XactLastRecEnd 0);;
      mret (TransactionIdLatest xid children).

Definition RecordTransactionAbort (isSubXact : bool) : X Z :=
  ctx ← get_dx DistributedTransactionContext;
  st ← getCurrentDtxState;
  rolling ← get_dx CurrentDtxIsRollingback;
  aborted ← get_dx (λ d, bool_decide (localDistribXact_state d = LOCALDISTRIBXACT_STATE_ABORTED));
  cur ← GetCurrentTransactionIdIfAny;
  let reader := match ctx with
                | DTX_CONTEXT_QE_READER | DTX_CONTEXT_QE_ENTRY_DB_SINGLETON => true
                | _ => false
                end in
  let xid := if reader || bool_decide (st = DTX_STATE_NOTIFYING_COMMIT_PREPARED) || rolling || aborted
             then InvalidTransactionId else cur in
  if negb (TransactionIdIsValid xid) then
    xwhen (negb isSubXact) (modify_xa (set_XactLastRecEnd 0));;
    mret InvalidTransactionId
  else
    committed ← get_sv (λ s, TransactionIdDidCommit s xid);
    if committed : bool then elog PANIC "cannot abort transaction, it was already committed"
    else
      children ← get_current childXids;
      crit_section
        (XactLogAbortRecord children InvalidTransactionId;;
         TransactionIdAbortTree xid children);;
      xwhen (negb isSubXact) (modify_xa (set_XactLastRecEnd 0));;
      mret (TransactionIdLatest xid children).

(** ** Ending: the process array *)

(** ProcArrayEndGxact and ProcArrayEndTransaction (procarray.c) *)
Definition ProcArrayEndGxact : X unit :=
  g ← get_tm gxid;
  modify_tm (λ _, mkTMGXACT InvalidDistributedTransactionId InvalidDistributedTransactionId false 0);;
  modify_sv (λ s, if negb (g =? InvalidDistributedTransactionId) && (latestCompletedGxid s <? g)
                  then set_latestCompletedGxid g s else s).

Definition ProcArrayEndTransaction (latestXid : Z) : X unit :=
  g ← get_tm gxid;
  xwhen (negb (g =? InvalidDistributedTransactionId)) ProcArrayEndGxact;;
  resetTmGxact.

Definition EndLocalDistribXact (isCommit : bool) : X unit :=
  st ← get_dx localDistribXact_state;
  if bool_decide (st = LOCALDISTRIBXACT_STATE_NONE) then mret tt
  else
    ctx ← get_dx DistributedTransactionContext;
    match ctx with
    | DTX_CONTEXT_QE_TWO_PHASE_EXPLICIT_WRITER | DTX_CONTEXT_QE_TWO_PHASE_IMPLICIT_WRITER
    | DTX_CONTEXT_QE_AUTO_COMMIT_IMPLICIT | DTX_CONTEXT_QD_DISTRIBUTED_CAPABLE
    | DTX_CONTEXT_QD_RETRY_PHASE_2 | DTX_CONTEXT_LOCAL_ONLY =>
        st' ← LocalDistribXact_ChangeState st
                (if isCommit then LOCALDISTRIBXACT_STATE_COMMITTED else LOCALDISTRIBXACT_STATE_ABORTED);
        modify_dx (set_localDistribXact_state st')
    | DTX_CONTEXT_QE_READER | DTX_CONTEXT_QE_ENTRY_DB_SINGLETON => mret tt
    | DTX_CONTEXT_QE_PREPARED | DTX_CONTEXT_QE_FINISH_PREPARED =>
        elog PANIC ("Unexpected distribute transaction context: " +:+ DtxContextToString ctx)
    end.

(** the fields reset at the end of CommitTransaction, PrepareTransaction and CleanupTransaction *)
Definition end_top (t : TransactionStateData) : TransactionStateData :=
  set_curTransactionOwner false (set_childXids [] (set_nestingLevel 0
    (set_subTransactionId InvalidSubTransactionId (set_fullTransactionId InvalidTransactionId t)))).

(** ** Ending a transaction *)

Definition CommitTransaction : X unit :=
  is_parallel_worker ← get_current (λ s, bool_decide (blockState s = TBLOCK_PARALLEL_INPROGRESS));
  xwhen is_parallel_worker (modify_current (λ s, set_parallelModeLevel (parallelModeLevel s + 1) s));;
  call_hook PreCommit;;
  prepareDtxTransaction;;
  call_hook PreCommit_Late;;
  modify_current (λ s, set_parallelModeLevel 0 (set_state TRANS_COMMIT s));;
  latestXid ← (if is_parallel_worker : bool then mret InvalidTransactionId
               else RecordTransactionCommit);
  needed ← get_dx notifyCommittedDtxTransactionIsNeeded;
  xwhen needed notifyCommittedDtxTransaction;;
  ProcArrayEndTransaction latestXid;;
  EndLocalDistribXact true;;
  finishDistributedTransactionContext;;
  modify_current end_top;;
  modify_xa (set_XactTopFullTransactionId InvalidTransactionId);;
  set_trans TRANS_DEFAULT.

Definition PrepareTransaction : X unit :=
  xid ← GetCurrentTransactionId;
  call_hook PrePrepare;;
  set_trans TRANS_PREPARE;;
  aborted ← get_sv (λ s, TransactionIdDidAbort s xid);
  if aborted : bool then elog ERROR "xid is already aborted"
  else
    gid ← get_xa prepareGID;
    children ← get_current childXids;
    match gid with
    | None => elog PANIC "strlen(NULL)"
    | Some gid =>
        MarkAsPreparing xid children gid;;
        modify_xa (set_prepareGID None);;
        call_hook AtPrepare;;
        EndPrepare xid children gid;;
        modify_xa (set_XactLastRecEnd 0);;
        modify_dx (set_localDistribXact_state LOCALDISTRIBXACT_STATE_NONE);;
        PostPrepare_Twophase gid;;
        modify_current end_top;;
        modify_xa (set_XactTopFullTransactionId InvalidTransactionId);;
        set_trans TRANS_DEFAULT
    end.

(** AtAbort_DispatcherState (cdbdisp.c) *)
Definition AtAbort_DispatcherState : X unit :=
  if negb is_dispatch then mret tt
  else
    dispatcher_call cleanup_dispatcher;;
    lost ← currentGxactWriterGangLost;
    xwhen lost reset_gangs.

Definition AtSubAbort_DispatcherState : X unit :=
  if negb is_dispatch then mret tt else dispatcher_call cleanup_dispatcher.

Definition AbortTransaction : X unit :=
  is_parallel_worker ← get_current (λ s, bool_decide (blockState s = TBLOCK_PARALLEL_INPROGRESS));
  modify_current (λ s, set_parallelModeLevel 0 (set_state TRANS_ABORT s));;
  AtAbort_DispatcherState;;
  AtAbort_Twophase;;
  latestXid ← (if is_parallel_worker : bool then mret InvalidTransactionId
               else RecordTransactionAbort false);
  rollbackDtxTransaction;;
  ProcArrayEndTransaction latestXid;;
  EndLocalDistribXact false;;
  modify_xa (λ x, set_TopTransactionStateData
                    (set_fullTransactionId InvalidTransactionId (TopTransactionStateData x)) x);;
  modify_dx (set_localDistribXact_state LOCALDISTRIBXACT_STATE_NONE).

Definition CleanupTransaction : X unit :=
  st ← get_current state;
  if negb (bool_decide (st = TRANS_ABORT)) then elog FATAL "CleanupTransaction: unexpected state"
  else
    modify_current (λ s, set_parallelModeLevel 0 (end_top s));;
    modify_xa (set_XactTopFullTransactionId InvalidTransactionId);;
    set_trans TRANS_DEFAULT;;
    finishDistributedTransactionContext.

(** ** Subtransactions *)

Definition PushTransaction : X unit :=
  n ← get_xa currentSubTransactionId;
  let next := wrap 32 (n + 1) in
  if next =? InvalidSubTransactionId
  then elog ERROR "cannot have more than 2^32-1 subtransactions in a transaction"
  else
    modify_xa (λ x,
      let p := CurrentTransactionState x in
      set_subtransactions
        (mkTransactionState None (savepointLevel p) TRANS_DEFAULT TBLOCK_SUBBEGIN
           (nestingLevel p + 1) InvalidTransactionId next [] false (XactReadOnly x) 0 false
         :: subtransactions x)
        (set_currentSubTransactionId next x)).

Definition PopTransaction : X unit :=
  subs ← get_xa subtransactions;
  match subs with
  | [] => elog FATAL "PopTransaction with no parent"
  | _ :: rest => modify_xa (set_subtransactions rest)
  end.

Definition StartSubTransaction : X unit :=
  set_trans TRANS_START;;
  modify_current (set_curTransactionOwner true);;
  call_hook AtSubStart;;
  set_trans TRANS_INPROGRESS;;
  call_hook AtSubStart_Callbacks.

(** the parent of the current level takes over its identifiers *)
Definition AtSubCommit_childXids : X unit :=
  modify_xa (λ x,
    match subtransactions x with
    | s :: p :: rest =>
        set_subtransactions
          (set_childXids [] s ::
           set_childXids (childXids p ++ fullTransactionId s :: childXids s) p :: rest) x
    | [s] =>
        set_subtransactions [set_childXids [] s]
          (set_TopTransactionStateData
             (set_childXids (childXids (TopTransactionStateData x) ++ fullTransactionId s :: childXids s)
                (TopTransactionStateData x)) x)
    | [] => x
    end).

Definition CommitSubTransaction : X unit :=
  call_hook PreCommitSub;;
  modify_current (λ s, set_state TRANS_COMMIT (set_parallelModeLevel 0 s));;
  CommandCounterIncrement;;
  xid ← get_current fullTransactionId;
  xwhen (TransactionIdIsValid xid) AtSubCommit_childXids;;
  modify_xa (λ x, set_XactReadOnly (prevXactReadOnly (CurrentTransactionState x)) x);;
  modify_current (λ s, set_state TRANS_DEFAULT (set_curTransactionOwner false s));;
  PopTransaction.

Definition AbortSubTransaction : X unit :=
  modify_current (λ s, set_parallelModeLevel 0 (set_state TRANS_ABORT s));;
  owner ← get_current curTransactionOwner;
  xwhen owner (AtSubAbort_DispatcherState;; RecordTransactionAbort true;; mret tt);;
  xid ← get_current fullTransactionId;
  xwhen (owner && TransactionIdIsValid xid) (modify_current (set_childXids []));;
  modify_xa (λ x, set_XactReadOnly (prevXactReadOnly (CurrentTransactionState x)) x).

Definition CleanupSubTransaction : X unit :=
  modify_current (λ s, set_state TRANS_DEFAULT (set_curTransactionOwner false s));;
  PopTransaction.

(** ** Commands of a transaction block *)

Definition unexpected_block {A} (l : elevel) (who : string) : X A :=
  elog l (who +:+ ": unexpected state").

Definition BeginTransactionBlock : X unit :=
  b ← get_current blockState;
  match b with
  | TBLOCK_STARTED | TBLOCK_IMPLICIT_INPROGRESS => set_block TBLOCK_BEGIN
  | TBLOCK_INPROGRESS | TBLOCK_PARALLEL_INPROGRESS | TBLOCK_SUBINPROGRESS
  | TBLOCK_ABORT | TBLOCK_SUBABORT => mret tt
  | _ => unexpected_block FATAL "BeginTransactionBlock"
  end.

(** the loop over the subtransactions, then the topmost level *)
Definition mark_blocks (who : string) (fsub ftop : TBlockState → option TBlockState) : X unit :=
  subs ← get_xa subtransactions;
  let '(subs', ok) := mark_levels fsub subs in
  modify_xa (set_subtransactions subs');;
  if negb ok then unexpected_block FATAL who
  else
    t ← get_xa (λ x, blockState (TopTransactionStateData x));
    match ftop t with
    | Some b => modify_xa (λ x, set_TopTransactionStateData (set_blockState b (TopTransactionStateData x)) x)
    | None => unexpected_block FATAL who
    end.

Definition to_subcommit (b : TBlockState) : option TBlockState :=
  match b with TBLOCK_SUBINPROGRESS => Some TBLOCK_SUBCOMMIT | _ => None end.
Definition to_end (b : TBlockState) : option TBlockState :=
  match b with TBLOCK_INPROGRESS => Some TBLOCK_END | _ => None end.
Definition to_subabort (b : TBlockState) : option TBlockState :=
  match b with
  | TBLOCK_SUBINPROGRESS => Some TBLOCK_SUBABORT_PENDING
  | TBLOCK_SUBABORT => Some TBLOCK_SUBABORT_END
  | _ => None
  end.
Definition to_abort (b : TBlockState) : option TBlockState :=
  match b with
  | TBLOCK_INPROGRESS => Some TBLOCK_ABORT_PENDING
  | TBLOCK_ABORT => Some TBLOCK_ABORT_END
  | _ => None
  end.

Definition set_top_chain (c : bool) : X unit :=
  modify_xa (λ x, set_TopTransactionStateData (set_chain c (TopTransactionStateData x)) x).

Definition EndTransactionBlock (chain : bool) : X bool :=
  b ← get_current blockState;
  result ← (match b with
    | TBLOCK_INPROGRESS => set_block TBLOCK_END;; mret true
    | TBLOCK_IMPLICIT_INPROGRESS =>
        if chain then elog ERROR "COMMIT AND CHAIN can only be used in transaction blocks"
        else set_block TBLOCK_END;; mret true
    | TBLOCK_ABORT => set_block TBLOCK_ABORT_END;; mret false
    | TBLOCK_SUBINPROGRESS => mark_blocks "EndTransactionBlock" to_subcommit to_end;; mret true
    | TBLOCK_SUBABORT => mark_blocks "EndTransactionBlock" to_subabort to_abort;; mret false
    | TBLOCK_STARTED =>
        if chain then elog ERROR "COMMIT AND CHAIN can only be used in transaction blocks"
        else mret true
    | TBLOCK_PARALLEL_INPROGRESS => elog FATAL "cannot commit during a parallel operation"
    | _ => unexpected_block FATAL "EndTransactionBlock"
    end);
  set_top_chain chain;;
  mret result.

Definition PrepareTransactionBlock (gid : string) : X bool :=
  result ← EndTransactionBlock false;
  if negb result then mret false
  else
    b ← get_xa (λ x, blockState (TopTransactionStateData x));
    if bool_decide (b = TBLOCK_END) then
      modify_xa (set_prepareGID (Some gid));;
      modify_xa (λ x, set_TopTransactionStateData
                        (set_blockState TBLOCK_PREPARE (TopTransactionStateData x)) x);;
      mret true
    else mret false.

Definition UserAbortTransactionBlock (chain : bool) : X unit :=
  b ← get_current blockState;
  (match b with
   | TBLOCK_INPROGRESS => set_block TBLOCK_ABORT_PENDING
   | TBLOCK_ABORT => set_block TBLOCK_ABORT_END
   | TBLOCK_SUBINPROGRESS | TBLOCK_SUBABORT =>
       mark_blocks "UserAbortTransactionBlock" to_subabort to_abort
   | TBLOCK_STARTED | TBLOCK_IMPLICIT_INPROGRESS =>
       if chain then elog ERROR "ROLLBACK AND CHAIN can only be used in transaction blocks"
       else set_block TBLOCK_ABORT_PENDING
   | TBLOCK_PARALLEL_INPROGRESS => elog FATAL "cannot abort during a parallel operation"
   | _ => unexpected_block FATAL "UserAbortTransactionBlock"
   end);;
  set_top_chain chain.

Definition BeginImplicitTransactionBlock : X unit :=
  b ← get_current blockState;
  xwhen (bool_decide (b = TBLOCK_STARTED)) (set_block TBLOCK_IMPLICIT_INPROGRESS).

Definition EndImplicitTransactionBlock : X unit :=
  b ← get_current blockState;
  xwhen (bool_decide (b = TBLOCK_IMPLICIT_INPROGRESS)) (set_block TBLOCK_STARTED).

(** ** Savepoints *)

Definition DefineSavepoint (sp : option string) : X unit :=
  parallel ← IsInParallelMode;
  if parallel : bool then elog ERROR "cannot define savepoints during a parallel operation"
  else
    b ← get_current blockState;
    match b with
    | TBLOCK_INPROGRESS | TBLOCK_SUBINPROGRESS =>
        PushTransaction;;
        modify_current (set_name sp)
    | TBLOCK_IMPLICIT_INPROGRESS => elog ERROR "SAVEPOINT can only be used in transaction blocks"
    | _ => unexpected_block FATAL "DefineSavepoint"
    end.

Definition DefineDispatchSavepoint (sp : string) : X unit :=
  b ← get_current blockState;
  if negb (bool_decide (b = TBLOCK_INPROGRESS)) && negb (bool_decide (b = TBLOCK_SUBINPROGRESS))
  then unexpected_block FATAL "DefineSavepoint"
  else
    (if is_dispatch then
       ok ← dispatchDtxCommand ("SAVEPOINT " +:+ quote_identifier sp);
       if ok : bool then mret tt else elog ERROR "Could not create a new savepoint"
     else mret tt);;
    DefineSavepoint (Some sp).

(** the position of the innermost level of the name *)
Definition find_savepoint (sp : string) (subs : list TransactionStateData) : option nat :=
  fst <$> list_find (λ s, name s = Some sp) subs.

(** the levels up to the one at [i] *)
Definition upd_levels (i : nat) (f : TransactionStateData → TransactionStateData)
    (subs : list TransactionStateData) : list TransactionStateData :=
  (f <$> take (S i) subs) ++ drop (S i) subs.

(** search the savepoint and check its level *)
Definition locate_savepoint (sp : string) : X nat :=
  subs ← get_xa subtransactions;
  level ← get_current savepointLevel;
  match find_savepoint sp subs with
  | None => elog ERROR ("savepoint does not exist: " +:+ sp)
  | Some i =>
      if bool_decide (savepointLevel <$> subs !! i = Some level) then mret i
      else elog ERROR ("savepoint does not exist within current savepoint level: " +:+ sp)
  end.

Definition ReleaseSavepoint (sp : string) : X unit :=
  parallel ← IsInParallelMode;
  if parallel : bool then elog ERROR "cannot release savepoints during a parallel operation"
  else
    b ← get_current blockState;
    match b with
    | TBLOCK_INPROGRESS => elog ERROR ("savepoint does not exist: " +:+ sp)
    | TBLOCK_IMPLICIT_INPROGRESS => elog ERROR "RELEASE SAVEPOINT can only be used in transaction blocks"
    | TBLOCK_SUBINPROGRESS =>
        (if is_dispatch then
           ok ← dispatchDtxCommand ("RELEASE SAVEPOINT " +:+ quote_identifier sp);
           if ok : bool then mret tt else elog ERROR "Could not release savepoint"
         else mret tt);;
        i ← locate_savepoint sp;
        modify_xa (λ x, set_subtransactions
                          (upd_levels i (set_blockState TBLOCK_SUBRELEASE) (subtransactions x)) x)
    | _ => unexpected_block FATAL "ReleaseSavepoint"
    end.

Definition to_restart (b : TBlockState) : option TBlockState :=
  match b with
  | TBLOCK_SUBINPROGRESS => Some TBLOCK_SUBRESTART
  | TBLOCK_SUBABORT => Some TBLOCK_SUBABORT_RESTART
  | _ => None
  end.

Definition RollbackToSavepoint (sp : string) : X unit :=
  parallel ← IsInParallelMode;
  if parallel : bool then elog ERROR "cannot rollback to savepoints during a parallel operation"
  else
    b ← get_current blockState;
    match b with
    | TBLOCK_INPROGRESS | TBLOCK_ABORT => elog ERROR ("savepoint does not exist: " +:+ sp)
    | TBLOCK_IMPLICIT_INPROGRESS =>
        elog ERROR "ROLLBACK TO SAVEPOINT can only be used in transaction blocks"
    | TBLOCK_SUBINPROGRESS | TBLOCK_SUBABORT =>
        i ← locate_savepoint sp;
        subs ← get_xa subtransactions;
        let '(inner, ok) := mark_levels to_subabort (take i subs) in
        modify_xa (set_subtransactions (inner ++ drop i subs));;
        if negb ok then unexpected_block FATAL "RollbackToSavepoint"
        else
          match subs !! i with
          | Some s =>
              match to_restart (blockState s) with
              | Some b' => modify_xa (set_subtransactions (inner ++ set_blockState b' s :: drop (S i) subs))
              | None => unexpected_block FATAL "RollbackToSavepoint"
              end
          | None => mret tt
          end
    | _ => unexpected_block FATAL "RollbackToSavepoint"
    end.

Definition DispatchRollbackToSavepoint (sp : option string) : X unit :=
  match sp with
  | None => elog ERROR "could not find savepoint name for ROLLBACK TO SAVEPOINT"
  | Some n =>
      ok ← dispatchDtxCommand ("ROLLBACK TO SAVEPOINT " +:+ quote_identifier n);
      if ok : bool then mret tt else elog ERROR "Could not rollback to savepoint"
  end.

(** ** Starting and finishing a command *)

Definition StartTransactionCommand : X unit :=
  xwhen is_dispatch setupRegularDtxContext;;
  b ← get_current blockState;
  match b with
  | TBLOCK_DEFAULT =>
      StartTransaction;;
      ctx ← get_dx DistributedTransactionContext;
      set_block (if bool_decide (ctx = DTX_CONTEXT_QE_TWO_PHASE_IMPLICIT_WRITER)
                 then TBLOCK_INPROGRESS else TBLOCK_STARTED)
  | TBLOCK_INPROGRESS | TBLOCK_IMPLICIT_INPROGRESS | TBLOCK_SUBINPROGRESS
  | TBLOCK_ABORT | TBLOCK_SUBABORT => mret tt
  | _ => unexpected_block ERROR "StartTransactionCommand"
  end.

Definition SaveTransactionCharacteristics : X unit :=
  modify_xa (λ x, set_save_XactDeferrable (XactDeferrable x)
    (set_save_XactReadOnly (XactReadOnly x) (set_save_XactIsoLevel (XactIsoLevel x) x))).
Definition RestoreTransactionCharacteristics : X unit :=
  modify_xa (λ x, set_XactDeferrable (save_XactDeferrable x)
    (set_XactReadOnly (save_XactReadOnly x) (set_XactIsoLevel (save_XactIsoLevel x) x))).

(** COMMIT AND CHAIN, ROLLBACK AND CHAIN: start the next transaction block *)
Definition start_chained : X unit :=
  c ← get_current chain;
  xwhen c
    (xwhen is_dispatch setupRegularDtxContext;;
     StartTransaction;;
     set_block TBLOCK_INPROGRESS;;
     modify_current (set_chain false);;
     RestoreTransactionCharacteristics).

(** do { CommitSubTransaction } while (the new current level is in the state [b]) *)
Fixpoint commit_subs_while (fuel : nat) (b : TBlockState) : X unit :=
  match fuel with
  | O => out_of_fuel
  | S fuel' =>
      CommitSubTransaction;;
      b' ← get_current blockState;
      if bool_decide (b' = b) then commit_subs_while fuel' b else mret tt
  end.

(** the level that is the target of ROLLBACK TO is gone: start it again *)
Definition restart_savepoint (sp : option string) (level : Z) : X unit :=
  xwhen is_dispatch (DispatchRollbackToSavepoint sp);;
  DefineSavepoint sp;;
  modify_current (set_savepointLevel level);;
  StartSubTransaction;;
  set_block TBLOCK_SUBINPROGRESS.

Fixpoint commit_command (fuel : nat) : X unit :=
  match fuel with
  | O => out_of_fuel
  | S fuel' =>
      SaveTransactionCharacteristics;;
      b ← get_current blockState;
      match b with
      | TBLOCK_DEFAULT | TBLOCK_PARALLEL_INPROGRESS =>
          unexpected_block FATAL "CommitTransactionCommand"
      | TBLOCK_STARTED => CommitTransaction;; set_block TBLOCK_DEFAULT
      | TBLOCK_BEGIN => set_block TBLOCK_INPROGRESS
      | TBLOCK_INPROGRESS | TBLOCK_IMPLICIT_INPROGRESS | TBLOCK_SUBINPROGRESS => CommandCounterIncrement
      | TBLOCK_END => CommitTransaction;; set_block TBLOCK_DEFAULT;; start_chained
      | TBLOCK_ABORT | TBLOCK_SUBABORT => mret tt
      | TBLOCK_ABORT_END => CleanupTransaction;; set_block TBLOCK_DEFAULT;; start_chained
      | TBLOCK_ABORT_PENDING =>
          AbortTransaction;; CleanupTransaction;; set_block TBLOCK_DEFAULT;; start_chained
      | TBLOCK_PREPARE => PrepareTransaction;; set_block TBLOCK_DEFAULT
      | TBLOCK_SUBBEGIN => StartSubTransaction;; set_block TBLOCK_SUBINPROGRESS
      | TBLOCK_SUBRELEASE =>
          n ← get_xa (λ x, length (subtransactions x));
          commit_subs_while n TBLOCK_SUBRELEASE
      | TBLOCK_SUBCOMMIT =>
          n ← get_xa (λ x, length (subtransactions x));
          commit_subs_while n TBLOCK_SUBCOMMIT;;
          b' ← get_current blockState;
          (match b' with
           | TBLOCK_END => CommitTransaction;; set_block TBLOCK_DEFAULT;; start_chained
           | TBLOCK_PREPARE => PrepareTransaction;; set_block TBLOCK_DEFAULT
           | _ => unexpected_block ERROR "CommitTransactionCommand"
           end)
      | TBLOCK_SUBABORT_END => CleanupSubTransaction;; commit_command fuel'
      | TBLOCK_SUBABORT_PENDING =>
          AbortSubTransaction;; CleanupSubTransaction;; commit_command fuel'
      | TBLOCK_SUBRESTART =>
          sp ← get_current name;
          modify_current (set_name None);;
          level ← get_current savepointLevel;
          AbortSubTransaction;; CleanupSubTransaction;;
          restart_savepoint sp level
      | TBLOCK_SUBABORT_RESTART =>
          sp ← get_current name;
          modify_current (set_name None);;
          level ← get_current savepointLevel;
          CleanupSubTransaction;;
          restart_savepoint sp level
      end
  end.

(** every recursive call has one level less *)
Definition CommitTransactionCommand : X unit :=
  n ← get_xa (λ x, length (subtransactions x));
  commit_command (S n).

Definition abort_and_cleanup : X unit :=
  AbortTransaction;; CleanupTransaction;; set_block TBLOCK_DEFAULT.

(** TBLOCK_DEFAULT: idle, or a transaction that failed to start *)
Definition abort_default : X unit :=
  st ← get_current state;
  if bool_decide (st = TRANS_DEFAULT) then mret tt
  else
    xwhen (bool_decide (st = TRANS_START)) (set_trans TRANS_INPROGRESS);;
    AbortTransaction;; CleanupTransaction.

Fixpoint abort_current (fuel : nat) : X unit :=
  match fuel with
  | O => out_of_fuel
  | S fuel' =>
      b ← get_current blockState;
      match b with
      | TBLOCK_DEFAULT => abort_default
      | TBLOCK_STARTED | TBLOCK_IMPLICIT_INPROGRESS | TBLOCK_BEGIN | TBLOCK_END
      | TBLOCK_ABORT_PENDING | TBLOCK_PREPARE => abort_and_cleanup
      | TBLOCK_INPROGRESS | TBLOCK_PARALLEL_INPROGRESS => AbortTransaction;; set_block TBLOCK_ABORT
      | TBLOCK_ABORT | TBLOCK_SUBABORT => mret tt
      | TBLOCK_ABORT_END => CleanupTransaction;; set_block TBLOCK_DEFAULT
      | TBLOCK_SUBINPROGRESS => AbortSubTransaction;; set_block TBLOCK_SUBABORT
      | TBLOCK_SUBBEGIN | TBLOCK_SUBRELEASE | TBLOCK_SUBCOMMIT | TBLOCK_SUBABORT_PENDING
      | TBLOCK_SUBRESTART => AbortSubTransaction;; CleanupSubTransaction;; abort_current fuel'
      | TBLOCK_SUBABORT_END | TBLOCK_SUBABORT_RESTART => CleanupSubTransaction;; abort_current fuel'
      end
  end.

Definition AbortCurrentTransaction : X unit :=
  n ← get_xa (λ x, length (subtransactions x));
  abort_current (S n).

(** do { .. } while (s->blockState != TBLOCK_DEFAULT) *)
Fixpoint abort_out (fuel : nat) : X unit :=
  match fuel with
  | O => out_of_fuel
  | S fuel' =>
      b ← get_current blockState;
      match b with
      | TBLOCK_DEFAULT => abort_default
      | TBLOCK_STARTED | TBLOCK_BEGIN | TBLOCK_INPROGRESS | TBLOCK_IMPLICIT_INPROGRESS
      | TBLOCK_PARALLEL_INPROGRESS | TBLOCK_END | TBLOCK_ABORT_PENDING | TBLOCK_PREPARE =>
          abort_and_cleanup
      | TBLOCK_ABORT | TBLOCK_ABORT_END => CleanupTransaction;; set_block TBLOCK_DEFAULT
      | TBLOCK_SUBBEGIN | TBLOCK_SUBINPROGRESS | TBLOCK_SUBRELEASE | TBLOCK_SUBCOMMIT
      | TBLOCK_SUBABORT_PENDING | TBLOCK_SUBRESTART =>
          AbortSubTransaction;; CleanupSubTransaction;; abort_out fuel'
      | TBLOCK_SUBABORT | TBLOCK_SUBABORT_END | TBLOCK_SUBABORT_RESTART =>
          CleanupSubTransaction;; abort_out fuel'
      end
  end.

Definition AbortOutOfAnyTransaction : X unit :=
  n ← get_xa (λ x, length (subtransactions x));
  abort_out (S n).

(** ** Subtransactions inside of functions *)

Definition BeginInternalSubTransaction (sp : option string) : X unit :=
  (if is_dispatch then
     ok ← doDispatchSubtransactionInternalCmd DTX_PROTOCOL_COMMAND_SUBTRANSACTION_BEGIN_INTERNAL;
     if ok : bool then mret tt
     else elog ERROR "Could not BeginInternalSubTransaction dispatch failed"
   else mret tt);;
  parallel ← IsInParallelMode;
  if parallel : bool then elog ERROR "cannot start subtransactions during a parallel operation"
  else
    b ← get_current blockState;
    match b with
    | TBLOCK_STARTED | TBLOCK_INPROGRESS | TBLOCK_IMPLICIT_INPROGRESS | TBLOCK_END | TBLOCK_PREPARE
    | TBLOCK_SUBINPROGRESS =>
        PushTransaction;;
        modify_current (set_name sp);;
        CommitTransactionCommand;;
        StartTransactionCommand
    | _ => unexpected_block FATAL "BeginInternalSubTransaction"
    end.

Definition ReleaseCurrentSubTransaction : X unit :=
  parallel ← IsInParallelMode;
  if parallel : bool then elog ERROR "cannot commit subtransactions during a parallel operation"
  else
    b ← get_current blockState;
    if negb (bool_decide (b = TBLOCK_SUBINPROGRESS))
    then unexpected_block ERROR "ReleaseCurrentSubTransaction"
    else
      (if is_dispatch then
         ok ← doDispatchSubtransactionInternalCmd DTX_PROTOCOL_COMMAND_SUBTRANSACTION_RELEASE_INTERNAL;
         if ok : bool then mret tt
         else elog ERROR "Could not ReleaseCurrentSubTransaction dispatch failed"
       else mret tt);;
      CommitSubTransaction.

Definition RollbackAndReleaseCurrentSubTransaction : X unit :=
  b ← get_current blockState;
  match b with
  | TBLOCK_SUBINPROGRESS | TBLOCK_SUBABORT =>
      xwhen (bool_decide (b = TBLOCK_SUBINPROGRESS)) AbortSubTransaction;;
      CleanupSubTransaction;;
      if is_dispatch then
        ok ← doDispatchSubtransactionInternalCmd DTX_PROTOCOL_COMMAND_SUBTRANSACTION_ROLLBACK_INTERNAL;
        if ok : bool then mret tt
        else elog ERROR "DTX RollbackAndReleaseCurrentSubTransaction dispatch failed"
      else mret tt
  | _ => unexpected_block FATAL "RollbackAndReleaseCurrentSubTransaction"
  end.

(** ** What the main loop asks *)

Definition IsTransactionBlock (x : xact_vars) : bool :=
  match blockState (CurrentTransactionState x) with
  | TBLOCK_DEFAULT | TBLOCK_STARTED => false
  | _ => true
  end.

Definition IsTransactionOrTransactionBlock (x : xact_vars) : bool :=
  negb (bool_decide (blockState (CurrentTransactionState x) = TBLOCK_DEFAULT)).

Definition IsAbortedTransactionBlockState (x : xact_vars) : bool :=
  match blockState (CurrentTransactionState x) with
  | TBLOCK_ABORT | TBLOCK_SUBABORT => true
  | _ => false
  end.

Definition TransactionBlockStatusCode (x : xact_vars) : ascii :=
  match blockState (CurrentTransactionState x) with
  | TBLOCK_DEFAULT | TBLOCK_STARTED => "I"
  | TBLOCK_BEGIN | TBLOCK_SUBBEGIN | TBLOCK_INPROGRESS | TBLOCK_IMPLICIT_INPROGRESS
  | TBLOCK_PARALLEL_INPROGRESS | TBLOCK_SUBINPROGRESS | TBLOCK_END | TBLOCK_SUBRELEASE
  | TBLOCK_SUBCOMMIT | TBLOCK_PREPARE => "T"
  | TBLOCK_ABORT | TBLOCK_SUBABORT | TBLOCK_ABORT_END | TBLOCK_SUBABORT_END | TBLOCK_ABORT_PENDING
  | TBLOCK_SUBABORT_PENDING | TBLOCK_SUBRESTART | TBLOCK_SUBABORT_RESTART => "E"
  end.
End xact.
