(* ===== verification/Session.v ===== *)
(** * A session

    What a backend does with a message of SQL statements: exec_simple_query and the
    error recovery of PostgresMain ([src/backend/tcop/postgres.c]), and the transaction
    statements of standard_ProcessUtility ([src/backend/tcop/utility.c]).  Parsing,
    planning and the execution of other statements are a computation that the statement
    carries. *)
From S2P Require Import Prelude CLib BitUtils Bitmapset Elog Dtm DtxInfo CdbTm TwoPhase Xact.

Section session.
Context {W : Type} `{XactEnv W} `{Backend}.
Notation X := (X (proc W)).

(** a TransactionStmt (BEGIN without options), or any other statement *)
Inductive statement :=
  | TRANS_STMT_BEGIN
  | TRANS_STMT_COMMIT (chain : bool)
  | TRANS_STMT_PREPARE (gid : string)
  | TRANS_STMT_COMMIT_PREPARED (gid : string)
  | TRANS_STMT_ROLLBACK_PREPARED (gid : string)
  | TRANS_STMT_ROLLBACK (chain : bool)
  | TRANS_STMT_SAVEPOINT (savepoint_name : string)
  | TRANS_STMT_RELEASE (savepoint_name : string)
  | TRANS_STMT_ROLLBACK_TO (savepoint_name : string)
  | OtherStmt (body : X unit).

Definition IsTransactionStmt (st : statement) : bool :=
  match st with OtherStmt _ => false | _ => true end.

Definition IsTransactionExitStmt (st : statement) : bool :=
  match st with
  | TRANS_STMT_COMMIT _ | TRANS_STMT_PREPARE _ | TRANS_STMT_ROLLBACK _ | TRANS_STMT_ROLLBACK_TO _ => true
  | _ => false
  end.

(** RequireTransactionBlock and PreventInTransactionBlock of xact.c, at the top level *)
Definition RequireTransactionBlock (stmtType : string) : X unit :=
  blk ← get_xa IsTransactionBlock;
  level ← get_current nestingLevel;
  if blk || (2 <=? level) then mret tt
  else elog ERROR (stmtType +:+ " can only be used in transaction blocks").

Definition PreventInTransactionBlock (stmtType : string) : X unit :=
  blk ← get_xa IsTransactionBlock;
  level ← get_current nestingLevel;
  if blk : bool then elog ERROR (stmtType +:+ " cannot run inside a transaction block")
  else if 2 <=? level then elog ERROR (stmtType +:+ " cannot run inside a subtransaction")
  else mret tt.

(** the TransactionStmt case of standard_ProcessUtility *)
Definition run_statement (st : statement) : X unit :=
  match st with
  | TRANS_STMT_BEGIN => BeginTransactionBlock;; sendDtxExplicitBegin
  | TRANS_STMT_COMMIT chain => EndTransactionBlock chain;; mret tt
  | TRANS_STMT_PREPARE gid =>
      if is_dispatch then elog ERROR "PREPARE TRANSACTION is not yet supported in Greengage Database"
      else PrepareTransactionBlock gid;; mret tt
  | TRANS_STMT_COMMIT_PREPARED gid =>
      if is_dispatch then elog ERROR "COMMIT PREPARED is not yet supported in Greengage Database"
      else PreventInTransactionBlock "COMMIT PREPARED";; FinishPreparedTransaction gid true true;; mret tt
  | TRANS_STMT_ROLLBACK_PREPARED gid =>
      if is_dispatch then elog ERROR "ROLLBACK PREPARED is not yet supported in Greengage Database"
      else PreventInTransactionBlock "ROLLBACK PREPARED";; FinishPreparedTransaction gid false true;; mret tt
  | TRANS_STMT_ROLLBACK chain => UserAbortTransactionBlock chain
  | TRANS_STMT_SAVEPOINT sp =>
      RequireTransactionBlock "SAVEPOINT";;
      sendDtxExplicitBegin;;
      DefineDispatchSavepoint sp
  | TRANS_STMT_RELEASE sp => RequireTransactionBlock "RELEASE SAVEPOINT";; ReleaseSavepoint sp
  | TRANS_STMT_ROLLBACK_TO sp => RequireTransactionBlock "ROLLBACK TO SAVEPOINT";; RollbackToSavepoint sp
  | OtherStmt body => body
  end.

(** the loop of exec_simple_query; [started] is xact_started *)
Fixpoint exec_statements (use_implicit_block started : bool) (l : list statement) : X bool :=
  match l with
  | [] => mret started
  | st :: rest =>
      aborted ← get_xa IsAbortedTransactionBlockState;
      if aborted && negb (IsTransactionExitStmt st)
      then elog ERROR "current transaction is aborted, commands ignored until end of transaction block"
      else
        xwhen (negb started) StartTransactionCommand;;
        xwhen use_implicit_block BeginImplicitTransactionBlock;;
        call_hook CheckInterrupts;;
        run_statement st;;
        started' ← (if bool_decide (rest = []) then
                      xwhen use_implicit_block EndImplicitTransactionBlock;;
                      CommitTransactionCommand;; mret false
                    else if IsTransactionStmt st then CommitTransactionCommand;; mret false
                    else CommandCounterIncrement;; mret true);
        exec_statements use_implicit_block started' rest
  end.

Definition exec_simple_query (l : list statement) : X unit :=
  StartTransactionCommand;;
  started ← exec_statements (1 <? Z.of_nat (length l)) true l;
  xwhen started CommitTransactionCommand.

(** The error recovery of PostgresMain stays active while it runs: an error in it starts
    it again, as long as the stack of errors has room *)
Fixpoint recover_from_error (depth : nat) : X unit :=
  match depth with
  | O => elog PANIC "ERRORDATA_STACK_SIZE exceeded"
  | S depth' => pg_try AbortCurrentTransaction (λ _, recover_from_error depth')
  end.

Definition ERRORDATA_STACK_SIZE : nat := 10.

(** one round of the main loop *)
Definition simple_query_message (l : list statement) : X unit :=
  pg_try (exec_simple_query l) (λ _, recover_from_error ERRORDATA_STACK_SIZE).

(** the main loop, for the messages that arrive *)
Fixpoint serve_messages (msgs : list (list statement)) : X unit :=
  match msgs with
  | [] => mret tt
  | l :: msgs' => simple_query_message l;; serve_messages msgs'
  end.
End session.
