(* ===== verification/CdbTmQE.v ===== *)
(** * The transaction manager on a segment

    [src/backend/cdb/cdbtm.c], the part that runs in a process of a segment (a QE): the
    context that comes with a statement of the coordinator, and the commands of the
    two-phase protocol; and the messages 'M' and 'T' of the main loop ([postgres.c]). *)
From S2P Require Import Prelude CLib BitUtils Bitmapset Elog Dtm DtxInfo CdbTm TwoPhase Xact Session.

(** the kind of process: singleton of the entry db, reader, writer *)
Inductive QEKind := EntryDbSingleton | ReaderQE | WriterQE | NoSlotQE.

#[export] Instance QEKind_eq_dec : EqDecision QEKind.
Proof. solve_decision. Defined.

Section cdbtm_qe.
Context {W : Type} `{XactEnv W} `{Backend}.
Notation X := (X (proc W)).

Definition doQEDistributedExplicitBegin : X unit :=
  StartTransactionCommand;;
  BeginTransactionBlock;;
  CommitTransactionCommand.

Definition qe_kind (explicitBegin haveDistributedSnapshot : bool) : X QEKind :=
  if IS_QUERY_DISPATCHER && negb Gp_is_writer then mret EntryDbSingleton
  else if negb SharedLocalSnapshotSlot_present then
    if explicitBegin || haveDistributedSnapshot
    then elog ERROR "setupQEDtxContext not expecting distributed begin or snapshot when no Snapshot slot exists"
    else mret NoSlotQE
  else mret (if Gp_is_writer then WriterQE else ReaderQE).

(** from a process that is not part of a distributed transaction *)
Definition enter_dtx_context (kind : QEKind) (needDtx explicitBegin haveDistributedSnapshot : bool) : X unit :=
  inXact ← get_xa IsTransactionOrTransactionBlock;
  if bool_decide (kind = EntryDbSingleton) && haveDistributedSnapshot
  then setDistributedTransactionContext DTX_CONTEXT_QE_ENTRY_DB_SINGLETON
  else if bool_decide (kind = ReaderQE) && haveDistributedSnapshot
  then setDistributedTransactionContext DTX_CONTEXT_QE_READER
  else if bool_decide (kind = WriterQE) && (explicitBegin || needDtx) then
    if inXact : bool
    then elog ERROR "Starting an explicit distributed transaction in segment -- cannot already be in a transaction"
    else if explicitBegin then
      setDistributedTransactionContext DTX_CONTEXT_QE_TWO_PHASE_EXPLICIT_WRITER;;
      doQEDistributedExplicitBegin
    else setDistributedTransactionContext DTX_CONTEXT_QE_TWO_PHASE_IMPLICIT_WRITER
  else if haveDistributedSnapshot then
    if inXact : bool
    then elog ERROR "Going to start a local implicit transaction in segment using a distribute snapshot -- cannot already be in a transaction"
    else setDistributedTransactionContext DTX_CONTEXT_QE_AUTO_COMMIT_IMPLICIT
  else mret tt.

Definition setupQEDtxContext (info : DtxContextInfo) : X unit :=
  let needDtx := isMppTxOptions_NeedDtx (distributedTxnOptions info) in
  let explicitBegin := isMppTxOptions_ExplicitBegin (distributedTxnOptions info) in
  let haveDistributedSnapshot := haveDistributedSnapshot info in
  if negb is_execute then mret tt
  else
    kind ← qe_kind explicitBegin haveDistributedSnapshot;
    modify_dx (λ d, set_QEDtxContextInfo (DtxContextInfo_Copy (QEDtxContextInfo d) info) d);;
    ctx ← get_dx DistributedTransactionContext;
    match ctx with
    | DTX_CONTEXT_LOCAL_ONLY => enter_dtx_context kind needDtx explicitBegin haveDistributedSnapshot
    | DTX_CONTEXT_QE_TWO_PHASE_IMPLICIT_WRITER =>
        if explicitBegin then elog ERROR "Cannot have an explicit BEGIN statement..." else mret tt
    | DTX_CONTEXT_QE_AUTO_COMMIT_IMPLICIT =>
        elog ERROR ("We should have left this transition state '" +:+ DtxContextToString ctx +:+
                    "' at the end of the previous command")
    | DTX_CONTEXT_QE_TWO_PHASE_EXPLICIT_WRITER
    | DTX_CONTEXT_QE_ENTRY_DB_SINGLETON | DTX_CONTEXT_QE_READER => mret tt
    | DTX_CONTEXT_QE_PREPARED | DTX_CONTEXT_QE_FINISH_PREPARED =>
        elog ERROR ("We should not be trying to execute a query in state '" +:+
                    DtxContextToString ctx +:+ "'")
    | DTX_CONTEXT_QD_DISTRIBUTED_CAPABLE | DTX_CONTEXT_QD_RETRY_PHASE_2 =>
        elog PANIC "Unexpected segment distribute transaction context value"
    end.

(** ** The commands *)

Definition performDtxProtocolPrepare (gid : string) : X unit :=
  StartTransactionCommand;;
  ok ← PrepareTransactionBlock gid;
  if negb ok then elog ERROR ("Prepare of distributed transaction " +:+ gid +:+ " failed")
  else
    CommitTransactionCommand;;
    setDistributedTransactionContext DTX_CONTEXT_QE_PREPARED.

(** the commands return the transactions whose end the coordinator has to wait for
    (sendWaitGxidsToQD) *)
Definition performDtxProtocolCommitOnePhase (gid : string) : X (list Z) :=
  waits ← get_tml waitGxids;
  dtxDeformGid gid;;
  modify_tml (set_isOnePhaseCommit true);;
  StartTransactionCommand;;
  ok ← EndTransactionBlock false;
  if negb ok then elog ERROR ("One-phase Commit of distributed transaction " +:+ gid +:+ " failed")
  else
    CommitTransactionCommand;;
    finishDistributedTransactionContext;;
    modify_dx (set_localDistribXact_state LOCALDISTRIBXACT_STATE_NONE);;
    mret waits.

(** PG_TRY .. PG_CATCH around FinishPreparedTransaction *)
Definition finish_prepared (gid : string) (isCommit raiseErrorIfNotFound : bool) : X unit :=
  pg_try (FinishPreparedTransaction gid isCommit raiseErrorIfNotFound;; mret tt)
    (λ msg, finishDistributedTransactionContext;; elog ERROR msg).

Definition performDtxProtocolCommitPrepared (gid : string) (raiseErrorIfNotFound : bool) : X (list Z) :=
  waits ← get_tml waitGxids;
  StartTransactionCommand;;
  finish_prepared gid true raiseErrorIfNotFound;;
  CommitTransactionCommand;;
  finishDistributedTransactionContext;;
  mret waits.

Definition performDtxProtocolAbortPrepared (gid : string) (raiseErrorIfNotFound : bool) : X (list Z) :=
  StartTransactionCommand;;
  finish_prepared gid false raiseErrorIfNotFound;;
  CommitTransactionCommand;;
  finishDistributedTransactionContext;;
  mret [].

Definition GetCurrentTransactionNestLevel : X Z :=
  get_xa (λ x, nestingLevel (CurrentTransactionState x)).

Fixpoint rollback_levels (i : nat) : X unit :=
  match i with
  | O => mret tt
  | S i' => RollbackAndReleaseCurrentSubTransaction;; rollback_levels i'
  end.

Definition unexpected_context {A} (l : elevel) (ctx : DtxContext) : X A :=
  elog l ("Unexpected segment distribute transaction context: '" +:+ DtxContextToString ctx +:+ "'").

Definition performDtxProtocolCommand (c : DtxProtocolCommand) (gid : string) (contextInfo : DtxContextInfo)
    : X (list Z) :=
  ctx ← get_dx DistributedTransactionContext;
  match c with
  | DTX_PROTOCOL_COMMAND_ABORT_NO_PREPARED => AbortOutOfAnyTransaction;; mret []
  | DTX_PROTOCOL_COMMAND_PREPARE | DTX_PROTOCOL_COMMAND_COMMIT_ONEPHASE =>
      match ctx with
      | DTX_CONTEXT_LOCAL_ONLY => elog ERROR ("Distributed transaction " +:+ gid +:+ " not found")
      | DTX_CONTEXT_QE_TWO_PHASE_EXPLICIT_WRITER | DTX_CONTEXT_QE_TWO_PHASE_IMPLICIT_WRITER =>
          if bool_decide (c = DTX_PROTOCOL_COMMAND_COMMIT_ONEPHASE)
          then performDtxProtocolCommitOnePhase gid
          else performDtxProtocolPrepare gid;; mret []
      | DTX_CONTEXT_QE_AUTO_COMMIT_IMPLICIT => unexpected_context PANIC ctx
      | _ => unexpected_context FATAL ctx
      end
  | DTX_PROTOCOL_COMMAND_ABORT_SOME_PREPARED =>
      match ctx with
      | DTX_CONTEXT_LOCAL_ONLY | DTX_CONTEXT_QE_TWO_PHASE_EXPLICIT_WRITER
      | DTX_CONTEXT_QE_TWO_PHASE_IMPLICIT_WRITER => AbortOutOfAnyTransaction;; mret []
      | DTX_CONTEXT_QE_PREPARED =>
          setDistributedTransactionContext DTX_CONTEXT_QE_FINISH_PREPARED;;
          performDtxProtocolAbortPrepared gid true
      | _ => unexpected_context PANIC ctx
      end
  | DTX_PROTOCOL_COMMAND_COMMIT_PREPARED =>
      requireDistributedTransactionContext DTX_CONTEXT_QE_PREPARED;;
      setDistributedTransactionContext DTX_CONTEXT_QE_FINISH_PREPARED;;
      performDtxProtocolCommitPrepared gid true
  | DTX_PROTOCOL_COMMAND_ABORT_PREPARED =>
      requireDistributedTransactionContext DTX_CONTEXT_QE_PREPARED;;
      setDistributedTransactionContext DTX_CONTEXT_QE_FINISH_PREPARED;;
      performDtxProtocolAbortPrepared gid true
  | DTX_PROTOCOL_COMMAND_RETRY_COMMIT_PREPARED | DTX_PROTOCOL_COMMAND_RECOVERY_COMMIT_PREPARED =>
      requireDistributedTransactionContext DTX_CONTEXT_LOCAL_ONLY;;
      performDtxProtocolCommitPrepared gid false
  | DTX_PROTOCOL_COMMAND_RETRY_ABORT_PREPARED | DTX_PROTOCOL_COMMAND_RECOVERY_ABORT_PREPARED =>
      requireDistributedTransactionContext DTX_CONTEXT_LOCAL_ONLY;;
      performDtxProtocolAbortPrepared gid false
  | DTX_PROTOCOL_COMMAND_SUBTRANSACTION_BEGIN_INTERNAL =>
      xwhen (bool_decide (ctx = DTX_CONTEXT_LOCAL_ONLY))
        (setupQEDtxContext contextInfo;; StartTransactionCommand);;
      BeginInternalSubTransaction None;;
      mret []
  | DTX_PROTOCOL_COMMAND_SUBTRANSACTION_RELEASE_INTERNAL => ReleaseCurrentSubTransaction;; mret []
  | DTX_PROTOCOL_COMMAND_SUBTRANSACTION_ROLLBACK_INTERNAL =>
      level ← GetCurrentTransactionNestLevel;
      if level <? info_nestingLevel contextInfo + 1
      then elog ERROR ("transaction " +:+ gid +:+ " already processed")
      else rollback_levels (Z.to_nat (level - info_nestingLevel contextInfo));; mret []
  | DTX_PROTOCOL_COMMAND_NONE => elog ERROR "Unrecognized dtx protocol command"
  end.

(** ** Messages of the coordinator *)

(** a command of the protocol ('T'): the tag of the answer is the name of the command *)
Definition exec_mpp_dtx_protocol_command (c : DtxProtocolCommand) (gid : string) (info : DtxContextInfo)
    : X pg_result :=
  waits ← performDtxProtocolCommand c gid info;
  mret (mkPgResult true (DtxProtocolCommandToString c) waits []).

(** a statement ('M') *)
Definition exec_mpp_message (info : DtxContextInfo) (l : list (statement (W := W))) : X unit :=
  xwhen (negb (distributedXid info =? InvalidDistributedTransactionId) && negb IS_QUERY_DISPATCHER)
    (modify_sv (λ s, if nextGxid s <? distributedXid info then set_nextGxid (distributedXid info) s else s));;
  setupQEDtxContext info;;
  exec_simple_query l.

(** a round of the main loop: after an error the client gets no result *)
Definition qe_round {A} (m : X A) : X (option A) :=
  pg_try (a ← m; mret (Some a)) (λ _, recover_from_error ERRORDATA_STACK_SIZE;; mret None).
End cdbtm_qe.
