(* ===== verification/DtxRecovery.v ===== *)
(** * Recovery after a crash of the coordinator

    Redo of the transaction records of the log ([xact_redo] of
    [src/backend/access/transam/xact.c], [xlog_redo] of [xlog.c], the entries of prepared
    transactions of [twophase.c]) as StartupXLOG does it, and the process that finishes
    distributed transactions afterwards ([src/backend/cdb/cdbdtxrecovery.c]): it tells the
    segments to commit what the log says is committed and to abort what else they have
    prepared.  Files of prepared transactions (written by checkpoints) are not modelled, so
    redo finds none. *)
From S2P Require Import Prelude CLib BitUtils Bitmapset Elog Dtm DtxInfo CdbTm TwoPhase Xact.

Section redo.
Context {W : Type} `{XactEnv W} `{Backend}.
Notation X := (X (proc W)).

(** ** Distributed transactions that are committed (cdbdtxrecovery.c) *)

Definition redoDistributedCommitRecord (g : Z) : X unit :=
  l ← get_sv CommittedGxidArray;
  if existsb (Z.eqb g) l then mret tt
  else if max_tm_gxacts <=? Z.of_nat (length l)
  then elog FATAL "the limit of distributed transactions has been reached"
  else modify_sv (λ s, set_CommittedGxidArray (CommittedGxidArray s ++ [g]) s).

(** the last entry takes the place of the one removed *)
Definition redoDistributedForgetCommitRecord (g : Z) : X unit :=
  l ← get_sv CommittedGxidArray;
  match list_find (g =.) l with
  | Some (i, _) => modify_sv (λ s, set_CommittedGxidArray (remove_swap i (CommittedGxidArray s)) s)
  | None => mret tt
  end.

Fixpoint redoDtxCheckPoint (committed : list Z) : X unit :=
  match committed with
  | [] => mret tt
  | g :: rest => redoDistributedCommitRecord g;; redoDtxCheckPoint rest
  end.

(** ** Redo of transactions (xact.c) *)

Definition AdvanceNextFullTransactionIdPastXid (xid : Z) : X unit :=
  modify_sv (λ s, if nextXid s <=? xid then set_nextXid (xid + 1) s else s).

Definition xact_redo_commit (xid : Z) (subxacts : list Z) (distribXid : Z) : X unit :=
  AdvanceNextFullTransactionIdPastXid (TransactionIdLatest xid subxacts);;
  xwhen (negb (distribXid =? 0)) (DistributedLog_SetCommittedTree xid subxacts distribXid);;
  TransactionIdCommitTree xid subxacts.

Definition xact_redo_distributed_commit (xid : Z) (subxacts : list Z) (distribXid : Z) : X unit :=
  xwhen (TransactionIdIsValid xid) (xact_redo_commit xid subxacts distribXid);;
  redoDistributedCommitRecord distribXid.

Definition xact_redo_abort (xid : Z) (subxacts : list Z) : X unit :=
  AdvanceNextFullTransactionIdPastXid (TransactionIdLatest xid subxacts);;
  TransactionIdAbortTree xid subxacts.

(** ** Redo of prepared transactions (twophase.c) *)

Definition PrepareRedoAdd (xid : Z) (children : list Z) (gid : string) (owner databaseid : Z) : X unit :=
  l ← get_sv prepXacts;
  if max_prepared_xacts <=? Z.of_nat (length l)
  then elog ERROR "maximum number of prepared transactions reached"
  else modify_sv (λ s, set_prepXacts
         (prepXacts s ++ [mkGlobalTransaction xid gid children owner databaseid None false
                            LOCALDISTRIBXACT_STATE_NONE]) s).

Definition PrepareRedoRemove (xid : Z) : X unit :=
  l ← get_sv prepXacts;
  match list_find (λ g, gxact_xid g = xid) l with
  | Some (i, _) => modify_sv (λ s, set_prepXacts (remove_swap i (prepXacts s)) s)
  | None => mret tt
  end.

Definition xact_redo (r : XLogRecord) : X unit :=
  match r with
  | XLOG_XACT_COMMIT xid subxacts distribXid => xact_redo_commit xid subxacts distribXid
  | XLOG_XACT_COMMIT_PREPARED xid subxacts distribXid =>
      xact_redo_commit xid subxacts distribXid;; PrepareRedoRemove xid
  | XLOG_XACT_ABORT xid subxacts => xact_redo_abort xid subxacts
  | XLOG_XACT_ABORT_PREPARED xid subxacts => xact_redo_abort xid subxacts;; PrepareRedoRemove xid
  | XLOG_XACT_PREPARE xid subxacts gid owner databaseid => PrepareRedoAdd xid subxacts gid owner databaseid
  | XLOG_XACT_DISTRIBUTED_COMMIT xid subxacts distribXid =>
      xact_redo_distributed_commit xid subxacts distribXid
  | XLOG_XACT_DISTRIBUTED_FORGET g => redoDistributedForgetCommitRecord g
  | _ => mret tt
  end.

(** the counters in the records of xlog.c *)
Definition xlog_redo (r : XLogRecord) : X unit :=
  match r with
  | XLOG_NEXTGXID g => modify_sv (λ s, set_GxidCount 0 (set_nextGxid g s))
  | XLOG_CHECKPOINT c =>
      if ckpt_shutdown c then
        modify_sv (λ s, set_nextGxid (ckpt_nextGxid c) (set_nextXid (ckpt_nextXid c) s))
      else
        modify_sv (λ s, if nextXid s <? ckpt_nextXid c then set_nextXid (ckpt_nextXid c) s else s)
  | _ => mret tt
  end.

(** the transaction that wrote a record *)
Definition xl_xid (r : XLogRecord) : Z :=
  match r with
  | XLOG_XACT_COMMIT xid _ _ | XLOG_XACT_DISTRIBUTED_COMMIT xid _ _ | XLOG_XACT_ABORT xid _
  | XLOG_XACT_PREPARE xid _ _ _ _ | XLOG_OTHER xid => xid
  | _ => InvalidTransactionId
  end.

(** the main loop of redo *)
Fixpoint redo_records (l : list XLogRecord) : X unit :=
  match l with
  | [] => mret tt
  | r :: rest =>
      AdvanceNextFullTransactionIdPastXid (xl_xid r);;
      xact_redo r;;
      xlog_redo r;;
      redo_records rest
  end.

(** ** The end of redo *)

(** MarkAsPreparingGuts and MarkAsPrepared for an entry that redo has left, then
    PostPrepare_Twophase *)
Definition recover_gxact (g : GlobalTransactionData) : X unit :=
  dtxDeformGid (gxact_gid g);;
  modify_gxact (gxact_gid g)
    (λ e, set_locking_backend (Some MyBackendId) (set_gxact_distrib LOCALDISTRIBXACT_STATE_ACTIVE e));;
  modify_xa (set_MyLockedGxact (Some (gxact_gid g)));;
  MarkAsPrepared (gxact_gid g);;
  PostPrepare_Twophase (gxact_gid g).

(** ProcessTwoPhaseBuffer drops an entry of a transaction that has ended or cannot have
    started; the entry that takes its place is then passed over *)
Fixpoint recover_prepared (fuel : nat) (i : nat) : X unit :=
  match fuel with
  | O => mret tt
  | S fuel' =>
      e ← get_sv (λ s, prepXacts s !! i);
      match e with
      | None => mret tt
      | Some g =>
          ended ← get_sv (λ s, TransactionIdDidCommit s (gxact_xid g) || TransactionIdDidAbort s (gxact_xid g) ||
                               (nextXid s <=? gxact_xid g));
          (if ended : bool then PrepareRedoRemove (gxact_xid g) else recover_gxact g);;
          recover_prepared fuel' (S i)
      end
  end.

Definition RecoverPreparedTransactions : X unit :=
  n ← get_sv (λ s, length (prepXacts s));
  recover_prepared n 0.

(** the part of StartupXLOG about transactions: from the checkpoint to the end of the log *)
Definition StartupXLOG (c : CheckPoint) : X unit :=
  redoDtxCheckPoint (ckpt_committed c);;
  modify_sv (λ s, set_GxidCount 0 (set_nextGxid (ckpt_nextGxid c) (set_nextXid (ckpt_nextXid c) s)));;
  log ← get_sv xlog;
  redo_records (drop (Z.to_nat (ckpt_redo c)) log);;
  modify_sv (λ s, set_latestCompletedGxid (nextGxid s) s);;
  RecoverPreparedTransactions.
End redo.

(** ** The recovery process (cdbdtxrecovery.c) *)

(** what the hash table of in-doubt transactions compares: a string of TMGIDSIZE bytes *)
Definition in_doubt_key (gid : string) : string := String.substring 0 20 gid.

(** An entry is added with the identifier copied by strncpy: of one that is too long,
    TMGIDSIZE characters without an end are left. *)
Definition add_in_doubt (htab : list string) (gid : string) : list string :=
  if existsb (λ k, bool_decide (in_doubt_key k = in_doubt_key gid)) htab then htab
  else htab ++ [String.substring 0 21 gid].

Section recovery.
Context {W : Type} `{XactEnv W} `{Backend}.
Notation X := (X (proc W)).

(** the order in which hash_seq_search returns the entries of a table; the identifiers of
    the processes of the coordinator; gp_dtx_recovery_prepared_period *)
Context (hash_seq : list string → list string) (allTmGxact : W → list Z).
Context (gp_dtx_recovery_prepared_period : Z).

Definition doNotifyCommittedInDoubt (gid : string) : X bool :=
  segs ← xread (λ p, cdbcomponent_getCdbComponentsList (env p));
  succeeded ← doDispatchDtxProtocolCommand DTX_PROTOCOL_COMMAND_RECOVERY_COMMIT_PREPARED gid false segs None;
  if negb succeeded
  then elog FATAL "Crash recovery broadcast of the distributed transaction 'Commit Prepared' failed"
  else mret succeeded.

Definition doAbortInDoubt (gid : string) : X unit :=
  segs ← xread (λ p, cdbcomponent_getCdbComponentsList (env p));
  succeeded ← doDispatchDtxProtocolCommand DTX_PROTOCOL_COMMAND_RECOVERY_ABORT_PREPARED gid false segs None;
  xwhen (negb succeeded) reset_gangs.

Definition TerminateMppBackends : X unit :=
  pg_try (CdbDispatchCommand "select * from gp_terminate_mpp_backends()" false;; mret tt)
    (λ _, destroy_gangs true).

Definition in_doubt_query (prepared_seconds : Z) : string :=
  "select gid from pg_prepared_xacts where prepared < now() - interval'" +:+ fmt_d prepared_seconds +:+
  " seconds'".

(** The table, [None] when no in-doubt transaction was found.  With [raiseError] false, an
    error of the dispatch is reported and counts as no results. *)
Definition gatherRMInDoubtTransactions (prepared_seconds : Z) (raiseError : bool) : X (option (list string)) :=
  rs ← pg_try (CdbDispatchCommand (in_doubt_query prepared_seconds) false)
         (λ msg, if raiseError then elog ERROR msg else destroy_gangs true;; mret []);
  mret (match foldl add_in_doubt [] (concat (map res_rows rs)) with
        | [] => None
        | htab => Some htab
        end).

Fixpoint abort_entries (l : list string) : X unit :=
  match l with
  | [] => mret tt
  | gid :: rest => doAbortInDoubt gid;; abort_entries rest
  end.

Definition abortRMInDoubtTransactions (htab : option (list string)) : X unit :=
  match htab with
  | None => mret tt
  | Some l => abort_entries (hash_seq l)
  end.

(** the loop over shmCommittedGxidArray *)
Fixpoint recover_committed (l : list Z) : X unit :=
  match l with
  | [] => mret tt
  | g :: rest =>
      doNotifyCommittedInDoubt (dtxFormGid g);;
      RecordDistributedForgetCommitted g;;
      recover_committed rest
  end.

Definition recoverInDoubtTransactions : X unit :=
  committed ← get_sv CommittedGxidArray;
  recover_committed committed;;
  modify_sv (set_CommittedGxidArray []);;
  htab ← gatherRMInDoubtTransactions 0 true;
  abortRMInDoubtTransactions htab.

Definition recoverTM (shmCleanupBackends : bool) : X unit :=
  xwhen shmCleanupBackends TerminateMppBackends;;
  recoverInDoubtTransactions;;
  modify_sv (set_DtmStarted true).

(** ** Orphaned prepared transactions *)

Definition IsDtxInProgress (g : Z) : X bool := xread (λ p, existsb (Z.eqb g) (allTmGxact (env p))).

Fixpoint abort_orphans (l : list string) : X unit :=
  match l with
  | [] => mret tt
  | gid :: rest =>
      g ← dtxDeformGid gid;
      running ← IsDtxInProgress g;
      xwhen (negb running) (doAbortInDoubt gid);;
      abort_orphans rest
  end.

Definition abortOrphanedTransactions (htab : option (list string)) : X unit :=
  match htab with
  | None => mret tt
  | Some l => abort_orphans (hash_seq l)
  end.

Definition AbortOrphanedPreparedTransactions : X unit :=
  StartTransactionCommand;;
  htab ← gatherRMInDoubtTransactions gp_dtx_recovery_prepared_period false;
  abortOrphanedTransactions htab;;
  CommitTransactionCommand;;
  destroy_gangs true.

(** ** The main function *)

Definition ResetDtxRecoveryEvent (event : Z) : X unit :=
  modify_sv (λ s, set_DtxRecoveryEvents (Z.land (DtxRecoveryEvents s) (Z.lnot event)) s).

(** DtxRecoveryMain up to its loop *)
Definition DtxRecovery_start (shmCleanupBackends : bool) : X unit :=
  started ← get_sv DtmStarted;
  xwhen (negb started)
    (StartTransactionCommand;;
     recoverTM shmCleanupBackends;;
     CommitTransactionCommand;;
     destroy_gangs true);;
  bumpGxid.

(** a round of the loop *)
Definition DtxRecovery_round : X unit :=
  call_hook CheckInterrupts;;
  event ← GetDtxRecoveryEvent;
  xwhen (negb (Z.land event DTX_RECOVERY_EVENT_BUMP_GXID =? 0))
    (bumpGxid;; ResetDtxRecoveryEvent DTX_RECOVERY_EVENT_BUMP_GXID);;
  xwhen (negb (Z.land event DTX_RECOVERY_EVENT_ABORT_PREPARED =? 0))
    AbortOrphanedPreparedTransactions.
End recovery.
