(* ===== verification/Protocol.v ===== *)
(** * Two-phase commit

    What the coordinator relies on when it commits a transaction on several segments, and
    the invariant that its protocol keeps.  [Segments] is the interface: which events can
    follow from the commands sent, and what the answers to them mean.  [proto] says for
    each state of the transaction manager what has been asked, done and logged for the
    current transaction; [durable] is the part of it that a crash leaves. *)
From stdpp Require Import pretty.
From S2P Require Import Prelude CLib BitUtils Bitmapset Elog Dtm DtxInfo CdbTm.

(** ** Segments *)

(** what can become of a distributed transaction on a segment *)
Inductive seg_event := DidPrepare | DidCommit | DidAbort.

(** what a segment may do on a command *)
Definition causes (c : DtxProtocolCommand) : list seg_event :=
  match c with
  | DTX_PROTOCOL_COMMAND_PREPARE => [DidPrepare]
  | DTX_PROTOCOL_COMMAND_COMMIT_PREPARED | DTX_PROTOCOL_COMMAND_RETRY_COMMIT_PREPARED
  | DTX_PROTOCOL_COMMAND_RECOVERY_COMMIT_PREPARED => [DidCommit]
  | DTX_PROTOCOL_COMMAND_ABORT_SOME_PREPARED | DTX_PROTOCOL_COMMAND_ABORT_PREPARED
  | DTX_PROTOCOL_COMMAND_RETRY_ABORT_PREPARED | DTX_PROTOCOL_COMMAND_RECOVERY_ABORT_PREPARED => [DidAbort]
  | _ => []
  end.

Definition msg_causes (m : dispatch_msg) (gid : string) : list seg_event :=
  match m with
  | DtxCommand c g _ => if bool_decide (g = gid) then causes c else []
  | QueryCommand _ _ => []
  end.

(** [may w s gid e]: a command that can make [e] happen was sent; [happened w s gid e]:
    the segment has done it, durably.  A segment may be slow, or gone, and act on a
    command long after the coordinator gave up on it. *)
Class Segments (W : Type) `{XactEnv W} := {
  may : W → Z → string → seg_event → Prop;
  happened : W → Z → string → seg_event → Prop;
  happened_may w s gid e : happened w s gid e → may w s gid e;
  seg_send m segs w s gid e :
    may (dispatch_send m segs w).2 s gid e ↔ may w s gid e ∨ (s ∈ segs ∧ e ∈ msg_causes m gid);
  seg_send_mono m segs w s gid e : happened w s gid e → happened (dispatch_send m segs w).2 s gid e;
  (** the other calls send none of these commands *)
  seg_hook h w : ∀ s gid e, may (run_hook h w).2 s gid e ↔ may w s gid e;
  seg_wait w : ∀ s gid e, may (dispatch_wait w).2 s gid e ↔ may w s gid e;
  seg_cleanup w : ∀ s gid e, may (cleanup_dispatcher w).2 s gid e ↔ may w s gid e;
  seg_reset w : ∀ s gid e, may (ResetAllGangs w) s gid e ↔ may w s gid e;
  seg_destroy b w : ∀ s gid e, may (DisconnectAndDestroyAllGangs b w) s gid e ↔ may w s gid e;
  seg_lock g w : ∀ s gid e, may (GxactLockTableWait g w) s gid e ↔ may w s gid e;
  seg_sleep n w : ∀ s gid e, may (pg_usleep n w) s gid e ↔ may w s gid e;
  (** what has happened stays *)
  seg_hook_mono h w s gid e : happened w s gid e → happened (run_hook h w).2 s gid e;
  seg_wait_mono w s gid e : happened w s gid e → happened (dispatch_wait w).2 s gid e;
  seg_cleanup_mono w s gid e : happened w s gid e → happened (cleanup_dispatcher w).2 s gid e;
  seg_reset_mono w s gid e : happened w s gid e → happened (ResetAllGangs w) s gid e;
  seg_destroy_mono b w s gid e : happened w s gid e → happened (DisconnectAndDestroyAllGangs b w) s gid e;
  seg_lock_mono g w s gid e : happened w s gid e → happened (GxactLockTableWait g w) s gid e;
  seg_sleep_mono n w s gid e : happened w s gid e → happened (pg_usleep n w) s gid e;
  (** an answer without a failure: every segment has prepared, or committed.  A segment
      answers a retry of the second phase also when it does not find the transaction. *)
  seg_answer c gid info segs w lost w1 lost' rs w2 s :
    dispatch_send (DtxCommand c gid info) segs w = ((None, lost), w1) →
    dispatch_wait w1 = ((DispatchResults (Some rs), lost'), w2) →
    existsb (result_failed (DtxProtocolCommandToString c)) rs = false → s ∈ segs →
    match c with
    | DTX_PROTOCOL_COMMAND_PREPARE => happened w2 s gid DidPrepare
    | DTX_PROTOCOL_COMMAND_COMMIT_PREPARED => happened w2 s gid DidCommit
    | DTX_PROTOCOL_COMMAND_RETRY_COMMIT_PREPARED | DTX_PROTOCOL_COMMAND_RECOVERY_COMMIT_PREPARED =>
        happened w s gid DidPrepare → ¬ may w s gid DidAbort → happened w2 s gid DidCommit
    | _ => True
    end }.

(** ** The log of the coordinator *)

Definition decided (l : list XLogRecord) (g : Z) : Prop :=
  ∃ xid subxacts, XLOG_XACT_DISTRIBUTED_COMMIT xid subxacts g ∈ l.
Definition forgotten (l : list XLogRecord) (g : Z) : Prop := XLOG_XACT_DISTRIBUTED_FORGET g ∈ l.
Definition on_disk (s : server) : list XLogRecord := take (Z.to_nat (xlog_flushed s)) (xlog s).

(** the coordinator prepares nothing itself *)
Definition no_prepare (r : XLogRecord) : Prop :=
  match r with XLOG_XACT_PREPARE _ _ _ _ _ => False | _ => True end.
(** records that are not about the outcome of a distributed transaction, *)
Definition no_outcome (r : XLogRecord) : Prop :=
  match r with
  | XLOG_XACT_DISTRIBUTED_COMMIT _ _ _ | XLOG_XACT_DISTRIBUTED_FORGET _ => False
  | _ => no_prepare r
  end.
(** and not about identifiers either *)
Definition plain (r : XLogRecord) : Prop :=
  match r with
  | XLOG_NEXTGXID _ | XLOG_CHECKPOINT _ => False
  | _ => no_outcome r
  end.
Lemma plain_no_outcome r : plain r → no_outcome r.
Proof. by destruct r. Qed.

(** the next identifier after redo of the log *)
Definition redo_gxid (n : Z) (r : XLogRecord) : Z :=
  match r with
  | XLOG_NEXTGXID g => g
  | XLOG_CHECKPOINT c => if ckpt_shutdown c then ckpt_nextGxid c else n
  | _ => n
  end.
Definition gxid_after (l : list XLogRecord) : Z := foldl redo_gxid FirstDistributedTransactionId l.

Lemma gxid_after_plain l l' : Forall plain l' → gxid_after (l ++ l') = gxid_after l.
Proof.
  unfold gxid_after. rewrite foldl_app. generalize (foldl redo_gxid FirstDistributedTransactionId l).
  induction l' as [|r l' IH]; intros n Hp; [done|]. inversion Hp; subst. cbn. rewrite IH by done. by destruct r.
Qed.

Lemma decided_mono l l' g : l ⊆ l' → decided l g → decided l' g.
Proof. intros Hl (x & c & Hin). exists x, c. auto. Qed.
Lemma decided_plain l l' g : Forall no_outcome l' → decided (l ++ l') g → decided l g.
Proof.
  intros Hp (x & c & [?|Hin]%elem_of_app); [by exists x, c|]. rewrite Forall_forall in Hp. by apply Hp in Hin.
Qed.
Lemma forgotten_plain l l' g : Forall no_outcome l' → forgotten (l ++ l') g → forgotten l g.
Proof. intros Hp [?|Hin]%elem_of_app; [done|]. rewrite Forall_forall in Hp. by apply Hp in Hin. Qed.

Lemma on_disk_log s : on_disk s ⊆ xlog s.
Proof.
  intros r Hr. rewrite <- (take_drop (Z.to_nat (xlog_flushed s)) (xlog s)). apply elem_of_app. by left.
Qed.

#[export] Instance dtxFormGid_inj : Inj (=) (=) dtxFormGid.
Proof. intros g g' Hg. by apply (inj pretty). Qed.

(** ** The invariant *)

Section protocol.
Context {W : Type} `{!XactEnv W, !Segments W} `{Backend}.
Implicit Types (p : proc W) (w : W).

(** segments commit only what the coordinator has decided on disk; what is decided is not
    aborted, and prepared wherever that was asked for; what is forgotten is committed *)
Record durable p : Prop := {
  du_commit s gid :
    may (env p) s gid DidCommit → ∃ g, gid = dtxFormGid g ∧ decided (on_disk (sv p)) g;
  du_abort s g : decided (xlog (sv p)) g → ¬ may (env p) s (dtxFormGid g) DidAbort;
  du_prepare s g :
    decided (xlog (sv p)) g → may (env p) s (dtxFormGid g) DidPrepare →
    happened (env p) s (dtxFormGid g) DidPrepare;
  du_forget s g :
    forgotten (xlog (sv p)) g → may (env p) s (dtxFormGid g) DidPrepare →
    happened (env p) s (dtxFormGid g) DidCommit;
  du_forgotten g : forgotten (xlog (sv p)) g → decided (on_disk (sv p)) g;
  du_local : Forall no_prepare (xlog (sv p)) }.

(** the current transaction *)
Definition my_gxid p : Z := gxid (MyTmGxact (dx p)).
Definition my_gid p : string := dtxFormGid (my_gxid p).
Definition my_segs p : list Z := dtxSegments (MyTmGxactLocal (dx p)).
Definition my_state p : DtxState := dtxState (MyTmGxactLocal (dx p)).

Definition never p (e : seg_event) : Prop := ∀ s, ¬ may (env p) s (my_gid p) e.
Definition asked_mine p : Prop := ∀ s, may (env p) s (my_gid p) DidPrepare → s ∈ my_segs p.
Definition all_mine p (e : seg_event) : Prop := ∀ s, s ∈ my_segs p → happened (env p) s (my_gid p) e.
Definition undecided p : Prop := ¬ decided (xlog (sv p)) (my_gxid p).
Definition all_prepared p : Prop := never p DidAbort ∧ asked_mine p ∧ all_mine p DidPrepare.

Definition phase_at (st : DtxState) p : Prop :=
  match st with
  | DTX_STATE_NONE | DTX_STATE_NOTIFYING_ABORT_NO_PREPARED | DTX_STATE_INSERTED_FORGET_COMMITTED => True
  | DTX_STATE_ACTIVE_DISTRIBUTED | DTX_STATE_ONE_PHASE_COMMIT | DTX_STATE_NOTIFYING_ONE_PHASE_COMMIT =>
      undecided p ∧ never p DidPrepare ∧ never p DidAbort
  | DTX_STATE_PREPARING => undecided p ∧ never p DidAbort ∧ asked_mine p
  | DTX_STATE_PREPARED => undecided p ∧ all_prepared p
  | DTX_STATE_INSERTING_COMMITTED => all_prepared p
  | DTX_STATE_INSERTED_COMMITTED => all_prepared p ∧ decided (xlog (sv p)) (my_gxid p)
  | DTX_STATE_NOTIFYING_COMMIT_PREPARED | DTX_STATE_RETRY_COMMIT_PREPARED =>
      all_prepared p ∧ decided (on_disk (sv p)) (my_gxid p)
  | DTX_STATE_INSERTING_FORGET_COMMITTED =>
      asked_mine p ∧ all_mine p DidCommit ∧ decided (on_disk (sv p)) (my_gxid p)
  | DTX_STATE_NOTIFYING_ABORT_SOME_PREPARED | DTX_STATE_NOTIFYING_ABORT_PREPARED
  | DTX_STATE_RETRY_ABORT_PREPARED => undecided p
  end.
Definition phase p : Prop := phase_at (my_state p) p.

(** states in which the set of segments does not matter yet, or no longer *)
Definition segless (st : DtxState) : Prop :=
  match st with
  | DTX_STATE_PREPARING | DTX_STATE_PREPARED | DTX_STATE_INSERTING_COMMITTED
  | DTX_STATE_INSERTED_COMMITTED | DTX_STATE_NOTIFYING_COMMIT_PREPARED
  | DTX_STATE_RETRY_COMMIT_PREPARED | DTX_STATE_INSERTING_FORGET_COMMITTED => False
  | _ => True
  end.

(** states of a transaction that may be decided and is not forgotten *)
Definition unsettled (st : DtxState) : Prop :=
  match st with
  | DTX_STATE_INSERTING_COMMITTED | DTX_STATE_INSERTED_COMMITTED | DTX_STATE_NOTIFYING_COMMIT_PREPARED
  | DTX_STATE_RETRY_COMMIT_PREPARED | DTX_STATE_INSERTING_FORGET_COMMITTED => True
  | _ => False
  end.

(** a log that can be found after a crash: it ends somewhere after what was flushed *)
Definition survives (s : server) (l : list XLogRecord) : Prop :=
  on_disk s `prefix_of` l ∧ l `prefix_of` xlog s.

(** identifiers that were used are below the next one, and they do not run out; those that
    can be given out are below the limit that the log holds; what is decided is forgotten,
    to be recovered, or the current transaction *)
Record proto p : Prop := {
  pr_durable : durable p;
  pr_may s gid e : may (env p) s gid e → ∃ g, 0 ≤ g < nextGxid (sv p) ∧ gid = dtxFormGid g;
  pr_log g : decided (xlog (sv p)) g → 0 ≤ g < nextGxid (sv p);
  pr_logged l : survives (sv p) l →
    nextGxid (sv p) + GxidCount (sv p) ≤ gxid_after l ∧ gxid_after l + gp_gxid_prefetch_num < 2 ^ 64;
  pr_active : my_state p ≠ DTX_STATE_NONE → 0 ≤ my_gxid p < nextGxid (sv p);
  pr_phase : phase p;
  pr_settled g : decided (xlog (sv p)) g →
    forgotten (xlog (sv p)) g ∨ g ∈ CommittedGxidArray (sv p) ∨ (g = my_gxid p ∧ unsettled (my_state p)) }.

Lemma survives_whole s : survives s (xlog s).
Proof. split; [apply prefix_take|done]. Qed.

Lemma pr_limit p : proto p → nextGxid (sv p) + GxidCount (sv p) + gp_gxid_prefetch_num < 2 ^ 64.
Proof. intros Hp. destruct (pr_logged _ Hp _ (survives_whole _)). lia. Qed.

(** what of it concerns the server and the segments: processes can start in such a state,
    and recovery can, whatever part of the log is left *)
Record recoverable p : Prop := {
  rc_durable : durable p;
  rc_may s gid e : may (env p) s gid e → ∃ g, 0 ≤ g < nextGxid (sv p) ∧ gid = dtxFormGid g;
  rc_log g : decided (xlog (sv p)) g → 0 ≤ g < nextGxid (sv p);
  rc_logged l : survives (sv p) l →
    nextGxid (sv p) + GxidCount (sv p) ≤ gxid_after l ∧ gxid_after l + gp_gxid_prefetch_num < 2 ^ 64;
  rc_next : 0 ≤ nextGxid (sv p) < 2 ^ 64;
  rc_count : 0 ≤ GxidCount (sv p) < 2 ^ 32 }.

Lemma proto_recoverable p :
  proto p → 0 ≤ nextGxid (sv p) < 2 ^ 64 → 0 ≤ GxidCount (sv p) < 2 ^ 32 → recoverable p.
Proof. intros [] Hn Hc. by split. Qed.

(** nothing is left half committed *)
Definition settled (s : server) : Prop :=
  ∀ g, decided (xlog s) g → forgotten (xlog s) g ∨ g ∈ CommittedGxidArray s.

Lemma proto_settled p : proto p → ¬ unsettled (my_state p) → settled (sv p).
Proof. intros Hp Hst g Hd. destruct (pr_settled _ Hp g Hd) as [?|[?|[_ ?]]]; [by left|by right|done]. Qed.

Lemma recoverable_proto p : recoverable p → my_state p = DTX_STATE_NONE → settled (sv p) → proto p.
Proof.
  intros [] Hst Hs. split; [done..|unfold phase; by rewrite Hst|]. intros g [?|?]%Hs; auto.
Qed.

(** ** Steps that do not move the protocol *)

Record evolves w w' : Prop := {
  ev_may s gid e : may w' s gid e ↔ may w s gid e;
  ev_happened s gid e : happened w s gid e → happened w' s gid e }.

#[export] Instance evolves_preorder : PreOrder evolves.
Proof.
  split; [done|]. intros w1 w2 w3 [Hm Hh] [Hm' Hh']. split; [|auto]. intros. by rewrite Hm', Hm.
Qed.

Lemma prefix_of_subseteq {A} (l l' : list A) : l `prefix_of` l' → l ⊆ l'.
Proof. intros [k ->]. set_solver. Qed.

(** the log grows, without a word on outcomes *)
Record log_extends (s s' : server) : Prop := {
  le_xlog : ∃ l, xlog s' = xlog s ++ l ∧ Forall no_outcome l;
  le_disk : on_disk s `prefix_of` on_disk s' }.
Record log_grows (s s' : server) : Prop := {
  lg_xlog : ∃ l, xlog s' = xlog s ++ l ∧ Forall plain l;
  lg_disk : on_disk s `prefix_of` on_disk s' }.

Lemma log_grows_extends s s' : log_grows s s' → log_extends s s'.
Proof.
  intros [(l & Hl & Hp) Hd]. split; [|done]. exists l. split; [done|].
  eapply Forall_impl; [exact Hp|apply plain_no_outcome].
Qed.
Lemma log_extends_disk s s' : log_extends s s' → on_disk s ⊆ on_disk s'.
Proof. intros Hl. by apply prefix_of_subseteq, Hl. Qed.

Lemma log_extends_decided s s' g : log_extends s s' → decided (xlog s') g ↔ decided (xlog s) g.
Proof.
  intros [(l & -> & Hp) _]. split; [by apply decided_plain|]. apply decided_mono. set_solver.
Qed.
Lemma log_extends_forgotten s s' g : log_extends s s' → forgotten (xlog s') g ↔ forgotten (xlog s) g.
Proof.
  intros [(l & -> & Hp) _]. split; [by apply forgotten_plain|]. unfold forgotten. set_solver.
Qed.

Lemma survives_grows s s' l :
  log_grows s s' → survives s' l → ∃ l0, survives s l0 ∧ gxid_after l = gxid_after l0.
Proof.
  intros [(k & Hk & Hp) Hd] [Hl1 Hl2]. rewrite Hk in Hl2.
  assert (on_disk s `prefix_of` l) as Hds by (by etrans).
  destruct (prefix_weak_total (xlog s) l (xlog s ++ k)) as [[k1 ->]|Hin]; [by apply prefix_app_r|done| |by exists l].
  exists (xlog s). split.
  { split; [|done]. unfold on_disk. apply prefix_take. }
  apply prefix_app_inv in Hl2. destruct Hl2 as [k2 ->]. apply gxid_after_plain.
  by apply Forall_app in Hp as [? _].
Qed.

Lemma log_grows_refl s s' : xlog s' = xlog s → xlog_flushed s' = xlog_flushed s → log_grows s s'.
Proof.
  intros Hx Hf. split; [exists []; by rewrite app_nil_r|]. unfold on_disk. by rewrite Hx, Hf.
Qed.

Lemma durable_step p p' :
  evolves (env p) (env p') → log_extends (sv p) (sv p') → durable p → durable p'.
Proof.
  intros Hev Hlog [H1 H2 H3 H4 H5 H6]. split.
  - intros s gid Hm%(ev_may _ _ Hev). apply H1 in Hm as (g & -> & Hd). exists g. split; [done|].
    by eapply decided_mono; [apply log_extends_disk|].
  - intros s g Hd%(log_extends_decided _ _ _ Hlog) Hm%(ev_may _ _ Hev). by eapply H2.
  - intros s g Hd%(log_extends_decided _ _ _ Hlog) Hm%(ev_may _ _ Hev). by apply Hev, H3.
  - intros s g Hd%(log_extends_forgotten _ _ _ Hlog) Hm%(ev_may _ _ Hev). by apply Hev, H4.
  - intros g Hd%(log_extends_forgotten _ _ _ Hlog). eapply decided_mono; [by apply log_extends_disk|auto].
  - destruct (le_xlog _ _ Hlog) as (l & -> & Hl). apply Forall_app. split; [done|].
    eapply Forall_impl; [exact Hl|]. by intros [].
Qed.

(** the transaction is the same *)
Record dtx_same p p' : Prop := {
  sm_state : my_state p' = my_state p;
  sm_gxid : my_gxid p' = my_gxid p;
  sm_segs : segless (my_state p) ∨ ∀ s, s ∈ my_segs p' ↔ s ∈ my_segs p }.

#[export] Instance dtx_same_preorder : PreOrder dtx_same.
Proof.
  split; [split; auto|]. intros p1 p2 p3 [H1 H2 H3] [H1' H2' H3']. split; [congruence..|].
  destruct H3 as [?|H3]; [by left|]. rewrite H1 in H3'. destruct H3' as [?|H3']; [by left|].
  right. intros s. by rewrite H3', H3.
Qed.

Lemma dtx_same_gid p p' : dtx_same p p' → my_gid p' = my_gid p.
Proof. intros [_ Hg _]. unfold my_gid. by rewrite Hg. Qed.

Lemma never_step p p' e : dtx_same p p' → evolves (env p) (env p') → never p e → never p' e.
Proof.
  intros Hs Hev Hn s Hm. rewrite (dtx_same_gid _ _ Hs) in Hm. by apply (ev_may _ _ Hev), Hn in Hm.
Qed.
Lemma undecided_step p p' : dtx_same p p' → log_extends (sv p) (sv p') → undecided p → undecided p'.
Proof.
  intros Hs Hl Hu Hd. apply Hu. rewrite <- (log_extends_decided _ _ _ Hl). by rewrite <- (sm_gxid _ _ Hs).
Qed.
Lemma asked_step p p' :
  dtx_same p p' → evolves (env p) (env p') → ¬ segless (my_state p) → asked_mine p → asked_mine p'.
Proof.
  intros Hs Hev Hn Ha s Hm. rewrite (dtx_same_gid _ _ Hs) in Hm. apply (ev_may _ _ Hev), Ha in Hm.
  destruct (sm_segs _ _ Hs) as [?|Hse]; [done|]. by apply Hse.
Qed.
Lemma all_step p p' e :
  dtx_same p p' → evolves (env p) (env p') → ¬ segless (my_state p) → all_mine p e → all_mine p' e.
Proof.
  intros Hs Hev Hn Ha s Hin. rewrite (dtx_same_gid _ _ Hs). destruct (sm_segs _ _ Hs) as [?|Hse]; [done|].
  by apply Hev, Ha, Hse.
Qed.

Lemma phase_step p p' :
  dtx_same p p' → evolves (env p) (env p') → log_extends (sv p) (sv p') → phase p → phase p'.
Proof.
  intros Hs Hev Hl Hp. unfold phase in *. rewrite (sm_state _ _ Hs).
  pose proof (never_step p p' DidAbort Hs Hev). pose proof (never_step p p' DidPrepare Hs Hev).
  pose proof (undecided_step p p' Hs Hl). pose proof (asked_step p p' Hs Hev).
  pose proof (all_step p p' DidPrepare Hs Hev). pose proof (all_step p p' DidCommit Hs Hev).
  pose proof (proj2 (log_extends_decided _ _ (my_gxid p) Hl)).
  pose proof (decided_mono _ _ (my_gxid p) (log_extends_disk _ _ Hl)).
  unfold phase_at, all_prepared in *. rewrite (sm_gxid _ _ Hs).
  destruct (my_state p); cbn [segless] in *; tauto.
Qed.

Lemma settled_step p p' :
  dtx_same p p' → log_extends (sv p) (sv p') → CommittedGxidArray (sv p') = CommittedGxidArray (sv p) → proto p →
  ∀ g, decided (xlog (sv p')) g →
    forgotten (xlog (sv p')) g ∨ g ∈ CommittedGxidArray (sv p') ∨ (g = my_gxid p' ∧ unsettled (my_state p')).
Proof.
  intros Hs Hl Ha Hp g Hd. rewrite (log_extends_decided _ _ g Hl) in Hd.
  rewrite (log_extends_forgotten _ _ g Hl), (sm_state _ _ Hs), (sm_gxid _ _ Hs), Ha. by apply Hp.
Qed.

Lemma proto_step p p' :
  dtx_same p p' → evolves (env p) (env p') → log_grows (sv p) (sv p') →
  nextGxid (sv p') = nextGxid (sv p) → GxidCount (sv p') = GxidCount (sv p) →
  CommittedGxidArray (sv p') = CommittedGxidArray (sv p) → proto p → proto p'.
Proof.
  intros Hs Hev Hl Hn Hc Ha [H1 H2 H3 H5 H6 H7 H8]. pose proof (log_grows_extends _ _ Hl) as He.
  split; rewrite ?Hn, ?Hc; [by eapply durable_step| | | | | |].
  - intros s gid e Hm%(ev_may _ _ Hev). by eapply H2.
  - intros g Hd%(log_extends_decided _ _ _ He). auto.
  - intros l Hsu. destruct (survives_grows _ _ _ Hl Hsu) as (l0 & Hs0 & ->). by apply H5.
  - rewrite (sm_state _ _ Hs), (sm_gxid _ _ Hs). auto.
  - by eapply phase_step.
  - by apply (settled_step p).
Qed.

(** more identifiers are logged, and on disk *)
Lemma proto_bump n p p' :
  dtx_same p p' → env p' = env p → xlog (sv p') = xlog (sv p) ++ [XLOG_NEXTGXID n] →
  on_disk (sv p') = xlog (sv p') → nextGxid (sv p') = nextGxid (sv p) →
  GxidCount (sv p') = GxidCount (sv p) → CommittedGxidArray (sv p') = CommittedGxidArray (sv p) →
  nextGxid (sv p) + GxidCount (sv p) ≤ n →
  n + gp_gxid_prefetch_num < 2 ^ 64 → proto p → proto p'.
Proof.
  intros Hs He Hx Hd Hn Hc Ha Hle Hlim Hp. pose proof Hp as [H1 H2 H3 H5 H6 H7 H8].
  assert (log_extends (sv p) (sv p')) as Hl.
  { split; [exists [XLOG_NEXTGXID n]; split; [done|by constructor]|].
    rewrite Hd, Hx. apply prefix_app_r. unfold on_disk. apply prefix_take. }
  split; rewrite ?Hn, ?Hc, ?He; [apply (durable_step p); [by rewrite He|done..]|done| | | | |].
  - intros g Hg%(log_extends_decided _ _ _ Hl). auto.
  - intros l [Hl1 Hl2]. rewrite Hd in Hl1.
    assert (l = xlog (sv p')) as -> by (by apply (anti_symm prefix)).
    rewrite Hx. unfold gxid_after. rewrite foldl_app. done.
  - rewrite (sm_state _ _ Hs), (sm_gxid _ _ Hs). auto.
  - apply (phase_step p); [done|by rewrite He|done..].
  - by apply (settled_step p).
Qed.

(** ** Sending a command *)

(** the states in which commands of the protocol are sent *)
Definition allowed (st : DtxState) (c : DtxProtocolCommand) : Prop :=
  match causes c with
  | DidPrepare :: _ => st = DTX_STATE_PREPARING
  | DidCommit :: _ => st = DTX_STATE_NOTIFYING_COMMIT_PREPARED ∨ st = DTX_STATE_RETRY_COMMIT_PREPARED
  | DidAbort :: _ =>
      st = DTX_STATE_NOTIFYING_ABORT_SOME_PREPARED ∨ st = DTX_STATE_NOTIFYING_ABORT_PREPARED ∨
      st = DTX_STATE_RETRY_ABORT_PREPARED
  | [] => True
  end.

Definition after_send (c : DtxProtocolCommand) info p : proc W :=
  upd_env (λ w, (dispatch_send (DtxCommand c (my_gid p) info) (my_segs p) w).2) p.

Lemma after_send_may c info p s gid e :
  may (env (after_send c info p)) s gid e ↔
  may (env p) s gid e ∨ (s ∈ my_segs p ∧ gid = my_gid p ∧ e ∈ causes c).
Proof.
  unfold after_send. cbn. rewrite seg_send. cbn. case_bool_decide; set_solver.
Qed.
Lemma after_send_happened c info p s gid e :
  happened (env p) s gid e → happened (env (after_send c info p)) s gid e.
Proof. apply seg_send_mono. Qed.

Lemma causes_cases c : ∃ e, causes c = [] ∨ causes c = [e].
Proof. exists (match causes c with e :: _ => e | [] => DidPrepare end). destruct c; cbn; auto. Qed.

Lemma send_plain m segs w : (∀ gid, msg_causes m gid = []) → evolves w (dispatch_send m segs w).2.
Proof.
  intros Hm. split; [|apply seg_send_mono]. intros s gid e. rewrite seg_send, Hm. set_solver.
Qed.

(** the new event, when there is one *)
Lemma allowed_new c st e :
  allowed st c → e ∈ causes c →
  match e with
  | DidPrepare => st = DTX_STATE_PREPARING
  | DidCommit => st = DTX_STATE_NOTIFYING_COMMIT_PREPARED ∨ st = DTX_STATE_RETRY_COMMIT_PREPARED
  | DidAbort =>
      st = DTX_STATE_NOTIFYING_ABORT_SOME_PREPARED ∨ st = DTX_STATE_NOTIFYING_ABORT_PREPARED ∨
      st = DTX_STATE_RETRY_ABORT_PREPARED
  end.
Proof.
  unfold allowed. destruct (causes_cases c) as [e' [-> | ->]]; [set_solver|].
  intros Ha ->%list_elem_of_singleton. by destruct e'.
Qed.

Lemma durable_send c info p : proto p → allowed (my_state p) c → durable (after_send c info p).
Proof.
  intros [[H1 H2 H3 H4 H5 H6] _ _ _ _ Hph _] Ha. unfold phase in Hph.
  pose proof (λ e, allowed_new _ _ e Ha) as Hnew.
  split.
  - intros s gid [Hm|(Hs & -> & Hin)]%after_send_may; [by eapply H1|]. apply Hnew in Hin. exists (my_gxid p).
    split; [done|]. destruct Hin as [Hst|Hst]; rewrite Hst in Hph; apply Hph.
  - intros s g Hd [Hm|(Hs & Hg%(inj dtxFormGid) & Hin)]%after_send_may; [by eapply H2|]. subst g. apply Hnew in Hin.
    destruct Hin as [Hst|[Hst|Hst]]; rewrite Hst in Hph; by apply Hph.
  - intros s g Hd [Hm|(Hs & Hg%(inj dtxFormGid) & Hin)]%after_send_may; [by apply after_send_happened, H3|]. subst g.
    apply Hnew in Hin. rewrite Hin in Hph. by destruct Hph as [Hu _].
  - intros s g Hd [Hm|(Hs & Hg%(inj dtxFormGid) & Hin)]%after_send_may; [by apply after_send_happened, H4|]. subst g.
    apply Hnew in Hin. rewrite Hin in Hph. destruct Hph as [Hu _]. destruct Hu.
    eapply decided_mono; [apply on_disk_log|auto].
  - done.
  - done.
Qed.

Lemma phase_send c info p : proto p → allowed (my_state p) c → phase (after_send c info p).
Proof.
  intros [_ _ _ _ _ Hph _] Ha. unfold phase in *.
  pose proof (λ e, allowed_new _ _ e Ha) as Hnew.
  change (my_state (after_send c info p)) with (my_state p).
  assert (∀ e, e ∉ causes c → never p e → never (after_send c info p) e) as Hnev.
  { intros e He Hn s Hm%after_send_may. destruct Hm as [Hm|(_ & _ & ?)]; [by eapply Hn|done]. }
  assert (asked_mine p → asked_mine (after_send c info p)) as Hask.
  { intros Hk s Hm%after_send_may. destruct Hm as [Hm|[? _]]; [by apply Hk|done]. }
  assert (∀ e, all_mine p e → all_mine (after_send c info p) e) as Hall.
  { intros e Hk s Hs. by apply after_send_happened, Hk. }
  pose proof (Hnev DidAbort). pose proof (Hnev DidPrepare).
  pose proof (Hall DidPrepare). pose proof (Hall DidCommit).
  change (undecided p) with (undecided (after_send c info p)) in *.
  unfold phase_at, all_prepared in *. change (sv (after_send c info p)) with (sv p).
  change (my_gxid (after_send c info p)) with (my_gxid p).
  destruct (my_state p) eqn:Hst; try tauto;
    try assert (DidAbort ∉ causes c) by (by intros [?|[?|?]]%Hnew);
    try assert (DidPrepare ∉ causes c) by (by intros ?%Hnew); tauto.
Qed.

Lemma proto_send c info p : proto p → allowed (my_state p) c → proto (after_send c info p).
Proof.
  intros Hp Ha. split; [by apply durable_send| |apply Hp..|by apply phase_send|apply Hp].
  intros s gid e [Hm|(Hs & -> & Hin)]%after_send_may; [by eapply Hp|].
  exists (my_gxid p). split; [|done]. apply (pr_active _ Hp). apply (allowed_new _ _ _ Ha) in Hin.
  destruct e; [by rewrite Hin|by destruct Hin as [-> | ->]|by destruct Hin as [-> |[-> | ->]]].
Qed.

(** ** Moving to another state *)

Definition with_state (st : DtxState) p : proc W :=
  upd_dx (λ d, set_MyTmGxactLocal (set_dtxState st (MyTmGxactLocal d)) d) p.

(** a state after the decision is left when the transaction is forgotten *)
Definition may_leave p (st : DtxState) : Prop :=
  unsettled (my_state p) → unsettled st ∨ forgotten (xlog (sv p)) (my_gxid p).

Lemma proto_move st p :
  proto p → 0 ≤ my_gxid p < nextGxid (sv p) → phase_at st p → may_leave p st → proto (with_state st p).
Proof.
  intros [H1 H2 H3 H5 H6 H7 H8] Hg Hph Hst. split; try done; [by destruct H1|].
  intros g Hd. destruct (H8 g Hd) as [?|[?|[-> Hu]]]; [by left|right; by left|].
  destruct (Hst Hu); [do 2 right; by split|by left].
Qed.

(** no transaction, or another one *)
Lemma proto_none p p' :
  my_state p' = DTX_STATE_NONE → env p' = env p → xlog (sv p') = xlog (sv p) →
  xlog_flushed (sv p') = xlog_flushed (sv p) → nextGxid (sv p') = nextGxid (sv p) →
  GxidCount (sv p') = GxidCount (sv p) → CommittedGxidArray (sv p') = CommittedGxidArray (sv p) →
  ¬ unsettled (my_state p) → proto p → proto p'.
Proof.
  intros Hst He Hx Hf Hn Hc Ha Hu [H1 H2 H3 H5 H6 H7 H8].
  split; rewrite ?He, ?Hx, ?Hn, ?Hc, ?Ha; try done.
  - apply (durable_step p); [by rewrite He|by apply log_grows_extends, log_grows_refl|done].
  - intros l. unfold survives, on_disk. rewrite Hx, Hf. apply H5.
  - unfold phase. by rewrite Hst.
  - intros g [?|[?|[_ ?]]]%H8; [by left|right; by left|done].
Qed.

(** the transaction has just got its identifier *)
Definition fresh_mine p : Prop :=
  0 ≤ my_gxid p < nextGxid (sv p) ∧ undecided p ∧ ∀ e, never p e.

Lemma proto_take p p' :
  proto p → my_state p = DTX_STATE_NONE → 0 ≤ nextGxid (sv p) → 0 < GxidCount (sv p) →
  my_state p' = DTX_STATE_NONE → my_gxid p' = nextGxid (sv p) → env p' = env p →
  xlog (sv p') = xlog (sv p) → xlog_flushed (sv p') = xlog_flushed (sv p) →
  nextGxid (sv p') = nextGxid (sv p) + 1 → GxidCount (sv p') = GxidCount (sv p) - 1 →
  CommittedGxidArray (sv p') = CommittedGxidArray (sv p) → proto p' ∧ fresh_mine p'.
Proof.
  intros [H1 H2 H3 H5 H6 H7 H8] Hst H0 Hpos Hst' Hg He Hx Hf Hn Hc Ha. split.
  - split; rewrite ?He, ?Hx, ?Hn, ?Hc, ?Ha; try done.
    + apply (durable_step p); [by rewrite He|by apply log_grows_extends, log_grows_refl|done].
    + intros s gid e Hm. destruct (H2 _ _ _ Hm) as (g & ? & ->). exists g. split; [lia|done].
    + intros g Hd. specialize (H3 g Hd). lia.
    + intros l Hl. destruct (H5 l) as [? ?]; [|lia]. revert Hl. unfold survives, on_disk. by rewrite Hx, Hf.
    + unfold phase. by rewrite Hst'.
    + intros g [?|[?|[_ Hu]]]%H8; [by left|right; by left|]. by rewrite Hst in Hu.
  - split; [lia|]. split.
    + intros Hd. rewrite Hx, Hg in Hd. specialize (H3 _ Hd). lia.
    + intros e s Hm. unfold my_gid in Hm. rewrite He, Hg in Hm. destruct (H2 _ _ _ Hm) as (g & ? & Heq%(inj dtxFormGid)). lia.
Qed.

(** ** Writing the records *)

Definition with_record (r : XLogRecord) p : proc W := upd_sv (λ s, set_xlog (xlog s ++ [r]) s) p.

Lemma with_record_prefix r s : on_disk s `prefix_of` on_disk (set_xlog (xlog s ++ [r]) s).
Proof. unfold on_disk. cbn. rewrite take_app. by apply prefix_app_r. Qed.
Lemma with_record_disk r s : on_disk s ⊆ on_disk (set_xlog (xlog s ++ [r]) s).
Proof. apply prefix_of_subseteq, with_record_prefix. Qed.

(** a record that is not about identifiers *)
Lemma survives_record r s l :
  (∀ n, redo_gxid n r = n) → survives (set_xlog (xlog s ++ [r]) s) l →
  ∃ l0, survives s l0 ∧ gxid_after l = gxid_after l0.
Proof.
  intros Hr [Hl1 Hl2]. cbn in Hl2.
  assert (on_disk s `prefix_of` l) as Hd by (etrans; [apply with_record_prefix|exact Hl1]).
  destruct Hl2 as [k Hk]. destruct k as [|r' k _] using rev_ind.
  - rewrite app_nil_r in Hk. subst l. exists (xlog s). split; [split; [apply prefix_take|done]|].
    unfold gxid_after. rewrite foldl_app. apply Hr.
  - exists l. split; [|done]. split; [done|]. rewrite app_assoc in Hk. apply app_inj_tail in Hk as [-> _].
    by apply prefix_app_r.
Qed.

Lemma log_grows_record r s : plain r → log_grows s (set_xlog (xlog s ++ [r]) s).
Proof. intros Hr. split; [exists [r]; split; [done|by constructor]|apply with_record_prefix]. Qed.

Lemma log_grows_flush l s : log_grows s (set_xlog_flushed (Z.max (xlog_flushed s) l) s).
Proof.
  split; [exists []; by rewrite app_nil_r|]. unfold on_disk. cbn.
  replace (Z.to_nat (xlog_flushed s)) with (Z.to_nat (xlog_flushed s) `min` Z.to_nat (Z.max (xlog_flushed s) l))%nat by lia.
  rewrite <- take_take. apply prefix_take.
Qed.

Lemma decided_record l xid subs g g' :
  decided (l ++ [XLOG_XACT_DISTRIBUTED_COMMIT xid subs g]) g' ↔ decided l g' ∨ g' = g.
Proof.
  unfold decided. split.
  - intros (x & c & [?|He%list_elem_of_singleton]%elem_of_app); [left; eauto|]. right. congruence.
  - intros [(x & c & ?)| ->]; [exists x, c|exists xid, subs]; set_solver.
Qed.

Lemma proto_decide xid subs p :
  proto p → my_state p = DTX_STATE_INSERTING_COMMITTED →
  proto (with_record (XLOG_XACT_DISTRIBUTED_COMMIT xid subs (my_gxid p)) p).
Proof.
  intros [[H1 H2 H3 H4 H5 H6] Hm Hl Hlog Hact Hph Hse] Hst. unfold phase in Hph. rewrite Hst in Hph.
  destruct Hph as (Hn & Ha & Hall). assert (0 ≤ my_gxid p < nextGxid (sv p)) as Hg by (apply Hact; by rewrite Hst).
  split; [split|done| | |done| |]; cbn [sv with_record upd_sv xlog set_xlog CommittedGxidArray].
  - intros s gid Hc. destruct (H1 _ _ Hc) as (g & -> & Hd). exists g. split; [done|].
    eapply decided_mono; [apply with_record_disk|exact Hd].
  - intros s g [Hd| ->]%decided_record; [by apply H2|]. apply Hn.
  - intros s g [Hd| ->]%decided_record Hp; [by apply H3|]. by apply Hall, Ha.
  - intros s g [Hf|[=]%list_elem_of_singleton]%elem_of_app. by apply H4.
  - intros g [Hf|[=]%list_elem_of_singleton]%elem_of_app.
    eapply decided_mono; [apply with_record_disk|by apply H5].
  - apply Forall_app. split; [done|by repeat constructor].
  - intros g [Hd| ->]%decided_record; auto.
  - intros l (l0 & Hs0 & ->)%survives_record; [|done]. by apply Hlog.
  - unfold phase. change (my_state (with_record _ p)) with (my_state p). by rewrite Hst.
  - intros g [Hd| ->]%decided_record; [|do 2 right; split; [done|]; change (unsettled (my_state p)); by rewrite Hst].
    destruct (Hse g Hd) as [Hf|Hf]; [left|by right]. unfold forgotten. set_solver.
Qed.

(** a transaction that is committed everywhere can be forgotten *)
Lemma proto_forget_any g p :
  proto p → decided (on_disk (sv p)) g →
  (∀ s, may (env p) s (dtxFormGid g) DidPrepare → happened (env p) s (dtxFormGid g) DidCommit) →
  phase (with_record (XLOG_XACT_DISTRIBUTED_FORGET g) p) →
  proto (with_record (XLOG_XACT_DISTRIBUTED_FORGET g) p).
Proof.
  intros [[H1 H2 H3 H4 H5 H6] Hm Hl Hlog Hact _ Hse] Hd Hall Hph.
  assert (∀ g', decided (xlog (sv p) ++ [XLOG_XACT_DISTRIBUTED_FORGET g]) g' → decided (xlog (sv p)) g') as Hold.
  { intros g' (x & c & [?|[=]%list_elem_of_singleton]%elem_of_app). by exists x, c. }
  pose proof (with_record_disk (XLOG_XACT_DISTRIBUTED_FORGET g) (sv p)) as Hdisk.
  split; [split|done| | |done|done|]; cbn [sv with_record upd_sv xlog set_xlog CommittedGxidArray].
  - intros s gid Hc. destruct (H1 _ _ Hc) as (g' & -> & Hg). exists g'. split; [done|].
    by eapply decided_mono.
  - intros s g' Hg%Hold. by apply H2.
  - intros s g' Hg%Hold. by apply H3.
  - intros s g' [Hf|[= ->]%list_elem_of_singleton]%elem_of_app Hp; [by apply H4|]. by apply Hall.
  - intros g' [Hf|[= ->]%list_elem_of_singleton]%elem_of_app; eapply decided_mono; [exact Hdisk|by apply H5|exact Hdisk|done].
  - apply Forall_app. split; [done|by repeat constructor].
  - intros g' Hg%Hold. auto.
  - intros l (l0 & Hs0 & ->)%survives_record; [|done]. by apply Hlog.
  - intros g' Hg%Hold. destruct (Hse g' Hg) as [Hf|Hf]; [left|by right]. unfold forgotten. set_solver.
Qed.

Lemma proto_forget p :
  proto p → my_state p = DTX_STATE_INSERTING_FORGET_COMMITTED →
  proto (with_record (XLOG_XACT_DISTRIBUTED_FORGET (my_gxid p)) p).
Proof.
  intros Hp Hst. pose proof (pr_phase _ Hp) as Hph. unfold phase in Hph. rewrite Hst in Hph.
  destruct Hph as (Ha & Hall & Hd). apply proto_forget_any; [done|done|intros s Hs; by apply Hall, Ha|].
  unfold phase. change (my_state (with_record _ p)) with (my_state p). rewrite Hst.
  split_and!; [done|done|]. eapply decided_mono; [apply with_record_disk|done].
Qed.

(** ** Commands of recovery *)

(** a process without a transaction finishes another one *)
Lemma proto_outside c info g segs p :
  proto p → my_state p = DTX_STATE_NONE → 0 ≤ g < nextGxid (sv p) →
  match causes c with
  | [DidCommit] => decided (on_disk (sv p)) g
  | [DidAbort] => ¬ decided (xlog (sv p)) g
  | _ => False
  end →
  proto (upd_env (λ w, (dispatch_send (DtxCommand c (dtxFormGid g) info) segs w).2) p).
Proof.
  intros [[H1 H2 H3 H4 H5 H6] Hm Hl Hlog Hact Hph Hse] Hst Hg Hc.
  set (p' := upd_env _ p).
  assert (∀ s gid e, may (env p') s gid e → may (env p) s gid e ∨ (gid = dtxFormGid g ∧ e ∈ causes c)) as Hmay.
  { intros s gid e [?|[_ He]]%seg_send; [by left|]. cbn in He. case_bool_decide; [by right|set_solver]. }
  assert (DidPrepare ∉ causes c) as Hnp by (destruct c; cbn in *; set_solver).
  assert (∀ s gid e, happened (env p) s gid e → happened (env p') s gid e) as Hhap by (intros; by apply seg_send_mono).
  split; [split|..]; try done.
  - intros s gid [?|[-> He]]%Hmay; [by eapply H1|]. exists g. split; [done|].
    destruct (causes_cases c) as [e [Hce|Hce]]; rewrite Hce in *; [done|]. by apply list_elem_of_singleton in He as <-.
  - intros s g' Hd [?|[->%(inj dtxFormGid) He]]%Hmay; [by eapply H2|].
    destruct (causes_cases c) as [e [Hce|Hce]]; rewrite Hce in *; [done|]. by apply list_elem_of_singleton in He as <-.
  - intros s g' Hd [?|[-> ?]]%Hmay; [by apply Hhap, H3|done].
  - intros s g' Hd [?|[-> ?]]%Hmay; [by apply Hhap, H4|done].
  - intros s gid e [?|[-> _]]%Hmay; [by eapply Hm|by exists g].
  - unfold phase. change (my_state p') with (my_state p). by rewrite Hst.
Qed.
End protocol.
