(* ===== verification/DtmFacts.v ===== *)
(** * Facts about the transaction manager of the coordinator

    What the routines of [CdbTm.v] do to the state of the coordinating process: they
    leave the stack of transactions and the commit log alone, they move the state of the
    distributed transaction as described, and they raise nothing worse than ERROR apart
    from the cases listed in [qd_fatal].  The retry loops end because they sleep. *)
From stdpp Require Import pretty.
From S2P Require Import Prelude CLib BitUtils Bitmapset BitmapsetFacts Elog Dtm DtxInfo CdbTm Protocol.

(** ** The environment of a coordinator process *)

(** the coordinator may stop at any call into another module *)
Definition server_crash : string := "the server crashed".
Definition env_error (l : elevel) (msg : string) : Prop :=
  l = ERROR ∨ (l = PANIC ∧ msg = server_crash).

(** The modules below raise ERROR, unless the server crashes (no request to terminate
    arrives), and there is a clock, in microseconds, that no call turns back and that a
    sleep advances. *)
Class CalmEnv (W : Type) `{XactEnv W} := {
  hook_error h w l msg w' : run_hook h w = (Some (l, msg), w') → env_error l msg;
  send_error m segs w l msg lost w' :
    dispatch_send m segs w = ((Some (l, msg), lost), w') → env_error l msg;
  wait_error w l msg lost w' : dispatch_wait w = ((DispatchRaised l msg, lost), w') → env_error l msg;
  tick : W → Z;
  time_tick w : time w = tick w / 1000000;
  tick_hook h w : tick w ≤ tick (run_hook h w).2;
  tick_send m segs w : tick w ≤ tick (dispatch_send m segs w).2;
  tick_wait w : tick w ≤ tick (dispatch_wait w).2;
  tick_cleanup w : tick w ≤ tick (cleanup_dispatcher w).2;
  tick_reset w : tick w ≤ tick (ResetAllGangs w);
  tick_destroy b w : tick w ≤ tick (DisconnectAndDestroyAllGangs b w);
  tick_lock g w : tick w ≤ tick (GxactLockTableWait g w);
  tick_sleep n w : 0 ≤ n → tick w + n ≤ tick (pg_usleep n w) }.

(** a backend that serves a client of the coordinator *)
Class QDBackend `{Backend} : Prop := {
  qd_role : Gp_role = GP_ROLE_DISPATCH;
  qd_content : IS_QUERY_DISPATCHER = true;
  qd_slot : SharedLocalSnapshotSlot_present = true;
  qd_retry : 0 ≤ dtx_phase2_retry_second;
  qd_prefetch : 0 < gp_gxid_prefetch_num < 2 ^ 31 }.

(** what ends a coordinator process, or the coordinator *)
Definition qd_fatal (l : elevel) (msg : string) : Prop :=
  (l = PANIC ∧ msg = "unable to complete 'Commit Prepared' broadcast") ∨
  (l = PANIC ∧ msg = "Will soon reach the limit of global transactions") ∨
  (l = FATAL ∧ msg = "cannot have more than 2^32-2 commands in a session") ∨
  (l = PANIC ∧ msg = server_crash).

Section err.
Context {W : Type} `{!XactEnv W, !Segments W} `{Backend}.

(** it leaves a state from which transactions can be recovered *)
Definition doomed (l : elevel) (msg : string) (p : proc W) : Prop := qd_fatal l msg ∧ recoverable p.

(** an error that the process survives, in the state [R] *)
Definition err (R : proc W → Prop) (l : elevel) (msg : string) (p : proc W) : Prop :=
  (l = ERROR ∧ R p) ∨ doomed l msg p.

Lemma err_error (R : proc W → Prop) msg p : R p → err R ERROR msg p.
Proof. by left. Qed.
Lemma err_fatal (R : proc W → Prop) l msg p : doomed l msg p → err R l msg p.
Proof. by right. Qed.
Lemma err_mono (R R' : proc W → Prop) l msg p : (R p → R' p) → err R l msg p → err R' l msg p.
Proof. intros HR [[-> ?]|?]; [left|right]; auto. Qed.
Lemma doomed_not_error msg p : ¬ doomed ERROR msg p.
Proof. by intros [[[? _]|[[? _]|[[? _]|[? _]]]] _]. Qed.
Lemma env_err (R : proc W → Prop) l msg p : env_error l msg → R p → recoverable p → err R l msg p.
Proof. intros [->|[-> ->]] HR Hd; [by left|right]. split; [|done]. by do 3 right. Qed.
End err.
#[export] Hint Resolve err_error : core.

(** ** The state that the transaction manager moves *)

Definition dtx_key : Type := DtxContext * LocalDistribXactState * DtxState.
Definition key (d : dtx_vars) : dtx_key :=
  (DistributedTransactionContext d, localDistribXact_state d, dtxState (MyTmGxactLocal d)).

(** the ranges of counters, and a well-formed set of segments *)
Record dtm_ok {W} `{!XactEnv W, !Segments W} `{Backend} (p : proc W) : Prop := {
  ok_gxid : 0 ≤ gxid (MyTmGxact (dx p)) < 2 ^ 64;
  ok_next : 0 ≤ nextGxid (sv p) < 2 ^ 64;
  ok_count : 0 ≤ GxidCount (sv p) < 2 ^ 32;
  ok_segs : bms_wf (dtxSegmentsMap (MyTmGxactLocal (dx p)));
  ok_proto : proto p }.

(** whether recovery is done, and the table of transactions that it finishes *)
Definition serving (s : server) : bool * list Z := (DtmStarted s, CommittedGxidArray s).

(** what the transaction manager does not change *)
Record dtm_frame {W} (p p' : proc W) : Prop := {
  frame_xa : xa p' = set_XactLastRecEnd (XactLastRecEnd (xa p')) (xa p);
  frame_clog : clog (sv p') = clog (sv p);
  frame_xid : nextXid (sv p') = nextXid (sv p);
  frame_started : serving (sv p') = serving (sv p) }.

#[export] Instance dtm_frame_preorder W : PreOrder (dtm_frame (W := W)).
Proof.
  split.
  - intros p. split; try done. by destruct (xa p).
  - intros p q r [H1 H2 H3 H4] [H1' H2' H3' H4']. split; try congruence.
    rewrite H1', H1. by destruct (xa p).
Qed.

Lemma frame_same {W} (p p' : proc W) :
  xa p' = xa p → clog (sv p') = clog (sv p) → nextXid (sv p') = nextXid (sv p) →
  serving (sv p') = serving (sv p) → dtm_frame p p'.
Proof. intros Hx Hc Hn Hs. split; [|done..]. rewrite Hx. by destruct (xa p). Qed.

Lemma dtxFormGid_length g : 0 ≤ g < 2 ^ 64 → Z.of_nat (String.length (dtxFormGid g)) < TMGIDSIZE.
Proof.
  intros Hg. unfold dtxFormGid, fmt_d, TMGIDSIZE. destruct g as [|p|p]; [done| |lia].
  change (pretty (Zpos p)) with (pretty (Npos p)). unfold pretty, pretty_N.
  rewrite decide_False by lia.
  pose proof (pretty_N_go_length 20 (N.pos p) EmptyString) as Hlen.
  change (2 ^ 64) with 18446744073709551616 in Hg.
  cbn [String.length] in Hlen. specialize (Hlen ltac:(change (10 ^ N.of_nat 20)%N with 100000000000000000000%N; lia)). lia.
Qed.

(** states that are not [unsettled] *)
Ltac solve_settled := solve [intros []|repeat (constructor; [intros []|]); constructor].

Section dtm_facts.
Context {W : Type} `{!XactEnv W, !Segments W, !CalmEnv W} `{Backend, !QDBackend}.
Notation X := (X (proc W)).
Implicit Types p q : proc W.

Lemma qd_dispatch : is_dispatch = true.
Proof. unfold is_dispatch, is_role. by rewrite qd_role, bool_decide_true. Qed.
Lemma qd_not_execute : is_execute = false.
Proof. unfold is_execute, is_role. by rewrite qd_role, bool_decide_false. Qed.
Lemma qd_not_utility : is_utility = false.
Proof. unfold is_utility, is_role. by rewrite qd_role, bool_decide_false. Qed.

(** from [p0] on, only the transaction manager ran; its state satisfies [K] *)
Record inv (p0 : proc W) (K : dtx_key → Prop) (p : proc W) : Prop := {
  inv_frame : dtm_frame p0 p;
  inv_tick : tick (env p0) ≤ tick (env p);
  inv_ok : dtm_ok p;
  inv_key : K (key (dx p)) }.

(** [m] keeps the invariant, whatever it says of the state *)
Definition keeps {A} (m : X A) : Prop :=
  ∀ p0 K p, inv p0 K p → xwp m (λ _, inv p0 K) (err (inv p0 K)) p.

Lemma inv_mono p0 K K' p : (∀ k, K k → K' k) → inv p0 K p → inv p0 K' p.
Proof. intros HK []. split; auto. Qed.

Lemma keeps_seq {A B} (m : X A) (f : A → X B) p0 K Q E p :
  keeps m → inv p0 K p →
  (∀ l msg s, err (inv p0 K) l msg s → E l msg s) →
  (∀ a p', inv p0 K p' → xwp (f a) Q E p') → xwp (m ≫= f) Q E p.
Proof.
  intros Hm Hi HE Hf. apply xwp_bind. eapply xwp_mono; [by apply Hm| |]; eauto.
Qed.

Lemma keeps_bind {A B} (m : X A) (f : A → X B) :
  keeps m → (∀ a, keeps (f a)) → keeps (m ≫= f).
Proof. intros Hm Hf p0 K p Hi. eapply keeps_seq; eauto. intros. by apply Hf. Qed.
Lemma keeps_read {A B} (g : proc W → A) (f : A → X B) :
  (∀ a, keeps (f a)) → keeps (xread g ≫= f).
Proof. intros Hf p0 K p Hi. apply xwp_bind, xwp_read. by apply Hf. Qed.
Lemma keeps_ret {A} (a : A) : keeps (mret (M := X) a).
Proof. by intros p0 K p Hi. Qed.
Lemma keeps_when b (m : X unit) : keeps m → keeps (xwhen b m).
Proof. destruct b; [done|]. intros _. apply keeps_ret. Qed.
Lemma keeps_error {A} msg : keeps (elog (A := A) ERROR msg).
Proof. intros p0 K p Hi. apply xwp_elog. auto. Qed.
Lemma keeps_try {A} (m : X A) h : keeps m → (∀ msg, keeps (h msg)) → keeps (pg_try m h).
Proof.
  intros Hm Hh p0 K p Hi. apply xwp_try. eapply xwp_mono; [by apply Hm|done|].
  intros l msg s [[-> Hs]|Hf]; [by apply Hh|].
  destruct l; [by apply doomed_not_error in Hf|by right..].
Qed.

Lemma dtm_ok_recoverable p : dtm_ok p → recoverable p.
Proof. intros []. by apply proto_recoverable. Qed.
Lemma inv_recoverable p0 K p : inv p0 K p → recoverable p.
Proof. intros Hi. by apply dtm_ok_recoverable, Hi. Qed.

Lemma inv_step p0 K K' p p' :
  inv p0 K p → dtm_frame p p' → tick (env p) ≤ tick (env p') → dtm_ok p' → K' (key (dx p')) → inv p0 K' p'.
Proof. intros [] ????. split; [by etrans|lia|done|done]. Qed.

(** what [dtm_ok] is about *)
Lemma dtm_ok_step p p' :
  dtm_ok p → MyTmGxact (dx p') = MyTmGxact (dx p) → MyTmGxactLocal (dx p') = MyTmGxactLocal (dx p) →
  env p' = env p → xlog (sv p') = xlog (sv p) → xlog_flushed (sv p') = xlog_flushed (sv p) →
  nextGxid (sv p') = nextGxid (sv p) → GxidCount (sv p') = GxidCount (sv p) →
  CommittedGxidArray (sv p') = CommittedGxidArray (sv p) → dtm_ok p'.
Proof.
  intros [H1 H2 H3 H4 H5] Hg Hl He Hx Hf Hn Hc Ha. split; rewrite ?Hg, ?Hl, ?Hn, ?Hc; try done.
  apply (proto_step p); [|by rewrite He|by apply log_grows_refl|done..].
  unfold my_state, my_gxid, my_segs. split; unfold my_state, my_gxid, my_segs; rewrite ?Hg, ?Hl; [done..|by right].
Qed.

(** an update of the local part that leaves the state and the segments alone *)
Definition same_tml (f : TMGXACTLOCAL → TMGXACTLOCAL) : Prop :=
  ∀ l, dtxState (f l) = dtxState l ∧ dtxSegments (f l) = dtxSegments l ∧ dtxSegmentsMap (f l) = dtxSegmentsMap l.

Definition with_tml (f : TMGXACTLOCAL → TMGXACTLOCAL) (p : proc W) : proc W :=
  upd_dx (λ d, set_MyTmGxactLocal (f (MyTmGxactLocal d)) d) p.

Lemma same_with_tml f p : same_tml f → dtx_same p (with_tml f p).
Proof.
  intros Hf. destruct (Hf (MyTmGxactLocal (dx p))) as (H1 & H2 & _).
  split; [exact H1|done|right]. intros s. unfold my_segs. cbn. by rewrite H2.
Qed.

Lemma inv_tml f p0 K p : same_tml f → inv p0 K p → inv p0 K (with_tml f p).
Proof.
  intros Hf Hi. pose proof (same_with_tml f p Hf) as Hsm.
  destruct (Hf (MyTmGxactLocal (dx p))) as (H1 & H2 & H3). destruct (inv_ok _ _ _ Hi).
  eapply inv_step; [exact Hi|by apply frame_same|done| |].
  - split; cbn; [done..|by rewrite H3|]. apply (proto_step p); [exact Hsm|done|by apply log_grows_refl|done..].
  - unfold key. cbn. rewrite H1. apply Hi.
Qed.

Lemma keeps_tml f : same_tml f → keeps (modify_tml f).
Proof. intros Hf p0 K p Hi. apply xwp_modify. by apply inv_tml. Qed.

(** ** Calls into the environment *)

Record passes (w w' : W) : Prop := {
  passes_tick : tick w ≤ tick w';
  passes_evolves : evolves w w' }.

Lemma passes_hook h w : passes w (run_hook h w).2.
Proof. split; [apply tick_hook|]. split; [apply seg_hook|apply seg_hook_mono]. Qed.
Lemma passes_wait w : passes w (dispatch_wait w).2.
Proof. split; [apply tick_wait|]. split; [apply seg_wait|apply seg_wait_mono]. Qed.
Lemma passes_cleanup w : passes w (cleanup_dispatcher w).2.
Proof. split; [apply tick_cleanup|]. split; [apply seg_cleanup|apply seg_cleanup_mono]. Qed.
Lemma passes_reset w : passes w (ResetAllGangs w).
Proof. split; [apply tick_reset|]. split; [apply seg_reset|apply seg_reset_mono]. Qed.
Lemma passes_destroy b w : passes w (DisconnectAndDestroyAllGangs b w).
Proof. split; [apply tick_destroy|]. split; [apply seg_destroy|apply seg_destroy_mono]. Qed.
Lemma passes_lock g w : passes w (GxactLockTableWait g w).
Proof. split; [apply tick_lock|]. split; [apply seg_lock|apply seg_lock_mono]. Qed.
Lemma passes_sleep n w : 0 ≤ n → passes w (pg_usleep n w).
Proof.
  intros Hn. pose proof (tick_sleep n w Hn). split; [lia|]. split; [apply seg_sleep|apply seg_sleep_mono].
Qed.

Definition with_env (w : W) (p : proc W) : proc W := upd_env (λ _, w) p.

Lemma inv_env w p0 K p : passes (env p) w → inv p0 K p → inv p0 K (with_env w p).
Proof.
  intros [Ht Hev] Hi. destruct (inv_ok _ _ _ Hi). eapply inv_step; [exact Hi|by apply frame_same|done| |apply Hi].
  split; cbn; [done..|]. apply (proto_step p); [by split; [..|right]|exact Hev|by apply log_grows_refl|done..].
Qed.

Lemma keeps_env {A} (f : W → A * W) : (∀ w, passes w (f w).2) → keeps (on_env f).
Proof.
  intros Hf p0 K p Hi. unfold xwp, on_env. specialize (Hf (env p)).
  destruct (f (env p)) as [a w]. by apply inv_env.
Qed.

Definition mark_lost (b : bool) (p : proc W) : proc W :=
  if b then with_tml (set_writerGangLost true) p else p.

Lemma inv_lost b p0 K p : inv p0 K p → inv p0 K (mark_lost b p).
Proof. intros Hi. destruct b; [|done]. by apply inv_tml. Qed.
Lemma same_lost b p : dtx_same p (mark_lost b p).
Proof. destruct b; [by apply same_with_tml|done]. Qed.

Lemma dispatcher_call_eq {A} (f : W → (A * bool) * W) p :
  dispatcher_call f p = (Done (f (env p)).1.1, mark_lost (f (env p)).1.2 (with_env (f (env p)).2 p)).
Proof.
  unfold dispatcher_call, on_env, mbind, X_bind. by destruct (f (env p)) as [[a []] w].
Qed.

Lemma keeps_dispatcher {A} (f : W → (A * bool) * W) :
  (∀ w, passes w (f w).2) → keeps (dispatcher_call f).
Proof.
  intros Hf p0 K p Hi. unfold xwp. rewrite dispatcher_call_eq. by apply inv_lost, inv_env.
Qed.

(** the segments that were added are among those the command was sent to *)
Definition add_segs (m : Bitmapset) (l : list Z) (p : proc W) : proc W :=
  with_tml (λ t, set_dtxSegments (dtxSegments t ++ l) (set_dtxSegmentsMap m t)) p.

Lemma inv_add_segs m l p0 K p :
  bms_wf m → l ⊆ my_segs p ∨ segless (my_state p) → inv p0 K p →
  inv p0 K (add_segs m l p) ∧ dtx_same p (add_segs m l p).
Proof.
  intros Hm Hl Hi. assert (dtx_same p (add_segs m l p)) as Hsm.
  { split; [done|done|]. destruct Hl as [Hl|Hl]; [right|by left]. intros s. unfold my_segs. cbn. set_solver. }
  split; [|done]. destruct (inv_ok _ _ _ Hi). eapply inv_step; [exact Hi|by apply frame_same|done| |apply Hi].
  split; cbn; [done..|]. apply (proto_step p); [exact Hsm|done|by apply log_grows_refl|done..].
Qed.

Lemma segs_same segs p p' :
  dtx_same p p' → segs ⊆ my_segs p ∨ segless (my_state p) → segs ⊆ my_segs p' ∨ segless (my_state p').
Proof.
  intros [Hst _ [Hs|Hs]] Hc; rewrite Hst; [by right|]. destruct Hc as [Hc|]; [left|by right].
  intros s Hin. by apply Hs, Hc.
Qed.

Lemma add_segment_inv z p0 K p :
  inv p0 K p → [z] ⊆ my_segs p ∨ segless (my_state p) →
  xwp (if z =? -1 then mret tt
       else
         m ← get_tml dtxSegmentsMap;
         known ← lift_res (bms_is_member z m);
         if known : bool then mret tt
         else
           m' ← lift_res (bms_add_member m z);
           modify_tml (set_dtxSegmentsMap m');;
           modify_tml (λ l, set_dtxSegments (dtxSegments l ++ [z]) l))
    (λ _ p', inv p0 K p' ∧ dtx_same p p' ∧ env p' = env p) (err (inv p0 K)) p.
Proof.
  intros Hi Hz. destruct (z =? -1); [by apply xwp_ret|]. apply xwp_bind, xwp_read, xwp_bind.
  pose proof (ok_segs _ (inv_ok _ _ _ Hi)) as Hwf.
  destruct (Z.lt_ge_cases z 0) as [Hneg|Hpos].
  { unfold bms_is_member. rewrite (proj2 (Z.ltb_lt z 0)) by done. cbn [lift_res]. apply xwp_elog. auto. }
  rewrite bms_is_member_eq by done. cbn [lift_res]. apply xwp_ret.
  destruct (Z.testbit _ _); [by apply xwp_ret|]. apply xwp_bind.
  destruct (bms_add_member_eq _ z Hwf Hpos) as (m' & -> & Hm' & _). cbn [lift_res].
  apply xwp_ret, xwp_bind, xwp_modify, xwp_modify.
  destruct (inv_add_segs m' [z] p0 K p Hm' Hz Hi) as [Hi' Hsm]. by split_and!.
Qed.

Lemma add_segments_inv segs p0 K p :
  inv p0 K p → segs ⊆ my_segs p ∨ segless (my_state p) →
  xwp (add_segments segs) (λ _ p', inv p0 K p' ∧ dtx_same p p' ∧ env p' = env p) (err (inv p0 K)) p.
Proof.
  revert p. induction segs as [|z segs IH]; intros p Hi Hs; [by apply xwp_ret|].
  cbn [add_segments]. eapply xwp_seq.
  { apply add_segment_inv; [done|]. destruct Hs as [Hs|]; [left|by right]. set_solver. }
  intros [] p1 (Hi1 & Hsm1 & He1). eapply xwp_mono; [apply IH; [done|]| |done].
  - eapply segs_same; [exact Hsm1|]. destruct Hs as [Hs|]; [left|by right]. set_solver.
  - intros ? p2 (Hi2 & Hsm2 & He2). split_and!; [done|by etrans|congruence].
Qed.

Lemma addToGxactDtxSegments_inv segs p0 K p :
  inv p0 K p → segs ⊆ my_segs p ∨ segless (my_state p) →
  xwp (addToGxactDtxSegments segs) (λ _ p', inv p0 K p' ∧ dtx_same p p' ∧ env p' = env p) (err (inv p0 K)) p.
Proof.
  intros Hi Hs. apply xwp_bind, xwp_read. case_match; [by apply xwp_ret|].
  do 2 (apply xwp_bind, xwp_read). case_match; [by apply xwp_ret|]. by apply add_segments_inv.
Qed.

(** ** A command and its answers *)

(** the answer [r] to the message, received in [p'] *)
Definition answers m segs p (r : dispatch_result) p' : Prop :=
  ∃ lost w lost', dispatch_send m segs (env p) = ((None, lost), w) ∧
                  dispatch_wait w = ((r, lost'), env p').

Lemma dispatch_seq {B} m segs (g : dispatch_result → X B) p0 K Q E p :
  inv p0 K p → proto (with_env (dispatch_send m segs (env p)).2 p) →
  segs ⊆ my_segs p ∨ segless (my_state p) →
  (∀ l msg s, err (inv p0 K) l msg s → E l msg s) →
  (∀ r p', inv p0 K p' → dtx_same p p' → (∀ l msg, r = DispatchRaised l msg → env_error l msg) →
     answers m segs p r p' → xwp (g r) Q E p') →
  xwp (sent ← dispatcher_call (dispatch_send m segs);
       raise_opt sent;;
       addToGxactDtxSegments segs;;
       r ← dispatcher_call dispatch_wait;
       g r) Q E p.
Proof.
  intros Hi Hpr Hs HE Hg. apply xwp_bind. unfold xwp at 1. rewrite dispatcher_call_eq.
  pose proof (tick_send m segs (env p)) as Ht.
  destruct (dispatch_send m segs (env p)) as [[sent lost] w] eqn:Hsend. cbn [fst snd] in *.
  assert (inv p0 K (mark_lost lost (with_env w p))) as Hi1.
  { apply inv_lost. destruct (inv_ok _ _ _ Hi). eapply inv_step; [exact Hi|by apply frame_same|done|by split|apply Hi]. }
  assert (dtx_same p (mark_lost lost (with_env w p))) as Hsm1.
  { etrans; [|apply same_lost]. by split; [..|right]. }
  apply xwp_bind. destruct sent as [[l msg]|].
  { apply xwp_elog, HE, env_err; [by eapply send_error|done|by eapply inv_recoverable]. }
  apply xwp_ret. eapply xwp_seq.
  { eapply xwp_mono; [apply addToGxactDtxSegments_inv; [exact Hi1|by eapply segs_same]|intros ?? Hq; exact Hq|exact HE]. }
  intros [] p2 (Hi2 & Hsm2 & He2). apply xwp_bind. unfold xwp at 1. rewrite dispatcher_call_eq.
  assert (env p2 = w) as Hw by (rewrite He2; by destruct lost). rewrite Hw.
  pose proof (passes_wait w) as Hpass. pose proof (wait_error w) as Herr.
  destruct (dispatch_wait w) as [[r lost'] w2] eqn:Hwait. cbn [fst snd] in *.
  apply Hg.
  - apply inv_lost, inv_env; [by rewrite Hw|done].
  - etrans; [exact Hsm1|]. etrans; [exact Hsm2|]. etrans; [|apply same_lost]. by split; [..|right].
  - intros l msg ->. by eapply Herr.
  - exists lost, w, lost'. split; [done|]. rewrite Hwait. by destruct lost'.
Qed.

(** what the answers mean, when none is a failure *)
Definition achieved (c : DtxProtocolCommand) (gid : string) (segs : list Z) (w w' : W) : Prop :=
  ∀ s, s ∈ segs →
    match c with
    | DTX_PROTOCOL_COMMAND_PREPARE => happened w' s gid DidPrepare
    | DTX_PROTOCOL_COMMAND_COMMIT_PREPARED => happened w' s gid DidCommit
    | DTX_PROTOCOL_COMMAND_RETRY_COMMIT_PREPARED | DTX_PROTOCOL_COMMAND_RECOVERY_COMMIT_PREPARED =>
        happened w s gid DidPrepare → ¬ may w s gid DidAbort → happened w' s gid DidCommit
    | _ => True
    end.

Lemma doDispatch_spec c gid r segs info p0 K p :
  Z.of_nat (String.length gid) < TMGIDSIZE → inv p0 K p →
  proto (with_env (dispatch_send (DtxCommand c gid info) segs (env p)).2 p) →
  segs ⊆ my_segs p ∨ segless (my_state p) →
  xwp (doDispatchDtxProtocolCommand c gid r segs info)
    (λ ok p', inv p0 K p' ∧ dtx_same p p' ∧ (ok = true → achieved c gid segs (env p) (env p')))
    (err (inv p0 K)) p.
Proof.
  intros Hgid Hi Hpr Hs. unfold doDispatchDtxProtocolCommand.
  case_bool_decide as He; [apply xwp_ret; split_and!; [done|done|]; intros _ s; subst; set_solver|].
  rewrite (proj2 (Z.leb_gt _ _)) by done. eapply dispatch_seq; [done..|].
  intros [l msg|msg|[rs|]] p1 Hi1 Hsm1 Herr Hans.
  - apply xwp_elog, env_err; [by apply Herr|done|by eapply inv_recoverable].
  - destruct r; [apply xwp_elog; auto|by apply xwp_ret].
  - cbv zeta. apply (xwp_seq _ _ (λ _ p2, inv p0 K p2 ∧ dtx_same p p2 ∧ env p2 = env p1)).
    { apply xwp_when; intros _; [|done]. apply xwp_modify.
      split_and!; [by apply inv_tml|by etrans; [|apply same_with_tml]|done]. }
    intros [] p2 (Hi2 & Hsm2 & He2). apply xwp_ret. split_and!; [done..|].
    intros Hok%negb_true_iff s Hin. rewrite He2. destruct Hans as (lost & w & lost' & Hsend & Hwait).
    by eapply seg_answer.
  - by apply xwp_ret.
Qed.

Lemma proto_plain m segs p :
  (∀ gid, msg_causes m gid = []) → proto p → proto (with_env (dispatch_send m segs (env p)).2 p).
Proof.
  intros Hm. apply proto_step; [by split; [..|right]|by apply send_plain|by apply log_grows_refl|done..].
Qed.

Lemma plain_command c gid info : causes c = [] → ∀ g, msg_causes (DtxCommand c gid info) g = [].
Proof. intros Hc g. cbn. by case_bool_decide. Qed.

(** a command to the segments of the transaction *)
Lemma broadcast_spec c r p0 K p :
  inv p0 K p → allowed (my_state p) c → isDtxContext (dx p) = true →
  xwp (currentDtxDispatchProtocolCommand c r)
    (λ ok p', inv p0 K p' ∧ dtx_same p p' ∧
       (ok = true → achieved c (my_gid p) (my_segs p) (env p) (env p')))
    (err (inv p0 K)) p.
Proof.
  intros Hi Ha Hctx. do 2 (apply xwp_bind, xwp_read). rewrite Hctx.
  apply doDispatch_spec; [apply dtxFormGid_length, (inv_ok _ _ _ Hi)|done| |by left].
  apply (proto_send c None p); [apply Hi|done].
Qed.

Lemma keeps_plain_broadcast c r : causes c = [] → keeps (currentDtxDispatchProtocolCommand c r).
Proof.
  intros Hc p0 K p Hi. do 2 (apply xwp_bind, xwp_read).
  eapply xwp_mono; [eapply doDispatch_spec; [|exact Hi| |by left]|by intros ? ? (? & _)|done].
  - apply dtxFormGid_length. destruct (isDtxContext _); [apply (inv_ok _ _ _ Hi)|done].
  - apply proto_plain; [by apply plain_command|apply Hi].
Qed.

Lemma keeps_hook h : keeps (call_hook h).
Proof.
  intros p0 K p Hi. unfold call_hook, may_raise. apply xwp_bind.
  assert (keeps (on_env (run_hook h))) as Hk by (apply keeps_env; intros; apply passes_hook).
  specialize (Hk p0 K p Hi). unfold xwp, on_env in *.
  destruct (run_hook h (env p)) as [[[l msg]|] w] eqn:Hh; cbn in *; [|done].
  apply env_err; [by eapply hook_error|done|by eapply inv_recoverable].
Qed.

Lemma keeps_reset_gangs : keeps reset_gangs.
Proof. apply keeps_env. intros w. apply passes_reset. Qed.

Lemma inv_sv f p0 K p :
  clog (f (sv p)) = clog (sv p) → nextXid (f (sv p)) = nextXid (sv p) →
  serving (f (sv p)) = serving (sv p) → nextGxid (f (sv p)) = nextGxid (sv p) →
  GxidCount (f (sv p)) = GxidCount (sv p) → log_grows (sv p) (f (sv p)) →
  inv p0 K p → inv p0 K (upd_sv f p).
Proof.
  intros H1 H2 H3 H4 H5 Hl Hi. destruct (inv_ok _ _ _ Hi).
  eapply inv_step; [exact Hi|by apply frame_same|done| |apply Hi].
  split; cbn; [done|by rewrite H4|by rewrite H5|done|]. injection H3 as _ Ha.
  apply (proto_step p); [by split; [..|right]|done|done..].
Qed.

Lemma keeps_SetDtxRecoveryEvent e : keeps (SetDtxRecoveryEvent e).
Proof. intros p0 K p Hi. apply xwp_modify. apply inv_sv; [done..|by apply log_grows_refl|done]. Qed.

(** ** Computations that raise no ERROR *)

Definition quiet {A} (m : X A) : Prop :=
  ∀ p0 K p, inv p0 K p → xwp m (λ _, inv p0 K) doomed p.

Lemma quiet_seq {A B} (m : X A) (f : A → X B) p0 K Q (E : elevel → string → proc W → Prop) p :
  quiet m → inv p0 K p → (∀ l msg s, doomed l msg s → E l msg s) →
  (∀ a p', inv p0 K p' → xwp (f a) Q E p') → xwp (m ≫= f) Q E p.
Proof.
  intros Hm Hi HE Hf. apply xwp_bind. eapply xwp_mono; [by apply Hm| |]; eauto.
Qed.
Lemma quiet_bind {A B} (m : X A) (f : A → X B) :
  quiet m → (∀ a, quiet (f a)) → quiet (m ≫= f).
Proof.
  intros Hm Hf p0 K p Hi. eapply xwp_seq; [by apply Hm|]. intros a p' Hp. by apply Hf.
Qed.
Lemma quiet_read {A B} (g : proc W → A) (f : A → X B) :
  (∀ a, quiet (f a)) → quiet (xread g ≫= f).
Proof. intros Hf p0 K p Hi. apply xwp_bind, xwp_read. by apply Hf. Qed.
Lemma quiet_ret {A} (a : A) : quiet (mret (M := X) a).
Proof. by intros p0 K p Hi. Qed.
Lemma quiet_when b (m : X unit) : quiet m → quiet (xwhen b m).
Proof. destruct b; [done|]. intros _. apply quiet_ret. Qed.
Lemma quiet_try {A} (m : X A) h : keeps m → (∀ msg, quiet (h msg)) → quiet (pg_try m h).
Proof.
  intros Hm Hh p0 K p Hi. apply xwp_try. eapply xwp_mono; [by apply Hm|done|].
  intros l msg s [[-> Hs]|Hf]; [by apply Hh|].
  destruct l; try done. by apply doomed_not_error in Hf.
Qed.
(** what does not raise at all keeps quiet *)
Lemma quiet_keeps {A} (m : X A) :
  keeps m → (∀ p, ∃ a p', m p = (Done a, p')) → quiet m.
Proof.
  intros Hm Hd p0 K p Hi. specialize (Hm p0 K p Hi). unfold xwp in *.
  destruct (Hd p) as (a & p' & Heq). by rewrite Heq in *.
Qed.
Lemma keeps_quiet {A} (m : X A) : quiet m → keeps m.
Proof.
  intros Hm p0 K p Hi. eapply xwp_mono; [by apply Hm|done|]. intros. by right.
Qed.

Lemma quiet_env {A} (f : W → A * W) : (∀ w, passes w (f w).2) → quiet (on_env f).
Proof.
  intros Hf. apply quiet_keeps; [by apply keeps_env|]. intros p. unfold on_env.
  destruct (f (env p)); eauto.
Qed.
Lemma quiet_dispatcher {A} (f : W → (A * bool) * W) :
  (∀ w, passes w (f w).2) → quiet (dispatcher_call f).
Proof.
  intros Hf. apply quiet_keeps; [by apply keeps_dispatcher|]. intros p. rewrite dispatcher_call_eq. eauto.
Qed.
Lemma quiet_reset_gangs : quiet reset_gangs.
Proof. apply quiet_env. intros w. apply passes_reset. Qed.
Lemma quiet_SetDtxRecoveryEvent e : quiet (SetDtxRecoveryEvent e).
Proof. apply quiet_keeps; [apply keeps_SetDtxRecoveryEvent|]. intros p. unfold SetDtxRecoveryEvent. cbn. eauto. Qed.

Lemma inv_last_end l p0 K p : inv p0 K p → inv p0 K (upd_xa (set_XactLastRecEnd l) p).
Proof.
  intros Hi. destruct (inv_ok _ _ _ Hi). eapply inv_step; [exact Hi|by split|done| |apply Hi].
  split; [done..|]. apply (proto_step p); [by split; [..|right]|done|by apply log_grows_refl|done..].
Qed.

Lemma quiet_XLogInsert r : plain r → quiet (XLogInsert r).
Proof.
  intros Hr p0 K p Hi. unfold xwp. cbn. apply inv_last_end, inv_sv; [done..|by apply log_grows_record|done].
Qed.
Lemma quiet_XLogFlush l : quiet (XLogFlush l).
Proof. intros p0 K p Hi. apply xwp_modify, inv_sv; [done..|apply log_grows_flush|done]. Qed.
Lemma quiet_tml f : same_tml f → quiet (modify_tml f).
Proof. intros. apply quiet_keeps; [by apply keeps_tml|]. intros p. unfold modify_tml. cbn. eauto. Qed.
Lemma quiet_tm f : (∀ t, gxid (f t) = gxid t) → quiet (modify_tm f).
Proof.
  intros Hf p0 K p Hi. apply xwp_modify. destruct (inv_ok _ _ _ Hi).
  eapply inv_step; [exact Hi|by apply frame_same|done| |apply Hi].
  split; cbn; [by rewrite Hf|done..|]. apply (proto_step p); [|done|by apply log_grows_refl|done..].
  split; [done|apply Hf|by right].
Qed.

(** ** Moving the state *)

Lemma inv_active p0 K p :
  inv p0 K p → my_state p ≠ DTX_STATE_NONE → 0 ≤ my_gxid p < nextGxid (sv p).
Proof. intros Hi. apply (pr_active _ (ok_proto _ (inv_ok _ _ _ Hi))). Qed.
Lemma inv_phase p0 K p : inv p0 K p → phase_at (my_state p) p.
Proof. intros Hi. apply (pr_phase _ (ok_proto _ (inv_ok _ _ _ Hi))). Qed.

Lemma xwp_setCurrentDtxState s p0 K K' E p :
  inv p0 K p → 0 ≤ my_gxid p < nextGxid (sv p) → phase_at s p → may_leave p s →
  (∀ c l s0, K (c, l, s0) → K' (c, l, s)) →
  xwp (setCurrentDtxState s) (λ _, inv p0 K') E p.
Proof.
  intros Hi Hg Hph Hlv HK. apply xwp_modify. destruct (inv_ok _ _ _ Hi).
  eapply inv_step; [exact Hi|by apply frame_same|done| |eapply HK, Hi].
  split; cbn; [done..|]. by apply (proto_move s p).
Qed.

Lemma xwp_setContext c p0 K K' E p :
  inv p0 K p → (∀ c0 l s, K (c0, l, s) → K' (c, l, s)) →
  xwp (setDistributedTransactionContext c) (λ _, inv p0 K') E p.
Proof.
  intros Hi HK. apply xwp_modify. destruct (inv_ok _ _ _ Hi).
  eapply inv_step; [exact Hi|by apply frame_same|done| |eapply HK, Hi].
  split; cbn; [done..|]. apply (proto_step p); [by split; [..|right]|done|by apply log_grows_refl|done..].
Qed.

Lemma xwp_resetTmGxact p0 K K' E p :
  inv p0 K p → ¬ unsettled (my_state p) → (∀ c l s, K (c, l, s) → K' (c, l, DTX_STATE_NONE)) →
  xwp resetTmGxact (λ _, inv p0 K') E p.
Proof.
  intros Hi Hu HK. unfold resetTmGxact. apply xwp_bind, xwp_modify, xwp_modify. destruct (inv_ok _ _ _ Hi).
  eapply inv_step; [exact Hi|by apply frame_same|done| |eapply HK, Hi].
  split; cbn; [done..|]. by apply (proto_none p).
Qed.

Lemma may_leave_settled p st : ¬ unsettled (my_state p) → may_leave p st.
Proof. by intros Hn Hu. Qed.

Lemma inv_refl p (K : dtx_key → Prop) : dtm_ok p → K (key (dx p)) → inv p K p.
Proof. intros. split; done. Qed.
Lemma inv_trans p0 p1 K K' p : inv p0 K p1 → inv p1 K' p → inv p0 K' p.
Proof. intros [] []. split; try done; [by etrans|lia]. Qed.

(** ** Identifiers *)

Lemma inv_count n p0 K p :
  inv p0 K p → 0 ≤ n < 2 ^ 32 →
  (∀ l, survives (sv p) l →
     nextGxid (sv p) + n ≤ gxid_after l ∧ gxid_after l + gp_gxid_prefetch_num < 2 ^ 64) →
  inv p0 K (upd_sv (set_GxidCount n) p).
Proof.
  intros Hi Hn Hl. destruct (inv_ok _ _ _ Hi) as [? ? ? ? [H1 H2 H3 H5 H6 H7]].
  eapply inv_step; [exact Hi|by apply frame_same|done| |apply Hi].
  split; cbn; [done..|]. split; try done. by destruct H1.
Qed.

(** flushing up to the end of the log *)
Lemma on_disk_all s : Z.of_nat (length (xlog s)) ≤ xlog_flushed s → on_disk s = xlog s.
Proof. intros Hle. unfold on_disk. apply take_ge. lia. Qed.

Lemma XLogPutNextGxid_spec n p0 K p :
  inv p0 K p → nextGxid (sv p) + GxidCount (sv p) ≤ n → n + gp_gxid_prefetch_num < 2 ^ 64 →
  xwp (XLogPutNextGxid n)
    (λ _ p', inv p0 K p' ∧ GxidCount (sv p') = GxidCount (sv p) ∧ nextGxid (sv p') = nextGxid (sv p) ∧
             ∀ l, survives (sv p') l → gxid_after l = n) doomed p.
Proof.
  intros Hi Hn Hlim. apply xwp_bind. unfold xwp. cbn. set (p' := upd_sv _ (upd_xa _ _)).
  assert (on_disk (sv p') = xlog (sv p')) as Hd.
  { apply on_disk_all. cbn. rewrite length_app. cbn. lia. }
  split_and!; [|done..|].
  - destruct (inv_ok _ _ _ Hi). eapply inv_step; [exact Hi|by split|done| |apply Hi].
    split; [done..|]. by apply (proto_bump n p p'); [split; [..|right]|..].
  - intros l [Hl1 Hl2]. change (on_disk (sv p') `prefix_of` l) in Hl1. change (l `prefix_of` xlog (sv p')) in Hl2.
    rewrite Hd in Hl1. assert (l = xlog (sv p')) as -> by (by apply (anti_symm prefix)).
    cbn. unfold gxid_after. by rewrite foldl_app.
Qed.

(** the pool of identifiers, filled when it is low *)
Lemma bumpGxid_spec p0 K p :
  inv p0 K p →
  xwp bumpGxid (λ _ p', inv p0 K p' ∧ (GxidCount (sv p) = 0 → 0 < GxidCount (sv p'))) (err (inv p0 K)) p.
Proof.
  intros Hi. pose proof qd_prefetch as Hpre. apply xwp_bind, xwp_read.
  destruct (ok_count _ (inv_ok _ _ _ Hi)) as [Hc0 Hc]. pose proof (Z.shiftr_nonneg gp_gxid_prefetch_num 1) as Hsh.
  destruct (Z.ltb_spec (Z.shiftr gp_gxid_prefetch_num 1) (GxidCount (sv p))) as [Hlt|Hle].
  { apply xwp_ret. split; [done|]. intros H0c. lia. }
  apply xwp_bind, xwp_read. cbv zeta. rewrite Z.shiftr_div_pow2 in Hle by lia.
  assert (GxidCount (sv p) + gp_gxid_prefetch_num < 2 ^ 32) as Hno.
  { pose proof (Z.div_le_upper_bound gp_gxid_prefetch_num (2 ^ 1) gp_gxid_prefetch_num). lia. }
  pose proof (pr_limit _ (ok_proto _ (inv_ok _ _ _ Hi))) as Hlim. pose proof (ok_next _ (inv_ok _ _ _ Hi)) as Hnx.
  unfold wrap. rewrite !(Z.mod_small (GxidCount (sv p) + _)) by lia. rewrite (Z.mod_small (nextGxid (sv p) + _)) by lia.
  destruct (Z.leb_spec (LastDistributedTransactionId - gp_gxid_prefetch_num)
    (nextGxid (sv p) + (GxidCount (sv p) + gp_gxid_prefetch_num))) as [Hge|Hlt].
  { apply xwp_elog, err_fatal. split; [right; by left|by eapply inv_recoverable]. }
  unfold LastDistributedTransactionId in Hlt.
  eapply xwp_seq.
  { eapply xwp_mono; [apply XLogPutNextGxid_spec; [exact Hi|lia|lia]|intros ?? Hq; exact Hq|intros; by right]. }
  intros [] p1 (Hi1 & Hc1 & Hn1 & Hl1). apply xwp_modify. rewrite <- Hc1, <- Hn1 in *.
  assert (upd_sv (λ s, set_GxidCount ((GxidCount s + gp_gxid_prefetch_num) mod 2 ^ 32) s) p1 =
    upd_sv (set_GxidCount (GxidCount (sv p1) + gp_gxid_prefetch_num)) p1) as ->.
  { unfold upd_sv. by rewrite Z.mod_small by lia. }
  split; [apply inv_count; [done|lia|]|cbn; lia]. intros l Hs. rewrite (Hl1 l Hs). lia.
Qed.

(** a new identifier is taken *)
Lemma take_gxid_spec fuel p0 (K : dtx_key → Prop) p :
  inv p0 K p → (∀ k, K k → k.2 = DTX_STATE_NONE) →
  xwp (take_gxid (S fuel)) (λ _ p', inv p0 K p' ∧ fresh_mine p') (err (inv p0 K)) p.
Proof.
  intros Hi HK. cbn [take_gxid]. apply xwp_bind, xwp_read.
  apply (xwp_seq _ _ (λ _ p', inv p0 K p' ∧ 0 < GxidCount (sv p'))).
  { apply xwp_when.
    - rewrite Z.eqb_eq. intros Hz. eapply xwp_mono; [by apply bumpGxid_spec| |done].
      intros ? p' [Hi' Hc]. auto.
    - rewrite Z.eqb_neq. pose proof (ok_count _ (inv_ok _ _ _ Hi)). split; [done|lia]. }
  intros _ p1 [Hi1 Hc]. apply xwp_bind, xwp_read. rewrite (proj2 (Z.ltb_lt _ _)) by done.
  apply xwp_bind, xwp_read, xwp_bind, xwp_modify, xwp_modify.
  assert (my_state p1 = DTX_STATE_NONE) as Hst by apply (HK _ (inv_key _ _ _ Hi1)).
  destruct (inv_ok _ _ _ Hi1) as [Hg Hn Hcr Hsg Hpr]. pose proof (pr_limit _ Hpr) as Hl.
  pose proof qd_prefetch as Hpre.
  set (p2 := upd_sv _ _). assert (nextGxid (sv p2) = nextGxid (sv p1) + 1) as Hn2.
  { unfold p2. cbn. unfold wrap. rewrite Z.mod_small; lia. }
  destruct (proto_take p1 p2) as [Hpr2 Hfr]; try done; [lia|].
  split; [|done]. eapply inv_step; [exact Hi1|by apply frame_same|done| |apply Hi1].
  split; [done|rewrite Hn2; lia|cbn; lia|done|done].
Qed.

(** the state of a transaction that is running on the coordinator *)
Definition live (k : dtx_key) : Prop :=
  k = (DTX_CONTEXT_QD_DISTRIBUTED_CAPABLE, LOCALDISTRIBXACT_STATE_ACTIVE, DTX_STATE_NONE) ∨
  k = (DTX_CONTEXT_QD_DISTRIBUTED_CAPABLE, LOCALDISTRIBXACT_STATE_ACTIVE, DTX_STATE_ACTIVE_DISTRIBUTED).

(** [m] runs inside of a transaction *)
Definition keeps_live {A} (m : X A) : Prop :=
  ∀ p0 p, inv p0 live p → xwp m (λ _, inv p0 live) (err (inv p0 live)) p.

Lemma keeps_keeps_live {A} (m : X A) : keeps m → keeps_live m.
Proof. intros Hm p0 p. apply Hm. Qed.
Lemma keeps_live_bind {A B} (m : X A) (f : A → X B) :
  keeps_live m → (∀ a, keeps_live (f a)) → keeps_live (m ≫= f).
Proof.
  intros Hm Hf p0 p Hi. eapply xwp_seq; [by apply Hm|]. intros a p' Hp. by apply Hf.
Qed.
Lemma keeps_live_read {A B} (g : proc W → A) (f : A → X B) :
  (∀ a, keeps_live (f a)) → keeps_live (xread g ≫= f).
Proof. intros Hf p0 p Hi. apply xwp_bind, xwp_read. by apply Hf. Qed.

(** a transaction that is not yet distributed *)
Definition local_live (k : dtx_key) : Prop :=
  k = (DTX_CONTEXT_QD_DISTRIBUTED_CAPABLE, LOCALDISTRIBXACT_STATE_ACTIVE, DTX_STATE_NONE).

Lemma local_live_live k : local_live k → live k.
Proof. by left. Qed.
Lemma inv_inactive p0 p : inv p0 live p → isCurrentDtxActivated (dx p) = false → inv p0 local_live p.
Proof.
  unfold isCurrentDtxActivated. rewrite negb_false_iff, bool_decide_eq_true. intros [H1 H2 H3 H4] Hst.
  split; [done..|]. destruct H4 as [?|H4]; [done|]. unfold key in H4. rewrite Hst in H4. done.
Qed.

Lemma activate_spec p0 p :
  inv p0 local_live p → xwp currentDtxActivate (λ _, inv p0 live) (err (inv p0 live)) p.
Proof.
  intros Hi. assert (∀ l msg s, err (inv p0 local_live) l msg s → err (inv p0 live) l msg s) as HE.
  { intros l msg s. apply err_mono, inv_mono, local_live_live. }
  do 2 (apply xwp_bind, xwp_read). eapply keeps_seq; [|exact Hi|exact HE|].
  { apply keeps_when, keeps_SetDtxRecoveryEvent. }
  intros [] p1 Hi1. eapply xwp_seq.
  { eapply xwp_mono; [apply take_gxid_spec; [exact Hi1|by intros k ->]|intros ?? Hq; exact Hq|exact HE]. }
  intros [] p2 [Hi2 (Hg & Hu & Hn)]. apply xwp_bind, xwp_modify.
  assert (inv p0 local_live (upd_dx (λ d, set_MyTmGxact (set_sessionId gp_session_id (MyTmGxact d)) d) p2)) as Hi3.
  { by apply (quiet_tm (set_sessionId gp_session_id)). }
  eapply xwp_setCurrentDtxState; [exact Hi3|exact Hg|exact (conj Hu (conj (Hn DidPrepare) (Hn DidAbort)))| |].
  - pose proof (inv_key _ _ _ Hi3) as Hk. injection Hk as _ _ Hst. apply may_leave_settled.
    change (¬ unsettled (dtxState (MyTmGxactLocal (dx p2)))). rewrite Hst. by intros [].
  - intros c l s [= -> -> ->]. by right.
Qed.

Lemma activate_if_needed p0 p b :
  inv p0 live p → (b = true → isCurrentDtxActivated (dx p) = false) →
  xwp (xwhen b currentDtxActivate) (λ _, inv p0 live) (err (inv p0 live)) p.
Proof.
  intros Hi Hb. apply xwp_when; [|done]. intros Ht. by apply activate_spec, inv_inactive, Hb.
Qed.

Lemma keeps_live_setupDtxTransaction : keeps_live setupDtxTransaction.
Proof.
  intros p0 p Hi. apply xwp_bind, xwp_read. case_match; [apply xwp_elog; auto|].
  apply xwp_bind, xwp_read. eapply xwp_seq.
  { apply activate_if_needed; [done|]. by rewrite negb_true_iff. }
  intros [] p1 Hi1. apply xwp_bind, xwp_read. case_bool_decide; [by apply xwp_ret|apply xwp_elog; auto].
Qed.

Lemma keeps_live_sendDtxExplicitBegin : keeps_live sendDtxExplicitBegin.
Proof.
  unfold sendDtxExplicitBegin. rewrite qd_dispatch. simpl.
  apply keeps_live_bind; [apply keeps_live_setupDtxTransaction|intros _].
  apply keeps_keeps_live. by apply keeps_tml.
Qed.

Lemma keeps_CreateOnCoordinator info c o sn : keeps (DtxContextInfo_CreateOnCoordinator info c o sn).
Proof.
  apply keeps_read. intros g. cbv zeta. apply keeps_bind.
  { apply keeps_when. intros p0 K p Hi. apply xwp_modify. destruct (inv_ok _ _ _ Hi).
    eapply inv_step; [exact Hi|by apply frame_same|done| |apply Hi]. split; cbn; [done..|].
    apply (proto_step p); [by split; [..|right]|done|by apply log_grows_refl|done..]. }
  intros _. apply keeps_read. intros n. case_match.
  { intros p0 K p Hi. apply xwp_elog, err_fatal. split; [right; right; by left|by eapply inv_recoverable]. }
  apply keeps_read. intros nest. apply keeps_ret.
Qed.

Lemma keeps_live_qdSerialize c o sn : keeps_live (qdSerializeDtxContextInfo c o sn).
Proof.
  intros p0 p Hi. apply xwp_bind, xwp_read.
  assert (DistributedTransactionContext (dx p) = DTX_CONTEXT_QD_DISTRIBUTED_CAPABLE) as ->.
  { by destruct (inv_key _ _ _ Hi) as [[= -> _ _]|[= -> _ _]]. }
  by apply keeps_CreateOnCoordinator.
Qed.

Lemma live_segless p0 p : inv p0 live p → segless (my_state p).
Proof. intros [_ _ _ [[= _ _ Hst]|[= _ _ Hst]]]; unfold my_state; by rewrite Hst. Qed.

Lemma keeps_live_dispatchDtxCommand cmd : keeps_live (dispatchDtxCommand cmd).
Proof.
  apply keeps_live_read. intros []; [apply keeps_keeps_live, keeps_ret|].
  apply keeps_live_bind; [|intros rs; case_bool_decide; apply keeps_keeps_live, keeps_ret].
  apply keeps_live_bind; [apply keeps_live_setupDtxTransaction|intros _].
  apply keeps_live_bind.
  { apply keeps_keeps_live, keeps_bind; [|intros; apply keeps_ret].
    do 3 (apply keeps_read; intros). apply keeps_ret. }
  intros o. apply keeps_live_bind; [apply keeps_live_qdSerialize|intros info].
  apply keeps_live_read. intros segs p0 p Hi.
  change (get_dx isDtxExplicitBegin ≫= _) with (addToGxactDtxSegments (W := W) segs).
  eapply dispatch_seq; [exact Hi|apply proto_plain; [done|apply Hi]|right; by eapply live_segless|done|].
  intros [l msg|msg|[rs|]] p1 Hi1 _ Herr _;
    [apply xwp_elog, env_err; [by apply Herr|done|by eapply inv_recoverable]|apply xwp_elog; auto|by apply xwp_ret..].
Qed.

(** ** The retry loops end

    [bound] is the time when a loop that started at [start] gives up. *)
Definition bound (start : Z) : Z := (start + dtx_phase2_retry_second + 1) * 1000000.

Lemma phase2_sleep_tick retry p0 K p :
  inv p0 K p →
  xwp (phase2_sleep retry) (λ _ p', inv p0 K p' ∧ tick (env p) + 100000 ≤ tick (env p')) doomed p.
Proof.
  intros Hi. unfold xwp, phase2_sleep, on_env. cbn [fst snd].
  set (n := 100 * 1000 * Z.min (Z.max (retry - 10) 1) 50). assert (100000 ≤ n) as Hn by (unfold n; lia).
  split; [apply inv_env; [apply passes_sleep; lia|done]|].
  pose proof (tick_sleep n (env p) ltac:(lia)). cbn. lia.
Qed.

(** a round of a loop: it gives up, or it is not yet [bound] *)
Lemma round_continues start w :
  (dtx_phase2_retry_second <? time w - start) = false → tick w < bound start.
Proof.
  rewrite Z.ltb_ge, time_tick. unfold bound. intros Hle.
  pose proof (Z.div_mod (tick w) 1000000). pose proof (Z.mod_pos_bound (tick w) 1000000). lia.
Qed.

Lemma try_broadcast_spec c p0 K p :
  inv p0 K p → allowed (my_state p) c → isDtxContext (dx p) = true →
  xwp (try_broadcast c)
    (λ ok p', inv p0 K p' ∧ tick (env p) ≤ tick (env p') ∧
       (ok = true → dtx_same p p' ∧ achieved c (my_gid p) (my_segs p) (env p) (env p'))) doomed p.
Proof.
  intros Hi Ha Hctx. apply xwp_try.
  pose proof (broadcast_spec c true p K p (inv_refl _ _ (inv_ok _ _ _ Hi) (inv_key _ _ _ Hi)) Ha Hctx) as Hb.
  eapply xwp_mono; [exact Hb| |].
  - intros ok p' (Hi' & Hsm & Hok). split_and!; [by eapply inv_trans|apply Hi'|auto].
  - intros l msg p' [[-> Hi']|Hf].
    + apply xwp_ret. split_and!; [by eapply inv_trans|apply Hi'|done].
    + destruct l; try done. by apply doomed_not_error in Hf.
Qed.

(** the states of the second phase *)
Definition retrying (st : DtxState) (k : dtx_key) : Prop :=
  k = (DTX_CONTEXT_QD_RETRY_PHASE_2, LOCALDISTRIBXACT_STATE_ACTIVE, st).

Lemma retrying_reads st p0 p :
  inv p0 (retrying st) p → my_state p = st ∧ isDtxContext (dx p) = true.
Proof.
  intros [_ _ _ Hk]. unfold retrying, key in Hk. injection Hk as Hc _ Hs. split; [done|].
  unfold isDtxContext. by rewrite Hc.
Qed.

Lemma committed_all c p p' :
  c = DTX_PROTOCOL_COMMAND_COMMIT_PREPARED ∨ c = DTX_PROTOCOL_COMMAND_RETRY_COMMIT_PREPARED →
  all_prepared p → ¬ segless (my_state p) → dtx_same p p' →
  achieved c (my_gid p) (my_segs p) (env p) (env p') → all_mine p' DidCommit.
Proof.
  intros Hc (Hn & _ & Hall) Hse Hsm Hach s Hs. destruct (sm_segs _ _ Hsm) as [?|Hss]; [done|].
  apply Hss in Hs. rewrite (dtx_same_gid _ _ Hsm). specialize (Hach s Hs).
  destruct Hc as [-> | ->]; [done|]. apply Hach; [by apply Hall|apply Hn].
Qed.

Lemma retry_commit_spec rounds retry start p0 p :
  inv p0 (retrying DTX_STATE_RETRY_COMMIT_PREPARED) p →
  tick (env p) < bound start → bound start - tick (env p) ≤ Z.of_nat rounds * 100000 →
  xwp (retry_commit_prepared rounds retry start)
    (λ ok p', inv p0 (retrying DTX_STATE_RETRY_COMMIT_PREPARED) p' ∧ (ok = true → all_mine p' DidCommit))
    doomed p.
Proof.
  revert retry p. induction rounds as [|rounds IH]; intros retry p Hi Hlt Hle; [lia|].
  cbn [retry_commit_prepared]. cbv zeta. eapply xwp_seq; [by apply phase2_sleep_tick|].
  intros _ p1 [Hi1 Ht1]. pose proof (passes_tick _ _ (passes_reset (env p1))) as Ht2.
  apply xwp_bind. unfold xwp at 1. cbn [reset_gangs on_env].
  assert (inv p0 (retrying DTX_STATE_RETRY_COMMIT_PREPARED) (with_env (ResetAllGangs (env p1)) p1)) as Hi2.
  { apply inv_env; [apply passes_reset|done]. }
  fold (with_env (ResetAllGangs (env p1)) p1). set (p2 := with_env (ResetAllGangs (env p1)) p1) in *.
  destruct (retrying_reads _ _ _ Hi2) as [Hst Hctx]. pose proof (inv_phase _ _ _ Hi2) as Hph. rewrite Hst in Hph.
  eapply xwp_seq; [apply try_broadcast_spec; [exact Hi2|rewrite Hst; by right|done]|].
  intros ok p3 (Hi3 & Ht3 & Hok). apply xwp_bind, xwp_read. destruct ok.
  { apply xwp_ret. split; [done|]. intros _. destruct (Hok eq_refl) as [Hsm Hach].
    eapply committed_all; [by right|apply Hph|rewrite Hst; by intros []|exact Hsm|exact Hach]. }
  destruct (dtx_phase2_retry_second <? _) eqn:Hc; [by apply xwp_ret|].
  apply round_continues in Hc. apply IH; [done..|]. cbn in Ht3. lia.
Qed.

(** any of the states of a rollback that is retried *)
Definition retry_abort_key (K : dtx_key → Prop) : Prop :=
  ∀ c l s, K (c, l, s) → c ≠ DTX_CONTEXT_LOCAL_ONLY ∧ s = DTX_STATE_RETRY_ABORT_PREPARED.

Lemma retry_abort_reads K p0 p :
  retry_abort_key K → inv p0 K p →
  my_state p = DTX_STATE_RETRY_ABORT_PREPARED ∧ isDtxContext (dx p) = true.
Proof.
  intros HK [_ _ _ Hk]. destruct (HK _ _ _ Hk) as [Hc Hs]. split; [done|].
  unfold isDtxContext. by rewrite bool_decide_false.
Qed.

Lemma inv_set_segments l p0 K p :
  inv p0 K p → segless (my_state p) → inv p0 K (with_tml (set_dtxSegments l) p).
Proof.
  intros Hi Hse. destruct (inv_ok _ _ _ Hi). eapply inv_step; [exact Hi|by apply frame_same|done| |apply Hi].
  split; cbn; [done..|]. apply (proto_step p); [by split; [..|left]|done|by apply log_grows_refl|done..].
Qed.

Lemma retry_abort_round K p0 p :
  retry_abort_key K → inv p0 K p →
  xwp (pg_try
    (all ← xread (λ p, cdbcomponent_getCdbComponentsList (env p));
     modify_tml (set_dtxSegments all);;
     currentDtxDispatchProtocolCommand DTX_PROTOCOL_COMMAND_RETRY_ABORT_PREPARED true)
    (λ _, mret false))
    (λ _ p', inv p0 K p' ∧ tick (env p) ≤ tick (env p')) doomed p.
Proof.
  intros HK Hi. apply xwp_try, xwp_bind, xwp_read, xwp_bind, xwp_modify.
  set (p1 := upd_dx _ p). assert (inv p K p1) as Hi1.
  { apply inv_set_segments; [apply inv_refl; apply Hi|]. by destruct (retry_abort_reads _ _ _ HK Hi) as [-> _]. }
  destruct (retry_abort_reads _ _ _ HK Hi1) as [Hst Hctx].
  eapply xwp_mono; [apply broadcast_spec; [exact Hi1|rewrite Hst; by right; right|done]| |].
  - intros ok p' (Hi' & _ & _). split; [by eapply inv_trans|apply Hi'].
  - intros l msg p' [[-> Hi']|Hf].
    + apply xwp_ret. split; [by eapply inv_trans|apply Hi'].
    + destruct l; try done. by apply doomed_not_error in Hf.
Qed.

Lemma retry_abort_quiet rounds retry start p0 K p :
  retry_abort_key K → inv p0 K p → 0 ≤ retry → tick (env p) < bound start →
  bound start - tick (env p) ≤ (Z.of_nat rounds - (if retry =? 0 then 1 else 0)) * 100000 →
  xwp (retry_abort_loop rounds retry start) (λ _, inv p0 K) doomed p.
Proof.
  intros HK. revert retry p. induction rounds as [|rounds IH]; intros retry p Hi Hr Hlt Hle.
  { destruct (retry =? 0); lia. }
  cbn [retry_abort_loop]. cbv zeta.
  apply (xwp_seq _ _ (λ _ p', inv p0 K p' ∧
    tick (env p) + (if retry =? 0 then 0 else 100000) ≤ tick (env p'))).
  { destruct (Z.eqb_spec retry 0) as [->|Hne]; [split; [done|lia]|].
    rewrite (proj2 (Z.ltb_lt 1 _)) by lia. by apply phase2_sleep_tick. }
  intros _ p1 [Hi1 Ht1]. pose proof (passes_tick _ _ (passes_reset (env p1))) as Ht2.
  apply xwp_bind. unfold xwp at 1. cbn [reset_gangs on_env].
  assert (inv p0 K (with_env (ResetAllGangs (env p1)) p1)) as Hi2.
  { apply inv_env; [apply passes_reset|done]. }
  eapply xwp_seq; [by apply retry_abort_round|]. intros ok p3 [Hi3 Ht3].
  apply xwp_bind, xwp_read. destruct ok; [by apply xwp_ret|].
  destruct (dtx_phase2_retry_second <? _) eqn:Hc; [by apply xwp_ret|].
  apply round_continues in Hc. apply IH; [done|lia|done|].
  rewrite (proj2 (Z.eqb_neq (retry + 1) 0)) by lia. cbn in Ht3. destruct (retry =? 0); lia.
Qed.

(** the loops have fuel for the seconds they may take *)
Lemma phase2_rounds_enough w :
  tick w < bound (time w) ∧ bound (time w) - tick w ≤ (Z.of_nat phase2_rounds - 1) * 100000.
Proof.
  unfold bound, phase2_rounds. rewrite time_tick. pose proof qd_retry.
  pose proof (Z.div_mod (tick w) 1000000). pose proof (Z.mod_pos_bound (tick w) 1000000). lia.
Qed.

(** ** Committing *)

(** the state is [s], in a context of the coordinator *)
Definition at_state (P : DtxContext → DtxState → Prop) (k : dtx_key) : Prop :=
  ∃ c s, k = (c, LOCALDISTRIBXACT_STATE_ACTIVE, s) ∧ P c s.
Definition capable (S : list DtxState) (k : dtx_key) : Prop :=
  at_state (λ c s, c = DTX_CONTEXT_QD_DISTRIBUTED_CAPABLE ∧ s ∈ S) k.
(** the second phase may have been retried *)
Definition ended (k : dtx_key) : Prop :=
  at_state (λ c s, (c = DTX_CONTEXT_QD_DISTRIBUTED_CAPABLE ∨ c = DTX_CONTEXT_QD_RETRY_PHASE_2) ∧ ¬ unsettled s) k.

Lemma capable_mono S S' k : S ⊆ S' → capable S k → capable S' k.
Proof. intros HS (c & s & -> & -> & Hs). exists DTX_CONTEXT_QD_DISTRIBUTED_CAPABLE, s. auto. Qed.
Lemma capable_ended S k : Forall (λ s, ¬ unsettled s) S → capable S k → ended k.
Proof.
  intros HS (c & s & -> & -> & Hs). exists DTX_CONTEXT_QD_DISTRIBUTED_CAPABLE, s.
  rewrite Forall_forall in HS. auto.
Qed.
Lemma capable_set S s k c l s0 : k = (c, l, s0) → capable S k → capable [s] (c, l, s).
Proof. intros -> (c' & s' & [= -> -> ->] & -> & Hs). exists DTX_CONTEXT_QD_DISTRIBUTED_CAPABLE, s. set_solver. Qed.
Lemma live_capable k : live k ↔ capable [DTX_STATE_NONE; DTX_STATE_ACTIVE_DISTRIBUTED] k.
Proof.
  unfold live, capable, at_state. split.
  - intros [Hk|Hk]; subst k; eexists _, _; (split; [done|]); split; set_solver.
  - intros (c & s & -> & -> & Hs). set_unfold in Hs. naive_solver.
Qed.

Definition ended_at (s : DtxState) (k : dtx_key) : Prop :=
  at_state (λ c s', (c = DTX_CONTEXT_QD_DISTRIBUTED_CAPABLE ∨ c = DTX_CONTEXT_QD_RETRY_PHASE_2) ∧ s' = s) k.

Lemma ended_at_ended s k : ¬ unsettled s → ended_at s k → ended k.
Proof. intros Hu (c & s' & -> & Hc & ->). by exists c, s. Qed.
Lemma capable_ended_at s k : capable [s] k → ended_at s k.
Proof.
  intros (c & s' & -> & -> & ->%list_elem_of_singleton). exists DTX_CONTEXT_QD_DISTRIBUTED_CAPABLE, s. auto.
Qed.
Lemma retrying_ended_at s k : retrying s k → ended_at s k.
Proof. intros ->. exists DTX_CONTEXT_QD_RETRY_PHASE_2, s. auto. Qed.
Lemma ended_at_reads s p0 p :
  inv p0 (ended_at s) p → my_state p = s ∧ isDtxContext (dx p) = true.
Proof.
  intros [_ _ _ (c & s' & Hk & Hc & ->)]. unfold key in Hk. injection Hk as Hctx _ Hst.
  split; [done|]. unfold isDtxContext. rewrite Hctx. by destruct Hc as [-> | ->].
Qed.
Lemma capable_reads s p0 p :
  inv p0 (capable [s]) p → my_state p = s ∧ isDtxContext (dx p) = true.
Proof. intros Hi. eapply ended_at_reads, inv_mono; [|exact Hi]. intros k. apply capable_ended_at. Qed.

Lemma inv_ended S p0 p : Forall (λ s, ¬ unsettled s) S → inv p0 (capable S) p → inv p0 ended p.
Proof. intros HS. apply inv_mono. intros k. by apply capable_ended. Qed.

(** set the state and go on *)
Lemma seq_ended {B} s0 s p0 (f : unit → X B) Q E p :
  inv p0 (ended_at s0) p → s0 ≠ DTX_STATE_NONE → phase_at s p → may_leave p s →
  (∀ p', inv p0 (ended_at s) p' → xwp (f tt) Q E p') →
  xwp (setCurrentDtxState s ≫= f) Q E p.
Proof.
  intros Hi Hn Hph Hlv Hf. apply (xwp_seq _ _ (λ _, inv p0 (ended_at s))); [|intros []; apply Hf].
  eapply xwp_setCurrentDtxState; [exact Hi| |done|done|].
  - eapply inv_active; [exact Hi|]. by destruct (ended_at_reads _ _ _ Hi) as [-> _].
  - intros c l s1 (c' & s' & [= -> -> ->] & Hc & ->). exists c', s. auto.
Qed.
Lemma inv_with_state s0 s p0 p :
  inv p0 (capable [s0]) p → s0 ≠ DTX_STATE_NONE → phase_at s p → (unsettled s0 → unsettled s) →
  inv p0 (capable [s]) (with_state s p).
Proof.
  intros Hi Hn Hph Hlv. apply (xwp_setCurrentDtxState s p0 (capable [s0]) (capable [s]) (λ _ _ _, True) p);
    [done| |done| |intros c l s1; by eapply capable_set].
  2: { intros Hu. left. apply Hlv. by destruct (capable_reads _ _ _ Hi) as [<- _]. }
  eapply inv_active; [exact Hi|]. by destruct (capable_reads _ _ _ Hi) as [-> _].
Qed.
Lemma seq_capable {B} s0 s p0 (f : unit → X B) Q E p :
  inv p0 (capable [s0]) p → s0 ≠ DTX_STATE_NONE → phase_at s p → (unsettled s0 → unsettled s) →
  (∀ p', inv p0 (capable [s]) p' → xwp (f tt) Q E p') →
  xwp (setCurrentDtxState s ≫= f) Q E p.
Proof. intros Hi Hn Hph Hlv Hf. apply xwp_bind, xwp_modify, Hf. by eapply inv_with_state. Qed.

Lemma xwp_record r p0 K Q E p :
  inv p0 K p → proto (with_record r p) →
  (∀ lsn p', inv p0 K p' → my_gxid p' = my_gxid p → xlog (sv p') = xlog (sv p) ++ [r] →
     XactLastRecEnd (xa p') = Z.of_nat (length (xlog (sv p'))) → Q lsn p') →
  xwp (XLogInsert r) Q E p.
Proof.
  intros Hi Hpr HQ. unfold xwp. cbn. apply HQ; [apply inv_last_end|done|done|cbn; rewrite length_app; cbn; lia].
  destruct (inv_ok _ _ _ Hi). eapply inv_step; [exact Hi|by apply frame_same|done|by split|apply Hi].
Qed.

(** the decision is forgotten once every segment has committed *)
Lemma doInsertForgetCommitted_spec s p0 p :
  inv p0 (ended_at s) p → s ≠ DTX_STATE_NONE → phase_at DTX_STATE_INSERTING_FORGET_COMMITTED p →
  xwp doInsertForgetCommitted (λ _, inv p0 ended) doomed p.
Proof.
  intros Hi Hs Hph. eapply seq_ended; [exact Hi|done|done|intros _; by left|]. intros p1 Hi1.
  destruct (ended_at_reads _ _ _ Hi1) as [Hst Hctx]. apply xwp_bind, xwp_read. rewrite Hctx.
  apply xwp_bind, xwp_bind. eapply xwp_record; [exact Hi1|apply proto_forget; [apply Hi1|done]|].
  intros lsn p2 Hi2 Hg2 Hx2 _. apply xwp_ret. eapply seq_ended; [exact Hi2|done|done| |].
  { intros _. right. rewrite Hx2, Hg2. apply elem_of_app. right. by left. }
  intros p3 Hi3. eapply xwp_mono; [eapply quiet_tm; [|exact Hi3]|intros ? p4; apply inv_mono; intros k; apply ended_at_ended; by intros []|done].
  by intros [].
Qed.

(** the decision is on disk *)
Definition decision_safe p : Prop := decided (on_disk (sv p)) (my_gxid p).

Lemma flush_all p l :
  Z.of_nat (length (xlog (sv p))) ≤ l → decided (xlog (sv p)) (my_gxid p) →
  decision_safe (upd_sv (λ s, set_xlog_flushed (Z.max (xlog_flushed s) l) s) p).
Proof. intros Hl Hd. unfold decision_safe, on_disk. cbn. rewrite take_ge; [exact Hd|lia]. Qed.

(** what a successful broadcast of the second phase leaves *)
Lemma committed_phase s p0 p :
  s = DTX_STATE_NOTIFYING_COMMIT_PREPARED ∨ s = DTX_STATE_RETRY_COMMIT_PREPARED →
  inv p0 (ended_at s) p → all_mine p DidCommit → phase_at DTX_STATE_INSERTING_FORGET_COMMITTED p.
Proof.
  intros Hs Hi Hall. destruct (ended_at_reads _ _ _ Hi) as [Hst _]. pose proof (inv_phase _ _ _ Hi) as Hph.
  rewrite Hst in Hph. destruct Hs as [-> | ->]; destruct Hph as ((_ & Ha & _) & Hd); by split_and!.
Qed.

Lemma doNotifyingCommitPrepared_spec p0 p :
  inv p0 (capable [DTX_STATE_INSERTED_COMMITTED]) p → decision_safe p →
  xwp doNotifyingCommitPrepared (λ _, inv p0 ended) doomed p.
Proof.
  intros Hi Hsafe. destruct (capable_reads _ _ _ Hi) as [Hst _]. pose proof (inv_phase _ _ _ Hi) as Hph.
  rewrite Hst in Hph. eapply seq_capable; [exact Hi|done|exact (conj (proj1 Hph) Hsafe)|done|]. intros p1 Hi1.
  destruct (capable_reads _ _ _ Hi1) as [Hst1 Hctx1]. pose proof (inv_phase _ _ _ Hi1) as Hph1. rewrite Hst1 in Hph1.
  eapply xwp_seq; [apply try_broadcast_spec; [exact Hi1|rewrite Hst1; by left|done]|].
  intros ok p2 (Hi2 & _ & Hok). destruct (capable_reads _ _ _ Hi2) as [Hst2 _].
  pose proof (inv_phase _ _ _ Hi2) as Hph2. rewrite Hst2 in Hph2. destruct ok; cbn [negb orb].
  { apply xwp_bind, xwp_ret, xwp_bind, xwp_read, xwp_bind, xwp_ret, xwp_bind, xwp_ret.
    apply (inv_mono _ _ _ _ (capable_ended_at _)) in Hi2.
    eapply doInsertForgetCommitted_spec; [exact Hi2|done|]. eapply (committed_phase DTX_STATE_NOTIFYING_COMMIT_PREPARED); [by left|exact Hi2|].
    destruct (Hok eq_refl) as [Hsm Hach].
    eapply committed_all; [by left|apply Hph1|rewrite Hst1; by intros []|exact Hsm|exact Hach]. }
  apply (xwp_seq _ _ (λ _, inv p0 (retrying DTX_STATE_RETRY_COMMIT_PREPARED))).
  { eapply seq_capable; [exact Hi2|done|exact Hph2|done|]. intros p3 Hi3. eapply xwp_setContext; [exact Hi3|].
    by intros c l s (c' & s' & [= -> -> ->] & _ & ->%list_elem_of_singleton). }
  intros [] p3 Hi3. apply xwp_bind, xwp_read.
  apply (xwp_seq _ _ (λ ok p4, inv p0 (retrying DTX_STATE_RETRY_COMMIT_PREPARED) p4 ∧ (ok = true → all_mine p4 DidCommit))).
  { case_match; [by apply xwp_ret|]. destruct (phase2_rounds_enough (env p3)). apply retry_commit_spec; [done..|lia]. }
  intros [] p4 [Hi4 Hall]; apply xwp_bind.
  - apply xwp_ret. apply (inv_mono _ _ _ _ (retrying_ended_at _)) in Hi4.
    eapply doInsertForgetCommitted_spec; [exact Hi4|done|]. eapply (committed_phase DTX_STATE_RETRY_COMMIT_PREPARED); [by right|exact Hi4|auto].
  - apply xwp_elog. split; [by left|by eapply inv_recoverable].
Qed.

Lemma inv_capable p0 S S' p : S ⊆ S' → inv p0 (capable S) p → inv p0 (capable S') p.
Proof. intros HS. apply inv_mono. intros k. by apply capable_mono. Qed.
Lemma inv_at p0 S p : inv p0 (capable S) p → ∃ s, s ∈ S ∧ inv p0 (capable [s]) p.
Proof.
  intros [? ? ? (c & s & Hk & Hc & Hs)]. exists s. split; [done|]. split; try done.
  exists c, s. rewrite Hk. set_solver.
Qed.

Lemma quiet_wait_gxids l : quiet (wait_gxids l).
Proof.
  induction l as [|g l IH]; [apply quiet_ret|]. cbn [wait_gxids]. apply quiet_bind; [|done].
  apply quiet_env. intros w. apply passes_lock.
Qed.

Lemma notifyCommitted_spec p0 p :
  inv p0 (capable [DTX_STATE_INSERTED_COMMITTED; DTX_STATE_ONE_PHASE_COMMIT;
                   DTX_STATE_NOTIFYING_ONE_PHASE_COMMIT]) p →
  (my_state p = DTX_STATE_INSERTED_COMMITTED → decision_safe p) →
  xwp notifyCommittedDtxTransaction (λ _, inv p0 ended) doomed p.
Proof.
  intros Hi Hsafe. apply inv_at in Hi as (s & Hs & Hi). destruct (capable_reads _ _ _ Hi) as [Hst _].
  apply xwp_bind, xwp_read. change (dtxState (MyTmGxactLocal (dx p))) with (my_state p). rewrite Hst.
  apply (xwp_seq _ _ (λ _, inv p0 ended)).
  - set_unfold in Hs. destruct Hs as [-> |[-> |[-> |[]]]].
    + apply doNotifyingCommitPrepared_spec; auto.
    + apply xwp_ret. eapply inv_ended; [|exact Hi]. solve_settled.
    + apply xwp_ret. eapply inv_ended; [|exact Hi]. solve_settled.
  - intros [] p1 Hi1. apply xwp_bind, xwp_read. by apply quiet_wait_gxids.
Qed.

Definition ready_states : list DtxState :=
  [DTX_STATE_NONE; DTX_STATE_ONE_PHASE_COMMIT; DTX_STATE_NOTIFYING_ONE_PHASE_COMMIT; DTX_STATE_PREPARED].
Definition failing_states : list DtxState :=
  DTX_STATE_ACTIVE_DISTRIBUTED :: DTX_STATE_PREPARING :: ready_states.

(** the first phase *)
Lemma doPrepareTransaction_spec p0 p :
  inv p0 (capable [DTX_STATE_ACTIVE_DISTRIBUTED]) p →
  xwp doPrepareTransaction (λ _, inv p0 (capable [DTX_STATE_PREPARED]))
    (err (inv p0 (capable failing_states))) p.
Proof.
  intros Hi. eapply keeps_seq; [apply keeps_hook|exact Hi| |].
  { intros l msg s. apply err_mono, inv_capable. set_solver. }
  intros [] p1 Hi1. destruct (capable_reads _ _ _ Hi1) as [Hst1 _]. pose proof (inv_phase _ _ _ Hi1) as Hph1.
  rewrite Hst1 in Hph1. destruct Hph1 as (Hu & Hnp & Hna).
  eapply seq_capable; [exact Hi1|done| |done|].
  { split_and!; [done|done|]. intros s Hm. by apply Hnp in Hm. }
  intros p2 Hi2. destruct (capable_reads _ _ _ Hi2) as [Hst2 Hctx2]. eapply xwp_seq.
  { eapply xwp_mono; [apply broadcast_spec; [exact Hi2|by rewrite Hst2|done]|intros ?? Hq; exact Hq|].
    intros l msg s. apply err_mono, inv_capable. set_solver. }
  intros [] p3 (Hi3 & Hsm & Hach).
  2: { apply xwp_elog, err_error. eapply inv_capable; [|exact Hi3]. set_solver. }
  destruct (capable_reads _ _ _ Hi3) as [Hst3 _]. pose proof (inv_phase _ _ _ Hi3) as Hph3.
  rewrite Hst3 in Hph3. destruct Hph3 as (Hu3 & Hna3 & Ha3).
  eapply xwp_setCurrentDtxState; [exact Hi3|eapply inv_active; [exact Hi3|by rewrite Hst3]| |
    apply may_leave_settled; rewrite Hst3; solve_settled|].
  - refine (conj Hu3 (conj Hna3 (conj Ha3 _))). intros s Hs. destruct (sm_segs _ _ Hsm) as [Hse|Hss].
    { by rewrite Hst2 in Hse. }
    rewrite (dtx_same_gid _ _ Hsm). by apply (Hach eq_refl), Hss.
  - intros c l s0 Hc. by eapply capable_set.
Qed.

Lemma doNotifyingOnePhase_spec p0 p :
  inv p0 (capable [DTX_STATE_ONE_PHASE_COMMIT]) p →
  xwp doNotifyingOnePhaseCommit (λ _, inv p0 (capable ready_states))
    (err (inv p0 (capable failing_states))) p.
Proof.
  intros Hi. apply xwp_bind, xwp_read. case_bool_decide; [apply xwp_ret; eapply inv_capable; [|exact Hi]; set_solver|].
  destruct (capable_reads _ _ _ Hi) as [Hst _]. pose proof (inv_phase _ _ _ Hi) as Hph. rewrite Hst in Hph.
  eapply seq_capable; [exact Hi|done|exact Hph|done|]. intros p2 Hi2.
  eapply keeps_seq; [by apply keeps_plain_broadcast|exact Hi2| |].
  { intros l msg s. apply err_mono, inv_capable. set_solver. }
  intros [] p3 Hi3; [apply xwp_ret|apply xwp_elog, err_error]; (eapply inv_capable; [|exact Hi3]; set_solver).
Qed.

Lemma prepareDtx_spec p0 p :
  inv p0 live p →
  xwp prepareDtxTransaction (λ _, inv p0 (capable ready_states))
    (err (inv p0 (capable failing_states))) p.
Proof.
  intros Hi. apply xwp_bind, xwp_read. eapply inv_mono in Hi; [|apply live_capable].
  destruct (inv_key _ _ _ Hi) as (c & s & Hk & -> & Hs). unfold key in Hk.
  injection Hk as -> _ Hst. simpl. apply xwp_bind, xwp_read. unfold isCurrentDtxActivated.
  case_bool_decide as Hn; cbn [negb].
  { eapply xwp_resetTmGxact; [exact Hi|unfold my_state; rewrite Hn; solve_settled|].
    intros c l s0 (c' & s' & [= -> -> ->] & -> & _).
    eexists _, _. split; [done|]. split; [done|]. set_solver. }
  assert (inv p0 (capable [DTX_STATE_ACTIVE_DISTRIBUTED]) p) as Hi'.
  { apply inv_at in Hi as (s' & Hs' & Hi). destruct (capable_reads _ _ _ Hi) as [Hst' _].
    set_unfold in Hs'. destruct Hs' as [-> |[-> |[]]]; done. }
  do 3 (apply xwp_bind, xwp_read). case_match.
  - destruct (capable_reads _ _ _ Hi') as [Hst' _]. pose proof (inv_phase _ _ _ Hi') as Hph. rewrite Hst' in Hph.
    eapply seq_capable; [exact Hi'|done|exact Hph|done|]. intros p1 Hi1. by apply doNotifyingOnePhase_spec.
  - eapply xwp_mono; [by apply doPrepareTransaction_spec| |done]. intros ? p1. apply inv_capable. set_solver.
Qed.

(** ** Rolling back *)

Lemma retryAbortPrepared_quiet p0 K p :
  retry_abort_key K → inv p0 K p → xwp retryAbortPrepared (λ _, inv p0 K) doomed p.
Proof.
  intros HK Hi. apply xwp_bind, xwp_read. apply (xwp_seq _ _ (λ _, inv p0 K)).
  { case_match; [by apply xwp_ret|]. destruct (phase2_rounds_enough (env p)).
    apply retry_abort_quiet; [done|done|lia|done|]. by rewrite Z.eqb_refl. }
  intros [] p1 Hi1; [by apply xwp_ret|].
  eapply quiet_seq; [apply quiet_reset_gangs|exact Hi1|done|].
  intros _ p2 Hi2. by apply quiet_SetDtxRecoveryEvent.
Qed.

(** the state in which a rollback was interrupted by an error *)
Definition nap : dtx_key → Prop := capable [DTX_STATE_NOTIFYING_ABORT_NO_PREPARED].

Lemma abort_no_prepared_spec p0 p :
  inv p0 nap p → xwp doNotifyingAbort (λ _, inv p0 nap) (err (inv p0 nap)) p.
Proof.
  intros Hi. apply xwp_bind, xwp_read. destruct (capable_reads _ _ _ Hi) as [Hst _].
  change (dtxState (MyTmGxactLocal (dx p))) with (my_state p). rewrite Hst.
  eapply keeps_seq; [by apply keeps_plain_broadcast|exact Hi|done|]. intros [] p1 Hi1; [by apply xwp_ret|].
  by apply keeps_reset_gangs.
Qed.

Lemma abort_or_retry_spec cmd p0 s p :
  s = DTX_STATE_NOTIFYING_ABORT_SOME_PREPARED ∨ s = DTX_STATE_NOTIFYING_ABORT_PREPARED →
  allowed s cmd → inv p0 (capable [s]) p →
  xwp (ok ← try_broadcast cmd;
       if ok : bool then mret tt
       else setCurrentDtxState DTX_STATE_RETRY_ABORT_PREPARED;;
            setDistributedTransactionContext DTX_CONTEXT_QD_RETRY_PHASE_2;;
            retryAbortPrepared) (λ _, inv p0 ended) doomed p.
Proof.
  intros Hs Ha Hi. destruct (capable_reads _ _ _ Hi) as [Hst Hctx].
  eapply xwp_seq; [apply try_broadcast_spec; [exact Hi|by rewrite Hst|done]|].
  intros [] p1 (Hi1 & _ & _); [apply xwp_ret; eapply inv_ended; [|exact Hi1]; by destruct Hs as [-> | ->]; solve_settled|].
  destruct (capable_reads _ _ _ Hi1) as [Hst1 _]. pose proof (inv_phase _ _ _ Hi1) as Hph. rewrite Hst1 in Hph.
  eapply seq_capable; [exact Hi1|by destruct Hs as [-> | ->]..|]. intros p2 Hi2.
  apply (xwp_seq _ _ (λ _, inv p0 (retrying DTX_STATE_RETRY_ABORT_PREPARED))).
  { eapply xwp_setContext; [exact Hi2|]. by intros c l s1 (c' & s' & [= -> -> ->] & _ & ->%list_elem_of_singleton). }
  intros [] p3 Hi3. eapply xwp_mono; [eapply retryAbortPrepared_quiet; [|exact Hi3]| |done].
  - by intros c l s1 [= -> -> ->].
  - intros ? p4. apply inv_mono. intros k Hk. eapply ended_at_ended, retrying_ended_at, Hk. solve_settled.
Qed.

Lemma abort_prepared_spec p0 s p :
  s ∈ [DTX_STATE_NOTIFYING_ABORT_SOME_PREPARED; DTX_STATE_NOTIFYING_ABORT_PREPARED;
       DTX_STATE_RETRY_ABORT_PREPARED] →
  inv p0 (capable [s]) p →
  xwp doNotifyingAbort (λ _, inv p0 ended) doomed p.
Proof.
  intros Hs Hi. apply xwp_bind, xwp_read. destruct (capable_reads _ _ _ Hi) as [Hst _].
  change (dtxState (MyTmGxactLocal (dx p))) with (my_state p). rewrite Hst.
  set_unfold in Hs. destruct Hs as [-> |[-> |[-> |[]]]].
  - eapply (abort_or_retry_spec _ _ DTX_STATE_NOTIFYING_ABORT_SOME_PREPARED); [by left|by left|exact Hi].
  - eapply (abort_or_retry_spec _ _ DTX_STATE_NOTIFYING_ABORT_PREPARED); [by right|by right; left|exact Hi].
  - eapply xwp_mono; [eapply retryAbortPrepared_quiet; [|exact Hi]| |done].
    + by intros c l s1 (c' & s' & [= -> -> ->] & -> & ->%list_elem_of_singleton).
    + intros ? p4. apply inv_ended. solve_settled.
Qed.

Lemma inv_exit p0 K p :
  inv p0 K p → proc_exit_inprogress (xa p0) = false → proc_exit_inprogress (xa p) = false.
Proof. intros [[-> _ _ _] _ _ _]. by destruct (xa p0). Qed.

(** the branches of rollbackDtxTransaction for a state of the coordinator *)
Lemma rollbackDtx_at p0 s p Q E :
  inv p0 (capable [s]) p → s ≠ DTX_STATE_NONE →
  xwp (match s with
       | DTX_STATE_ACTIVE_DISTRIBUTED | DTX_STATE_ONE_PHASE_COMMIT
       | DTX_STATE_NOTIFYING_ONE_PHASE_COMMIT =>
           segs ← get_tml dtxSegments;
           lost ← currentGxactWriterGangLost;
           if bool_decide (segs = []) || lost then mret tt
           else broadcast_rollback DTX_STATE_NOTIFYING_ABORT_NO_PREPARED
       | DTX_STATE_PREPARING =>
           lost ← currentGxactWriterGangLost;
           broadcast_rollback (if lost : bool then DTX_STATE_RETRY_ABORT_PREPARED
                               else DTX_STATE_NOTIFYING_ABORT_SOME_PREPARED)
       | DTX_STATE_PREPARED => broadcast_rollback DTX_STATE_NOTIFYING_ABORT_PREPARED
       | DTX_STATE_NOTIFYING_ABORT_NO_PREPARED =>
           exiting ← get_xa proc_exit_inprogress;
           if exiting : bool then destroy_gangs false else reset_gangs
       | DTX_STATE_NOTIFYING_ABORT_SOME_PREPARED | DTX_STATE_NOTIFYING_ABORT_PREPARED =>
           elog FATAL "Unable to complete the 'Abort Prepared' broadcast"
       | _ => mret tt
       end) Q E p →
  xwp rollbackDtxTransaction Q E p.
Proof.
  intros Hi Hne Hgo. destruct (inv_key _ _ _ Hi) as (c & s' & Hk & -> & Hs%list_elem_of_singleton).
  subst s'. unfold key in Hk. injection Hk as Hc _ Hst.
  do 2 (apply xwp_bind, xwp_read). unfold isCurrentDtxActivated. rewrite Hc, Hst.
  rewrite bool_decide_true, bool_decide_false by done. cbn [negb orb].
  apply xwp_bind, xwp_read. rewrite Hst. by destruct s.
Qed.

Lemma broadcast_no_prepared_spec p0 s p :
  inv p0 (capable [s]) p → s ≠ DTX_STATE_NONE → ¬ unsettled s → proc_exit_inprogress (xa p0) = false →
  xwp (broadcast_rollback DTX_STATE_NOTIFYING_ABORT_NO_PREPARED) (λ _, inv p0 nap) (err (inv p0 nap)) p.
Proof.
  intros Hi Hn Hu Hexit. eapply seq_capable; [exact Hi|done..|]. intros p1 Hi1. apply xwp_bind, xwp_read.
  rewrite (inv_exit _ _ _ Hi1 Hexit). by apply abort_no_prepared_spec.
Qed.

Lemma broadcast_prepared_spec p0 s0 s p :
  s ∈ [DTX_STATE_NOTIFYING_ABORT_SOME_PREPARED; DTX_STATE_NOTIFYING_ABORT_PREPARED;
       DTX_STATE_RETRY_ABORT_PREPARED] →
  inv p0 (capable [s0]) p → s0 = DTX_STATE_PREPARING ∨ s0 = DTX_STATE_PREPARED →
  proc_exit_inprogress (xa p0) = false →
  xwp (broadcast_rollback s) (λ _, inv p0 ended) doomed p.
Proof.
  intros Hs Hi Hs0 Hexit. assert (undecided p) as Hu.
  { destruct (capable_reads _ _ _ Hi) as [Hst _]. pose proof (inv_phase _ _ _ Hi) as Hph. rewrite Hst in Hph.
    destruct Hs0 as [-> | ->]; apply Hph. }
  assert (phase_at s p) as Hph by (set_unfold in Hs; by destruct Hs as [-> |[-> |[-> |[]]]]).
  eapply seq_capable; [exact Hi|by destruct Hs0 as [-> | ->]|done|by destruct Hs0 as [-> | ->]|].
  intros p1 Hi1. apply xwp_bind, xwp_read.
  rewrite (inv_exit _ _ _ Hi1 Hexit). by eapply abort_prepared_spec.
Qed.

(** a transaction that was not prepared: [rolled] says that the context stays *)
Definition rolled : dtx_key → Prop :=
  at_state (λ c s, c = DTX_CONTEXT_QD_DISTRIBUTED_CAPABLE ∧ ¬ unsettled s).

Lemma inv_rolled S p0 p : Forall (λ s, ¬ unsettled s) S → inv p0 (capable S) p → inv p0 rolled p.
Proof.
  intros HS. apply inv_mono. intros k (c & s & -> & -> & Hs). rewrite Forall_forall in HS.
  eexists _, _. split; [done|]. auto.
Qed.
Lemma rolled_ended k : rolled k → ended k.
Proof. intros (c & s & -> & -> & ?). eexists _, _. split; [done|]. auto. Qed.

Lemma rollback_active p0 s p :
  s ∈ [DTX_STATE_ACTIVE_DISTRIBUTED; DTX_STATE_ONE_PHASE_COMMIT; DTX_STATE_NOTIFYING_ONE_PHASE_COMMIT] →
  inv p0 (capable [s]) p → proc_exit_inprogress (xa p0) = false →
  xwp rollbackDtxTransaction (λ _, inv p0 rolled) (err (inv p0 nap)) p.
Proof.
  intros Hs Hi Hexit. eapply rollbackDtx_at; [done|set_solver|].
  assert (¬ unsettled s) as Hu by (set_unfold in Hs; by destruct Hs as [-> |[-> |[-> |[]]]]; intros []).
  assert (xwp (segs ← get_tml dtxSegments; lost ← currentGxactWriterGangLost;
      if bool_decide (segs = []) || lost then mret tt
      else broadcast_rollback DTX_STATE_NOTIFYING_ABORT_NO_PREPARED)
      (λ _, inv p0 rolled) (err (inv p0 nap)) p) as Hgo.
  { do 2 (apply xwp_bind, xwp_read).
    case_match; [apply xwp_ret; eapply inv_rolled; [|exact Hi]; by repeat constructor|].
    eapply xwp_mono; [eapply broadcast_no_prepared_spec; [exact Hi|set_solver|done..]| |done].
    intros ? p1. apply inv_rolled. solve_settled. }
  set_unfold in Hs. by destruct Hs as [Hs|[Hs|[Hs|[]]]]; subst s.
Qed.

Lemma rollback_none p0 p E :
  inv p0 (capable [DTX_STATE_NONE]) p → xwp rollbackDtxTransaction (λ _, inv p0 rolled) E p.
Proof.
  intros Hi. do 2 (apply xwp_bind, xwp_read).
  destruct (inv_key _ _ _ Hi) as (c & s' & Hk & -> & Hs%list_elem_of_singleton).
  subst s'. unfold key in Hk. injection Hk as Hc _ Hst.
  unfold isCurrentDtxActivated. rewrite Hc, Hst, !bool_decide_true by done. cbn [negb orb].
  apply xwp_ret. eapply inv_rolled; [|exact Hi]. solve_settled.
Qed.

(** Rolling back a running transaction leaves the context as it is.  An error leaves the
    state from which a second attempt succeeds. *)
Lemma rollback_live p0 p :
  inv p0 live p → proc_exit_inprogress (xa p0) = false →
  xwp rollbackDtxTransaction (λ _, inv p0 rolled) (err (inv p0 nap)) p.
Proof.
  intros Hi Hexit. eapply inv_mono in Hi; [|apply live_capable].
  apply inv_at in Hi as (s & Hs & Hi). set_unfold in Hs. destruct Hs as [Hs|[Hs|[]]]; subst s.
  - by apply rollback_none.
  - eapply rollback_active; [|done..]. set_solver.
Qed.

Lemma rollback_failing p0 p :
  inv p0 (capable failing_states) p → proc_exit_inprogress (xa p0) = false →
  xwp rollbackDtxTransaction (λ _, inv p0 ended) (err (inv p0 nap)) p.
Proof.
  intros Hi Hexit. apply inv_at in Hi as (s & Hs & Hi).
  destruct (decide (s = DTX_STATE_NONE)) as [->|Hn].
  { eapply xwp_mono; [apply (rollback_none p0 p (err (inv p0 nap)) Hi)| |done].
    intros ? p1. apply inv_mono, rolled_ended. }
  destruct (decide (s ∈ [DTX_STATE_ACTIVE_DISTRIBUTED; DTX_STATE_ONE_PHASE_COMMIT;
                         DTX_STATE_NOTIFYING_ONE_PHASE_COMMIT])) as [Ha|Ha].
  { eapply xwp_mono; [by eapply rollback_active| |done]. intros ? p1. apply inv_mono, rolled_ended. }
  eapply rollbackDtx_at; [done..|]. set_unfold in Hs.
  destruct Hs as [Hs|[Hs|[Hs|[Hs|[Hs|[Hs|[]]]]]]]; subst s; try (exfalso; set_solver).
  - apply xwp_bind, xwp_read.
    eapply xwp_mono; [eapply (broadcast_prepared_spec _ DTX_STATE_PREPARING); [|done|by left|done]|done|intros; by right].
    case_match; set_solver.
  - eapply xwp_mono; [eapply (broadcast_prepared_spec _ DTX_STATE_PREPARED); [|done|by right|done]|done|intros; by right].
    set_solver.
Qed.

(** the second attempt *)
Lemma rollback_nap p0 p :
  inv p0 nap p → proc_exit_inprogress (xa p0) = false →
  xwp rollbackDtxTransaction (λ _, inv p0 rolled) doomed p.
Proof.
  intros Hi Hexit. eapply (rollbackDtx_at _ DTX_STATE_NOTIFYING_ABORT_NO_PREPARED); [done..|]. apply xwp_bind, xwp_read.
  rewrite (inv_exit _ _ _ Hi Hexit). eapply xwp_mono; [by apply quiet_reset_gangs| |done].
  intros ? p1. apply inv_rolled. solve_settled.
Qed.
End dtm_facts.
