(* ===== verification/DtmWorld.v ===== *)
(** * A small world

    A concrete environment for the transaction code: a clock, and segments that answer
    every command.  It shows that the assumptions of the theorems can hold, and sessions
    can be run in it.  [fail_on] makes one hook raise an error; the messages
    from [lost_from] up to [lost_to] do not reach the segments. *)
From S2P Require Import Prelude CLib BitUtils Bitmapset BitmapsetFacts Elog Dtm DtxInfo CdbTm TwoPhase Xact Session Protocol DtmFacts.

Record world := mkWorld {
  clock : Z;
  sent : list (dispatch_msg * list Z);
  fail_on : option hook;
  lost_from : nat;
  lost_to : nat }.

#[export] Instance hook_eq_dec : EqDecision hook.
Proof. solve_decision. Defined.

(** the command tag that a segment answers *)
Definition answer (m : dispatch_msg) : string :=
  match m with
  | DtxCommand c _ _ => DtxProtocolCommandToString c
  | QueryCommand text _ => text
  end.

(** the messages on which segments have acted *)
Definition acted (w : world) : list (dispatch_msg * list Z) :=
  take (lost_from w) (sent w) ++ drop (lost_from w `max` lost_to w)%nat (sent w).
Definition last_lost (w : world) : bool :=
  bool_decide (lost_from w < length (sent w) ≤ lost_to w)%nat.

(** what segments do: they prepare, commit or abort at once *)
#[export] Instance seg_event_eq_dec : EqDecision seg_event.
Proof. solve_decision. Defined.
Definition caused (l : list (dispatch_msg * list Z)) (s : Z) (gid : string) (e : seg_event) : bool :=
  existsb (λ '(m, segs), bool_decide (s ∈ segs) && bool_decide (e ∈ msg_causes m gid)) l.

(** pg_prepared_xacts *)
Definition prepared_on (l : list (dispatch_msg * list Z)) (s : Z) : list string :=
  filter (λ gid, caused l s gid DidPrepare = true ∧ caused l s gid DidCommit = false ∧
                 caused l s gid DidAbort = false)
    (concat (map (λ '(m, _), match m with DtxCommand _ gid _ => [gid] | QueryCommand _ _ => [] end) l)).

#[export] Instance world_env : XactEnv world := {
  run_hook h w := (if bool_decide (fail_on w = Some h) then Some (ERROR, "hook failed") else None, w);
  pending_deletes w := false;
  pending_invals w := false;
  dispatch_send m segs w :=
    ((None, false), mkWorld (clock w + 1) (sent w ++ [(m, segs)]) (fail_on w) (lost_from w) (lost_to w));
  dispatch_wait w :=
    ((match last (sent w) with
      | Some (m, segs) =>
          if last_lost w then DispatchQEError "segment is down"
          else DispatchResults (Some ((λ s, mkPgResult true (answer m) [] (prepared_on (acted w) s)) <$> segs))
      | None => DispatchResults None
      end, false), w);
  cdbcomponent_getCdbComponentsList w := [0; 1];
  getgpsegmentCount w := 2;
  cleanup_dispatcher w := ((tt, false), w);
  ResetAllGangs w := w;
  DisconnectAndDestroyAllGangs b w := w;
  time w := clock w / 1000000;
  pg_usleep n w := mkWorld (clock w + n) (sent w) (fail_on w) (lost_from w) (lost_to w);
  quote_identifier s := s;
  GxactLockTableWait g w := w }.

#[export] Instance world_calm : CalmEnv world.
Proof.
  refine {| tick := clock |}; intros; cbn in *; try lia; try done.
  - by case_bool_decide; simplify_eq; left.
  - by repeat case_match; simplify_eq.
Defined.

Definition world_may (w : world) (s : Z) (gid : string) (e : seg_event) : Prop := caused (sent w) s gid e = true.
Definition world_happened (w : world) (s : Z) (gid : string) (e : seg_event) : Prop :=
  caused (acted w) s gid e = true.

Lemma caused_spec l s gid e :
  caused l s gid e = true ↔ ∃ m segs, (m, segs) ∈ l ∧ s ∈ segs ∧ e ∈ msg_causes m gid.
Proof.
  unfold caused. rewrite existsb_exists. split.
  - intros ([m segs] & Hin%list_elem_of_In & [?%bool_decide_eq_true ?%bool_decide_eq_true]%andb_true_iff). by exists m, segs.
  - intros (m & segs & Hin%list_elem_of_In & Hs & He). exists (m, segs). split; [done|].
    by rewrite !bool_decide_true.
Qed.
Lemma caused_mono l l' s gid e : l ⊆ l' → caused l s gid e = true → caused l' s gid e = true.
Proof. rewrite !caused_spec. intros Hl (m & segs & Hin & ? & ?). exists m, segs. auto. Qed.
Lemma acted_sent w : acted w ⊆ sent w.
Proof.
  unfold acted. intros x [Hx|Hx]%elem_of_app; [by apply (subseteq_take (lost_from w))|by eapply subseteq_drop].
Qed.
Lemma acted_send m segs w : acted w ⊆ acted (dispatch_send m segs w).2.
Proof.
  unfold acted. cbn. rewrite take_app, drop_app. set_solver.
Qed.

Lemma world_may_send w m segs s gid e :
  world_may (dispatch_send m segs w).2 s gid e ↔ world_may w s gid e ∨ (s ∈ segs ∧ e ∈ msg_causes m gid).
Proof. unfold world_may. rewrite !caused_spec. cbn. set_solver. Qed.

Lemma last_acted w m segs : last_lost (dispatch_send m segs w).2 = false → (m, segs) ∈ acted (dispatch_send m segs w).2.
Proof.
  unfold last_lost, acted. cbn. rewrite bool_decide_eq_false, length_app. cbn. intros Hn.
  destruct (decide (length (sent w) < lost_from w)%nat).
  - rewrite take_ge by (rewrite length_app; cbn; lia). set_solver.
  - rewrite drop_app_le by lia. set_solver.
Qed.

Lemma world_answer (c : DtxProtocolCommand) gid info segs w w1 (rs : list pg_result) lost lost' w2 s :
  dispatch_send (DtxCommand c gid info) segs w = ((None, lost), w1) →
  dispatch_wait w1 = ((DispatchResults (Some rs), lost'), w2) → s ∈ segs →
  ∀ e, e ∈ causes c → world_happened w2 s gid e.
Proof.
  intros Hsend Hwait Hs e He. pose proof (last_acted w (DtxCommand c gid info) segs) as Hl.
  rewrite Hsend in Hl. cbn [snd] in Hl. cbn in Hsend. injection Hsend as <- <-. cbn in Hwait.
  rewrite last_snoc in Hwait. destruct (last_lost _) eqn:Hll; [done|]. injection Hwait as _ _ <-.
  apply caused_spec. exists (DtxCommand c gid info), segs. split; [by apply Hl|]. cbn. by rewrite bool_decide_true.
Qed.

#[export] Instance world_segments : Segments world.
Proof.
  refine {| may := world_may; happened := world_happened |}; try done.
  - intros w s gid e. apply caused_mono, acted_sent.
  - intros. apply world_may_send.
  - intros m segs w s gid e. apply caused_mono, acted_send.
  - intros c gid info segs w lost w1 lost' rs w2 s Hsend Hwait _ Hs.
    pose proof (world_answer _ _ _ _ _ _ _ _ _ _ _ Hsend Hwait Hs) as Ha.
    destruct c; try done; cbn in Ha; intros; apply Ha; set_solver.
Defined.

(** a backend of the coordinator *)
Definition coordinator : Backend := {|
  Gp_role := GP_ROLE_DISPATCH;
  Gp_is_writer := true;
  IS_QUERY_DISPATCHER := true;
  MyBackendId := 1;
  gp_session_id := 7;
  UserId := 10;
  superuser_arg := λ _, true;
  MyDatabaseId := 5;
  SharedLocalSnapshotSlot_present := true;
  DefaultXactIsoLevel := XACT_READ_COMMITTED;
  DefaultXactReadOnly := false;
  DefaultXactDeferrable := false;
  max_prepared_xacts := 50;
  gp_gxid_prefetch_num := 8192;
  dtx_phase2_retry_second := 2;
  max_tm_gxacts := 100 |}.

Lemma coordinator_ok : QDBackend (H := coordinator).
Proof. split; done. Qed.

(** a server that has just started, and a process without a transaction *)
Definition fresh_server : server :=
  mkServer [] 0 ∅ ∅ [] 100 1 0 0 0 true [].
Definition no_transaction : TransactionStateData :=
  mkTransactionState None 0 TRANS_DEFAULT TBLOCK_DEFAULT 0 0 0 [] false false 0 false.
Definition fresh_xact : xact_vars :=
  mkXactVars no_transaction [] 0 0 false 0 false false 0 false false 0 None 0 false None false.
Definition fresh_dtx : dtx_vars :=
  mkDtxVars DTX_CONTEXT_LOCAL_ONLY emptyDtxContextInfo (mkTMGXACT 0 0 false 0)
    (mkTMGXACTLOCAL DTX_STATE_NONE false false false None [] []) LOCALDISTRIBXACT_STATE_NONE 0 0.
Definition fresh_proc (w : world) : proc world := mkProc fresh_xact fresh_dtx fresh_server w.
Definition quiet_world : world := mkWorld 0 [] None 0 0.
