(* ===== verification/XactFacts.v ===== *)
(** * Facts about transactions of the coordinator

    The invariant of the stack of transaction states, and what each low-level routine of
    [Xact.v] does to it, on every way out.  A description lists the levels from the
    current one outwards; the identifiers of the levels that are still open are different
    from each other and have no status in the commit log, which only ever grows. *)
From S2P Require Import Prelude CLib BitUtils Bitmapset BitmapsetFacts Elog Dtm DtxInfo CdbTm Protocol DtmFacts TwoPhase Xact.

(** ** Levels *)

Definition level_desc : Type := TBlockState * TransState * option string.
Definition desc (s : TransactionStateData) : level_desc := (blockState s, state s, name s).
Definition level_ok (s : TransactionStateData) : Prop := parallelModeLevel s = 0 ∧ savepointLevel s = 0.

(** the identifiers that a level would commit *)
Definition own_ids (s : TransactionStateData) : list Z :=
  (if TransactionIdIsValid (fullTransactionId s) then [fullTransactionId s] else []) ++ childXids s.
(** an aborted level has none *)
Definition level_ids (s : TransactionStateData) : list Z :=
  if bool_decide (state s = TRANS_ABORT) then [] else own_ids s.
Definition ids_live (l : list TransactionStateData) : list Z := concat (level_ids <$> l).
(** the current level is about to be recorded as aborted *)
Definition ids_aborting (l : list TransactionStateData) : list Z :=
  match l with [] => [] | s :: rest => own_ids s ++ ids_live rest end.
(** the current level is about to go away *)
Definition ids_parents (l : list TransactionStateData) : list Z := ids_live (tail l).
(** the transaction is recorded as committed *)
Definition ids_none (l : list TransactionStateData) : list Z := [].

Lemma levels_current x : ∃ rest, levels x = CurrentTransactionState x :: rest.
Proof. unfold levels, CurrentTransactionState. destruct (subtransactions x); simpl; eauto. Qed.

Lemma levels_upd_current f x s rest :
  levels x = s :: rest → levels (upd_current f x) = f s :: rest.
Proof.
  unfold levels, upd_current. destruct x as [t subs]; simpl. destruct subs; simpl; by intros [= -> ->].
Qed.

Lemma upd_current_same f x :
  XactTopFullTransactionId (upd_current f x) = XactTopFullTransactionId x ∧
  MyLockedGxact (upd_current f x) = MyLockedGxact x ∧
  proc_exit_inprogress (upd_current f x) = proc_exit_inprogress x.
Proof. unfold upd_current. by destruct (subtransactions x). Qed.

Lemma current_levels x s rest : levels x = s :: rest → CurrentTransactionState x = s.
Proof. destruct (levels_current x) as [rest' ->]. by intros [= -> _]. Qed.

(** the identifier of the transaction, until it is aborted, and its chain flag and its
    nesting level *)
Definition top_ok (ch : bool) (x : xact_vars) : Prop :=
  (state (TopTransactionStateData x) ≠ TRANS_ABORT →
   XactTopFullTransactionId x = fullTransactionId (TopTransactionStateData x)) ∧
  (state (TopTransactionStateData x) = TRANS_DEFAULT →
   fullTransactionId (TopTransactionStateData x) = InvalidTransactionId) ∧
  chain (TopTransactionStateData x) = ch ∧ nestingLevel (TopTransactionStateData x) < 2.

(** ** Identifiers *)

Record xids_ok (ids : list Z) (s : server) : Prop := {
  xids_nodup : NoDup ids;
  xids_open : Forall (λ i, i < nextXid s ∧ clog s !! i = None) ids;
  xids_clog : ∀ i st, clog s !! i = Some st → i < nextXid s }.

Lemma xids_ok_sublist ids ids' s : sublist ids' ids → xids_ok ids s → xids_ok ids' s.
Proof.
  intros Hs [Hn Ho Hc]. split; [by eapply sublist_NoDup| |done].
  rewrite Forall_forall in *. intros i Hi. apply Ho. by eapply elem_of_sublist.
Qed.
Lemma xids_ok_perm ids ids' s : ids' ≡ₚ ids → xids_ok ids s → xids_ok ids' s.
Proof. intros Hp [Hn Ho Hc]. split; [by rewrite Hp|by rewrite Hp|done]. Qed.

Lemma set_tree_lookup xids st m i :
  set_tree xids st m !! i = if bool_decide (i ∈ xids) then Some st else m !! i.
Proof.
  revert m. induction xids as [|x xids IH]; intros m; simpl; [done|]. rewrite IH.
  repeat case_bool_decide; try set_solver.
  - assert (i = x) as -> by set_solver. by rewrite lookup_insert_eq.
  - rewrite lookup_insert_ne; [done|set_solver].
Qed.

(** giving open transactions a status extends the commit log *)
Lemma set_tree_extends xids st m : Forall (λ i, m !! i = None) xids → m ⊆ set_tree xids st m.
Proof.
  intros Hn. apply map_subseteq_spec. intros i v Hi. rewrite set_tree_lookup.
  case_bool_decide as Hin; [|done]. rewrite Forall_forall in Hn. apply Hn in Hin. congruence.
Qed.

Lemma set_tree_xids_ok xids rest st s :
  xids_ok (xids ++ rest) s → xids_ok rest (set_clog (set_tree xids st (clog s)) s).
Proof.
  intros [(Hn1 & Hd & Hn2)%NoDup_app Ho Hc]. apply Forall_app in Ho as [Ho1 Ho2].
  rewrite Forall_forall in Ho1, Ho2. split; [done| |].
  - apply Forall_forall. intros i Hi. cbn. rewrite set_tree_lookup. split; [by apply Ho2|].
    rewrite bool_decide_false by naive_solver. by apply Ho2.
  - intros i v. cbn. rewrite set_tree_lookup. case_bool_decide; [|apply Hc].
    intros _. by apply Ho1.
Qed.

(** ** The invariant of a process *)

Section xact_facts.
Context {W : Type} `{!XactEnv W, !Segments W, !CalmEnv W} `{Backend, !QDBackend}.
Notation X := (X (proc W)).

(** everything but the identifiers; [c0] is a commit log from before and the chain flag *)
Record proc_ok (c0 : gmap Z XidStatus * bool) (L : list level_desc) (K : dtx_key → Prop) (p : proc W) : Prop := {
  po_desc : desc <$> levels (xa p) = L;
  po_levels : Forall level_ok (levels (xa p));
  po_top : top_ok c0.2 (xa p);
  po_clog : c0.1 ⊆ clog (sv p);
  po_locked : MyLockedGxact (xa p) = None;
  po_exit : proc_exit_inprogress (xa p) = false;
  po_started : serving (sv p) = (true, []);
  po_dtm : dtm_ok p;
  po_key : K (key (dx p)) }.

(** [F] gives the identifiers that are open *)
Definition sessF (F : list TransactionStateData → list Z) c0 L K (p : proc W) : Prop :=
  proc_ok c0 L K p ∧ xids_ok (F (levels (xa p))) (sv p).
Definition sess := sessF ids_live.

(** the transaction manager keeps it *)
Lemma proc_ok_inv c0 L K K' p p' : proc_ok c0 L K p → inv p K' p' → proc_ok c0 L K' p'.
Proof.
  intros [] [[Hx Hc Hn Hs] _ Hok HK].
  split; [..|exact Hok|exact HK]; rewrite ?Hc, ?Hs; try done; rewrite Hx; by destruct (xa p).
Qed.

Lemma sessF_inv F c0 L K K' p p' : sessF F c0 L K p → inv p K' p' → sessF F c0 L K' p'.
Proof.
  intros [Hp Hids] Hi. split; [by eapply proc_ok_inv|]. destruct Hi as [[Hx Hc Hn Hs] _ _ _].
  assert (levels (xa p') = levels (xa p)) as -> by (rewrite Hx; by destruct (xa p)).
  destruct Hids. split; [done|by rewrite Hn, Hc|by rewrite Hn, Hc].
Qed.

Lemma sessF_refl F c0 L K p : sessF F c0 L K p → inv p K p.
Proof. intros [Hp _]. apply inv_refl; apply Hp. Qed.

Lemma sessF_key F c0 L (K K' : dtx_key → Prop) p :
  (∀ k, K k → K' k) → sessF F c0 L K p → sessF F c0 L K' p.
Proof. intros HK [[] ?]. split; [split|]; auto. Qed.

(** lifting of specifications of the transaction manager *)
Lemma sess_lift {A} (m : X A) F c0 L K K1 K2 p :
  sessF F c0 L K p → (inv p K p → xwp m (λ _, inv p K1) (err (inv p K2)) p) →
  xwp m (λ _, sessF F c0 L K1) (err (sessF F c0 L K2)) p.
Proof.
  intros Hs Hm. eapply xwp_mono; [by apply Hm, (sessF_refl F c0 L)| |].
  - intros a p'. by apply sessF_inv with K.
  - intros l msg p'. apply err_mono. by apply sessF_inv with K.
Qed.
Lemma sess_lift_quiet {A} (m : X A) F c0 L K K1 p :
  sessF F c0 L K p → (inv p K p → xwp m (λ _, inv p K1) doomed p) →
  xwp m (λ _, sessF F c0 L K1) doomed p.
Proof.
  intros Hs Hm. eapply xwp_mono; [by apply Hm, (sessF_refl F c0 L)| |done].
  intros a p'. by apply sessF_inv with K.
Qed.

(** ** Updates of the stack *)

Ltac solve_desc := intros [] ?; unfold desc in *; cbn in *; simplify_eq; done.

Lemma sess_xa F F' c0 L K p x' :
  sessF F c0 L K p → MyLockedGxact x' = MyLockedGxact (xa p) →
  proc_exit_inprogress x' = proc_exit_inprogress (xa p) → Forall level_ok (levels x') →
  top_ok c0.2 x' → xids_ok (F' (levels x')) (sv p) →
  sessF F' c0 (desc <$> levels x') K (upd_xa (λ _, x') p).
Proof.
  intros [[] _] Hl He Hok Htop Hids. split; [|done]. split; cbn [xa sv dx upd_xa]; try done; [congruence..|].
  by apply (dtm_ok_step p).
Qed.

(** variables that are not about the stack *)
Definition same_stack (x x' : xact_vars) : Prop :=
  (TopTransactionStateData x', subtransactions x', XactTopFullTransactionId x', MyLockedGxact x',
   proc_exit_inprogress x') =
  (TopTransactionStateData x, subtransactions x, XactTopFullTransactionId x, MyLockedGxact x,
   proc_exit_inprogress x).

Lemma xwp_same_stack g F c0 L K E p :
  sessF F c0 L K p → (∀ x, same_stack x (g x)) → xwp (modify_xa g) (λ _, sessF F c0 L K) E p.
Proof.
  intros Hs Hg. apply xwp_modify. specialize (Hg (xa p)). injection Hg as Ht Hsub Hx Hl He.
  assert (levels (g (xa p)) = levels (xa p)) as Hlv by (unfold levels; congruence).
  destruct (Hs) as [Hp Hids]. rewrite <- (po_desc _ _ _ _ Hp), <- Hlv.
  apply (sess_xa F F _ L); [done..| | |].
  - rewrite Hlv. apply Hp.
  - unfold top_ok. rewrite Ht, Hx. apply Hp.
  - by rewrite Hlv.
Qed.

(** what is known of the topmost level after a change of the current one *)
Lemma top_upd_current f x s rest :
  levels x = s :: rest →
  TopTransactionStateData (upd_current f x) =
  match rest with [] => f (TopTransactionStateData x) | _ => TopTransactionStateData x end.
Proof.
  unfold levels, upd_current. destruct x as [t subs]; simpl. destruct subs as [|u subs]; simpl.
  - by intros [= -> <-].
  - intros [= -> <-]. by destruct subs.
Qed.
Lemma top_last x s rest :
  levels x = s :: rest → TopTransactionStateData x = match rest with [] => s | _ => TopTransactionStateData x end.
Proof.
  unfold levels. destruct x as [t subs]; simpl. destruct subs as [|u subs]; simpl; [by intros [= -> <-]|].
  intros [= -> <-]. by destruct subs.
Qed.

(** an update of the current level that keeps its identifier, or aborts it *)
Lemma sess_currentF F F' f d d' c0 L K p :
  sessF F c0 (d :: L) K p →
  (∀ s, desc s = d → desc (f s) = d') → (∀ s, level_ok s → level_ok (f s)) →
  (∀ s rest, desc s = d → sublist (F' (f s :: rest)) (F (s :: rest))) →
  (∀ s, fullTransactionId (f s) = fullTransactionId s ∧ chain (f s) = chain s ∧
        nestingLevel (f s) = nestingLevel s) →
  L ≠ [] ∨ d'.1.2 = TRANS_ABORT ∨ d.1.2 ≠ TRANS_ABORT →
  L ≠ [] ∨ d'.1.2 ≠ TRANS_DEFAULT ∨ d.1.2 = TRANS_DEFAULT →
  sessF F' c0 (d' :: L) K (upd_xa (upd_current f) p).
Proof.
  intros Hs Hd Hok Hids Hfull Hab Hdef. destruct (Hs) as [[Hdesc Hlv Htop _ _ _ _ _ _] Hx].
  destruct (levels_current (xa p)) as [rest Hl]. set (s := CurrentTransactionState (xa p)) in *.
  rewrite Hl in Hdesc. injection Hdesc as Hds HL. pose proof (levels_upd_current f _ _ _ Hl) as Hl'.
  assert (d' :: L = desc <$> levels (upd_current f (xa p))) as ->.
  { rewrite Hl'. simpl. by rewrite HL, (Hd s). }
  assert (state (f s) = d'.1.2) as Hst' by (by rewrite <- (Hd s Hds)).
  assert (state s = d.1.2) as Hst by (by rewrite <- Hds).
  apply (sess_xa F F' _ (d :: L)); [done|apply upd_current_same..| | |].
  - rewrite Hl', Hl in *. apply Forall_cons in Hlv as [??]. apply Forall_cons. auto.
  - unfold top_ok in *. rewrite (top_upd_current _ _ _ _ Hl), (top_last _ _ _ Hl) in *.
    rewrite (proj1 (upd_current_same f (xa p))). destruct rest; [|done].
    destruct (Hfull s) as (-> & -> & ->). split_and!; [intros Hne; apply Htop..|apply Htop|apply Htop].
    + destruct Hab as [Hab|[Hab|Hab]]; [by destruct L|congruence..].
    + destruct Hdef as [Hdef|[Hdef|Hdef]]; [by destruct L|congruence..].
  - rewrite Hl', Hl in *. eapply xids_ok_sublist; [|exact Hx]. auto.
Qed.

Lemma sess_current f d d' c0 L K p :
  sess c0 (d :: L) K p →
  (∀ s, desc s = d → desc (f s) = d') → (∀ s, level_ok s → level_ok (f s)) →
  (∀ s, fullTransactionId (f s) = fullTransactionId s ∧ childXids (f s) = childXids s ∧
        chain (f s) = chain s ∧ nestingLevel (f s) = nestingLevel s) →
  d'.1.2 = TRANS_ABORT ∨ d.1.2 ≠ TRANS_ABORT → d'.1.2 ≠ TRANS_DEFAULT ∨ d.1.2 = TRANS_DEFAULT →
  sess c0 (d' :: L) K (upd_xa (upd_current f) p).
Proof.
  intros Hs Hd Hok Hids Hab Hdef. eapply sess_currentF; [done..| | |by right|by right].
  2: { intros s. split_and!; apply Hids. }
  intros s rest Hds. apply sublist_app; [|done]. unfold level_ids, own_ids.
  destruct (Hids s) as (-> & -> & _).
  assert (state (f s) = d'.1.2) as -> by (by rewrite <- (Hd s Hds)).
  assert (state s = d.1.2) as -> by (by rewrite <- Hds).
  destruct Hab as [->|Hne]; [by rewrite bool_decide_true; [apply sublist_nil_l|]|].
  rewrite (bool_decide_false (d.1.2 = _)) by done. case_match; [apply sublist_nil_l|done].
Qed.

Lemma xwp_current f d d' c0 L K E p :
  sess c0 (d :: L) K p →
  (∀ s, desc s = d → desc (f s) = d') → (∀ s, level_ok s → level_ok (f s)) →
  (∀ s, fullTransactionId (f s) = fullTransactionId s ∧ childXids (f s) = childXids s ∧
        chain (f s) = chain s ∧ nestingLevel (f s) = nestingLevel s) →
  d'.1.2 = TRANS_ABORT ∨ d.1.2 ≠ TRANS_ABORT → d'.1.2 ≠ TRANS_DEFAULT ∨ d.1.2 = TRANS_DEFAULT →
  xwp (modify_current f) (λ _, sess c0 (d' :: L) K) E p.
Proof. intros. apply xwp_modify. by eapply sess_current. Qed.

Lemma xwp_set_trans t' c0 b t n L K E p :
  sess c0 ((b, t, n) :: L) K p → t ≠ TRANS_ABORT → t' ≠ TRANS_DEFAULT →
  xwp (set_trans t') (λ _, sess c0 ((b, t', n) :: L) K) E p.
Proof. intros Hs Ht Ht'. eapply xwp_current; [exact Hs|solve_desc|by intros s []|done|by right|by left]. Qed.
Lemma xwp_set_block b' c0 b t n L K E p :
  sess c0 ((b, t, n) :: L) K p → xwp (set_block b') (λ _, sess c0 ((b', t, n) :: L) K) E p.
Proof.
  intros Hs. eapply xwp_current; [exact Hs|solve_desc|by intros s []|done|cbn..].
  - destruct (decide (t = TRANS_ABORT)); auto.
  - destruct (decide (t = TRANS_DEFAULT)); auto.
Qed.
Lemma xwp_set_name n' c0 b t n L K E p :
  sess c0 ((b, t, n) :: L) K p → xwp (modify_current (set_name n')) (λ _, sess c0 ((b, t, n') :: L) K) E p.
Proof.
  intros Hs. eapply xwp_current; [exact Hs|solve_desc|by intros s []|done|cbn..].
  - destruct (decide (t = TRANS_ABORT)); auto.
  - destruct (decide (t = TRANS_DEFAULT)); auto.
Qed.
(** fields that the description does not show *)
Lemma xwp_neutral f c0 d L K E p :
  sess c0 (d :: L) K p → (∀ s, desc (f s) = desc s) → (∀ s, level_ok s → level_ok (f s)) →
  (∀ s, fullTransactionId (f s) = fullTransactionId s ∧ childXids (f s) = childXids s ∧
        chain (f s) = chain s ∧ nestingLevel (f s) = nestingLevel s) →
  xwp (modify_current f) (λ _, sess c0 (d :: L) K) E p.
Proof.
  intros Hs Hd Hok Hids. eapply xwp_current; [exact Hs|by intros s <-|done..| |].
  - destruct (decide (d.1.2 = TRANS_ABORT)); auto.
  - destruct (decide (d.1.2 = TRANS_DEFAULT)); auto.
Qed.

(** reading the current level *)
Lemma sess_read F c0 b t n L K p :
  sessF F c0 ((b, t, n) :: L) K p →
  blockState (CurrentTransactionState (xa p)) = b ∧ state (CurrentTransactionState (xa p)) = t ∧
  name (CurrentTransactionState (xa p)) = n ∧ level_ok (CurrentTransactionState (xa p)).
Proof.
  intros [[Hd Hlv _ _ _ _ _ _ _] _]. destruct (levels_current (xa p)) as [rest Hl]. rewrite Hl in *.
  injection Hd as -> -> -> _. apply Forall_cons in Hlv as [? _]. auto.
Qed.

(** ** Commands *)

Lemma sess_hook h F c0 L K p :
  sessF F c0 L K p → xwp (call_hook h) (λ _, sessF F c0 L K) (err (sessF F c0 L K)) p.
Proof. intros Hs. eapply sess_lift; [done|]. intros Hi. by apply keeps_hook. Qed.

Lemma CommandCounterIncrement_spec F c0 L K p :
  sessF F c0 L K p → xwp CommandCounterIncrement (λ _, sessF F c0 L K) (err (sessF F c0 L K)) p.
Proof.
  intros Hs. apply xwp_bind, xwp_read. case_match; [by apply xwp_ret|].
  apply xwp_bind, xwp_read. case_match; [apply xwp_elog; auto|]. apply xwp_bind, xwp_read.
  case_match; [apply xwp_elog; auto|].
  eapply xwp_seq; [by apply (xwp_same_stack _ F c0 L K)|]. intros [] p1 Hs1. by apply sess_hook.
Qed.

(** ** Aborting *)

Lemma xwp_crit {A} (m : X A) Q (E : elevel → string → proc W → Prop) p :
  xwp m Q (λ l msg s, E (if bool_decide (l = ERROR) then PANIC else l) msg s) p →
  xwp (crit_section m) Q E p.
Proof. unfold xwp, crit_section. by destruct (m p) as [[a|[] msg] s]. Qed.

Lemma doomed_crit l msg (s : proc W) :
  doomed l msg s → doomed (if bool_decide (l = ERROR) then PANIC else l) msg s.
Proof. intros Hf. case_bool_decide as Hl; [|done]. subst l. by apply doomed_not_error in Hf. Qed.

(** give the identifiers [ids] a status *)
Lemma sess_set_tree F F' ids st c0 L K p :
  sessF F c0 L K p → (∃ rest, F (levels (xa p)) ≡ₚ ids ++ rest ∧ sublist (F' (levels (xa p))) rest) →
  sessF F' c0 L K (upd_sv (λ s, set_clog (set_tree ids st (clog s)) s) p).
Proof.
  intros [[] Hx] (rest & Hp & Hsub). eapply xids_ok_perm in Hx; [|symmetry; exact Hp].
  assert (clog (sv p) ⊆ set_tree ids st (clog (sv p))) as Hext.
  { apply set_tree_extends. destruct Hx as [_ Ho _]. apply Forall_app in Ho as [Ho _].
    eapply Forall_impl; [exact Ho|]. by intros i [_ ?]. }
  split.
  - split; cbn [xa sv dx upd_sv set_clog clog DtmStarted]; try done; [by etrans|by apply (dtm_ok_step p)].
  - eapply xids_ok_sublist; [exact Hsub|]. by apply set_tree_xids_ok.
Qed.

Lemma sess_abort_done c0 b n L K p :
  sessF ids_aborting c0 ((b, TRANS_ABORT, n) :: L) K p → sess c0 ((b, TRANS_ABORT, n) :: L) K p.
Proof.
  intros Hs. destruct (sess_read _ _ _ _ _ _ _ _ Hs) as (_ & Hst & _ & _). destruct Hs as [Hp Hx].
  split; [done|]. destruct (levels_current (xa p)) as [rest Hl]. rewrite Hl in *.
  eapply xids_ok_sublist; [|exact Hx]. unfold ids_live, ids_aborting. simpl.
  apply sublist_app; [|done]. unfold level_ids. rewrite Hst, bool_decide_true by done. apply sublist_nil_l.
Qed.

Lemma xwp_XLogInsert r F c0 L K Q E p :
  plain r → sessF F c0 L K p →
  (∀ lsn p', sessF F c0 L K p' → levels (xa p') = levels (xa p) → Q lsn p') →
  xwp (XLogInsert r) Q E p.
Proof.
  intros Hr Hs Hf. pose proof (quiet_XLogInsert r Hr p K p (sessF_refl _ _ _ _ _ Hs)) as Hq.
  unfold xwp in Hq |- *. cbn in Hq |- *. apply Hf; [by eapply sessF_inv|reflexivity].
Qed.

Lemma failing_not_rolling d :
  dtxState (MyTmGxactLocal d) ∈ failing_states → CurrentDtxIsRollingback d = false.
Proof.
  unfold CurrentDtxIsRollingback. intros Hs. set_unfold in Hs.
  by destruct Hs as [Hs|[Hs|[Hs|[Hs|[Hs|[Hs|[]]]]]]]; rewrite Hs.
Qed.

(** the states in which an abort record is written *)
Lemma RecordTransactionAbort_spec sub c0 b n L K p :
  sessF ids_aborting c0 ((b, TRANS_ABORT, n) :: L) K p → (∀ k, K k → capable failing_states k) →
  xwp (RecordTransactionAbort sub) (λ _, sess c0 ((b, TRANS_ABORT, n) :: L) K)
    doomed p.
Proof.
  intros Hs HK. destruct (HK _ (po_key _ _ _ _ (proj1 Hs))) as (c & s & Hk & -> & Hst).
  unfold key in Hk. injection Hk as Hc Hl Hds.
  do 5 (apply xwp_bind, xwp_read). rewrite Hc, Hl, Hds. cbv zeta.
  assert (s ≠ DTX_STATE_NOTIFYING_COMMIT_PREPARED) as Hn.
  { intros ->. set_unfold in Hst. naive_solver. }
  rewrite (failing_not_rolling (dx p)), !bool_decide_false by (done || by rewrite Hds).
  cbn [orb]. destruct (TransactionIdIsValid _) eqn:Hv; cbn [negb].
  2: { eapply xwp_seq; [|intros ? p1 Hs1; apply xwp_ret, Hs1].
       apply sess_abort_done in Hs. destruct sub; [done|]. by apply (xwp_same_stack _ ids_live). }
  destruct (levels_current (xa p)) as [rest Hlv]. set (cur := CurrentTransactionState (xa p)) in *.
  assert (own_ids cur = fullTransactionId cur :: childXids cur) as Hown.
  { unfold own_ids. by rewrite Hv. }
  apply xwp_bind, xwp_read. unfold TransactionIdDidCommit. rewrite bool_decide_false.
  2: { destruct Hs as [_ [_ Ho _]]. rewrite Hlv in Ho. cbn in Ho. rewrite Hown in Ho.
       apply Forall_cons in Ho as [[_ ->] _]. done. }
  apply xwp_bind, xwp_read. apply (xwp_seq _ _ (λ _, sess c0 ((b, TRANS_ABORT, n) :: L) K)).
  - apply xwp_crit, xwp_bind, xwp_bind, xwp_read.
    eapply xwp_XLogInsert; [done|exact Hs|]. intros lsn p1 Hs1 Hlv1. apply xwp_modify.
    eapply sess_set_tree; [exact Hs1|]. rewrite Hlv1, Hlv. exists (ids_live rest). cbn. rewrite Hown.
    split; [done|]. destruct (sess_read _ _ _ _ _ _ _ _ Hs) as (_ & Hab & _ & _).
    unfold ids_live. cbn. unfold level_ids. fold cur in Hab. by rewrite Hab.
  - intros [] p1 Hs1. eapply xwp_seq; [|intros ? p2 Hs2; apply xwp_ret, Hs2].
    destruct sub; [done|]. by apply (xwp_same_stack _ ids_live).
Qed.

(** ** Subtransactions *)

(** the current level becomes an aborted one, its record is still to be written *)
Lemma xwp_mark_aborted c0 b t n L K E p :
  sess c0 ((b, t, n) :: L) K p → t ≠ TRANS_ABORT →
  xwp (modify_current (λ s, set_parallelModeLevel 0 (set_state TRANS_ABORT s)))
    (λ _, sessF ids_aborting c0 ((b, TRANS_ABORT, n) :: L) K) E p.
Proof.
  intros Hs Ht. apply xwp_modify. eapply (sess_currentF ids_live); [exact Hs|..].
  - solve_desc.
  - by intros s [_ ?].
  - intros s rest [= _ Hst _]. cbn. apply sublist_app; [|done].
    unfold level_ids. by rewrite Hst, bool_decide_false.
  - done.
  - right. by left.
  - right. by left.
Qed.

Lemma AbortSubTransaction_spec c0 b t n L p :
  sess c0 ((b, t, n) :: L) live p → t ≠ TRANS_ABORT → L ≠ [] →
  xwp AbortSubTransaction (λ _, sess c0 ((b, TRANS_ABORT, n) :: L) live) doomed p.
Proof.
  intros Hs Ht HL. eapply xwp_seq; [by eapply xwp_mark_aborted|]. intros [] p1 Hs1.
  apply xwp_bind, xwp_read. apply (xwp_seq _ _ (λ _, sess c0 ((b, TRANS_ABORT, n) :: L) live)).
  { apply xwp_when; intros _; [|by apply sess_abort_done]. unfold AtSubAbort_DispatcherState. rewrite qd_dispatch.
    eapply xwp_seq; [eapply sess_lift_quiet; [exact Hs1|]|].
    { intros Hi. apply quiet_dispatcher; [apply passes_cleanup|exact Hi]. }
    intros [] p2 Hs2. eapply xwp_seq; [eapply RecordTransactionAbort_spec; [exact Hs2|]|].
    { intros k Hk%live_capable. eapply capable_mono; [|exact Hk]. set_solver. }
    intros ? p3 Hs3. by apply xwp_ret. }
  intros [] p2 Hs2. apply xwp_bind, xwp_read.
  apply (xwp_seq _ _ (λ _, sess c0 ((b, TRANS_ABORT, n) :: L) live)).
  { apply xwp_when; [|done]. intros _. apply xwp_modify. eapply (sess_currentF ids_live); [exact Hs2|..].
    - solve_desc.
    - by intros s [??].
    - intros s rest [= _ Hst _]. apply sublist_app; [|done].
      unfold level_ids. cbn. rewrite Hst. by apply sublist_nil_l.
    - done.
    - by left.
    - by left. }
  intros [] p3 Hs3. by apply (xwp_same_stack _ ids_live).
Qed.

Lemma PopTransaction_spec F c0 d d' L K p E :
  sessF F c0 (d :: d' :: L) K p → (∀ s rest, sublist (ids_live rest) (F (s :: rest))) →
  xwp PopTransaction (λ _, sess c0 (d' :: L) K) E p.
Proof.
  intros Hs HF. destruct (Hs) as [[Hd Hlv Htop _ _ _ _ _ _] Hx]. apply xwp_bind, xwp_read.
  destruct (subtransactions (xa p)) as [|s rest] eqn:Hsub.
  { unfold levels in Hd. by rewrite Hsub in Hd. }
  assert (levels (xa p) = s :: levels (set_subtransactions rest (xa p))) as Hl.
  { unfold levels. by rewrite Hsub. }
  rewrite Hl in *. injection Hd as _ Hd. apply xwp_modify. rewrite <- Hd.
  apply (sess_xa F ids_live _ (d :: d' :: L)); [done..| |done|].
  - by apply Forall_cons in Hlv as [_ ?].
  - eapply xids_ok_sublist; [|exact Hx]. apply HF.
Qed.

Lemma CleanupSubTransaction_spec c0 b n d' L K p E :
  sess c0 ((b, TRANS_ABORT, n) :: d' :: L) K p →
  xwp CleanupSubTransaction (λ _, sess c0 (d' :: L) K) E p.
Proof.
  intros Hs. apply (xwp_seq _ _ (λ _, sessF ids_parents c0 ((b, TRANS_DEFAULT, n) :: d' :: L) K)).
  - apply xwp_modify. eapply (sess_currentF ids_live); [exact Hs|solve_desc|by intros s [??]| |done|by left|by left].
    intros s rest _. unfold ids_live. cbn. by apply sublist_inserts_l.
  - intros [] p1 Hs1. by eapply PopTransaction_spec.
Qed.

Lemma PushTransaction_spec c0 L K p :
  sess c0 L K p →
  xwp PushTransaction (λ _, sess c0 ((TBLOCK_SUBBEGIN, TRANS_DEFAULT, None) :: L) K) (err (sess c0 L K)) p.
Proof.
  intros Hs. destruct (Hs) as [[Hd Hlv Htop _ _ _ _ _ _] Hx]. apply xwp_bind, xwp_read. cbv zeta.
  case_match; [apply xwp_elog; auto|]. apply xwp_modify.
  destruct (levels_current (xa p)) as [rest Hl]. rewrite <- Hd.
  match goal with |- sess _ _ _ (upd_xa ?f _) =>
    apply (sess_xa ids_live ids_live c0 L K p (f (xa p)))
  end; [done..| |done|done].
  apply Forall_cons. split; [|done]. split; [done|]. rewrite Hl in Hlv.
  by apply Forall_cons in Hlv as [[_ ?] _].
Qed.

Lemma StartSubTransaction_spec c0 n L K p :
  sess c0 ((TBLOCK_SUBBEGIN, TRANS_DEFAULT, n) :: L) K p →
  xwp StartSubTransaction (λ _, sess c0 ((TBLOCK_SUBBEGIN, TRANS_INPROGRESS, n) :: L) K)
    (err (λ p', ∃ t, t ≠ TRANS_ABORT ∧ sess c0 ((TBLOCK_SUBBEGIN, t, n) :: L) K p')) p.
Proof.
  intros Hs. eapply xwp_seq; [by eapply xwp_set_trans|]. intros [] p1 Hs1.
  eapply xwp_seq; [by eapply (xwp_neutral (set_curTransactionOwner true)); [exact Hs1|..]|].
  intros [] p2 Hs2. eapply xwp_seq.
  { eapply xwp_mono; [by apply sess_hook|intros a s Hq; exact Hq|]. intros l msg s. apply err_mono. intros Hq. eexists. by split; [|exact Hq]. }
  intros [] p3 Hs3. eapply xwp_seq; [by eapply xwp_set_trans|]. intros [] p4 Hs4.
  eapply xwp_mono; [by apply sess_hook|done|]. intros l msg s. apply err_mono. intros Hq. eexists. by split; [|exact Hq].
Qed.

(** the identifiers of the current level go to its parent *)
Lemma levels_childXids x s p rest :
  levels x = s :: p :: rest →
  let x' := match subtransactions x with
    | s :: p :: rest =>
        set_subtransactions
          (set_childXids [] s ::
           set_childXids (childXids p ++ fullTransactionId s :: childXids s) p :: rest) x
    | [s] =>
        set_subtransactions [set_childXids [] s]
          (set_TopTransactionStateData
             (set_childXids (childXids (TopTransactionStateData x) ++ fullTransactionId s :: childXids s)
                (TopTransactionStateData x)) x)
    | [] => x
    end in
  levels x' = set_childXids [] s ::
    set_childXids (childXids p ++ fullTransactionId s :: childXids s) p :: rest ∧
  fullTransactionId (TopTransactionStateData x') = fullTransactionId (TopTransactionStateData x) ∧
  state (TopTransactionStateData x') = state (TopTransactionStateData x) ∧
  chain (TopTransactionStateData x') = chain (TopTransactionStateData x) ∧
  nestingLevel (TopTransactionStateData x') = nestingLevel (TopTransactionStateData x) ∧
  XactTopFullTransactionId x' = XactTopFullTransactionId x ∧ MyLockedGxact x' = MyLockedGxact x ∧
  proc_exit_inprogress x' = proc_exit_inprogress x.
Proof.
  unfold levels. destruct x as [t subs]; cbn. destruct subs as [|u [|v subs]]; cbn; intros Heq; by simplify_eq.
Qed.

Lemma AtSubCommit_childXids_spec c0 d d' L K p E :
  sess c0 (d :: d' :: L) K p → d.1.2 ≠ TRANS_ABORT → d'.1.2 ≠ TRANS_ABORT →
  TransactionIdIsValid (fullTransactionId (CurrentTransactionState (xa p))) = true →
  xwp AtSubCommit_childXids (λ _, sessF ids_parents c0 (d :: d' :: L) K) E p.
Proof.
  intros Hs Hd Hd' Hv. destruct (Hs) as [[Hdesc Hlv Htop _ _ _ _ _ _] Hx].
  destruct (levels_current (xa p)) as [[|q rest] Hl]; [by rewrite Hl in Hdesc|].
  rewrite Hl in *. set (s := CurrentTransactionState (xa p)) in *. cbn in Hdesc.
  injection Hdesc as <- <- <-.
  destruct (levels_childXids _ _ _ _ Hl) as (Hl' & Hf & Hst & Hch & Hnl & Hxt & Hlk & Hex).
  apply xwp_modify.
  match goal with |- sessF _ _ _ _ (upd_xa ?f _) => set (x' := f (xa p)) end.
  assert (sessF ids_parents c0 (desc <$> levels x') K (upd_xa (λ _, x') p)) as Hgo.
  { eapply (sess_xa ids_live ids_parents); [exact Hs|done|done|..].
    - unfold x'. rewrite Hl'. do 2 (apply Forall_cons in Hlv as [? Hlv]).
      apply Forall_cons. split; [done|]. by apply Forall_cons.
    - unfold x', top_ok. by rewrite Hst, Hxt, Hf, Hch, Hnl.
    - unfold x'. rewrite Hl'. eapply xids_ok_perm; [|exact Hx]. unfold ids_parents, ids_live. cbn.
      rewrite app_assoc. apply Permutation_app; [|done]. unfold level_ids. cbn.
      cbn in Hd, Hd'. rewrite !bool_decide_false by done. unfold own_ids. cbn. rewrite Hv.
      solve_Permutation. }
  unfold x' in Hgo at 1. by rewrite Hl' in Hgo.
Qed.

Lemma CommitSubTransaction_spec c0 b n d' L p :
  sess c0 ((b, TRANS_INPROGRESS, n) :: d' :: L) live p → d'.1.2 ≠ TRANS_ABORT →
  xwp CommitSubTransaction (λ _, sess c0 (d' :: L) live)
    (err (λ p', ∃ t, t ≠ TRANS_ABORT ∧ sess c0 ((b, t, n) :: d' :: L) live p')) p.
Proof.
  intros Hs Hd'. eapply xwp_seq.
  { eapply xwp_mono; [by apply sess_hook|intros a s Hq; exact Hq|].
    intros l msg s. apply err_mono. intros Hq. eexists. by split; [|exact Hq]. }
  intros [] p1 Hs1. eapply xwp_seq.
  { by eapply (xwp_current _ _ (b, TRANS_COMMIT, n)); [exact Hs1|solve_desc|intros s []|..|right|left]. }
  intros [] p2 Hs2. eapply xwp_seq.
  { eapply xwp_mono; [by apply CommandCounterIncrement_spec|intros a s Hq; exact Hq|].
    intros l msg s. apply err_mono. intros Hq. eexists. by split; [|exact Hq]. }
  intros [] p3 Hs3. apply xwp_bind, xwp_read.
  apply (xwp_seq _ _ (λ _, sessF ids_parents c0 ((b, TRANS_COMMIT, n) :: d' :: L) live)).
  { apply xwp_when; intros Hv; [by apply AtSubCommit_childXids_spec|]. destruct Hs3 as [Hp Hx].
    split; [done|]. eapply xids_ok_sublist; [|exact Hx]. unfold ids_parents, ids_live.
    destruct (levels (xa p3)); [done|]. by apply sublist_inserts_l. }
  intros [] p4 Hs4. eapply xwp_seq; [by apply (xwp_same_stack _ ids_parents); [exact Hs4|]|].
  intros [] p5 Hs5. apply (xwp_seq _ _ (λ _, sessF ids_parents c0 ((b, TRANS_DEFAULT, n) :: d' :: L) live)).
  - apply xwp_modify. eapply (sess_currentF ids_parents);
      [exact Hs5|solve_desc|by intros s [??]|done|done|by left|by left].
  - intros [] p6 Hs6. by eapply PopTransaction_spec.
Qed.

(** ** Committing *)

Definition committed_states : list DtxState :=
  [DTX_STATE_NONE; DTX_STATE_ONE_PHASE_COMMIT; DTX_STATE_NOTIFYING_ONE_PHASE_COMMIT;
   DTX_STATE_INSERTED_COMMITTED].

(** the last record written is known *)
Definition at_end (p : proc W) : Prop := XactLastRecEnd (xa p) = Z.of_nat (length (xlog (sv p))).

Lemma XactLogCommitRecord_spec children xid p0 p :
  inv p0 (capable ready_states) p →
  xwp (XactLogCommitRecord children xid) (λ _ p', inv p0 (capable committed_states) p' ∧ at_end p') doomed p.
Proof.
  intros Hi. apply inv_at in Hi as (s & Hs & Hi). destruct (capable_reads _ _ _ Hi) as [Hst Hctx].
  do 3 (apply xwp_bind, xwp_read). unfold isPreparedDtxTransaction.
  change (dtxState (MyTmGxactLocal (dx p))) with (my_state p). rewrite Hst, Hctx. case_bool_decide as Hp.
  - rewrite Hp in Hi, Hst. pose proof (inv_phase _ _ _ Hi) as Hph. rewrite Hst in Hph.
    apply xwp_bind, xwp_modify. pose proof (inv_with_state _ DTX_STATE_INSERTING_COMMITTED _ _ Hi ltac:(done) (proj2 Hph) ltac:(done)) as Hi1.
    apply xwp_bind. eapply xwp_record; [exact Hi1|apply (proto_decide _ _ (with_state _ p)); [apply Hi1|done]|].
    intros lsn p2 Hi2 Hg2 Hx2 He2. destruct (capable_reads _ _ _ Hi2) as [Hst2 _].
    pose proof (inv_phase _ _ _ Hi2) as Hph2. rewrite Hst2 in Hph2.
    apply xwp_bind, xwp_bind, xwp_modify. unfold xwhen. rewrite qd_content.
    eapply (inv_with_state _ DTX_STATE_INSERTED_COMMITTED) in Hi2; [|done| |done].
    2: { split; [exact Hph2|]. rewrite Hx2, Hg2. apply decided_record. by right. }
    apply xwp_modify, xwp_ret. split; [|exact He2].
    eapply (inv_capable _ _ committed_states) in Hi2; [|set_solver].
    by apply (quiet_tm (set_includeInCkpt true)).
  - apply xwp_bind, xwp_ret, xwp_bind. eapply xwp_record; [exact Hi|apply (proto_step p)|].
    + by split; [..|right].
    + done.
    + apply log_grows_record. by case_match.
    + done.
    + done.
    + done.
    + apply Hi.
    + intros lsn p2 Hi2 _ _ He2. apply xwp_bind, xwp_ret, xwp_ret. split; [|exact He2].
      eapply inv_capable; [|exact Hi2]. set_unfold in Hs. set_solver.
Qed.

Lemma inv_levels p0 K p : inv p0 K p → levels (xa p) = levels (xa p0).
Proof. intros [[-> _ _ _] _ _ _]. by destruct (xa p0). Qed.

Lemma sess_none F c0 L K p : sessF F c0 L K p → sessF ids_none c0 L K p.
Proof. intros [Hp [_ _ Hx]]. split; [done|]. split; [constructor|constructor|done]. Qed.

(** a decision to commit is on disk before segments are told *)
Definition safe (p : proc W) : Prop := my_state p = DTX_STATE_INSERTED_COMMITTED → decision_safe p.

Lemma flush_safe p0 K p :
  inv p0 K p → at_end p → safe (upd_sv (λ s, set_xlog_flushed (Z.max (xlog_flushed s) (XactLastRecEnd (xa p))) s) p).
Proof.
  intros Hi He Hst. apply flush_all; [by rewrite He|]. pose proof (inv_phase _ _ _ Hi) as Hph.
  change (my_state p = DTX_STATE_INSERTED_COMMITTED) in Hst. rewrite Hst in Hph. apply Hph.
Qed.

(** the commit record, the flush, and the commit log *)
Lemma commit_section_spec c0 b n children xid (prepared : bool) p :
  sess c0 [(b, TRANS_COMMIT, n)] (capable ready_states) p →
  children = childXids (TopTransactionStateData (xa p)) →
  xid = fullTransactionId (TopTransactionStateData (xa p)) →
  xwp (crit_section
    (XactLogCommitRecord children InvalidTransactionId;;
     lsn ← get_xa XactLastRecEnd;
     XLogFlush lsn;;
     xwhen (TransactionIdIsValid xid)
       (g ← getDistributedTransactionId;
        xwhen (prepared || false) (DistributedLog_SetCommittedTree xid children g);;
        TransactionIdCommitTree xid children)))
    (λ _ p', sessF ids_none c0 [(b, TRANS_COMMIT, n)] (capable committed_states) p' ∧ safe p')
    doomed p.
Proof.
  intros Hs Hch Hxid. apply xwp_crit. eapply xwp_mono; [|intros a s Hq; exact Hq|apply doomed_crit].
  eapply xwp_seq; [apply XactLogCommitRecord_spec, (sessF_refl ids_live _ _ _ _ Hs)|].
  intros lsn0 p1 [Hi1 He1]. apply xwp_bind, xwp_read, xwp_bind, xwp_modify.
  pose proof (flush_safe _ _ _ Hi1 He1) as Hsafe. set (p2 := upd_sv _ p1) in *.
  assert (inv p (capable committed_states) p2) as Hi2 by by apply (quiet_XLogFlush (XactLastRecEnd (xa p1))).
  pose proof (sessF_inv _ _ _ _ _ _ _ Hs Hi2) as Hs2. pose proof (inv_levels _ _ _ Hi2) as Hlv.
  clearbody p2. apply xwp_when; intros Hv.
  2: { split; [by eapply sess_none|done]. }
  apply xwp_bind, xwp_read. apply (xwp_seq _ _ (λ _ p', p' = p2)).
  { unfold DistributedLog_SetCommittedTree. rewrite qd_content. by destruct prepared. }
  intros [] p3 ->. apply xwp_modify. split; [|exact Hsafe].
  eapply sess_set_tree; [exact Hs2|]. exists []. split; [|done].
  destruct (proj1 Hs2) as [Hd _ _ _ _ _ _ _ _]. rewrite Hlv in *.
  unfold levels in *. destruct (subtransactions (xa p)); [|by destruct l]. cbn in *.
  injection Hd as _ Hst _. unfold ids_live. cbn. unfold level_ids, own_ids.
  rewrite Hst, <- Hxid, <- Hch, Hv. by rewrite !app_nil_r.
Qed.

Lemma not_inserted s : s ∈ ready_states → ∀ p0 p, inv p0 (capable [s]) p → safe p.
Proof.
  intros Hs p0 p Hi Hst. destruct (capable_reads _ _ _ Hi) as [Hst' _]. rewrite Hst' in Hst. subst s.
  set_unfold in Hs. naive_solver.
Qed.

Lemma RecordTransactionCommit_spec c0 b n p :
  sess c0 [(b, TRANS_COMMIT, n)] (capable ready_states) p →
  xwp RecordTransactionCommit
    (λ _ p', sessF ids_none c0 [(b, TRANS_COMMIT, n)] (capable committed_states) p' ∧ safe p')
    (err (sess c0 [(b, TRANS_COMMIT, n)] (capable ready_states))) p.
Proof.
  intros Hs. destruct (Hs) as [[Hd _ Htop _ _ _ _ _ Hkey] Hx].
  destruct Hkey as (c & s & Hk & -> & Hst). unfold key in Hk. injection Hk as Hc Hl Hds.
  assert (levels (xa p) = [TopTransactionStateData (xa p)] ∧
          CurrentTransactionState (xa p) = TopTransactionStateData (xa p)) as [Hlv Hcur].
  { unfold levels, CurrentTransactionState in *. destruct (subtransactions (xa p)) as [|? []]; done. }
  rewrite Hlv in Hd. injection Hd as _ Hts _.
  do 8 (apply xwp_bind, xwp_read). rewrite Hc, Hcur, qd_not_execute. cbn [andb].
  rewrite (proj1 Htop) by congruence. case_match; [apply xwp_elog; auto|].
  assert (inv p (capable [s]) p) as Hi.
  { apply inv_refl; [apply Hs|]. exists DTX_CONTEXT_QD_DISTRIBUTED_CAPABLE, s. unfold key.
    rewrite Hc, Hl, Hds. set_solver. }
  assert (isPreparedDtxTransaction (dx p) = bool_decide (s = DTX_STATE_PREPARED)) as ->.
  { unfold isPreparedDtxTransaction. by rewrite Hds. }
  eapply xwp_mono with (E' := doomed); [|intros a q Hq; exact Hq|intros; by right].
  apply (xwp_seq _ _ (λ _, inv p (capable [s]))).
  { apply xwp_when; [|done]. intros _. eapply quiet_seq; [by apply quiet_XLogInsert|exact Hi|done|done]. }
  intros [] p1 Hi1. case_match eqn:Hearly.
  { apply xwp_ret. split; [|by apply (not_inserted s Hst p)].
    eapply sess_none, sessF_inv; [exact Hs|]. eapply inv_capable; [|exact Hi1].
    rewrite !andb_true_iff, !negb_true_iff, bool_decide_eq_false in Hearly. set_unfold in Hst. set_solver. }
  apply (xwp_seq _ _ (λ _ p', sessF ids_none c0 [(b, TRANS_COMMIT, n)] (capable committed_states) p' ∧ safe p')).
  2: { intros [] p2 [Hs2 Hsafe]. apply xwp_bind, xwp_modify, xwp_ret. split; [|exact Hsafe].
       by apply (xwp_same_stack (set_XactLastRecEnd 0) ids_none _ _ _ (λ _ _ _, True) p2 Hs2). }
  pose proof (sessF_inv _ _ _ _ _ _ _ Hs Hi1) as Hs1. case_match eqn:Hmark.
  - assert (TopTransactionStateData (xa p1) = TopTransactionStateData (xa p)) as Ht1.
    { destruct Hi1 as [[-> _ _ _] _ _ _]. by destruct (xa p). }
    apply commit_section_spec; [|by rewrite Ht1..]. eapply sessF_key; [|exact Hs1].
    intros k. apply capable_mono. set_solver.
  - apply xwp_bind, xwp_read. apply orb_false_iff in Hmark as [_ Hnp%bool_decide_eq_false].
    eapply xwp_mono; [by apply quiet_XLogFlush; [exact Hi1]| |done]. intros a p2 Hi2.
    split; [|by apply (not_inserted s Hst p)]. eapply sess_none, sessF_inv; [exact Hs|]. eapply inv_capable; [|exact Hi2].
    set_unfold in Hst. set_solver.
Qed.

(** ** The end of a transaction *)

(** the distributed transaction is over, in a context that satisfies [P] *)
Definition over (P : DtxContext → LocalDistribXactState → Prop) (k : dtx_key) : Prop :=
  ∃ c l, k = (c, l, DTX_STATE_NONE) ∧ P c l.
Definition idle : dtx_key → Prop := over (λ c _, c = DTX_CONTEXT_LOCAL_ONLY).

Lemma ProcArrayEndTransaction_spec xid (P : DtxContext → Prop) p0 p E :
  inv p0 (at_state (λ c s, P c ∧ ¬ unsettled s)) p →
  xwp (ProcArrayEndTransaction xid)
    (λ _, inv p0 (over (λ c l, P c ∧ l = LOCALDISTRIBXACT_STATE_ACTIVE))) E p.
Proof.
  intros Hi. apply xwp_bind, xwp_read. destruct (inv_ok _ _ _ Hi) as [? ? ? ? ?].
  assert (over (λ c l, P c ∧ l = LOCALDISTRIBXACT_STATE_ACTIVE)
    (DistributedTransactionContext (dx p), localDistribXact_state (dx p), DTX_STATE_NONE)) as Hk.
  { destruct (inv_key _ _ _ Hi) as (c & s & Hk & HP & _). unfold key in Hk. injection Hk as -> -> _.
    by exists c, LOCALDISTRIBXACT_STATE_ACTIVE. }
  assert (¬ unsettled (my_state p)) as Hu.
  { destruct (inv_key _ _ _ Hi) as (c & s & Hk' & _ & Hu). unfold my_state. by injection Hk' as _ _ ->. }
  destruct (negb _); cbn [xwhen].
  - apply xwp_bind, xwp_bind, xwp_read, xwp_bind, xwp_modify, xwp_modify, xwp_bind, xwp_modify, xwp_modify.
    eapply inv_step; [exact Hi|apply frame_same; cbn; first [done|by destruct (_ && _)]|done| |exact Hk].
    split; [done|cbn; by destruct (_ && _)|cbn; by destruct (_ && _)|done|].
    apply (proto_none p); cbn; [done|done|by destruct (_ && _)..|done|done].
  - apply xwp_bind, xwp_ret. eapply xwp_resetTmGxact; [exact Hi|exact Hu|].
    intros c l s (c' & s' & [= -> -> ->] & HP & _). by exists c', LOCALDISTRIBXACT_STATE_ACTIVE.
Qed.

Lemma EndLocalDistribXact_spec isCommit p0 p E :
  inv p0 (over (λ c l, (c = DTX_CONTEXT_QD_DISTRIBUTED_CAPABLE ∨ c = DTX_CONTEXT_QD_RETRY_PHASE_2) ∧
                       l = LOCALDISTRIBXACT_STATE_ACTIVE)) p →
  xwp (EndLocalDistribXact isCommit)
    (λ _ p', inv p0 (over (λ c _, c = DistributedTransactionContext (dx p))) p') E p.
Proof.
  intros [Hf Ht Hok (c & l & Hk & Hc & ->)]. unfold key in Hk. injection Hk as Hctx Hl Hs.
  apply xwp_bind, xwp_read. rewrite Hl, bool_decide_false by done. apply xwp_bind, xwp_read.
  rewrite Hctx. assert (∀ st, xwp (modify_dx (set_localDistribXact_state st))
    (λ _ p', inv p0 (over (λ c' _, c' = c)) p') E p) as Hgo.
  { intros st. apply xwp_modify. split; [|done|by apply (dtm_ok_step p)|].
    - etrans; [exact Hf|by apply frame_same].
    - eexists _, _. split; [|done]. unfold key. cbn. by rewrite Hs, Hctx. }
  destruct Hc as [-> | ->]; destruct isCommit; apply Hgo.
Qed.

Lemma finishContext_spec p0 (P : DtxContext → LocalDistribXactState → Prop) p E :
  inv p0 (over P) p → xwp finishDistributedTransactionContext (λ _, inv p0 idle) E p.
Proof.
  intros [Hf Ht Hok (c & l & Hk & Hc)]. unfold key in Hk. injection Hk as Hctx Hl Hs.
  do 2 (apply xwp_bind, xwp_read). unfold isCurrentDtxActivated. rewrite Hs.
  rewrite bool_decide_true by done. cbn [negb andb]. apply xwp_bind, xwp_modify, xwp_modify.
  split; [etrans; [exact Hf|by apply frame_same]|done|by apply (dtm_ok_step p)|].
  exists DTX_CONTEXT_LOCAL_ONLY. eexists. split; [|done]. unfold key. cbn. by rewrite Hs.
Qed.

Lemma sess_finish_top f F c0 b t n K p :
  sessF F c0 [(b, t, n)] K p →
  (∀ s, level_ok s → desc (f s) = desc s ∧ level_ok (f s) ∧
        fullTransactionId (f s) = InvalidTransactionId ∧ childXids (f s) = [] ∧
        chain (f s) = chain s ∧ nestingLevel (f s) = 0) →
  sess c0 [(b, TRANS_DEFAULT, n)] K
    (upd_xa (upd_current (set_state TRANS_DEFAULT))
      (upd_xa (set_XactTopFullTransactionId InvalidTransactionId) (upd_xa (upd_current f) p))).
Proof.
  intros Hs Hf. destruct (Hs) as [[Hd Hlv (_ & _ & Hchain & _) _ _ _ _ _ _] [_ _ Hx]].
  destruct p as [x d sv w]; cbn in *. unfold levels in Hd, Hlv.
  destruct (subtransactions x) as [|? [|]] eqn:Hsub; [|done..]. cbn in *.
  apply Forall_cons in Hlv as [Hlv _]. destruct (Hf _ Hlv) as (Hds & Hok & Hfull & Hch & Hcn & Hnl).
  set (x' := upd_current (set_state TRANS_DEFAULT)
               (set_XactTopFullTransactionId InvalidTransactionId (upd_current f x))).
  assert (x' = set_TopTransactionStateData (set_state TRANS_DEFAULT (f (TopTransactionStateData x)))
                 (set_XactTopFullTransactionId InvalidTransactionId x)) as Hx'.
  { unfold x', upd_current. cbn. rewrite Hsub. cbn. by rewrite Hsub. }
  assert (levels x' = [set_state TRANS_DEFAULT (f (TopTransactionStateData x))]) as Hl'.
  { rewrite Hx'. unfold levels. cbn. by rewrite Hsub. }
  assert ([(b, TRANS_DEFAULT, n)] = desc <$> levels x') as ->.
  { rewrite Hl'. unfold desc in *. cbn in *. injection Hds as -> _ ->. by injection Hd as -> _ ->. }
  apply (sess_xa F ids_live c0 [(b, t, n)] K (mkProc x d sv w) x'); [done|by rewrite Hx'..| | |].
  - rewrite Hl'. by apply Forall_singleton.
  - rewrite Hx'. split_and!; cbn; by rewrite ?Hfull, ?Hcn, ?Hnl.
  - rewrite Hl'. unfold ids_live, level_ids, own_ids. cbn. rewrite Hfull, Hch. cbn.
    split; [constructor|constructor|done].
Qed.

Lemma end_top_ok s :
  level_ok s →
  desc (end_top s) = desc s ∧ level_ok (end_top s) ∧
  fullTransactionId (end_top s) = InvalidTransactionId ∧ childXids (end_top s) = [] ∧
  chain (end_top s) = chain s ∧ nestingLevel (end_top s) = 0.
Proof. by intros []. Qed.

(** the work after the commit record *)
Lemma commit_tail_spec latestXid c0 b t n p :
  sessF ids_none c0 [(b, t, n)] (capable committed_states) p → safe p →
  xwp (needed ← get_dx notifyCommittedDtxTransactionIsNeeded;
       xwhen needed notifyCommittedDtxTransaction;;
       ProcArrayEndTransaction latestXid;;
       EndLocalDistribXact true;;
       finishDistributedTransactionContext;;
       modify_current end_top;;
       modify_xa (set_XactTopFullTransactionId InvalidTransactionId);;
       set_trans TRANS_DEFAULT)
    (λ _, sess c0 [(b, TRANS_DEFAULT, n)] idle) doomed p.
Proof.
  intros Hs Hsafe. apply xwp_bind, xwp_read. apply (xwp_seq _ _ (λ _, sessF ids_none c0 [(b, t, n)] ended)).
  { apply xwp_when; intros Hn.
    - apply andb_true_iff in Hn as [_ Ha]. unfold isCurrentDtxActivated in Ha.
      apply negb_true_iff, bool_decide_eq_false in Ha. eapply sess_lift_quiet; [exact Hs|].
      intros Hi. apply notifyCommitted_spec; [|exact Hsafe]. apply inv_at in Hi as (s & Hs' & Hi).
      destruct (inv_key _ _ _ Hi) as (c & s' & Hk & _ & He%list_elem_of_singleton). subst s'.
      unfold key in Hk. injection Hk as _ _ Hst. eapply inv_capable; [|exact Hi].
      rewrite Hst in Ha. set_unfold in Hs'. set_solver.
    - eapply sessF_inv; [exact Hs|]. pose proof (sessF_refl _ _ _ _ _ Hs) as Hi.
      apply inv_at in Hi as (s & _ & Hi). destruct (capable_reads _ _ _ Hi) as [Hst _].
      destruct (inv_key _ _ _ Hi) as (c & s' & Hk & -> & _). injection Hk as Hc _ _.
      unfold notifyCommittedDtxTransactionIsNeeded, isCurrentDtxActivated in Hn. rewrite Hc in Hn.
      change (dtxState (MyTmGxactLocal (dx p))) with (my_state p) in Hn. rewrite Hst in Hn.
      eapply inv_ended; [|exact Hi]. destruct s; try done; solve_settled. }
  intros [] p1 Hs1. eapply xwp_seq.
  { eapply sess_lift_quiet; [exact Hs1|]. intros Hi.
    by apply (ProcArrayEndTransaction_spec _
      (λ c, c = DTX_CONTEXT_QD_DISTRIBUTED_CAPABLE ∨ c = DTX_CONTEXT_QD_RETRY_PHASE_2)). }
  intros [] p2 Hs2. eapply xwp_seq.
  { eapply sess_lift_quiet; [exact Hs2|]. intros Hi. by apply EndLocalDistribXact_spec. }
  intros [] p3 Hs3. eapply xwp_seq.
  { eapply sess_lift_quiet; [exact Hs3|]. intros Hi. eapply finishContext_spec, Hi. }
  intros [] p4 Hs4. apply xwp_bind, xwp_modify, xwp_bind, xwp_modify, xwp_modify.
  eapply sess_finish_top; [exact Hs4|]. apply end_top_ok.
Qed.

Lemma CommitTransaction_spec c0 b n p :
  sess c0 [(b, TRANS_INPROGRESS, n)] live p → b ≠ TBLOCK_PARALLEL_INPROGRESS →
  xwp CommitTransaction (λ _, sess c0 [(b, TRANS_DEFAULT, n)] idle)
    (err (λ p', ∃ t, t ≠ TRANS_ABORT ∧ sess c0 [(b, t, n)] (capable failing_states) p')) p.
Proof.
  intros Hs Hb. apply xwp_bind, xwp_read. destruct (sess_read _ _ _ _ _ _ _ _ Hs) as (-> & _ & _ & _).
  rewrite bool_decide_false by done. apply xwp_bind, xwp_ret. eapply xwp_seq.
  { eapply xwp_mono; [by apply sess_hook|intros a s Hq; exact Hq|].
    intros l msg s. apply err_mono. intros Hq. exists TRANS_INPROGRESS. split; [done|].
    eapply sessF_key; [|exact Hq]. intros k Hk%live_capable. eapply capable_mono; [|exact Hk]. set_solver. }
  intros [] p1 Hs1. eapply xwp_seq.
  { eapply xwp_mono; [eapply sess_lift; [exact Hs1|apply prepareDtx_spec]|intros a s Hq; exact Hq|].
    intros l msg s. apply err_mono. intros Hq. by exists TRANS_INPROGRESS. }
  intros [] p2 Hs2. eapply xwp_seq.
  { eapply xwp_mono; [by apply sess_hook|intros a s Hq; exact Hq|].
    intros l msg s. apply err_mono. intros Hq. exists TRANS_INPROGRESS. split; [done|].
    eapply sessF_key; [|exact Hq]. intros k. apply capable_mono. set_solver. }
  intros [] p3 Hs3. eapply xwp_seq.
  { by eapply (xwp_current _ _ (b, TRANS_COMMIT, n)); [exact Hs3|solve_desc|intros s []|..|right|left]. }
  intros [] p4 Hs4. eapply xwp_seq.
  { eapply xwp_mono; [apply RecordTransactionCommit_spec; exact Hs4|intros a s Hq; exact Hq|].
    intros l msg s. apply err_mono. intros Hq. exists TRANS_COMMIT. split; [done|].
    eapply sessF_key; [|exact Hq]. intros k. apply capable_mono. set_solver. }
  intros xid p5 [Hs5 Hsafe]. eapply xwp_mono; [by eapply commit_tail_spec; [exact Hs5|]|done|]. intros. by right.
Qed.

(** ** Aborting a transaction *)

Lemma quiet_AtAbort_DispatcherState : quiet AtAbort_DispatcherState.
Proof.
  unfold AtAbort_DispatcherState. rewrite qd_dispatch. cbn [negb].
  apply quiet_bind; [apply quiet_dispatcher, passes_cleanup|intros _]. apply quiet_read. intros lost.
  apply quiet_when, quiet_reset_gangs.
Qed.

(** the common end: the state of the distributed transaction is reset *)
Lemma abort_tail_spec latestXid (P : DtxContext → Prop) c0 b n p :
  (∀ c, P c → c = DTX_CONTEXT_QD_DISTRIBUTED_CAPABLE ∨ c = DTX_CONTEXT_QD_RETRY_PHASE_2) →
  sess c0 [(b, TRANS_ABORT, n)] (at_state (λ c s, P c ∧ ¬ unsettled s)) p →
  xwp (ProcArrayEndTransaction latestXid;;
       EndLocalDistribXact false;;
       modify_xa (λ x, set_TopTransactionStateData
                    (set_fullTransactionId InvalidTransactionId (TopTransactionStateData x)) x);;
       modify_dx (set_localDistribXact_state LOCALDISTRIBXACT_STATE_NONE))
    (λ _, sess c0 [(b, TRANS_ABORT, n)] (over (λ c l, P c ∧ l = LOCALDISTRIBXACT_STATE_NONE)))
    doomed p.
Proof.
  intros HP Hs. eapply xwp_seq.
  { eapply sess_lift_quiet; [exact Hs|]. intros Hi. by apply (ProcArrayEndTransaction_spec _ P). }
  intros [] p1 Hs1. destruct (po_key _ _ _ _ (proj1 Hs1)) as (c & l & Hk & Hc & _).
  injection Hk as Hctx _ _. eapply xwp_seq.
  { eapply sess_lift_quiet; [exact Hs1|]. intros Hi. apply EndLocalDistribXact_spec.
    eapply inv_mono; [|exact Hi]. intros k (c' & l' & -> & Hc' & ->). by eexists _, _; auto. }
  intros [] p2 Hs2. rewrite Hctx in Hs2.
  apply (xwp_seq _ _ (λ _, sess c0 [(b, TRANS_ABORT, n)] (over (λ c' _, c' = c)))).
  - apply xwp_modify. destruct (Hs2) as [[Hd Hlv _ _ _ _ _ _ _] [_ _ Hx]]. unfold levels in Hd, Hlv.
    destruct (subtransactions (xa p2)) as [|? []] eqn:Hsub; [|done..]. cbn in Hd, Hlv.
    match goal with |- sess _ _ _ (upd_xa ?f _) => set (x' := f (xa p2)) end.
    assert (levels x' = [set_fullTransactionId InvalidTransactionId (TopTransactionStateData (xa p2))]) as Hl'.
    { unfold levels, x'. cbn. by rewrite Hsub. }
    injection Hd as Hb Ht Hn.
    assert ([(b, TRANS_ABORT, n)] = desc <$> levels x') as ->.
    { rewrite Hl'. unfold desc. cbn. by rewrite Hb, Ht, Hn. }
    eapply (sess_xa ids_live ids_live _ _ _ p2 x'); [exact Hs2|done|done|..].
    + rewrite Hl'. apply Forall_cons in Hlv as [? _]. by apply Forall_singleton.
    + destruct (po_top _ _ _ _ (proj1 Hs2)) as (_ & _ & Hcn & Hnl). unfold top_ok, x'. cbn. by rewrite Ht.
    + rewrite Hl'. unfold ids_live, level_ids. cbn. rewrite Ht. cbn. split; [constructor|constructor|done].
  - intros [] p3 [[] Hx]. apply xwp_modify. split; [|done]. split; cbn; try done; [by apply (dtm_ok_step _ _ po_dtm0)|].
    destruct po_key0 as (c' & l' & Hk' & ->). injection Hk' as Hc' _ Hs'. exists c, LOCALDISTRIBXACT_STATE_NONE.
    split; [|done]. unfold key. cbn. by rewrite Hc', Hs'.
Qed.

(** what all three cases share: up to the abort record, then rolling back, then the end *)
Lemma abort_spec (P : DtxContext → Prop) (E : proc W → Prop) F c0 b t n (K : dtx_key → Prop) p :
  sess c0 [(b, t, n)] K p → b ≠ TBLOCK_PARALLEL_INPROGRESS →
  (∀ c, P c → c = DTX_CONTEXT_QD_DISTRIBUTED_CAPABLE ∨ c = DTX_CONTEXT_QD_RETRY_PHASE_2) →
  (∀ q, sess c0 [(b, t, n)] K q →
    xwp (modify_current (λ s, set_parallelModeLevel 0 (set_state TRANS_ABORT s)))
      (λ _, sessF F c0 [(b, TRANS_ABORT, n)] K) doomed q) →
  (∀ q, sessF F c0 [(b, TRANS_ABORT, n)] K q →
    xwp (RecordTransactionAbort false) (λ _, sess c0 [(b, TRANS_ABORT, n)] K)
      doomed q) →
  (∀ q, sess c0 [(b, TRANS_ABORT, n)] K q →
    xwp rollbackDtxTransaction (λ _, sess c0 [(b, TRANS_ABORT, n)] (at_state (λ c s, P c ∧ ¬ unsettled s))) (err E) q) →
  xwp AbortTransaction
    (λ _, sess c0 [(b, TRANS_ABORT, n)] (over (λ c l, P c ∧ l = LOCALDISTRIBXACT_STATE_NONE))) (err E) p.
Proof.
  intros Hs Hb HP Hmark Hrec Hroll. apply xwp_bind, xwp_read.
  destruct (sess_read _ _ _ _ _ _ _ _ Hs) as (-> & _ & _ & _). rewrite bool_decide_false by done.
  assert (∀ (l : elevel) msg (s : proc W), doomed l msg s → err E l msg s) as Herr by (intros; by right).
  eapply xwp_seq; [eapply xwp_mono; [by apply Hmark|intros ?? Hq; exact Hq|done]|]. intros [] p1 Hs1.
  eapply xwp_seq; [eapply xwp_mono; [eapply sess_lift_quiet; [exact Hs1|apply quiet_AtAbort_DispatcherState]|
    intros ?? Hq; exact Hq|done]|]. intros [] p2 Hs2.
  apply (xwp_seq _ _ (λ _ q, q = p2)).
  { apply xwp_bind, xwp_read. by rewrite (po_locked _ _ _ _ (proj1 Hs2)). }
  intros [] p2' ->. eapply xwp_seq; [eapply xwp_mono; [by apply Hrec|intros ?? Hq; exact Hq|done]|].
  intros xid p3 Hs3. eapply xwp_seq; [by apply Hroll|]. intros [] p4 Hs4.
  eapply xwp_mono; [by apply abort_tail_spec; [exact HP|exact Hs4]|done|done].
Qed.

(** a running transaction *)
Lemma AbortTransaction_live c0 b t n p :
  sess c0 [(b, t, n)] live p → t ≠ TRANS_ABORT → b ≠ TBLOCK_PARALLEL_INPROGRESS →
  xwp AbortTransaction
    (λ _, sess c0 [(b, TRANS_ABORT, n)]
       (over (λ c l, c = DTX_CONTEXT_QD_DISTRIBUTED_CAPABLE ∧ l = LOCALDISTRIBXACT_STATE_NONE)))
    (err (sess c0 [(b, TRANS_ABORT, n)] nap)) p.
Proof.
  intros Hs Ht Hb. apply (abort_spec (λ c, c = DTX_CONTEXT_QD_DISTRIBUTED_CAPABLE) _ ids_aborting _ _ t _ live);
    [done|done|by left|..].
  - intros q Hq. by eapply xwp_mark_aborted.
  - intros q Hq. eapply RecordTransactionAbort_spec; [exact Hq|].
    intros k Hk%live_capable. eapply capable_mono; [|exact Hk]. set_solver.
  - intros q Hq. eapply sess_lift; [exact Hq|]. intros Hi. apply rollback_live; [done|apply Hq].
Qed.

(** a transaction that failed while it was committing *)
Lemma AbortTransaction_failing c0 b t n p :
  sess c0 [(b, t, n)] (capable failing_states) p → t ≠ TRANS_ABORT → b ≠ TBLOCK_PARALLEL_INPROGRESS →
  xwp AbortTransaction
    (λ _, sess c0 [(b, TRANS_ABORT, n)]
       (over (λ c l, (c = DTX_CONTEXT_QD_DISTRIBUTED_CAPABLE ∨ c = DTX_CONTEXT_QD_RETRY_PHASE_2) ∧
                     l = LOCALDISTRIBXACT_STATE_NONE)))
    (err (sess c0 [(b, TRANS_ABORT, n)] nap)) p.
Proof.
  intros Hs Ht Hb.
  apply (abort_spec (λ c, c = DTX_CONTEXT_QD_DISTRIBUTED_CAPABLE ∨ c = DTX_CONTEXT_QD_RETRY_PHASE_2) _
           ids_aborting _ _ t _ (capable failing_states)); [done|done|done|..].
  - intros q Hq. by eapply xwp_mark_aborted.
  - intros q Hq. by eapply RecordTransactionAbort_spec.
  - intros q Hq. eapply sess_lift; [exact Hq|]. intros Hi. apply rollback_failing; [done|apply Hq].
Qed.

(** the second attempt: the record is written, the segments have been told *)
Lemma AbortTransaction_nap c0 b n p :
  sess c0 [(b, TRANS_ABORT, n)] nap p → b ≠ TBLOCK_PARALLEL_INPROGRESS →
  xwp AbortTransaction
    (λ _, sess c0 [(b, TRANS_ABORT, n)]
       (over (λ c l, c = DTX_CONTEXT_QD_DISTRIBUTED_CAPABLE ∧ l = LOCALDISTRIBXACT_STATE_NONE)))
    (err (λ _, False)) p.
Proof.
  intros Hs Hb. apply (abort_spec (λ c, c = DTX_CONTEXT_QD_DISTRIBUTED_CAPABLE) _ ids_live _ _ TRANS_ABORT _ nap);
    [done|done|by left|..].
  - intros q Hq. by eapply xwp_current; [exact Hq|solve_desc|intros s []|..|left|left].
  - intros q Hq. destruct (po_key _ _ _ _ (proj1 Hq)) as (c & s & Hk & -> & Hst%list_elem_of_singleton).
    subst s. unfold key in Hk. injection Hk as Hc Hl Hds.
    do 5 (apply xwp_bind, xwp_read). unfold CurrentDtxIsRollingback. rewrite Hc, Hl, Hds. cbn [orb].
    eapply xwp_seq; [by apply (xwp_same_stack _ ids_live); [exact Hq|]|]. intros [] p1 Hs1. apply xwp_ret, Hs1.
  - intros q Hq. eapply xwp_mono; [eapply sess_lift_quiet; [exact Hq|]|intros a s Hr; exact Hr|].
    + intros Hi. apply rollback_nap; [done|apply Hq].
    + intros. by right.
Qed.

Lemma CleanupTransaction_spec P c0 b n p E :
  sess c0 [(b, TRANS_ABORT, n)] (over P) p →
  xwp CleanupTransaction (λ _, sess c0 [(b, TRANS_DEFAULT, n)] idle) E p.
Proof.
  intros Hs. apply xwp_bind, xwp_read. destruct (sess_read _ _ _ _ _ _ _ _ Hs) as (_ & -> & _ & _).
  rewrite bool_decide_true by done. cbn [negb]. do 3 (apply xwp_bind, xwp_modify).
  match goal with |- xwp _ _ _ ?q => assert (sess c0 [(b, TRANS_DEFAULT, n)] (over P) q) as Hs' end.
  { eapply sess_finish_top; [exact Hs|]. by intros s []. }
  eapply xwp_mono; [eapply finishContext_spec, (sessF_refl ids_live), Hs'| |intros l msg s He; exact He].
  intros a s. by apply sessF_inv with (over P).
Qed.

(** ** Chaining *)

Lemma xwp_set_top_chain ch' c ch L K p E :
  sess (c, ch) L K p → xwp (set_top_chain ch') (λ _, sess (c, ch') L K) E p.
Proof.
  intros [[Hd Hlv (Ht1 & Ht2 & Ht3 & Ht4) ? ? ? ? ? ?] Hx]. apply xwp_modify.
  assert (∀ A (f : TransactionStateData → A) x, (∀ s, f (set_chain ch' s) = f s) →
    f <$> levels (set_TopTransactionStateData (set_chain ch' (TopTransactionStateData x)) x) = f <$> levels x) as Hf.
  { intros A f x Hf. unfold levels. rewrite !fmap_app. cbn. by rewrite Hf. }
  split.
  - split; [by etrans; [apply (Hf _ desc)|]| |done|done|done|done|done|by apply (dtm_ok_step _ _ po_dtm0)|done].
    unfold levels in *. cbn. apply Forall_app in Hlv as [Hs Ht]. apply Forall_app. split; [done|].
    apply Forall_cons in Ht as [? _]. by apply Forall_singleton.
  - unfold ids_live in *. rewrite <- (Hf _ level_ids (xa p)) in Hx by done. exact Hx.
Qed.

Lemma xwp_set_chain ch' c ch b t n K p E :
  sess (c, ch) [(b, t, n)] K p →
  xwp (modify_current (set_chain ch')) (λ _, sess (c, ch') [(b, t, n)] K) E p.
Proof.
  intros Hs. pose proof (xwp_set_top_chain ch' _ _ _ _ _ E Hs) as Hgo.
  destruct (proj1 Hs) as [Hd _ _ _ _ _ _ _ _]. unfold levels in Hd.
  unfold xwp, modify_current, modify_xa, xmodify, upd_xa, upd_current.
  by destruct (subtransactions (xa p)) as [|? []].
Qed.

(** ** Starting *)

(** the state when a transaction starts *)
Definition starting : dtx_key → Prop := over (λ c _, c = DTX_CONTEXT_QD_DISTRIBUTED_CAPABLE).

Lemma StartTransaction_spec c0 b n p :
  sess c0 [(b, TRANS_DEFAULT, n)] starting p →
  xwp StartTransaction (λ _, sess c0 [(b, TRANS_INPROGRESS, n)] live)
    (err (λ p', ∃ t, t ≠ TRANS_ABORT ∧ t ≠ TRANS_DEFAULT ∧ sess c0 [(b, t, n)] live p')) p.
Proof.
  intros Hs. apply (xwp_seq _ _ (λ _, sess c0 [(b, TRANS_START, n)] starting)).
  { apply xwp_modify. destruct (Hs) as [[Hd Hlv (Htop & Hdef & Hcn & Hnl) _ _ _ _ _ _] [_ _ Hx]]. unfold levels in Hd, Hlv.
    destruct (subtransactions (xa p)) as [|? []] eqn:Hsub; [|done..]. cbn in Hd, Hlv.
    injection Hd as Hb Ht Hn.
    match goal with |- sess _ _ _ (upd_xa ?f _) => set (x' := f (xa p)) end.
    assert (levels x' = [start_top (TopTransactionStateData (xa p))]) as Hl' by done.
    assert ([(b, TRANS_START, n)] = desc <$> levels x') as ->.
    { rewrite Hl'. unfold desc. cbn. by rewrite Hb, Hn. }
    eapply (sess_xa ids_live ids_live _ _ _ p x'); [exact Hs|done|done|..].
    - rewrite Hl'. apply Forall_cons in Hlv as [? _]. by apply Forall_singleton.
    - split_and!; [intros _|done|done|done]. cbn. rewrite Htop by congruence. by apply Hdef.
    - rewrite Hl'. split; [constructor|constructor|done]. }
  intros [] p1 Hs1. do 3 (eapply xwp_seq; [by apply (xwp_same_stack _ ids_live); [exact Hs1|]|];
    clear p1 Hs1; intros [] p1 Hs1).
  eapply xwp_seq; [by eapply (xwp_neutral (set_curTransactionOwner true)); [exact Hs1|..]|].
  intros [] p2 Hs2. apply (xwp_seq _ _ (λ _, sess c0 [(b, TRANS_START, n)] live)).
  { apply xwp_bind, xwp_read. destruct (Hs2) as [[] Hx]. destruct po_key0 as (c & l & Hk & ->).
    injection Hk as Hc _ Hst. rewrite Hc. apply xwp_modify. split; [|done].
    split; cbn; try done; [by apply (dtm_ok_step _ _ po_dtm0)|]. left. unfold key. cbn. by rewrite Hc, Hst. }
  intros [] p3 Hs3. eapply xwp_seq.
  { eapply xwp_mono; [by apply sess_hook|intros a s Hq; exact Hq|].
    intros l msg s. apply err_mono. intros Hq. by exists TRANS_START. }
  intros [] p4 Hs4. eapply xwp_seq; [by eapply xwp_set_trans|]. intros [] p5 Hs5.
  eapply xwp_mono; [by apply sess_hook|done|].
  intros l msg s. apply err_mono. intros Hq. by exists TRANS_INPROGRESS.
Qed.

(** ** Assigning identifiers *)

Definition same_but_full (s s' : TransactionStateData) : Prop :=
  s' = set_fullTransactionId (fullTransactionId s') s.

Lemma same_but_full_refl s : same_but_full s s.
Proof. by destruct s. Qed.

Lemma assign_chain_same l next : Forall2 same_but_full l (assign_chain l next).1.
Proof.
  induction l as [|s l IH]; cbn; [constructor|]. case_match.
  - apply Forall_Forall2_diag, Forall_true. intros. apply same_but_full_refl.
  - destruct (assign_chain l next) as [l' n']. by constructor.
Qed.

Lemma same_desc l l' : Forall2 same_but_full l l' → desc <$> l' = desc <$> l.
Proof. induction 1 as [|s s' l l' Hs _ IH]; [done|]. cbn. rewrite IH. by rewrite Hs. Qed.

Lemma same_level_ok l l' : Forall2 same_but_full l l' → Forall level_ok l → Forall level_ok l'.
Proof.
  induction 1 as [|s s' l l' Hs _ IH]; intros Hl; inversion_clear Hl; constructor; [by rewrite Hs|by apply IH].
Qed.

Lemma xids_ok_fresh ids n s :
  xids_ok ids (set_nextXid n s) → xids_ok (n :: ids) (set_nextXid (n + 1) s).
Proof.
  intros [Hn Ho Hc]. cbn in *. rewrite Forall_forall in Ho. split; cbn.
  - constructor; [|done]. intros Hin. destruct (Ho _ Hin). lia.
  - apply Forall_cons. split; [split; [lia|]|apply Forall_forall; intros i Hi; destruct (Ho i Hi); split; [lia|done]].
    destruct (clog s !! n) eqn:Hl; [|done]. apply Hc in Hl. lia.
  - intros i st Hi. apply Hc in Hi. lia.
Qed.

Lemma assign_chain_ids l : ∀ next extra s,
  Forall (λ t, state t ≠ TRANS_ABORT) l → xids_ok (ids_live l ++ extra) (set_nextXid next s) →
  xids_ok (ids_live (assign_chain l next).1 ++ extra) (set_nextXid (assign_chain l next).2 s).
Proof.
  induction l as [|t l IH]; intros next extra s Hab Hx; [done|]. apply Forall_cons in Hab as [Ht Hab]. cbn.
  destruct (TransactionIdIsValid (fullTransactionId t)) eqn:Hv; [done|].
  specialize (IH next (childXids t ++ extra) s Hab). destruct (assign_chain l next) as [l' n']. cbn in *.
  unfold ids_live in *. cbn in *. unfold level_ids at 1 in Hx. rewrite bool_decide_false in Hx by done.
  unfold own_ids in Hx. rewrite Hv in Hx. cbn in Hx.
  assert (xids_ok (n' :: concat (level_ids <$> l') ++ childXids t ++ extra) (set_nextXid (n' + 1) s)) as Hn.
  { apply xids_ok_fresh, IH. eapply xids_ok_perm; [|exact Hx]. solve_Permutation. }
  unfold level_ids at 1. cbn. rewrite bool_decide_false by done. unfold own_ids. cbn.
  assert (sublist ((if TransactionIdIsValid n' then [n'] else []) ++ concat (level_ids <$> l') ++ childXids t ++ extra)
    (n' :: concat (level_ids <$> l') ++ childXids t ++ extra)) as Hsub.
  { case_match; [done|]. by apply sublist_cons. }
  eapply xids_ok_sublist in Hn; [|exact Hsub]. eapply xids_ok_perm; [|exact Hn]. solve_Permutation.
Qed.

Lemma write_levels_spec l x t :
  levels (write_levels (l ++ [t]) x) = l ++ [t] ∧ TopTransactionStateData (write_levels (l ++ [t]) x) = t ∧
  MyLockedGxact (write_levels (l ++ [t]) x) = MyLockedGxact x ∧
  proc_exit_inprogress (write_levels (l ++ [t]) x) = proc_exit_inprogress x.
Proof.
  induction l as [|s l (IH1 & IH2 & IH3 & IH4)]; [done|].
  assert (write_levels ((s :: l) ++ [t]) x =
    set_subtransactions (s :: subtransactions (write_levels (l ++ [t]) x)) (write_levels (l ++ [t]) x)) as ->.
  { cbn. by destruct (l ++ [t]) as [|? []] eqn:He; [destruct l| |]. }
  cbn. split_and!; [|done..]. unfold levels in *. cbn. by rewrite IH1.
Qed.

Lemma AssignTransactionId_spec c0 L p :
  Forall (λ d, d.1.2 = TRANS_INPROGRESS) L → sess c0 L live p →
  xwp AssignTransactionId (λ _, sess c0 L live) (err (sess c0 L live)) p.
Proof.
  intros HL Hs. destruct (Hs) as [[Hd Hlv (Ht1 & Ht2 & Ht3 & Ht4) ? ? ? ? ? Hk] Hx].
  do 2 (apply xwp_bind, xwp_read).
  assert (DistributedTransactionContext (dx p) = DTX_CONTEXT_QD_DISTRIBUTED_CAPABLE) as ->.
  { by destruct Hk as [[= -> _ _]|[= -> _ _]]. }
  case_match; [apply xwp_elog; auto|]. do 2 (apply xwp_bind, xwp_read).
  pose proof (assign_chain_same (levels (xa p)) (nextXid (sv p))) as Hsame.
  assert (Forall (λ t, state t ≠ TRANS_ABORT) (levels (xa p))) as Hab.
  { rewrite <- Hd in HL. apply Forall_fmap in HL. eapply Forall_impl; [exact HL|]. cbn. by intros t ->. }
  pose proof (assign_chain_ids (levels (xa p)) (nextXid (sv p)) [] (sv p) Hab) as Hids. rewrite !app_nil_r in Hids.
  assert (state (TopTransactionStateData (xa p)) = TRANS_INPROGRESS) as Htop.
  { rewrite <- Hd in HL. apply Forall_fmap, Forall_app in HL as [_ HL]. by inversion HL. }
  destruct (assign_chain (levels (xa p)) (nextXid (sv p))) as [ls n]. cbn [fst snd] in *.
  assert (xids_ok (ids_live ls) (set_nextXid n (sv p))) as Hx' by (apply Hids; by destruct Hx).
  pose proof (same_desc _ _ Hsame) as Hd'. pose proof (same_level_ok _ _ Hsame Hlv) as Hlv'.
  apply Forall2_app_inv_l in Hsame as (l & lt & _ & Hst & ->).
  apply Forall2_cons_inv_l in Hst as (t & ? & Ht & ->%Forall2_nil_inv_l & ->).
  do 2 (apply xwp_bind, xwp_modify). apply xwp_modify.
  destruct (write_levels_spec l (xa p) t) as (Hw1 & Hw2 & Hw3 & Hw4).
  pose proof (eq_trans (f_equal (fmap desc) Hw1) (eq_trans Hd' Hd)) as Hd''.
  split; [split|]; cbn; rewrite ?Hw3, ?Hw4; try done.
  - change (Forall level_ok (levels (write_levels (l ++ [t]) (xa p)))). by rewrite Hw1.
  - red. cbn. rewrite Hw2, Ht. cbn. split_and!; [done| |done..]. by rewrite Htop.
  - by apply (dtm_ok_step _ _ po_dtm0).
  - change (xids_ok (ids_live (levels (write_levels (l ++ [t]) (xa p)))) (set_nextXid n (sv p))). by rewrite Hw1.
Qed.
End xact_facts.
