(* ===== verification/SessionFacts.v ===== *)
(** * Transaction blocks refine their specification

    The abstract state of a session of the coordinator is what a client sees of it: idle,
    inside of a transaction block with its savepoints, or inside of a block that failed.
    Whatever a message does, and wherever it raises an error, the session is afterwards
    in the state that the abstract machine [run_message] allows. *)
From S2P Require Import Prelude CLib BitUtils Bitmapset BitmapsetFacts Elog Dtm DtxInfo CdbTm Protocol DtmFacts TwoPhase Xact DtmWorld XactFacts Session.

(** ** The abstract machine *)

(** [Started] and [Implicit] exist only while a message is processed: a statement of its
    own, and the implicit block of a message with several statements.  Savepoints are
    listed from the innermost. *)
Inductive ablock :=
  | Idle
  | Started
  | Implicit
  | Open (savepoints : list string)
  | Failed (savepoints : list string).

(** the savepoints outside of the innermost one of the name *)
Fixpoint outside (sp : string) (sps : list string) : option (list string) :=
  match sps with
  | [] => None
  | s :: sps' => if decide (s = sp) then Some sps' else outside sp sps'
  end.

(** the state in which a statement runs *)
Definition enter (implicit : bool) (a : ablock) : ablock :=
  match a with
  | Idle | Started => if implicit then Implicit else Started
  | _ => a
  end.

Definition chained (chain : bool) : ablock := if chain then Open [] else Idle.

(** a statement that succeeds *)
Definition next {W} (last : bool) (a : ablock) (st : statement (W := W)) : option ablock :=
  match st, a with
  | TRANS_STMT_BEGIN, (Started | Implicit) => Some (Open [])
  | TRANS_STMT_BEGIN, Open sps => Some (Open sps)
  | TRANS_STMT_COMMIT chain, (Started | Implicit) => if chain then None else Some Idle
  | TRANS_STMT_COMMIT chain, (Open _ | Failed _) => Some (chained chain)
  | TRANS_STMT_ROLLBACK chain, (Started | Implicit) => if chain then None else Some Idle
  | TRANS_STMT_ROLLBACK chain, (Open _ | Failed _) => Some (chained chain)
  | TRANS_STMT_SAVEPOINT sp, Open sps => Some (Open (sp :: sps))
  | TRANS_STMT_RELEASE sp, Open sps => Open <$> outside sp sps
  | TRANS_STMT_ROLLBACK_TO sp, (Open sps | Failed sps) => (λ o, Open (sp :: o)) <$> outside sp sps
  | OtherStmt _, Started => Some Idle
  | OtherStmt _, Implicit => Some (if last then Idle else Implicit)
  | OtherStmt _, Open sps => Some (Open sps)
  | _, _ => None
  end.

Lemma next_states {W} last a (st : statement (W := W)) a1 :
  next last a st = Some a1 →
  a1 ≠ Started ∧ (a1 = Implicit → last = false ∧ IsTransactionStmt st = false).
Proof.
  destruct st as [|ch|gid|gid|gid|ch|sp|sp|sp|body], a as [| | |sps|sps]; cbn; intros Hn; try done;
    try destruct ch; try destruct (outside sp sps); try destruct last; by simplify_eq/=.
Qed.

(** an error in the statement: a transaction of its own is rolled back, a block fails *)
Definition fail (a : ablock) : ablock :=
  match a with
  | Open sps | Failed sps => Failed sps
  | _ => Idle
  end.

(** an error while a transaction statement takes effect *)
Definition fail_late {W} (a : ablock) (st : statement (W := W)) : ablock :=
  match st, a with
  | (TRANS_STMT_COMMIT _ | TRANS_STMT_ROLLBACK _), _ => Idle
  | (TRANS_STMT_RELEASE sp | TRANS_STMT_ROLLBACK_TO sp), (Open sps | Failed sps) =>
      Failed (default sps (outside sp sps))
  | _, _ => fail a
  end.

(** the statements of a message *)
Inductive run_statements {W} (implicit : bool) : ablock → list (statement (W := W)) → ablock → Prop :=
  | run_done a : run_statements implicit a [] a
  | run_next a st rest a1 a2 :
      next (bool_decide (rest = [])) (enter implicit a) st = Some a1 →
      run_statements implicit a1 rest a2 →
      run_statements implicit a (st :: rest) a2
  | run_error a st rest a2 :
      a2 = fail (enter implicit a) ∨ a2 = fail_late (enter implicit a) st →
      run_statements implicit a (st :: rest) a2.

(** a message; one without statements does nothing, unless that fails *)
Definition run_message {W} (a : ablock) (l : list (statement (W := W))) (a' : ablock) : Prop :=
  match l with
  | [] => a' = a ∨ a' = fail a
  | _ => run_statements (1 <? Z.of_nat (length l)) a l a'
  end.

(** what ReadyForQuery tells the client *)
Definition status_code (a : ablock) : ascii :=
  match a with
  | Idle | Started => "I"
  | Implicit | Open _ => "T"
  | Failed _ => "E"
  end.

(** ** The stack of a state *)

Definition sub_live (n : string) : level_desc := (TBLOCK_SUBINPROGRESS, TRANS_INPROGRESS, Some n).
Definition open_stack (sps : list string) (n0 : option string) : list level_desc :=
  (sub_live <$> sps) ++ [(TBLOCK_INPROGRESS, TRANS_INPROGRESS, n0)].

Lemma open_stack_nil sps n0 : open_stack sps n0 ≠ [].
Proof. unfold open_stack. by destruct sps. Qed.

Section session_facts.
Context {W : Type} `{!XactEnv W, !Segments W, !CalmEnv W} `{Backend, !QDBackend}.
Notation X := (X (proc W)).
Implicit Types p q : proc W.

(** the transaction was rolled back, the block is not yet over *)
Definition rolled_back : dtx_key → Prop :=
  over (λ c l, c = DTX_CONTEXT_QD_DISTRIBUTED_CAPABLE ∧ l = LOCALDISTRIBXACT_STATE_NONE).

Definition stack_of (a : ablock) (n0 : option string) : list level_desc :=
  match a with
  | Idle => [(TBLOCK_DEFAULT, TRANS_DEFAULT, n0)]
  | Started => [(TBLOCK_STARTED, TRANS_INPROGRESS, n0)]
  | Implicit => [(TBLOCK_IMPLICIT_INPROGRESS, TRANS_INPROGRESS, n0)]
  | Open sps => open_stack sps n0
  | Failed [] => [(TBLOCK_ABORT, TRANS_ABORT, n0)]
  | Failed (sp :: sps) => (TBLOCK_SUBABORT, TRANS_ABORT, Some sp) :: open_stack sps n0
  end.

Definition key_of (a : ablock) : dtx_key → Prop :=
  match a with
  | Idle => idle
  | Failed [] => rolled_back
  | _ => live
  end.

(** [p] is in the state [a]; the commit log extends [c] *)
Definition block_is (c : gmap Z XidStatus) (a : ablock) (p : proc W) : Prop :=
  ∃ n0 ch, sess (c, ch) (stack_of a n0) (key_of a) p.

(** ** Recovering from an error *)

(** levels that abort processing removes *)
Definition junk (d : level_desc) : Prop :=
  (d.1.1 ∈ [TBLOCK_SUBBEGIN; TBLOCK_SUBRELEASE; TBLOCK_SUBCOMMIT; TBLOCK_SUBABORT_PENDING; TBLOCK_SUBRESTART] ∧
   d.1.2 ≠ TRANS_ABORT) ∨
  (d.1.1 ∈ [TBLOCK_SUBABORT_END; TBLOCK_SUBABORT_RESTART] ∧ d.1.2 = TRANS_ABORT).

(** a topmost level whose transaction ends with the error *)
Definition ends_on_error (b : TBlockState) : Prop :=
  b ∈ [TBLOCK_STARTED; TBLOCK_IMPLICIT_INPROGRESS; TBLOCK_BEGIN; TBLOCK_END; TBLOCK_ABORT_PENDING].

(** abort processing itself was interrupted *)
Inductive interrupted (c : gmap Z XidStatus) : ablock → proc W → Prop :=
  | interrupted_open ch n0 p :
      sess (c, ch) [(TBLOCK_INPROGRESS, TRANS_ABORT, n0)] nap p → interrupted c (Failed []) p
  | interrupted_top ch b n0 p :
      ends_on_error b → sess (c, ch) [(b, TRANS_ABORT, n0)] nap p → interrupted c Idle p
  | interrupted_default ch n0 p :
      sess (c, ch) [(TBLOCK_DEFAULT, TRANS_ABORT, n0)] nap p → interrupted c Idle p.

(** the states in which an error leaves a session, and where abort processing goes from them *)
Inductive erring (c : gmap Z XidStatus) : ablock → proc W → Prop :=
  | erring_open ch J sps n0 p :
      Forall junk J → sess (c, ch) (J ++ open_stack sps n0) live p → erring c (Failed sps) p
  | erring_top ch J b t n0 p :
      Forall junk J → ends_on_error b → t ≠ TRANS_ABORT →
      sess (c, ch) (J ++ [(b, t, n0)]) live p → erring c Idle p
  | erring_commit ch b t n0 p :
      ends_on_error b → t ≠ TRANS_ABORT → sess (c, ch) [(b, t, n0)] (capable failing_states) p →
      erring c Idle p
  | erring_default ch t n0 p :
      t ≠ TRANS_ABORT → t ≠ TRANS_DEFAULT → sess (c, ch) [(TBLOCK_DEFAULT, t, n0)] live p →
      erring c Idle p
  | erring_idle ch n0 p :
      sess (c, ch) [(TBLOCK_DEFAULT, TRANS_DEFAULT, n0)] idle p → erring c Idle p
  | erring_abort_end ch n0 p :
      sess (c, ch) [(TBLOCK_ABORT_END, TRANS_ABORT, n0)] rolled_back p → erring c Idle p
  | erring_failed a p : block_is c (Failed a) p → erring c (Failed a) p
  | erring_interrupted a p : interrupted c a p → erring c a p.

Lemma sess_recoverable F c0 L K (p : proc W) : sessF F c0 L K p → recoverable p.
Proof. intros [Hp _]. by apply dtm_ok_recoverable, Hp. Qed.

Lemma sess_length F c0 L K (p : proc W) :
  sessF F c0 L K p → length L = S (length (subtransactions (xa p))).
Proof.
  intros [[<- _ _ _ _ _ _ _ _] _]. rewrite length_fmap. unfold levels. rewrite length_app. simpl. lia.
Qed.

(** the blocks of the levels of a stack *)
Lemma abort_end_spec c ch b n0 p (P : DtxContext → LocalDistribXactState → Prop) E :
  sess (c, ch) [(b, TRANS_ABORT, n0)] (over P) p →
  xwp (CleanupTransaction;; set_block TBLOCK_DEFAULT) (λ _, block_is c Idle) E p.
Proof.
  intros Hs. eapply xwp_seq; [eapply CleanupTransaction_spec, Hs|]. intros [] p1 Hs1.
  eapply xwp_mono; [eapply xwp_set_block, Hs1| |intros l msg s He; exact He].
  intros ? p2 Hs2. by exists n0, ch.
Qed.

Lemma ends_not_parallel b : ends_on_error b → b ≠ TBLOCK_PARALLEL_INPROGRESS.
Proof. intros Hb ->. unfold ends_on_error in Hb. set_solver. Qed.

Lemma abort_and_cleanup_spec c ch b t n0 p :
  sess (c, ch) [(b, t, n0)] (capable failing_states) p → t ≠ TRANS_ABORT → ends_on_error b →
  xwp abort_and_cleanup (λ _, block_is c Idle) (err (interrupted c Idle)) p.
Proof.
  intros Hs Ht Hb. eapply xwp_seq.
  { eapply xwp_mono; [eapply AbortTransaction_failing; [exact Hs|done|by apply ends_not_parallel]|
      intros ?? Hq; exact Hq|].
    intros l msg s. apply err_mono. by apply interrupted_top. }
  intros [] p1 Hs1. by eapply abort_end_spec.
Qed.

(** a running transaction is in one of the states of a failing one *)
Lemma live_failing F c0 L (p : proc W) : sessF F c0 L live p → sessF F c0 L (capable failing_states) p.
Proof.
  apply sessF_key. intros k Hk%live_capable. eapply capable_mono; [|exact Hk]. set_solver.
Qed.

Lemma abort_default_spec c ch t n0 p :
  sess (c, ch) [(TBLOCK_DEFAULT, t, n0)] live p → t ≠ TRANS_ABORT → t ≠ TRANS_DEFAULT →
  xwp abort_default (λ _, block_is c Idle) (err (interrupted c Idle)) p.
Proof.
  intros Hs Ht Hd. apply xwp_bind, xwp_read. destruct (sess_read _ _ _ _ _ _ _ _ Hs) as (_ & -> & _ & _).
  rewrite bool_decide_false by done.
  apply (xwp_seq _ _ (λ _ q, ∃ t', t' ≠ TRANS_ABORT ∧ sess (c, ch) [(TBLOCK_DEFAULT, t', n0)] live q)).
  { apply xwp_when; intros _; [|by exists t].
    eapply xwp_mono; [eapply xwp_set_trans; [exact Hs|done|done]| |intros l msg s He; exact He].
    intros ? q Hq. by exists TRANS_INPROGRESS. }
  intros [] p1 (t' & Ht' & Hs1). eapply xwp_seq.
  { eapply xwp_mono; [by eapply AbortTransaction_live; [exact Hs1|..]|intros ?? Hq; exact Hq|].
    intros l msg s. apply err_mono. apply interrupted_default. }
  intros [] p2 Hs2. eapply xwp_mono; [eapply CleanupTransaction_spec, Hs2| |intros l msg s He; exact He].
  intros ? q Hq. by exists n0, ch.
Qed.

(** removing the levels on top *)
Lemma abort_junk c0 J B fuel Q E p :
  Forall junk J → B ≠ [] → sess c0 (J ++ B) live p →
  (∀ l msg s, doomed l msg s → E l msg s) →
  (∀ q, sess c0 B live q → xwp (abort_current fuel) Q E q) →
  xwp (abort_current (length J + fuel)) Q E p.
Proof.
  intros HJ HB Hs HE Hgo. revert p Hs. induction HJ as [|[[b t] n] J Hj HJ IH]; intros p Hs; [by apply Hgo|].
  cbn [length Nat.add abort_current]. apply xwp_bind, xwp_read.
  destruct (sess_read _ _ _ _ _ _ _ _ Hs) as (-> & _ & _ & _).
  destruct (J ++ B) as [|d' L] eqn:HJB; [by destruct J|].
  assert (∀ q, sess c0 ((b, TRANS_ABORT, n) :: d' :: L) live q →
    xwp (CleanupSubTransaction;; abort_current (length J + fuel)) Q E q) as Hclean.
  { intros q Hq. eapply xwp_seq; [eapply CleanupSubTransaction_spec, Hq|]. intros [] q1 Hq1. by apply IH. }
  assert (t ≠ TRANS_ABORT →
    xwp (AbortSubTransaction;; CleanupSubTransaction;; abort_current (length J + fuel)) Q E p) as Habort.
  { intros Ht. cbn in Hs. rewrite HJB in Hs. eapply xwp_seq.
    - eapply xwp_mono; [by eapply AbortSubTransaction_spec; [exact Hs|..]|intros ?? Hq; exact Hq|done].
    - intros [] q Hq. apply Hclean, Hq. }
  destruct Hj as [[Hb Ht]|[Hb Ht]]; cbn in Hb, Ht; set_unfold in Hb.
  - destruct Hb as [-> |[-> |[-> |[-> |[-> |[]]]]]]; by apply Habort.
  - subst t. cbn in Hs. rewrite HJB in Hs. destruct Hb as [-> |[-> |[]]]; by apply Hclean.
Qed.

Lemma AbortCurrent_fuel J B fuel Q E p c0 :
  sess c0 (J ++ B) live p → length B = S fuel →
  xwp (abort_current (length J + S fuel)) Q E p → xwp AbortCurrentTransaction Q E p.
Proof.
  intros Hs HB Hx. apply xwp_bind, xwp_read. pose proof (sess_length _ _ _ _ _ Hs) as Hl.
  rewrite length_app in Hl. by replace (S (length (subtransactions (xa p)))) with (length J + S fuel)%nat by lia.
Qed.

Lemma AbortCurrent_single c0 b t n0 K Q E p :
  sess c0 [(b, t, n0)] K p → xwp (abort_current 1) Q E p → xwp AbortCurrentTransaction Q E p.
Proof.
  intros Hs Hx. apply xwp_bind, xwp_read. pose proof (sess_length _ _ _ _ _ Hs) as Hl.
  cbn in Hl. by injection Hl as <-.
Qed.

(** a level that fails and stays *)
Lemma abort_open_spec c ch sps n0 fuel p :
  sess (c, ch) (open_stack sps n0) live p →
  xwp (abort_current (S fuel)) (λ _, block_is c (Failed sps)) (err (interrupted c (Failed sps))) p.
Proof.
  intros Hs. apply xwp_bind, xwp_read. destruct sps as [|sp sps].
  - destruct (sess_read _ _ _ _ _ _ _ _ Hs) as (-> & _ & _ & _). eapply xwp_seq.
    { eapply xwp_mono; [by eapply AbortTransaction_live; [exact Hs|..]|intros ?? Hq; exact Hq|].
      intros l msg s. apply err_mono. apply interrupted_open. }
    intros [] p1 Hs1. eapply xwp_mono; [eapply xwp_set_block, Hs1| |intros l msg s He; exact He].
    intros ? q Hq. by exists n0, ch.
  - destruct (sess_read _ _ _ _ _ _ _ _ Hs) as (-> & _ & _ & _). eapply xwp_seq.
    { eapply xwp_mono; [eapply AbortSubTransaction_spec; [exact Hs|done|apply open_stack_nil]|
        intros ?? Hq; exact Hq|intros; by right]. }
    intros [] p1 Hs1. eapply xwp_mono; [eapply xwp_set_block, Hs1| |intros l msg s He; exact He].
    intros ? q Hq. by exists n0, ch.
Qed.

(** the second attempt succeeds *)
Lemma AbortCurrent_interrupted c a p :
  interrupted c a p → xwp AbortCurrentTransaction (λ _, block_is c a) (err (λ _, False)) p.
Proof.
  intros He. destruct He as [ch n0 p Hs|ch b n0 p Hb Hs|ch n0 p Hs];
    (eapply AbortCurrent_single; [exact Hs|]); apply xwp_bind, xwp_read;
    destruct (sess_read _ _ _ _ _ _ _ _ Hs) as (-> & Hst & _ & _).
  - eapply xwp_seq; [by eapply AbortTransaction_nap|]. intros [] p1 Hs1.
    eapply xwp_mono; [eapply xwp_set_block, Hs1| |intros l msg s He; exact He].
    intros ? q Hq. by exists n0, ch.
  - assert (xwp abort_and_cleanup (λ _, block_is c Idle) (err (λ _, False)) p) as Hgo.
    { eapply xwp_seq; [eapply AbortTransaction_nap; [exact Hs|by apply ends_not_parallel]|].
      intros [] p1 Hs1. by eapply abort_end_spec. }
    unfold ends_on_error in Hb. set_unfold in Hb. by destruct Hb as [-> |[-> |[-> |[-> |[-> |[]]]]]].
  - apply xwp_bind, xwp_read. rewrite Hst, bool_decide_false by done. apply xwp_bind, xwp_ret.
    eapply xwp_seq; [by eapply AbortTransaction_nap|]. intros [] p1 Hs1.
    eapply xwp_mono; [eapply CleanupTransaction_spec, Hs1| |intros l msg s He; exact He].
    intros ? q Hq. by exists n0, ch.
Qed.

(** abort processing goes where it should, or is interrupted once *)
Lemma AbortCurrent_erring c a p :
  erring c a p → xwp AbortCurrentTransaction (λ _, block_is c a) (err (interrupted c a)) p.
Proof.
  intros He. destruct He as [ch J sps n0 p HJ Hs|ch J b t n0 p HJ Hb Ht Hs|ch b t n0 p Hb Ht Hs|
    ch t n0 p Ht Hd Hs|ch n0 p Hs|ch n0 p Hs|sps p (n0 & ch & Hs)|a p Hi].
  - eapply AbortCurrent_fuel; [exact Hs|unfold open_stack; rewrite length_app, Nat.add_comm; reflexivity|].
    eapply abort_junk; [done|apply open_stack_nil|exact Hs|intros; by right|]. intros q. apply abort_open_spec.
  - eapply (AbortCurrent_fuel _ _ 0); [exact Hs|done|].
    eapply (abort_junk _ J [(b, t, n0)]); [done|done|exact Hs|intros; by right|]. intros q Hq.
    apply xwp_bind, xwp_read. destruct (sess_read _ _ _ _ _ _ _ _ Hq) as (-> & _ & _ & _).
    apply live_failing in Hq. pose proof (abort_and_cleanup_spec _ _ _ _ _ _ Hq Ht Hb) as Hgo.
    unfold ends_on_error in Hb. set_unfold in Hb. by destruct Hb as [-> |[-> |[-> |[-> |[-> |[]]]]]].
  - eapply AbortCurrent_single; [exact Hs|]. apply xwp_bind, xwp_read.
    destruct (sess_read _ _ _ _ _ _ _ _ Hs) as (-> & _ & _ & _).
    pose proof (abort_and_cleanup_spec _ _ _ _ _ _ Hs Ht Hb) as Hgo.
    unfold ends_on_error in Hb. set_unfold in Hb. by destruct Hb as [-> |[-> |[-> |[-> |[-> |[]]]]]].
  - eapply AbortCurrent_single; [exact Hs|]. apply xwp_bind, xwp_read.
    destruct (sess_read _ _ _ _ _ _ _ _ Hs) as (-> & _ & _ & _). by eapply abort_default_spec.
  - eapply AbortCurrent_single; [exact Hs|]. apply xwp_bind, xwp_read.
    destruct (sess_read _ _ _ _ _ _ _ _ Hs) as (-> & Hst & _ & _). apply xwp_bind, xwp_read.
    rewrite Hst, bool_decide_true by done. by exists n0, ch.
  - eapply AbortCurrent_single; [exact Hs|]. apply xwp_bind, xwp_read.
    destruct (sess_read _ _ _ _ _ _ _ _ Hs) as (-> & _ & _ & _). by eapply abort_end_spec.
  - apply xwp_bind, xwp_read, xwp_bind, xwp_read.
    destruct sps; destruct (sess_read _ _ _ _ _ _ _ _ Hs) as (-> & _ & _ & _); by exists n0, ch.
  - eapply xwp_mono; [by apply AbortCurrent_interrupted|done|]. intros l msg s. by apply err_mono.
Qed.

Lemma recover_spec c a depth p :
  erring c a p → xwp (recover_from_error (S (S depth))) (λ _, block_is c a) doomed p.
Proof.
  intros He. cbn [recover_from_error]. apply xwp_try.
  eapply xwp_mono; [by apply AbortCurrent_erring|done|]. intros l msg s [[-> Hi]|Hf].
  2: { destruct l; try done. by apply doomed_not_error in Hf. }
  apply xwp_try. eapply xwp_mono; [by apply AbortCurrent_interrupted|done|].
  intros l' msg' s' [[-> []]|Hf]. destruct l'; try done. by apply doomed_not_error in Hf.
Qed.

(** ** The end of a command *)

(** the levels of ROLLBACK and ROLLBACK TO *)
Definition pending (d : level_desc) : Prop :=
  d.1 = (TBLOCK_SUBABORT_PENDING, TRANS_INPROGRESS) ∨ d.1 = (TBLOCK_SUBABORT_END, TRANS_ABORT).

(** What a transaction statement leaves to CommitTransactionCommand: the state it leads
    to, and the state it leads to if an error occurs. *)
Inductive marked (c : gmap Z XidStatus) : ablock → ablock → proc W → Prop :=
  | marked_begin ch n0 p :
      sess (c, ch) [(TBLOCK_BEGIN, TRANS_INPROGRESS, n0)] live p → marked c (Open []) Idle p
  | marked_same ch sps n0 p :
      sess (c, ch) (open_stack sps n0) live p → marked c (Open sps) (Failed sps) p
  | marked_started ch n0 p :
      sess (c, ch) [(TBLOCK_STARTED, TRANS_INPROGRESS, n0)] live p → marked c Idle Idle p
  | marked_commit ch (ns : list (option string)) n0 p :
      sess (c, ch) ((pair (TBLOCK_SUBCOMMIT, TRANS_INPROGRESS) <$> ns) ++ [(TBLOCK_END, TRANS_INPROGRESS, n0)])
        live p → marked c (chained ch) Idle p
  | marked_abort_end ch n0 p :
      sess (c, ch) [(TBLOCK_ABORT_END, TRANS_ABORT, n0)] rolled_back p → marked c (chained ch) Idle p
  | marked_rollback ch J n0 p :
      Forall pending J → sess (c, ch) (J ++ [(TBLOCK_ABORT_PENDING, TRANS_INPROGRESS, n0)]) live p →
      marked c (chained ch) Idle p
  | marked_savepoint ch sp sps n0 p :
      sess (c, ch) ((TBLOCK_SUBBEGIN, TRANS_DEFAULT, Some sp) :: open_stack sps n0) live p →
      marked c (Open (sp :: sps)) (Failed sps) p
  | marked_release ch n (ns : list (option string)) sps n0 p :
      sess (c, ch) ((pair (TBLOCK_SUBRELEASE, TRANS_INPROGRESS) <$> n :: ns) ++ open_stack sps n0) live p →
      marked c (Open sps) (Failed sps) p
  | marked_rollback_to ch J d sp sps n0 p :
      Forall pending J →
      d = (TBLOCK_SUBRESTART, TRANS_INPROGRESS, Some sp) ∨ d = (TBLOCK_SUBABORT_RESTART, TRANS_ABORT, Some sp) →
      sess (c, ch) (J ++ d :: open_stack sps n0) live p →
      marked c (Open (sp :: sps)) (Failed sps) p.

Lemma restart_level (k : Z → X unit) c0 d L K Q E p :
  sess c0 (d :: L) K p → xwp (modify_current (set_name None);; k 0) Q E p →
  xwp (modify_current (set_name None);; level ← get_current savepointLevel; k level) Q E p.
Proof.
  intros Hs Hk. destruct d as [[b t] n]. apply xwp_bind, xwp_modify, xwp_bind, xwp_read.
  pose proof (xwp_set_name None _ _ _ _ _ _ (λ _ _ _, False) _ Hs) as Hs'.
  destruct (sess_read _ _ _ _ _ _ _ _ Hs') as (_ & _ & _ & [_ ->]). exact Hk.
Qed.

(** the command starts with saving the characteristics *)
Lemma commit_command_at c0 b t n L K fuel Q E p :
  sess c0 ((b, t, n) :: L) K p →
  (∀ q, sess c0 ((b, t, n) :: L) K q →
    xwp (match b with
         | TBLOCK_DEFAULT | TBLOCK_PARALLEL_INPROGRESS => unexpected_block FATAL "CommitTransactionCommand"
         | TBLOCK_STARTED => CommitTransaction;; set_block TBLOCK_DEFAULT
         | TBLOCK_BEGIN => set_block TBLOCK_INPROGRESS
         | TBLOCK_INPROGRESS | TBLOCK_IMPLICIT_INPROGRESS | TBLOCK_SUBINPROGRESS => CommandCounterIncrement
         | TBLOCK_END => CommitTransaction;; set_block TBLOCK_DEFAULT;; start_chained
         | TBLOCK_ABORT | TBLOCK_SUBABORT => mret tt
         | TBLOCK_ABORT_END => CleanupTransaction;; set_block TBLOCK_DEFAULT;; start_chained
         | TBLOCK_ABORT_PENDING =>
             AbortTransaction;; CleanupTransaction;; set_block TBLOCK_DEFAULT;; start_chained
         | TBLOCK_PREPARE => PrepareTransaction;; set_block TBLOCK_DEFAULT
         | TBLOCK_SUBBEGIN => StartSubTransaction;; set_block TBLOCK_SUBINPROGRESS
         | TBLOCK_SUBRELEASE => commit_subs_while (length L) TBLOCK_SUBRELEASE
         | TBLOCK_SUBCOMMIT =>
             commit_subs_while (length L) TBLOCK_SUBCOMMIT;;
             b' ← get_current blockState;
             (match b' with
              | TBLOCK_END => CommitTransaction;; set_block TBLOCK_DEFAULT;; start_chained
              | TBLOCK_PREPARE => PrepareTransaction;; set_block TBLOCK_DEFAULT
              | _ => unexpected_block ERROR "CommitTransactionCommand"
              end)
         | TBLOCK_SUBABORT_END => CleanupSubTransaction;; commit_command fuel
         | TBLOCK_SUBABORT_PENDING => AbortSubTransaction;; CleanupSubTransaction;; commit_command fuel
         | TBLOCK_SUBRESTART =>
             modify_current (set_name None);;
             AbortSubTransaction;; CleanupSubTransaction;; restart_savepoint n 0
         | TBLOCK_SUBABORT_RESTART =>
             modify_current (set_name None);; CleanupSubTransaction;; restart_savepoint n 0
         end) Q E q) →
  xwp (commit_command (S fuel)) Q E p.
Proof.
  intros Hs Hgo. cbn [commit_command].
  eapply xwp_seq; [by apply (xwp_same_stack _ ids_live); [exact Hs|]|]. intros [] q Hq.
  apply xwp_bind, xwp_read. destruct (sess_read _ _ _ _ _ _ _ _ Hq) as (-> & _ & Hn & Hok).
  specialize (Hgo q Hq). pose proof (sess_length _ _ _ _ _ Hq) as Hl. cbn in Hl. injection Hl as Hl.
  destruct b; try exact Hgo.
  - apply xwp_bind, xwp_read. by rewrite <- Hl.
  - apply xwp_bind, xwp_read. by rewrite <- Hl.
  - apply xwp_bind, xwp_read. rewrite Hn. 
    by eapply (restart_level (λ level, AbortSubTransaction;; CleanupSubTransaction;; restart_savepoint n level)).
  - apply xwp_bind, xwp_read. rewrite Hn. 
    by eapply (restart_level (λ level, CleanupSubTransaction;; restart_savepoint n level)).
Qed.

Lemma setupRegular_idle c0 L (p : proc W) :
  sess c0 L idle p → xwp setupRegularDtxContext (λ _, sess c0 L starting) (λ _ _ _, False) p.
Proof.
  intros [[Hd Hlv Htop Hcl Hlk Hex Hstart Hdtm (c & l & Hk & ->)] Hx]. injection Hk as Hc Hl Hst.
  apply xwp_bind, xwp_read. rewrite Hc. apply xwp_bind. unfold isDtxQueryDispatcher.
  pose proof Hstart as Hs. injection Hs as Hs _.
  apply xwp_bind, xwp_read, xwp_ret. rewrite Hs, qd_dispatch, qd_slot. apply xwp_modify.
  split; [|done]. split; cbn; try done; [by apply (dtm_ok_step _ _ Hdtm)|].
  exists DTX_CONTEXT_QD_DISTRIBUTED_CAPABLE, l. split; [|done]. unfold key. cbn. by rewrite Hl, Hst.
Qed.

Lemma setupRegular_capable c0 L (K : dtx_key → Prop) (p : proc W) E :
  sess c0 L K p → (∀ k, K k → k.1.1 = DTX_CONTEXT_QD_DISTRIBUTED_CAPABLE) →
  xwp setupRegularDtxContext (λ _, sess c0 L K) E p.
Proof.
  intros Hs HK. apply xwp_bind, xwp_read.
  assert (DistributedTransactionContext (dx p) = DTX_CONTEXT_QD_DISTRIBUTED_CAPABLE) as ->.
  { apply (HK _ (po_key _ _ _ _ (proj1 Hs))). }
  by apply xwp_ret.
Qed.

(** a transaction that starts is started, or fails to start *)
Lemma start_spec {B} c ch b n0 (f : unit → X B) Q E p :
  sess (c, ch) [(b, TRANS_DEFAULT, n0)] idle p →
  (∀ l msg q, doomed l msg q → E l msg q) →
  (∀ t msg q, t ≠ TRANS_ABORT → t ≠ TRANS_DEFAULT → sess (c, ch) [(b, t, n0)] live q → E ERROR msg q) →
  (∀ q, sess (c, ch) [(b, TRANS_INPROGRESS, n0)] live q → xwp (f tt) Q E q) →
  xwp (xwhen is_dispatch setupRegularDtxContext;; StartTransaction ≫= f) Q E p.
Proof.
  intros Hs HF HE Hf. rewrite qd_dispatch. eapply xwp_seq.
  { eapply xwp_mono; [apply setupRegular_idle, Hs|intros ?? Hq; exact Hq|done]. }
  intros [] p1 Hs1. apply xwp_bind. eapply xwp_mono; [apply StartTransaction_spec, Hs1| |].
  - intros [] q Hq. by apply Hf.
  - intros l msg q [[-> (t & Ht & Ht' & Hq)]|Hq]; eauto.
Qed.

Lemma start_chained_spec c ch n0 (p : proc W) :
  sess (c, ch) [(TBLOCK_DEFAULT, TRANS_DEFAULT, n0)] idle p →
  xwp start_chained (λ _, block_is c (chained ch)) (err (erring c Idle)) p.
Proof.
  intros Hs. apply xwp_bind, xwp_read.
  assert (chain (CurrentTransactionState (xa p)) = ch) as ->.
  { destruct (Hs) as [[Hd _ (_ & _ & Hc & _) _ _ _ _ _ _] _]. unfold levels in Hd. cbn in Hc.
    unfold CurrentTransactionState. by destruct (subtransactions (xa p)) as [|? []]. }
  destruct ch; cbn [xwhen chained]; [|by exists n0, false].
  eapply start_spec; [exact Hs|intros; by right|intros; left; split; [done|by eapply erring_default]|].
  intros q Hq. eapply xwp_seq; [eapply xwp_set_block, Hq|]. intros [] p1 Hs1.
  apply (xwp_seq _ _ (λ _, sess (c, false) [(TBLOCK_INPROGRESS, TRANS_INPROGRESS, n0)] live)).
  { eapply xwp_set_chain, Hs1. }
  intros [] p2 Hs2. eapply xwp_mono; [by apply (xwp_same_stack _ ids_live); [exact Hs2|]| |intros l msg s He; exact He].
  intros ? r Hr. by exists n0, false.
Qed.

(** committing the topmost level *)
Lemma commit_top_spec c ch n0 p :
  sess (c, ch) [(TBLOCK_END, TRANS_INPROGRESS, n0)] live p →
  xwp (CommitTransaction;; set_block TBLOCK_DEFAULT;; start_chained)
    (λ _, block_is c (chained ch)) (err (erring c Idle)) p.
Proof.
  intros Hs. eapply xwp_seq.
  { eapply xwp_mono; [by eapply CommitTransaction_spec|intros ?? Hq; exact Hq|].
    intros l msg q. apply err_mono. intros (t & Ht & Hq). eapply erring_commit; [|done|exact Hq].
    unfold ends_on_error. set_solver. }
  intros [] p1 Hs1. eapply xwp_seq; [eapply xwp_set_block, Hs1|]. intros [] p2 Hs2.
  by eapply start_chained_spec.
Qed.

Lemma commit_subs_spec c0 b ns n d L fuel p :
  d.1.1 ≠ b → d.1.2 ≠ TRANS_ABORT → (length ns < fuel)%nat →
  sess c0 ((pair (b, TRANS_INPROGRESS) <$> n :: ns) ++ d :: L) live p →
  xwp (commit_subs_while fuel b) (λ _, sess c0 (d :: L) live)
    (err (λ q, ∃ t n' ns', t ≠ TRANS_ABORT ∧
       sess c0 ((b, t, n') :: (pair (b, TRANS_INPROGRESS) <$> ns') ++ d :: L) live q)) p.
Proof.
  intros Hd Hab. revert n fuel p. induction ns as [|n' ns IH]; intros n fuel p Hf Hs;
    (destruct fuel as [|fuel]; [cbn in Hf; lia|]); cbn [commit_subs_while].
  - eapply xwp_seq.
    { eapply xwp_mono; [by eapply CommitSubTransaction_spec; [exact Hs|]|intros ?? Hq; exact Hq|].
      intros l msg q. apply err_mono. intros (t & Ht & Hq). by exists t, n, []. }
    intros [] q Hq. destruct d as [[b' t'] n']. apply xwp_bind, xwp_read.
    destruct (sess_read _ _ _ _ _ _ _ _ Hq) as (-> & _ & _ & _). rewrite bool_decide_false by done.
    by apply xwp_ret.
  - eapply xwp_seq.
    { eapply xwp_mono; [by eapply CommitSubTransaction_spec; [exact Hs|]|intros ?? Hq; exact Hq|].
      intros l msg q. apply err_mono. intros (t & Ht & Hq). by exists t, n, (n' :: ns). }
    intros [] q Hq. apply xwp_bind, xwp_read.
    destruct (sess_read _ _ _ _ _ _ _ _ Hq) as (-> & _ & _ & _). rewrite bool_decide_true by done.
    apply (IH n'); [cbn in Hf; lia|exact Hq].
Qed.

Lemma junk_levels b ns :
  b ∈ [TBLOCK_SUBBEGIN; TBLOCK_SUBRELEASE; TBLOCK_SUBCOMMIT; TBLOCK_SUBABORT_PENDING; TBLOCK_SUBRESTART] →
  Forall junk (pair (b, TRANS_INPROGRESS) <$> ns).
Proof. intros Hb. induction ns; constructor; [by left|done]. Qed.

(** removing the levels of a rollback *)
Lemma commit_pending c0 J B fuel Q E p :
  Forall pending J → B ≠ [] → sess c0 (J ++ B) live p →
  (∀ l msg s, doomed l msg s → E l msg s) →
  (∀ q, sess c0 B live q → xwp (commit_command fuel) Q E q) →
  xwp (commit_command (length J + fuel)) Q E p.
Proof.
  intros HJ HB Hs HE Hgo. revert p Hs. induction HJ as [|[[b t] n] J Hj HJ IH]; intros p Hs; [by apply Hgo|].
  cbn [length Nat.add]. cbn in Hs. destruct (J ++ B) as [|d' L] eqn:HJB; [by destruct J|].
  eapply commit_command_at; [exact Hs|]. intros q Hq.
  assert (∀ q, sess c0 ((b, TRANS_ABORT, n) :: d' :: L) live q →
    xwp (CleanupSubTransaction;; commit_command (length J + fuel)) Q E q) as Hclean.
  { intros r Hr. eapply xwp_seq; [eapply CleanupSubTransaction_spec, Hr|]. intros [] q1 Hq1. by apply IH. }
  destruct Hj as [[= -> ->]|[= -> ->]]; [|by apply Hclean]. eapply xwp_seq.
  - eapply xwp_mono; [by eapply AbortSubTransaction_spec; [exact Hq|..]|intros ?? Hr; exact Hr|done].
  - intros [] r Hr. apply Hclean, Hr.
Qed.

Lemma pending_junk J : Forall pending J → Forall junk J.
Proof.
  intros HJ. eapply Forall_impl; [exact HJ|]. intros [[b t] n] [[= -> ->]|[= -> ->]]; [left|right]; cbn; (split; [set_solver|done]).
Qed.

(** the head of an open stack *)
Lemma open_head sps n0 :
  ∃ b n L, open_stack sps n0 = (b, TRANS_INPROGRESS, n) :: L ∧
           (b = TBLOCK_INPROGRESS ∧ sps = [] ∨ b = TBLOCK_SUBINPROGRESS ∧ sps ≠ []).
Proof. destruct sps as [|sp sps]; eexists _, _, _; (split; [done|]); auto. Qed.

Lemma DefineSavepoint_spec c0 sp sps n0 p :
  sess c0 (open_stack sps n0) live p →
  xwp (DefineSavepoint (Some sp))
    (λ _, sess c0 ((TBLOCK_SUBBEGIN, TRANS_DEFAULT, Some sp) :: open_stack sps n0) live)
    (err (sess c0 (open_stack sps n0) live)) p.
Proof.
  intros Hs. destruct (open_head sps n0) as (b & n & L & Heq & Hb). rewrite Heq in *.
  destruct (sess_read _ _ _ _ _ _ _ _ Hs) as (Hblk & _ & _ & [Hpar _]).
  apply xwp_bind, xwp_read. rewrite Hpar, Z.eqb_refl. cbn [negb]. apply xwp_bind, xwp_read. rewrite Hblk.
  assert (xwp (PushTransaction;; modify_current (set_name (Some sp)))
    (λ _, sess c0 ((TBLOCK_SUBBEGIN, TRANS_DEFAULT, Some sp) :: (b, TRANS_INPROGRESS, n) :: L) live)
    (err (sess c0 ((b, TRANS_INPROGRESS, n) :: L) live)) p) as Hgo.
  { eapply xwp_seq; [by apply PushTransaction_spec|]. intros [] p1 Hs1. eapply xwp_set_name, Hs1. }
  by destruct Hb as [[-> _]|[-> _]].
Qed.

Lemma savepoint_error c ch sp sps n0 t (p : proc W) :
  t ≠ TRANS_ABORT → sess (c, ch) ((TBLOCK_SUBBEGIN, t, sp) :: open_stack sps n0) live p →
  erring c (Failed sps) p.
Proof.
  intros Ht Hs. eapply (erring_open _ _ [_]); [|exact Hs]. apply Forall_singleton. left. split; [set_solver|done].
Qed.

Lemma start_savepoint_spec c ch sp sps n0 p :
  sess (c, ch) ((TBLOCK_SUBBEGIN, TRANS_DEFAULT, Some sp) :: open_stack sps n0) live p →
  xwp (StartSubTransaction;; set_block TBLOCK_SUBINPROGRESS) (λ _, block_is c (Open (sp :: sps)))
    (err (erring c (Failed sps))) p.
Proof.
  intros Hs. eapply xwp_seq.
  { eapply xwp_mono; [eapply StartSubTransaction_spec, Hs|intros ?? Hq; exact Hq|].
    intros l msg q. apply err_mono. intros (t & Ht & Hq). by eapply savepoint_error. }
  intros [] p1 Hs1. eapply xwp_mono; [eapply xwp_set_block, Hs1| |intros l msg s He; exact He].
  intros ? q Hq. by exists n0, ch.
Qed.

(** the savepoint of ROLLBACK TO starts again *)
Lemma restart_savepoint_spec c ch sp sps n0 p :
  sess (c, ch) (open_stack sps n0) live p →
  xwp (restart_savepoint (Some sp) 0) (λ _, block_is c (Open (sp :: sps))) (err (erring c (Failed sps))) p.
Proof.
  intros Hs. unfold restart_savepoint. rewrite qd_dispatch.
  assert (∀ q, sess (c, ch) (open_stack sps n0) live q → erring c (Failed sps) q) as Hopen.
  { intros q Hq. by eapply (erring_open _ _ []). }
  apply (xwp_seq _ _ (λ _, sess (c, ch) (open_stack sps n0) live)).
  { cbn [xwhen DispatchRollbackToSavepoint]. eapply xwp_seq.
    - eapply xwp_mono; [eapply sess_lift; [exact Hs|]|intros ?? Hq; exact Hq|].
      + apply keeps_live_dispatchDtxCommand.
      + intros l msg q. apply err_mono, Hopen.
    - intros [] q Hq; [|apply xwp_elog; left; split; [done|]; apply Hopen, Hq]. apply xwp_ret. exact Hq. }
  intros [] p1 Hs1. eapply xwp_seq.
  { eapply xwp_mono; [by eapply DefineSavepoint_spec|intros ?? Hq; exact Hq|].
    intros l msg q. apply err_mono, Hopen. }
  intros [] p2 Hs2. eapply xwp_seq; [by eapply (xwp_neutral (set_savepointLevel 0)); [exact Hs2|..|intros s [? _]|]|].
  intros [] p3 Hs3. by eapply start_savepoint_spec.
Qed.

(** the fuel of CommitTransactionCommand *)
Lemma CommitCommand_fuel c0 J B fuel K Q E p :
  sess c0 (J ++ B) K p → length B = S fuel →
  xwp (commit_command (length J + S fuel)) Q E p → xwp CommitTransactionCommand Q E p.
Proof.
  intros Hs HB Hx. apply xwp_bind, xwp_read. pose proof (sess_length _ _ _ _ _ Hs) as Hl.
  rewrite length_app in Hl. by replace (S (length (subtransactions (xa p)))) with (length J + S fuel)%nat by lia.
Qed.

Lemma CommitCommand_at c0 b t n L K Q E p :
  sess c0 ((b, t, n) :: L) K p → xwp (commit_command (S (length L))) Q E p →
  xwp CommitTransactionCommand Q E p.
Proof. intros Hs. by eapply (CommitCommand_fuel _ []). Qed.

Lemma marked_commit_spec c ch ns n0 p :
  sess (c, ch) ((pair (TBLOCK_SUBCOMMIT, TRANS_INPROGRESS) <$> ns) ++ [(TBLOCK_END, TRANS_INPROGRESS, n0)]) live p →
  xwp CommitTransactionCommand (λ _, block_is c (chained ch)) (err (erring c Idle)) p.
Proof.
  intros Hs. destruct ns as [|n ns]; csimpl in Hs; (eapply CommitCommand_at; [exact Hs|]);
    (eapply commit_command_at; [exact Hs|]); intros q Hq.
  - by eapply commit_top_spec.
  - eapply xwp_seq.
    + eapply xwp_mono; [eapply commit_subs_spec with (d := (TBLOCK_END, TRANS_INPROGRESS, n0)); [done|done| |exact Hq]|
        intros ?? Hr; exact Hr|].
      * rewrite length_app, length_fmap. cbn. lia.
      * intros l msg r. apply err_mono. intros (t & n' & ns' & Ht & Hr).
        eapply (erring_top _ _ ((TBLOCK_SUBCOMMIT, t, n') :: _)); [| | |exact Hr]; [| |done].
        -- constructor; [left; split; [set_solver|done]|]. apply junk_levels. set_solver.
        -- unfold ends_on_error. set_solver.
    + intros [] r Hr. apply xwp_bind, xwp_read.
      destruct (sess_read _ _ _ _ _ _ _ _ Hr) as (-> & _ & _ & _). by eapply commit_top_spec.
Qed.

Lemma marked_release_spec c ch n ns sps n0 p :
  sess (c, ch) ((pair (TBLOCK_SUBRELEASE, TRANS_INPROGRESS) <$> n :: ns) ++ open_stack sps n0) live p →
  xwp CommitTransactionCommand (λ _, block_is c (Open sps)) (err (erring c (Failed sps))) p.
Proof.
  intros Hs. destruct (open_head sps n0) as (b & m & L & Heq & Hb). csimpl in Hs.
  eapply CommitCommand_at; [exact Hs|]. eapply commit_command_at; [exact Hs|]. intros q Hq.
  rewrite Heq in Hq. eapply xwp_mono; [eapply commit_subs_spec; [| | |exact Hq]| |].
  - by destruct Hb as [[-> _]|[-> _]].
  - done.
  - rewrite length_app, length_fmap, Heq. cbn. lia.
  - intros ? r Hr. rewrite <- Heq in Hr. by exists n0, ch.
  - intros l msg r. apply err_mono. intros (t & n' & ns' & Ht & Hr). rewrite <- Heq in Hr.
    eapply (erring_open _ _ ((TBLOCK_SUBRELEASE, t, n') :: _)); [|exact Hr].
    constructor; [left; split; [set_solver|done]|]. apply junk_levels. set_solver.
Qed.

Lemma marked_rollback_spec c ch J n0 p :
  Forall pending J → sess (c, ch) (J ++ [(TBLOCK_ABORT_PENDING, TRANS_INPROGRESS, n0)]) live p →
  xwp CommitTransactionCommand (λ _, block_is c (chained ch)) (err (erring c Idle)) p.
Proof.
  intros HJ Hs. eapply (CommitCommand_fuel _ _ _ 0); [exact Hs|done|].
  eapply (commit_pending _ J [(TBLOCK_ABORT_PENDING, TRANS_INPROGRESS, n0)]);
    [done|done|exact Hs|intros; by right|]. intros q Hq.
  eapply commit_command_at; [exact Hq|]. intros r Hr. eapply xwp_seq.
  { eapply xwp_mono; [by eapply AbortTransaction_live; [exact Hr|..]|intros ?? Ht; exact Ht|].
    intros l msg s. apply err_mono. intros Ht. eapply erring_interrupted, interrupted_top; [|exact Ht].
    unfold ends_on_error. set_solver. }
  intros [] r1 Hr1. eapply xwp_seq; [eapply CleanupTransaction_spec, Hr1|]. intros [] r2 Hr2.
  eapply xwp_seq; [eapply xwp_set_block, Hr2|]. intros [] r3 Hr3. by eapply start_chained_spec.
Qed.

Lemma marked_rollback_to_spec c ch J d sp sps n0 p :
  Forall pending J →
  d = (TBLOCK_SUBRESTART, TRANS_INPROGRESS, Some sp) ∨ d = (TBLOCK_SUBABORT_RESTART, TRANS_ABORT, Some sp) →
  sess (c, ch) (J ++ d :: open_stack sps n0) live p →
  xwp CommitTransactionCommand (λ _, block_is c (Open (sp :: sps))) (err (erring c (Failed sps))) p.
Proof.
  intros HJ Hd Hs. eapply CommitCommand_fuel; [exact Hs|reflexivity|].
  eapply (commit_pending _ J (d :: open_stack sps n0)); [done|done|exact Hs|intros; by right|]. intros q Hq.
  destruct (open_head sps n0) as (b & m & L & Heq & _).
  assert (∀ b' r, sess (c, ch) ((b', TRANS_ABORT, None) :: open_stack sps n0) live r →
    xwp (CleanupSubTransaction;; restart_savepoint (Some sp) 0) (λ _, block_is c (Open (sp :: sps)))
      (err (erring c (Failed sps))) r) as Hclean.
  { intros b' r Hr. rewrite Heq in Hr. eapply xwp_seq; [eapply CleanupSubTransaction_spec, Hr|].
    intros [] r1 Hr1. rewrite <- Heq in Hr1. by eapply restart_savepoint_spec. }
  destruct Hd as [-> | ->]; (eapply commit_command_at; [exact Hq|]); intros r Hr;
    (eapply xwp_seq; [eapply xwp_set_name, Hr|]); intros [] r1 Hr1.
  - eapply xwp_seq.
    + eapply xwp_mono; [eapply AbortSubTransaction_spec; [exact Hr1|done|apply open_stack_nil]|
        intros ?? Ht; exact Ht|intros; by right].
    + intros [] r2 Hr2. by eapply Hclean.
  - by eapply Hclean.
Qed.

(** CommitTransactionCommand does what the statement asked for *)
Lemma CommitCommand_marked c a1 a2 p :
  marked c a1 a2 p → xwp CommitTransactionCommand (λ _, block_is c a1) (err (erring c a2)) p.
Proof.
  intros Hm. destruct Hm as [ch n0 p Hs|ch sps n0 p Hs|ch n0 p Hs|ch ns n0 p Hs|ch n0 p Hs|ch J n0 p HJ Hs|
    ch sp sps n0 p Hs|ch n ns sps n0 p Hs|ch J d sp sps n0 p HJ Hd Hs].
  - eapply CommitCommand_at; [exact Hs|]. eapply commit_command_at; [exact Hs|]. intros q Hq.
    eapply xwp_mono; [eapply xwp_set_block, Hq| |intros l msg s He; exact He]. intros ? r Hr. by exists n0, ch.
  - destruct (open_head sps n0) as (b & m & L & Heq & Hb). rewrite Heq in Hs.
    eapply CommitCommand_at; [exact Hs|]. eapply commit_command_at; [exact Hs|]. intros q Hq.
    assert (xwp CommandCounterIncrement (λ _, block_is c (Open sps)) (err (erring c (Failed sps))) q) as Hgo.
    { rewrite <- Heq in Hq. eapply xwp_mono; [eapply CommandCounterIncrement_spec, Hq| |].
      - intros ? r Hr. by exists n0, ch.
      - intros l msg r. apply err_mono. intros Hr. by eapply (erring_open _ _ []). }
    by destruct Hb as [[-> _]|[-> _]].
  - eapply CommitCommand_at; [exact Hs|]. eapply commit_command_at; [exact Hs|]. intros q Hq. eapply xwp_seq.
    { eapply xwp_mono; [by eapply CommitTransaction_spec|intros ?? Hr; exact Hr|].
      intros l msg r. apply err_mono. intros (t & Ht & Hr). eapply erring_commit; [|done|exact Hr].
      unfold ends_on_error. set_solver. }
    intros [] r Hr. eapply xwp_mono; [eapply xwp_set_block, Hr| |intros l msg s He; exact He].
    intros ? r1 Hr1. by exists n0, ch.
  - by eapply marked_commit_spec.
  - eapply CommitCommand_at; [exact Hs|]. eapply commit_command_at; [exact Hs|]. intros q Hq.
    eapply xwp_seq; [eapply CleanupTransaction_spec, Hq|]. intros [] r Hr.
    eapply xwp_seq; [eapply xwp_set_block, Hr|]. intros [] r1 Hr1. by eapply start_chained_spec.
  - by eapply marked_rollback_spec.
  - eapply CommitCommand_at; [exact Hs|]. eapply commit_command_at; [exact Hs|]. intros q Hq.
    by eapply start_savepoint_spec.
  - by eapply marked_release_spec.
  - by eapply marked_rollback_to_spec.
Qed.

(** ** The marks of the transaction statements *)

(** changes of block states only *)
Definition same_but_block (s s' : TransactionStateData) : Prop := s' = set_blockState (blockState s') s.

Lemma same_but_block_refl s : same_but_block s s.
Proof. by destruct s. Qed.

Lemma sess_blocks c0 L K p x' :
  sess c0 L K p → Forall2 same_but_block (subtransactions (xa p)) (subtransactions x') →
  same_but_block (TopTransactionStateData (xa p)) (TopTransactionStateData x') →
  XactTopFullTransactionId x' = XactTopFullTransactionId (xa p) →
  MyLockedGxact x' = MyLockedGxact (xa p) → proc_exit_inprogress x' = proc_exit_inprogress (xa p) →
  sess c0 (desc <$> levels x') K (upd_xa (λ _, x') p).
Proof.
  intros Hs Hsubs Htop Hx Hl He. assert (Forall2 same_but_block (levels (xa p)) (levels x')) as Hlv.
  { unfold levels. apply Forall2_app; [done|]. by constructor. }
  destruct (Hs) as [[Hd Hok (Ht1 & Ht2 & Ht3 & Ht4) _ _ _ _ _ _] Hids].
  eapply (sess_xa ids_live ids_live); [exact Hs|done|done|..].
  - eapply Forall2_Forall_r; [exact Hlv|]. eapply Forall_impl; [exact Hok|]. intros s Hs' s' ->. done.
  - unfold top_ok. rewrite Htop. cbn. by rewrite Hx.
  - assert (ids_live (levels x') = ids_live (levels (xa p))) as ->; [|done].
    unfold ids_live. f_equal. clear Hd Hok Hids. induction Hlv as [|s s' l l' Hss _ IH]; [done|]. csimpl.
    rewrite IH. f_equal. by rewrite Hss.
Qed.

(** a new block state for each level *)
Definition with_block (g : TBlockState → TBlockState) (d : level_desc) : level_desc :=
  (g d.1.1, d.1.2, d.2).

Lemma mark_levels_all f g l :
  Forall (λ s, f (blockState s) = Some (g (blockState s))) l →
  mark_levels f l = ((λ s, set_blockState (g (blockState s)) s) <$> l, true).
Proof.
  induction 1 as [|s l Hs _ IH]; [done|]. csimpl. by rewrite Hs, IH.
Qed.

Lemma sess_split c0 Ls d K p :
  sess c0 (Ls ++ [d]) K p →
  desc <$> subtransactions (xa p) = Ls ∧ desc (TopTransactionStateData (xa p)) = d.
Proof.
  intros [[Hd _ _ _ _ _ _ _ _] _]. unfold levels in Hd. rewrite fmap_app in Hd.
  by apply app_inj_tail in Hd.
Qed.

Lemma mark_blocks_spec who fsub ftop g c0 Ls b b' t n0 K p E :
  sess c0 (Ls ++ [(b, t, n0)]) K p → Forall (λ d, fsub d.1.1 = Some (g d.1.1)) Ls → ftop b = Some b' →
  xwp (mark_blocks who fsub ftop) (λ _, sess c0 ((with_block g <$> Ls) ++ [(b', t, n0)]) K) E p.
Proof.
  intros Hs Hsub Htop. destruct (sess_split _ _ _ _ _ Hs) as [Hls Ht].
  apply xwp_bind, xwp_read. rewrite (mark_levels_all fsub g).
  2: { rewrite <- Hls in Hsub. by apply Forall_fmap in Hsub. }
  apply xwp_bind, xwp_modify. cbn [negb]. apply xwp_bind, xwp_read. injection Ht as Htb Htt Htn.
  cbn [xa upd_xa set_subtransactions TopTransactionStateData]. rewrite Htb, Htop. apply xwp_modify.
  match goal with |- sess _ _ _ (upd_xa ?f (upd_xa ?h _)) => set (x' := f (h (xa p))) end.
  assert ((with_block g <$> Ls) ++ [(b', t, n0)] = desc <$> levels x') as ->.
  { unfold levels. rewrite fmap_app. f_equal.
    - cbn. rewrite <- Hls, <- !list_fmap_compose. by apply list_fmap_ext.
    - cbn. unfold desc. cbn. by rewrite Htt, Htn. }
  apply (sess_blocks _ (Ls ++ [(b, t, n0)]) _ p x'); [exact Hs|..]; try done.
  cbn. apply Forall2_fmap_r. by apply Forall_Forall2_diag, Forall_true.
Qed.

(** ** Statements *)

Lemma block_erring c a p : block_is c a p → erring c (fail a) p.
Proof.
  intros (n0 & ch & Hs). destruct a as [| | |sps|sps]; cbn [fail].
  - by eapply erring_idle.
  - eapply (erring_top _ _ []); [done| | |exact Hs]; [|done]. unfold ends_on_error. set_solver.
  - eapply (erring_top _ _ []); [done| | |exact Hs]; [|done]. unfold ends_on_error. set_solver.
  - by eapply (erring_open _ _ []).
  - eapply erring_failed. by exists n0, ch.
Qed.

(** how a statement may raise: an error from which the session recovers as the abstract
    machine says, or the end of the process, with SAVEPOINT in an implicit block as one
    more case *)
Definition stmt_error c (a : ablock) (st : statement (W := W)) (l : elevel) (msg : string) p : Prop :=
  err (λ q, ∃ a2, (a2 = fail a ∨ a2 = fail_late a st) ∧ erring c a2 q) l msg p ∨
  (l = FATAL ∧ msg = "DefineSavepoint: unexpected state" ∧ a = Implicit ∧ recoverable p ∧
   ∃ sp, st = TRANS_STMT_SAVEPOINT sp).

Lemma stmt_error_early c a st msg p : erring c (fail a) p → stmt_error c a st ERROR msg p.
Proof. intros He. left. left. split; [done|]. exists (fail a). auto. Qed.

Lemma stmt_error_late c a st l msg p : err (erring c (fail_late a st)) l msg p → stmt_error c a st l msg p.
Proof. intros He. left. eapply err_mono; [|exact He]. intros Hq. exists (fail_late a st). auto. Qed.

Lemma stmt_error_block c a st msg p : block_is c a p → stmt_error c a st ERROR msg p.
Proof. intros Hb. apply stmt_error_early, block_erring, Hb. Qed.

(** what a transaction statement leaves behind *)
Definition stmt_marked c (a : ablock) (st : statement (W := W)) p : Prop :=
  ∃ a1, (∀ last, next last a st = Some a1) ∧ marked c a1 (fail_late a st) p.

(** calls of the transaction manager inside of a running transaction *)
Lemma stmt_live {A B} (m : X A) (f : A → X B) c ch L a st Q p :
  keeps_live m → sess (c, ch) L live p →
  (∀ q, sess (c, ch) L live q → erring c (fail a) q) →
  (∀ r q, sess (c, ch) L live q → xwp (f r) Q (stmt_error c a st) q) →
  xwp (m ≫= f) Q (stmt_error c a st) p.
Proof.
  intros Hm Hs He Hf. apply xwp_bind. eapply xwp_mono; [eapply sess_lift; [exact Hs|apply Hm]|exact Hf|].
  intros l msg q [[-> Hq]|Hq]; [by apply stmt_error_early, He|left; by right].
Qed.

Lemma begin_spec c a p :
  block_is c a p → (a = Started ∨ a = Implicit ∨ ∃ sps, a = Open sps) →
  xwp (run_statement TRANS_STMT_BEGIN) (λ _, stmt_marked c a TRANS_STMT_BEGIN)
    (stmt_error c a TRANS_STMT_BEGIN) p.
Proof.
  intros (n0 & ch & Hs) Ha. cbn [run_statement].
  assert (∀ L r, sess (c, ch) L live r → (∀ q, sess (c, ch) L live q → erring c (fail a) q) →
    (∀ q, sess (c, ch) L live q → stmt_marked c a TRANS_STMT_BEGIN q) →
    xwp sendDtxExplicitBegin (λ _, stmt_marked c a TRANS_STMT_BEGIN) (stmt_error c a TRANS_STMT_BEGIN) r) as Hsend.
  { intros L r Hr He Hm. eapply xwp_mono; [eapply sess_lift; [exact Hr|apply keeps_live_sendDtxExplicitBegin]| |].
    - intros ? q Hq. by apply Hm.
    - intros l msg q [[-> Hq]|Hq]; [by apply stmt_error_early, He|left; by right]. }
  destruct Ha as [-> |[-> |[sps ->]]].
  1,2: (eapply xwp_seq;
    [apply xwp_bind, xwp_read; destruct (sess_read _ _ _ _ _ _ _ _ Hs) as (-> & _ & _ & _); eapply xwp_set_block, Hs|]);
    intros [] p1 Hs1; (eapply Hsend; [exact Hs1| |]); intros q Hq;
    [eapply (erring_top _ _ []); [done| | |exact Hq]; [unfold ends_on_error; set_solver|done]|
     exists (Open []); split; [done|]; by eapply marked_begin].
  destruct (open_head sps n0) as (b & m & L & Heq & Hb). cbn in Hs. apply (xwp_seq _ _ (λ _ q, q = p)).
  { apply xwp_bind, xwp_read. rewrite Heq in Hs. destruct (sess_read _ _ _ _ _ _ _ _ Hs) as (-> & _ & _ & _).
    by destruct Hb as [[-> _]|[-> _]]. }
  intros [] p1 ->. eapply Hsend; [exact Hs| |]; intros q Hq.
  - by eapply (erring_open _ _ []).
  - exists (Open sps). split; [done|]. by eapply marked_same.
Qed.

(** the topmost level gets the chain flag *)
Definition premarked c (a : ablock) (st : statement (W := W)) (ch : bool) p : Prop :=
  ∃ ch0 L K, sess (c, ch0) L K p ∧ ∀ q, sess (c, ch) L K q → stmt_marked c a st q.

Lemma premarked_chain c a st ch p E :
  premarked c a st ch p → xwp (set_top_chain ch) (λ _, stmt_marked c a st) E p.
Proof.
  intros (ch0 & L & K & Hs & Hm).
  eapply xwp_mono; [eapply xwp_set_top_chain, Hs|intros ? q; apply Hm|intros l msg q Hq; exact Hq].
Qed.

Lemma premark_block b' c ch0 b t n K L a st ch p E :
  sess (c, ch0) ((b, t, n) :: L) K p →
  (∀ q, sess (c, ch) ((b', t, n) :: L) K q → stmt_marked c a st q) →
  xwp (set_block b') (λ _, premarked c a st ch) E p.
Proof.
  intros Hs Hm. eapply xwp_mono; [eapply xwp_set_block, Hs| |intros l msg q Hq; exact Hq].
  intros ? q Hq. by exists ch0, ((b', t, n) :: L), K.
Qed.

Definition commit_mark (b : TBlockState) : TBlockState := TBLOCK_SUBCOMMIT.
Definition abort_mark (b : TBlockState) : TBlockState :=
  match b with TBLOCK_SUBABORT => TBLOCK_SUBABORT_END | _ => TBLOCK_SUBABORT_PENDING end.

Lemma open_stack_subs sps n0 : open_stack sps n0 = (sub_live <$> sps) ++ [(TBLOCK_INPROGRESS, TRANS_INPROGRESS, n0)].
Proof. done. Qed.

Lemma mark_commit (sps : list string) :
  with_block commit_mark <$> (sub_live <$> sps) = pair (TBLOCK_SUBCOMMIT, TRANS_INPROGRESS) <$> (Some <$> sps).
Proof. by rewrite <- !list_fmap_compose. Qed.

Lemma mark_abort (sps : list string) : Forall pending (with_block abort_mark <$> (sub_live <$> sps)).
Proof. induction sps; constructor; [by left|done]. Qed.

(** the levels of a block can be marked *)
Lemma mark_all (f : TBlockState → option TBlockState) g (sps : list string) :
  f TBLOCK_SUBINPROGRESS = Some (g TBLOCK_SUBINPROGRESS) →
  Forall (λ d : level_desc, f d.1.1 = Some (g d.1.1)) (sub_live <$> sps).
Proof. intros Hf. induction sps; by constructor. Qed.

(** COMMIT and ROLLBACK of a block with savepoints *)
Lemma mark_block_abort c ch0 a sps st ch who n0 p E :
  sess (c, ch0) (open_stack sps n0) live p ∨
    (∃ sp, sess (c, ch0) ((TBLOCK_SUBABORT, TRANS_ABORT, Some sp) :: open_stack sps n0) live p) →
  (∀ last, next last a st = Some (chained ch)) → fail_late a st = Idle →
  xwp (mark_blocks who to_subabort to_abort) (λ _, premarked c a st ch) E p.
Proof.
  intros Hs Hnext Hlate. destruct Hs as [Hs|[sp Hs]].
  - eapply xwp_mono; [eapply (mark_blocks_spec _ _ _ abort_mark); [exact Hs|by apply mark_all|done]| |
      intros l msg q Hq; exact Hq].
    intros ? q Hq. eexists _, _, _. split; [exact Hq|]. intros r Hr. exists (chained ch). split; [done|].
    rewrite Hlate. eapply marked_rollback; [|exact Hr]. apply mark_abort.
  - eapply xwp_mono; [eapply (mark_blocks_spec _ _ _ abort_mark _ (_ :: _)); [exact Hs| |done]| |
      intros l msg q Hq; exact Hq].
    { constructor; [done|]. by apply mark_all. }
    intros ? q Hq. eexists _, _, _. split; [exact Hq|]. intros r Hr. exists (chained ch). split; [done|].
    rewrite Hlate. eapply (marked_rollback _ _ (_ :: _)); [|exact Hr]. constructor; [by right|apply mark_abort].
Qed.

Lemma commit_spec c a ch p :
  block_is c a p → a ≠ Idle →
  xwp (run_statement (TRANS_STMT_COMMIT ch)) (λ _, stmt_marked c a (TRANS_STMT_COMMIT ch))
    (stmt_error c a (TRANS_STMT_COMMIT ch)) p.
Proof.
  intros Hb Ha. pose proof (stmt_error_block c a (TRANS_STMT_COMMIT ch)) as Herr.
  destruct (Hb) as (n0 & ch0 & Hs). cbn [run_statement]. unfold EndTransactionBlock.
  apply (xwp_seq _ _ (λ _, stmt_marked c a (TRANS_STMT_COMMIT ch))); [|intros ? q Hq; by apply xwp_ret].
  apply xwp_bind, xwp_read. apply (xwp_seq _ _ (λ _, premarked c a (TRANS_STMT_COMMIT ch) ch)).
  2: { intros r q Hq. apply (xwp_seq _ _ (λ _, stmt_marked c a (TRANS_STMT_COMMIT ch))).
       - by apply premarked_chain.
       - intros ? q' Hq'. by apply xwp_ret. }
  destruct a as [| | |[|sp sps]|[|sp sps]]; [done|..]; cbn in Hs;
    destruct (sess_read _ _ _ _ _ _ _ _ Hs) as (-> & _ & _ & _).
  - destruct ch; [by apply xwp_elog, Herr|]. apply xwp_ret. eexists _, _, _. split; [exact Hs|].
    intros q Hq. exists Idle. split; [done|]. by eapply marked_started.
  - destruct ch; [by apply xwp_elog, Herr|]. eapply xwp_seq; [|intros ? q Hq; apply xwp_ret, Hq].
    eapply premark_block; [exact Hs|]. intros q Hq. exists Idle. split; [done|].
    eapply (marked_commit _ false []), Hq.
  - eapply xwp_seq; [|intros ? q Hq; apply xwp_ret, Hq]. eapply premark_block; [exact Hs|].
    intros q Hq. exists (chained ch). split; [done|]. eapply (marked_commit _ ch []), Hq.
  - eapply xwp_seq; [|intros ? q Hq; apply xwp_ret, Hq].
    eapply xwp_mono; [eapply (mark_blocks_spec _ _ _ commit_mark _ (sub_live <$> sp :: sps));
      [exact Hs|by apply mark_all|done]| |intros l msg q Hq; exact Hq].
    intros ? q Hq. rewrite mark_commit in Hq. eexists _, _, _. split; [exact Hq|]. intros r Hr.
    exists (chained ch). split; [done|]. by eapply marked_commit.
  - eapply xwp_seq; [|intros ? q Hq; apply xwp_ret, Hq]. eapply premark_block; [exact Hs|].
    intros q Hq. exists (chained ch). split; [done|]. by eapply marked_abort_end.
  - eapply xwp_seq; [|intros ? q Hq; apply xwp_ret, Hq].
    eapply (mark_block_abort _ _ _ sps); [right; eexists; exact Hs|done|done].
Qed.

Lemma rollback_spec c a ch p :
  block_is c a p → a ≠ Idle →
  xwp (run_statement (TRANS_STMT_ROLLBACK ch)) (λ _, stmt_marked c a (TRANS_STMT_ROLLBACK ch))
    (stmt_error c a (TRANS_STMT_ROLLBACK ch)) p.
Proof.
  intros Hb Ha. pose proof (stmt_error_block c a (TRANS_STMT_ROLLBACK ch)) as Herr.
  destruct (Hb) as (n0 & ch0 & Hs). cbn [run_statement]. apply xwp_bind, xwp_read.
  apply (xwp_seq _ _ (λ _, premarked c a (TRANS_STMT_ROLLBACK ch) ch)); [|intros [] q Hq; by apply premarked_chain].
  destruct a as [| | |[|sp sps]|[|sp sps]]; [done|..]; cbn in Hs;
    destruct (sess_read _ _ _ _ _ _ _ _ Hs) as (-> & _ & _ & _).
  - destruct ch; [by apply xwp_elog, Herr|]. eapply premark_block; [exact Hs|]. intros q Hq.
    exists Idle. split; [done|]. eapply (marked_rollback _ false []), Hq. constructor.
  - destruct ch; [by apply xwp_elog, Herr|]. eapply premark_block; [exact Hs|]. intros q Hq.
    exists Idle. split; [done|]. eapply (marked_rollback _ false []), Hq. constructor.
  - eapply premark_block; [exact Hs|]. intros q Hq. exists (chained ch). split; [done|].
    eapply (marked_rollback _ ch []), Hq. constructor.
  - eapply (mark_block_abort _ _ _ (sp :: sps)); [left; exact Hs|done|done].
  - eapply premark_block; [exact Hs|]. intros q Hq. exists (chained ch). split; [done|]. by eapply marked_abort_end.
  - eapply (mark_block_abort _ _ _ sps); [right; eexists; exact Hs|done|done].
Qed.

(** a statement that needs a transaction block *)
Lemma RequireTransactionBlock_spec c a st what p :
  block_is c a p → a ≠ Idle →
  xwp (RequireTransactionBlock what) (λ _ q, q = p ∧ a ≠ Started) (stmt_error c a st) p.
Proof.
  intros Hb Ha. destruct (Hb) as (n0 & ch & Hs). do 2 (apply xwp_bind, xwp_read). unfold IsTransactionBlock.
  destruct a as [| | |[|sp sps]|[|sp sps]]; [done|..]; cbn in Hs;
    destruct (sess_read _ _ _ _ _ _ _ _ Hs) as (-> & _ & _ & _); cbn [orb]; try by apply xwp_ret.
  rewrite (proj2 (Z.leb_gt _ _)); [by apply xwp_elog, stmt_error_block|].
  destruct (Hs) as [[Hd _ (_ & _ & _ & Hn) _ _ _ _ _ _] _]. unfold CurrentTransactionState, levels in *.
  by destruct (subtransactions (xa p)) as [|? []].
Qed.

(** a command for the segments inside of an open block *)
Lemma dispatch_open {B} cmd (f : bool → X B) c ch sps n0 st Q p :
  sess (c, ch) (open_stack sps n0) live p →
  (∀ r q, sess (c, ch) (open_stack sps n0) live q → xwp (f r) Q (stmt_error c (Open sps) st) q) →
  xwp (dispatchDtxCommand cmd ≫= f) Q (stmt_error c (Open sps) st) p.
Proof.
  intros Hs Hf. eapply stmt_live; [apply keeps_live_dispatchDtxCommand|exact Hs| |exact Hf].
  intros q Hq. by eapply (erring_open _ _ []).
Qed.

Lemma open_error c ch sps n0 st msg p :
  sess (c, ch) (open_stack sps n0) live p → stmt_error c (Open sps) st ERROR msg p.
Proof. intros Hs. apply stmt_error_block. by exists n0, ch. Qed.

Lemma define_savepoint_marked c ch sp sps n0 p :
  sess (c, ch) (open_stack sps n0) live p →
  xwp (DefineSavepoint (Some sp)) (λ _, stmt_marked c (Open sps) (TRANS_STMT_SAVEPOINT sp))
    (stmt_error c (Open sps) (TRANS_STMT_SAVEPOINT sp)) p.
Proof.
  intros Hs. eapply xwp_mono; [eapply DefineSavepoint_spec, Hs| |].
  - intros ? q Hq. exists (Open (sp :: sps)). split; [done|]. eapply marked_savepoint, Hq.
  - intros l msg q [[-> Hq]|Hf]; [eapply open_error, Hq|left; by right].
Qed.

Lemma savepoint_spec c a sp p :
  block_is c a p → (a = Started ∨ a = Implicit ∨ ∃ sps, a = Open sps) →
  xwp (run_statement (TRANS_STMT_SAVEPOINT sp)) (λ _, stmt_marked c a (TRANS_STMT_SAVEPOINT sp))
    (stmt_error c a (TRANS_STMT_SAVEPOINT sp)) p.
Proof.
  intros Hb Ha. cbn [run_statement]. eapply xwp_seq.
  { eapply RequireTransactionBlock_spec; [exact Hb|]. by destruct Ha as [-> |[-> |[? ->]]]. }
  intros [] p' [-> Hst]. destruct (Hb) as (n0 & ch & Hs).
  destruct Ha as [-> |[-> |[sps ->]]]; [done|..]; cbn in Hs.
  - eapply stmt_live; [apply keeps_live_sendDtxExplicitBegin|exact Hs| |].
    + intros q Hq. apply (block_erring _ Implicit). by exists n0, ch.
    + intros [] q Hq. apply xwp_bind, xwp_read. destruct (sess_read _ _ _ _ _ _ _ _ Hq) as (-> & _ & _ & _).
      apply xwp_elog. right. split_and!; [done..|by eapply sess_recoverable|eauto].
  - eapply stmt_live; [apply keeps_live_sendDtxExplicitBegin|exact Hs| |].
    { intros q Hq. by eapply (erring_open _ _ []). }
    intros [] q Hq. unfold DefineDispatchSavepoint. apply xwp_bind, xwp_read.
    destruct (open_head sps n0) as (b & m & L & Heq & Hblk). rewrite Heq in Hq.
    destruct (sess_read _ _ _ _ _ _ _ _ Hq) as (Hcur & _ & _ & _). rewrite <- Heq in Hq.
    rewrite Hcur, qd_dispatch. destruct Hblk as [[-> _]|[-> _]]; cbn [negb andb bool_decide decide].
    all: eapply xwp_seq with (R := λ _, sess (c, ch) (open_stack sps n0) live);
      [eapply dispatch_open; [exact Hq|]; intros [] r Hr; [by apply xwp_ret|by eapply xwp_elog, open_error]|].
    all: intros [] r Hr; by eapply define_savepoint_marked.
Qed.

(** ** Finding a savepoint *)

Lemma find_savepoint_cons sp s subs :
  find_savepoint sp (s :: subs) = if decide (name s = Some sp) then Some 0%nat else S <$> find_savepoint sp subs.
Proof.
  unfold find_savepoint. cbn. destruct (decide (name s = Some sp)); [done|].
  by destruct (list_find _ subs) as [[i t]|].
Qed.

(** the position that is found, and what is outside of it *)
Lemma find_savepoint_outside sp sps Ls subs :
  desc <$> subs = Ls → snd <$> Ls = Some <$> sps →
  match find_savepoint sp subs with
  | Some i => ∃ pre o, sps = pre ++ sp :: o ∧ length pre = i ∧ outside sp sps = Some o
  | None => outside sp sps = None
  end.
Proof.
  intros <-. rewrite <- list_fmap_compose. revert sps. induction subs as [|s subs IH]; intros [|n sps];
    try done. rewrite !fmap_cons. intros Heq. injection Heq as Hn Hns. rewrite find_savepoint_cons, Hn.
  specialize (IH sps Hns). destruct (decide (n = sp)) as [-> |Hne].
  - rewrite decide_True by done. exists [], sps. cbn [outside]. by rewrite decide_True.
  - rewrite decide_False by congruence. cbn [outside]. rewrite (decide_False _ _ Hne).
    destruct (find_savepoint sp subs) as [i|]; cbn [fmap option_fmap option_map]; [|done].
    destruct IH as (pre & o & -> & <- & Ho). by exists (n :: pre), o.
Qed.

Lemma locate_spec {B} sp sps Ls d c0 K (f : nat → X B) Q (E : elevel → string → proc W → Prop) p :
  sess c0 (Ls ++ [d]) K p → snd <$> Ls = Some <$> sps →
  (∀ msg, outside sp sps = None → E ERROR msg p) →
  (∀ pre o, sps = pre ++ sp :: o → outside sp sps = Some o → xwp (f (length pre)) Q E p) →
  xwp (locate_savepoint sp ≫= f) Q E p.
Proof.
  intros Hs Hn He Hf. destruct (sess_split _ _ _ _ _ Hs) as [Hd _].
  pose proof (find_savepoint_outside sp sps Ls _ Hd Hn) as Hfind.
  apply xwp_bind. unfold locate_savepoint. do 2 (apply xwp_bind, xwp_read).
  destruct (find_savepoint sp _) as [i|] eqn:Hi; [|by apply xwp_elog, He].
  destruct Hfind as (pre & o & Hsps & <- & Ho). specialize (Hf pre o Hsps Ho).
  destruct (Hs) as [[_ Hok _ _ _ _ _ _ _] _]. destruct (levels_current (xa p)) as [rest Hl].
  assert (savepointLevel <$> subtransactions (xa p) !! length pre = Some 0) as ->.
  { assert (length pre < length (subtransactions (xa p)))%nat as Hlt.
    { apply (f_equal length) in Hn. rewrite <- Hd, !length_fmap, Hsps, length_app in Hn. cbn in Hn. lia. }
    apply lookup_lt_is_Some in Hlt as [s Hs']. rewrite Hs'. cbn. f_equal.
    unfold levels in Hok. apply Forall_app in Hok as [Hok _]. by destruct (Forall_lookup_1 _ _ _ _ Hok Hs'). }
  assert (savepointLevel (CurrentTransactionState (xa p)) = 0) as ->.
  { rewrite Hl in Hok. by apply Forall_cons in Hok as [[_ ?] _]. }
  rewrite bool_decide_true by done. by apply xwp_ret.
Qed.

Lemma names_sub_live (sps : list string) : snd <$> (sub_live <$> sps) = Some <$> sps.
Proof. by rewrite <- list_fmap_compose. Qed.

(** RELEASE marks the levels up to the savepoint *)
Lemma release_marks c0 pre sp o n0 K p E :
  sess c0 (open_stack (pre ++ sp :: o) n0) K p →
  xwp (modify_xa (λ x, set_subtransactions
         (upd_levels (length pre) (set_blockState TBLOCK_SUBRELEASE) (subtransactions x)) x))
    (λ _, sess c0 ((pair (TBLOCK_SUBRELEASE, TRANS_INPROGRESS) <$> (Some <$> pre ++ [sp])) ++ open_stack o n0) K) E p.
Proof.
  intros Hs. destruct (sess_split _ _ _ _ _ Hs) as [Hls Ht]. apply xwp_modify.
  match goal with |- sess _ _ _ (upd_xa ?f _) => set (x' := f (xa p)) end.
  assert (∀ l : list TransactionStateData, (desc <$> l) = sub_live <$> pre ++ sp :: o →
    desc <$> upd_levels (length pre) (set_blockState TBLOCK_SUBRELEASE) l =
    (pair (TBLOCK_SUBRELEASE, TRANS_INPROGRESS) <$> (Some <$> pre ++ [sp])) ++ (sub_live <$> o)) as Hup.
  { clear. induction pre as [|n pre IH]; intros [|s l] Heq; try done; csimpl in Heq.
    - injection Heq as Hb Ht Hn Hl. unfold upd_levels. csimpl. unfold desc at 1. cbn. by rewrite Ht, Hn, drop_0, Hl.
    - injection Heq as Hb Ht Hn Hl. specialize (IH l Hl). unfold upd_levels in *. csimpl.
      unfold desc at 1. cbn. rewrite Ht, Hn. f_equal. exact IH. }
  assert ((pair (TBLOCK_SUBRELEASE, TRANS_INPROGRESS) <$> (Some <$> pre ++ [sp])) ++ open_stack o n0 =
    desc <$> levels x') as ->.
  { unfold levels. rewrite (fmap_app desc (subtransactions x')).
    change (subtransactions x') with
      (upd_levels (length pre) (set_blockState TBLOCK_SUBRELEASE) (subtransactions (xa p))).
    rewrite Hup by done. unfold open_stack. rewrite <- app_assoc. cbn. by rewrite Ht. }
  apply (sess_blocks _ (open_stack (pre ++ sp :: o) n0) _ p x'); [exact Hs|..]; try done.
  2: { apply same_but_block_refl. }
  cbn. unfold upd_levels. rewrite <- (take_drop (S (length pre)) (subtransactions (xa p))) at 1.
  apply Forall2_app.
  - apply Forall2_fmap_r. by apply Forall_Forall2_diag, Forall_true.
  - apply Forall_Forall2_diag, Forall_true. intros s. apply same_but_block_refl.
Qed.

Lemma release_spec c a sp p :
  block_is c a p → (a = Started ∨ a = Implicit ∨ ∃ sps, a = Open sps) →
  xwp (run_statement (TRANS_STMT_RELEASE sp)) (λ _, stmt_marked c a (TRANS_STMT_RELEASE sp))
    (stmt_error c a (TRANS_STMT_RELEASE sp)) p.
Proof.
  intros Hb Ha. cbn [run_statement]. eapply xwp_seq.
  { eapply RequireTransactionBlock_spec; [exact Hb|]. by destruct Ha as [-> |[-> |[? ->]]]. }
  intros [] p' [-> Hst]. pose proof (stmt_error_block c a (TRANS_STMT_RELEASE sp)) as Herr.
  destruct (Hb) as (n0 & ch & Hs). unfold ReleaseSavepoint. apply xwp_bind, xwp_read.
  destruct Ha as [-> |[-> |[[|s sps] ->]]]; [done|..]; cbn in Hs;
    destruct (sess_read _ _ _ _ _ _ _ _ Hs) as (Hblk & _ & _ & [Hpar _]);
    rewrite Hpar, Z.eqb_refl; cbn [negb]; apply xwp_bind, xwp_read; rewrite Hblk;
    [by apply xwp_elog, Herr|by apply xwp_elog, Herr|].
  rewrite qd_dispatch. apply (xwp_seq _ _ (λ _, sess (c, ch) (open_stack (s :: sps) n0) live)).
  { eapply dispatch_open; [exact Hs|]. intros [] q Hq; [by apply xwp_ret|by eapply xwp_elog, open_error]. }
  intros [] q Hq. eapply locate_spec; [exact Hq|apply names_sub_live|intros msg _; by eapply open_error|].
  intros pre o Hsps Ho. rewrite Hsps in Hq.
  eapply xwp_mono; [eapply release_marks, Hq| |intros l msg r Hr; exact Hr].
  intros ? r Hr. exists (Open o). split; [intros last; cbn [next]; by rewrite Ho|]. cbn [fail_late].
  rewrite Ho. destruct pre as [|n pre].
  - eapply (marked_release _ ch (Some sp) []), Hr.
  - eapply (marked_release _ ch (Some n) (Some <$> pre ++ [sp])), Hr.
Qed.

(** ROLLBACK TO marks the levels inside of the savepoint, and the savepoint *)
Definition restart_mark (b : TBlockState) : TBlockState :=
  match b with TBLOCK_SUBABORT => TBLOCK_SUBABORT_RESTART | _ => TBLOCK_SUBRESTART end.
Definition can_restart (d : level_desc) : Prop := d.1.1 = TBLOCK_SUBINPROGRESS ∨ d.1.1 = TBLOCK_SUBABORT.

Lemma rollback_to_marks c0 J d R top K p E :
  sess c0 ((J ++ d :: R) ++ [top]) K p → Forall can_restart (J ++ [d]) →
  xwp (subs ← get_xa subtransactions;
       let '(inner, ok) := mark_levels to_subabort (take (length J) subs) in
       modify_xa (set_subtransactions (inner ++ drop (length J) subs));;
       if negb ok then unexpected_block FATAL "RollbackToSavepoint"
       else
         match subs !! length J with
         | Some s =>
             match to_restart (blockState s) with
             | Some b' => modify_xa (set_subtransactions (inner ++ set_blockState b' s :: drop (S (length J)) subs))
             | None => unexpected_block FATAL "RollbackToSavepoint"
             end
         | None => mret tt
         end)
    (λ _, sess c0 ((with_block abort_mark <$> J) ++ with_block restart_mark d :: R ++ [top]) K) E p.
Proof.
  intros Hs HJ. destruct (sess_split _ _ _ _ _ Hs) as [Hls Ht]. apply xwp_bind, xwp_read.
  apply Forall_app in HJ as [HJ Hd]. apply Forall_cons in Hd as [Hd _].
  destruct (fmap_app_inv _ _ _ _ Hls) as (l1 & l2 & HJ1 & Hl2 & Hsub).
  destruct l2 as [|s l3]; [done|]. injection Hl2 as Hds HR.
  assert (length J = length l1) as Hlen by (by rewrite HJ1, length_fmap).
  rewrite Hsub, Hlen, take_app_length, drop_app_length.
  rewrite (mark_levels_all to_subabort abort_mark).
  2: { rewrite HJ1, Forall_fmap in HJ. eapply Forall_impl; [exact HJ|].
       intros t [Hb|Hb]; cbn in Hb; by rewrite Hb. }
  apply xwp_bind, xwp_modify. cbn [negb]. rewrite list_lookup_middle by done.
  assert (drop (S (length l1)) (l1 ++ s :: l3) = l3) as ->.
  { rewrite cons_middle, app_assoc. apply drop_app_length'. rewrite length_app. cbn. lia. }
  assert (to_restart (blockState s) = Some (restart_mark (blockState s))) as ->.
  { rewrite Hds in Hd. by destruct Hd as [Hb|Hb]; cbn in Hb; rewrite Hb. }
  apply xwp_modify. match goal with |- sess _ _ _ (upd_xa ?f (upd_xa ?h _)) => set (x' := f (h (xa p))) end.
  assert ((with_block abort_mark <$> J) ++ with_block restart_mark d :: R ++ [top] = desc <$> levels x') as ->.
  { unfold levels. cbn. rewrite <- app_assoc, fmap_app, fmap_app. cbn. rewrite HJ1, Hds, HR, Ht.
    f_equal. by rewrite <- !list_fmap_compose. }
  apply (sess_blocks _ ((J ++ d :: R) ++ [top]) _ p x'); [exact Hs|..]; try done.
  2: { apply same_but_block_refl. }
  rewrite Hsub. cbn. apply Forall2_app; [|constructor; [done|]].
  - apply Forall2_fmap_r. by apply Forall_Forall2_diag, Forall_true.
  - apply Forall_Forall2_diag, Forall_true. intros t. apply same_but_block_refl.
Qed.

(** the common part of ROLLBACK TO in an open and in a failed block *)
Lemma rollback_to_at c ch a sps sp J d pre o n0 p :
  (a = Open sps ∨ a = Failed sps) → sps = pre ++ sp :: o → outside sp sps = Some o → length J = length pre →
  sess (c, ch) ((J ++ d :: (sub_live <$> o)) ++ [(TBLOCK_INPROGRESS, TRANS_INPROGRESS, n0)]) live p →
  Forall can_restart (J ++ [d]) → Forall pending (with_block abort_mark <$> J) →
  with_block restart_mark d = (TBLOCK_SUBRESTART, TRANS_INPROGRESS, Some sp) ∨
    with_block restart_mark d = (TBLOCK_SUBABORT_RESTART, TRANS_ABORT, Some sp) →
  xwp (subs ← get_xa subtransactions;
       let '(inner, ok) := mark_levels to_subabort (take (length pre) subs) in
       modify_xa (set_subtransactions (inner ++ drop (length pre) subs));;
       if negb ok then unexpected_block FATAL "RollbackToSavepoint"
       else
         match subs !! length pre with
         | Some s =>
             match to_restart (blockState s) with
             | Some b' => modify_xa (set_subtransactions (inner ++ set_blockState b' s :: drop (S (length pre)) subs))
             | None => unexpected_block FATAL "RollbackToSavepoint"
             end
         | None => mret tt
         end)
    (λ _, stmt_marked c a (TRANS_STMT_ROLLBACK_TO sp)) (stmt_error c a (TRANS_STMT_ROLLBACK_TO sp)) p.
Proof.
  intros Ha Hsps Ho Hlen Hs Hres Hpend Hd. rewrite <- Hlen.
  eapply xwp_mono; [eapply rollback_to_marks; [exact Hs|done]| |intros l msg q Hq; exact Hq].
  intros ? q Hq. exists (Open (sp :: o)). split.
  - intros last. destruct Ha as [-> | ->]; cbn [next]; by rewrite Ho.
  - assert (fail_late a (TRANS_STMT_ROLLBACK_TO sp) = Failed o) as ->.
    { destruct Ha as [-> | ->]; cbn [fail_late]; by rewrite Ho. }
    eapply marked_rollback_to; [exact Hpend|exact Hd|exact Hq].
Qed.

Lemma rollback_to_spec c a sp p :
  block_is c a p → a ≠ Idle →
  xwp (run_statement (TRANS_STMT_ROLLBACK_TO sp)) (λ _, stmt_marked c a (TRANS_STMT_ROLLBACK_TO sp))
    (stmt_error c a (TRANS_STMT_ROLLBACK_TO sp)) p.
Proof.
  intros Hb Ha. cbn [run_statement]. eapply xwp_seq; [by eapply RequireTransactionBlock_spec|].
  intros [] p' [-> Hst]. pose proof (stmt_error_block c a (TRANS_STMT_ROLLBACK_TO sp)) as Herr.
  destruct (Hb) as (n0 & ch & Hs). unfold RollbackToSavepoint. apply xwp_bind, xwp_read.
  destruct a as [| | |[|s sps]|[|s sps]]; [done|done|..]; cbn in Hs;
    destruct (sess_read _ _ _ _ _ _ _ _ Hs) as (Hblk & _ & _ & [Hpar _]);
    rewrite Hpar, Z.eqb_refl; cbn [negb]; apply xwp_bind, xwp_read; rewrite Hblk;
    try (by apply xwp_elog, Herr).
  - eapply (locate_spec _ (s :: sps) (sub_live <$> s :: sps));
      [exact Hs|apply names_sub_live|intros msg _; by apply Herr|]. intros pre o Hsps Ho.
    eapply (rollback_to_at _ ch _ (s :: sps) _ (sub_live <$> pre) (sub_live sp)); [by left|done|done| | | | |].
    + by rewrite length_fmap.
    + assert (sess (c, ch) (open_stack (s :: sps) n0) live p) as Hs' by exact Hs. rewrite Hsps in Hs'.
      unfold open_stack in Hs'. by rewrite fmap_app in Hs'.
    + apply Forall_app. split; [|by constructor; [left|]]. apply Forall_fmap, Forall_true. intros x. by left.
    + apply mark_abort.
    + by left.
  - eapply (locate_spec _ (s :: sps) ((TBLOCK_SUBABORT, TRANS_ABORT, Some s) :: (sub_live <$> sps)));
      [exact Hs|cbn; by rewrite names_sub_live|intros msg _; by apply Herr|]. intros pre o Hsps Ho.
    destruct pre as [|n pre]; injection Hsps as <- Hsps.
    + eapply (rollback_to_at _ ch _ (s :: sps) _ [] (TBLOCK_SUBABORT, TRANS_ABORT, Some s) [] o);
        [by right|by rewrite Hsps|done|done| | | |].
      * rewrite <- Hsps. exact Hs.
      * constructor; [by right|constructor].
      * constructor.
      * by right.
    + eapply (rollback_to_at _ ch _ (s :: sps) _ ((TBLOCK_SUBABORT, TRANS_ABORT, Some s) :: (sub_live <$> pre))
        (sub_live sp) (s :: pre) o); [by right|by rewrite Hsps|done| | | | |].
      * cbn. by rewrite length_fmap.
      * rewrite Hsps in Hs. unfold open_stack in Hs. rewrite fmap_app in Hs. exact Hs.
      * constructor; [by right|]. apply Forall_app. split; [|by constructor; [left|]].
        apply Forall_fmap, Forall_true. intros x. by left.
      * constructor; [by right|apply mark_abort].
      * by left.
Qed.

(** ** Messages *)

(** A statement that is not about transactions keeps the invariant of the transaction
    that runs it: it may assign identifiers, write, and send work to segments, but leaves
    the block structure alone, also when it raises an error. *)
Definition statement_ok (st : statement (W := W)) : Prop :=
  match st with
  | OtherStmt body =>
      ∀ c0 L p, Forall (λ d, d.1.2 = TRANS_INPROGRESS) L → sess c0 L live p →
        xwp body (λ _, sess c0 L live) (err (sess c0 L live)) p
  | _ => True
  end.

Lemma transaction_stmt_spec c a st p :
  IsTransactionStmt st = true → block_is c a p → a ≠ Idle →
  (∀ sps, a = Failed sps → IsTransactionExitStmt st = true) →
  xwp (run_statement st) (λ _, stmt_marked c a st) (stmt_error c a st) p.
Proof.
  intros Ht Hb Ha Hf. pose proof (stmt_error_block c a st) as Herr.
  assert (IsTransactionExitStmt st = false → a = Started ∨ a = Implicit ∨ ∃ sps, a = Open sps) as Hopen.
  { intros He. destruct a as [| | |sps|sps]; eauto; [done|]. rewrite (Hf sps) in He; done. }
  destruct st as [|ch|gid|gid|gid|ch|sp|sp|sp|body]; try done; cbn [run_statement]; rewrite ?qd_dispatch.
  - by apply begin_spec, Hopen.
  - by apply commit_spec.
  - by apply xwp_elog, Herr.
  - by apply xwp_elog, Herr.
  - by apply xwp_elog, Herr.
  - by apply rollback_spec.
  - by apply savepoint_spec, Hopen.
  - by apply release_spec, Hopen.
  - by apply rollback_to_spec.
Qed.

Lemma marked_head c a1 a2 p :
  marked c a1 a2 p → blockState (CurrentTransactionState (xa p)) ≠ TBLOCK_IMPLICIT_INPROGRESS.
Proof.
  assert (∀ c0 b t n L K q, sess c0 ((b, t, n) :: L) K q → b ≠ TBLOCK_IMPLICIT_INPROGRESS →
    blockState (CurrentTransactionState (xa q)) ≠ TBLOCK_IMPLICIT_INPROGRESS) as Hgo.
  { intros c0 b t n L K q Hs Hb. by destruct (sess_read _ _ _ _ _ _ _ _ Hs) as (-> & _ & _ & _). }
  intros Hm. destruct Hm as [ch n0 p Hs|ch sps n0 p Hs|ch n0 p Hs|ch ns n0 p Hs|ch n0 p Hs|ch J n0 p HJ Hs|
    ch sp sps n0 p Hs|ch n ns sps n0 p Hs|ch J d sp sps n0 p HJ Hd Hs];
    try (by eapply Hgo; [exact Hs|]).
  - destruct sps; by eapply Hgo; [exact Hs|].
  - destruct ns; by eapply Hgo; [exact Hs|].
  - destruct HJ as [|[[b t] n] J [[= -> ->]|[= -> ->]] HJ]; by eapply Hgo; [exact Hs|].
  - destruct HJ as [|[[b t] n] J [[= -> ->]|[= -> ->]] HJ]; [|by eapply Hgo; [exact Hs|]..].
    destruct Hd as [-> | ->]; by eapply Hgo; [exact Hs|].
Qed.

Lemma EndImplicit_marked c a1 a2 p E :
  marked c a1 a2 p → xwp EndImplicitTransactionBlock (λ _, marked c a1 a2) E p.
Proof.
  intros Hm. apply xwp_bind, xwp_read. rewrite bool_decide_false by (by eapply marked_head).
  by apply xwp_ret.
Qed.

(** a statement that is a command of its own, with the end of the command *)
Lemma transaction_command_spec c a st impl p :
  IsTransactionStmt st = true → block_is c a p → a ≠ Idle →
  (∀ sps, a = Failed sps → IsTransactionExitStmt st = true) →
  xwp (run_statement st;; xwhen impl EndImplicitTransactionBlock;; CommitTransactionCommand)
    (λ _ q, ∃ a1, (∀ last, next last a st = Some a1) ∧ block_is c a1 q) (stmt_error c a st) p.
Proof.
  intros Ht Hb Ha Hf. eapply xwp_seq; [by apply transaction_stmt_spec|]. intros [] q (a1 & Hnext & Hm).
  apply (xwp_seq _ _ (λ _, marked c a1 (fail_late a st))).
  { apply xwp_when; intros _; [by apply EndImplicit_marked|done]. }
  intros [] r Hr. eapply xwp_mono; [by apply CommitCommand_marked| |].
  - intros ? s Hs. by exists a1.
  - intros l msg s. apply stmt_error_late.
Qed.

(** ** Starting a command *)

Lemma StartCommand_spec c a p :
  block_is c a p → (∀ b, a = b → b ≠ Started ∧ b ≠ Implicit) →
  xwp StartTransactionCommand (λ _, block_is c (enter false a)) (err (erring c (fail a))) p.
Proof.
  intros (n0 & ch & Hs) Ha. specialize (Ha a eq_refl). unfold StartTransactionCommand.
  destruct a as [| | |sps|sps]; cbn [enter]; [| by destruct Ha..| |].
  - cbn in Hs. rewrite qd_dispatch. eapply xwp_seq.
    { eapply xwp_mono; [apply setupRegular_idle, Hs|intros ?? Hq; exact Hq|done]. }
    intros [] p1 Hs1. apply xwp_bind, xwp_read. destruct (sess_read _ _ _ _ _ _ _ _ Hs1) as (-> & _ & _ & _).
    eapply xwp_seq.
    { eapply xwp_mono; [apply StartTransaction_spec, Hs1|intros ?? Hq; exact Hq|].
      intros l msg q. apply err_mono. intros (t & Ht & Ht' & Hq). by eapply erring_default. }
    intros [] p2 Hs2. apply xwp_bind, xwp_read. rewrite bool_decide_false.
    { eapply xwp_mono; [eapply xwp_set_block, Hs2| |intros l msg q Hq; exact Hq].
      intros ? q Hq. by exists n0, ch. }
    by destruct (po_key _ _ _ _ (proj1 Hs2)) as [[= -> _ _]|[= -> _ _]].
  - rewrite qd_dispatch. eapply xwp_seq.
    { eapply setupRegular_capable; [exact Hs|]. by intros k [-> | ->]. }
    intros [] p1 Hs1. apply xwp_bind, xwp_read. destruct (open_head sps n0) as (b & m & L & Heq & Hb).
    cbn in Hs1. rewrite Heq in Hs1. destruct (sess_read _ _ _ _ _ _ _ _ Hs1) as (-> & _ & _ & _).
    rewrite <- Heq in Hs1. destruct Hb as [[-> _]|[-> _]]; by exists n0, ch.
  - rewrite qd_dispatch. eapply xwp_seq.
    { eapply setupRegular_capable; [exact Hs|]. destruct sps; cbn [key_of].
      - by intros k (c1 & l1 & -> & -> & _).
      - by intros k [-> | ->]. }
    intros [] p1 Hs1. apply xwp_bind, xwp_read.
    destruct sps; destruct (sess_read _ _ _ _ _ _ _ _ Hs1) as (-> & _ & _ & _); by exists n0, ch.
Qed.

Lemma BeginImplicit_spec c a p E :
  block_is c a p → a ≠ Idle →
  xwp (BeginImplicitTransactionBlock) (λ _, block_is c (enter true a)) E p.
Proof.
  intros (n0 & ch & Hs) Ha. apply xwp_bind, xwp_read. destruct a as [| | |sps|sps]; [done|..]; cbn [enter].
  - destruct (sess_read _ _ _ _ _ _ _ _ Hs) as (-> & _ & _ & _). rewrite bool_decide_true by done.
    eapply xwp_mono; [eapply xwp_set_block, Hs| |intros l msg q Hq; exact Hq]. intros ? q Hq. by exists n0, ch.
  - destruct (sess_read _ _ _ _ _ _ _ _ Hs) as (-> & _ & _ & _). rewrite bool_decide_false by done. by exists n0, ch.
  - destruct sps; destruct (sess_read _ _ _ _ _ _ _ _ Hs) as (-> & _ & _ & _);
      rewrite bool_decide_false by done; by exists n0, ch.
  - destruct sps; destruct (sess_read _ _ _ _ _ _ _ _ Hs) as (-> & _ & _ & _);
      rewrite bool_decide_false by done; by exists n0, ch.
Qed.

Lemma block_hook h c a st p :
  block_is c a p → xwp (call_hook h) (λ _, block_is c a) (stmt_error c a st) p.
Proof.
  intros (n0 & ch & Hs). eapply xwp_mono; [apply sess_hook, Hs| |].
  - intros ? q Hq. by exists n0, ch.
  - intros l msg q [[-> Hq]|Hf]; [|left; by right]. apply stmt_error_block. by exists n0, ch.
Qed.

(** up to the statement itself *)
Lemma before_statement_spec c a impl started st p :
  block_is c a p → (if started : bool then a ≠ Idle else a ≠ Started ∧ a ≠ Implicit) →
  (a = Implicit → impl = true) →
  xwp (xwhen (negb started) StartTransactionCommand;;
       xwhen impl BeginImplicitTransactionBlock;; call_hook CheckInterrupts)
    (λ _, block_is c (enter impl a)) (stmt_error c (enter impl a) st) p.
Proof.
  intros Hb Hst Hi. apply (xwp_seq _ _ (λ _ q, ∃ a', block_is c a' q ∧ a' ≠ Idle ∧ enter impl a' = enter impl a ∧
    (impl = false → a' = enter impl a))).
  { destruct started; cbn [negb xwhen].
    - exists a. split_and!; [done..|]. intros ->. by destruct a.
    - eapply xwp_mono; [apply StartCommand_spec; [exact Hb|by intros b <-]| |].
      + intros ? q Hq. exists (enter false a). split_and!; [done|by destruct a|by destruct a|by intros ->].
      + intros l msg q [[-> Hq]|Hf]; [|left; by right]. apply stmt_error_early.
        assert (fail (enter impl a) = fail a) as -> by (by destruct a, impl). done. }
  intros [] q (a' & Hq & Hne & He & Hf). apply (xwp_seq _ _ (λ _, block_is c (enter impl a))).
  { rewrite <- He. destruct impl; [by apply BeginImplicit_spec|]. by rewrite He, <- Hf. }
  intros [] r Hr. by apply block_hook.
Qed.

(** ** The loop over the statements *)

(** the errors of a message *)
Definition message_error c impl a (l : list (statement (W := W))) (lv : elevel) (msg : string) p : Prop :=
  err (λ q, ∃ a2, run_statements impl a l a2 ∧ erring c a2 q) lv msg p ∨
  (lv = FATAL ∧ msg = "DefineSavepoint: unexpected state" ∧ impl = true ∧
   recoverable p ∧ ∃ sp, TRANS_STMT_SAVEPOINT sp ∈ l).

Lemma stmt_message_error c impl a st rest lv msg p :
  stmt_error c (enter impl a) st lv msg p → (enter impl a = Implicit → impl = true) →
  message_error c impl a (st :: rest) lv msg p.
Proof.
  intros [He|(-> & -> & Ha & Hd & sp & ->)] Hi.
  - left. eapply err_mono; [|exact He]. intros (a2 & Ha2 & Hq). exists a2. split; [by apply run_error|done].
  - right. split_and!; [done|done|auto|done|]. exists sp. left.
Qed.

Lemma rest_message_error c impl a a1 st rest lv msg p :
  next (bool_decide (rest = [])) (enter impl a) st = Some a1 →
  message_error c impl a1 rest lv msg p → message_error c impl a (st :: rest) lv msg p.
Proof.
  intros Hn [He|(-> & -> & -> & Hd & sp & Hin)].
  - left. eapply err_mono; [|exact He]. intros (a2 & Ha2 & Hq). exists a2. split; [by eapply run_next|done].
  - right. split_and!; [done..|]. exists sp. by right.
Qed.

(** the last part of an iteration *)
Definition finish_statement (impl last trans : bool) : X bool :=
  if last then
    xwhen impl EndImplicitTransactionBlock;; CommitTransactionCommand;; mret false
  else if trans then CommitTransactionCommand;; mret false
  else CommandCounterIncrement;; mret true.

Lemma other_statement_spec c a impl last body p :
  statement_ok (OtherStmt body) → block_is c a p → a ≠ Idle → (∀ sps, a ≠ Failed sps) →
  (last = false → a ≠ Started) → (a = Implicit → impl = true) →
  xwp (body;; finish_statement impl last false)
    (λ started q, ∃ a1, next last a (OtherStmt body) = Some a1 ∧ block_is c a1 q ∧
       started = negb last ∧ (last = true → a1 ≠ Started ∧ a1 ≠ Implicit))
    (stmt_error c a (OtherStmt body)) p.
Proof.
  intros Hok (n0 & ch & Hs) Ha Hf Hl Hi.
  assert (key_of a = live ∧ Forall (λ d, d.1.2 = TRANS_INPROGRESS) (stack_of a n0)) as [Hk Hst].
  { destruct a as [| | |sps|sps]; [done|by repeat constructor..| |by destruct (Hf sps)]. split; [done|].
    apply Forall_app. split; [|by constructor]. by apply Forall_fmap, Forall_true. }
  rewrite Hk in Hs. eapply xwp_seq.
  { eapply xwp_mono; [by apply Hok; [|exact Hs]|intros ?? Hq; exact Hq|].
    intros l msg q [[-> Hq]|Hf']; [|left; by right]. apply stmt_error_block. exists n0, ch. by rewrite Hk. }
  intros [] q Hq. unfold finish_statement. destruct last.
  - apply (xwp_seq _ _ (λ _ r, ∃ a1 , next true a (OtherStmt body) = Some a1 ∧
      (a1 ≠ Started ∧ a1 ≠ Implicit) ∧ marked c a1 (fail a) r)).
    { apply xwp_when; intros Himp.
      - apply xwp_bind, xwp_read.
        destruct a as [| | |sps|sps]; [done| | | |by destruct (Hf sps)]; cbn in Hq.
        + destruct (sess_read _ _ _ _ _ _ _ _ Hq) as (-> & _ & _ & _). rewrite bool_decide_false by done.
          apply xwp_ret. exists Idle. split_and!; [done..|]. by eapply marked_started.
        + destruct (sess_read _ _ _ _ _ _ _ _ Hq) as (-> & _ & _ & _). rewrite bool_decide_true by done.
          eapply xwp_mono; [eapply xwp_set_block, Hq| |intros l msg r Hr; exact Hr]. intros ? r Hr.
          exists Idle. split_and!; [done..|]. eapply marked_started, Hr.
        + assert (marked c (Open sps) (Failed sps) q) as Hm by (by eapply marked_same).
          rewrite bool_decide_false by (by eapply marked_head). apply xwp_ret. by exists (Open sps).
      - destruct a as [| | |sps|sps]; [done| | | |by destruct (Hf sps)]; cbn in Hq.
        + exists Idle. split_and!; [done..|]. by eapply marked_started.
        + by rewrite Hi in Himp.
        + exists (Open sps). split_and!; [done..|]. by eapply marked_same. }
    intros [] r (a1 & Hn & Hns & Hm). apply xwp_bind. eapply xwp_mono; [by apply CommitCommand_marked| |].
    + intros ? t Ht. apply xwp_ret. by exists a1.
    + intros l msg t He. left. eapply err_mono; [|exact He]. intros Ht. exists (fail a). auto.
  - apply xwp_bind. eapply xwp_mono; [apply CommandCounterIncrement_spec, Hq| |].
    + intros ? t Ht. apply xwp_ret. exists a. split_and!; [|exists n0, ch; by rewrite Hk|done|done].
      specialize (Hl eq_refl). destruct a as [| | |sps|sps]; [done|done|done|done|by destruct (Hf sps)].
    + intros l msg t [[-> Ht]|Hf']; [|left; by right]. apply stmt_error_block. exists n0, ch. by rewrite Hk.
Qed.

Lemma transaction_finish_spec c a st impl last p :
  IsTransactionStmt st = true → block_is c a p → a ≠ Idle →
  (∀ sps, a = Failed sps → IsTransactionExitStmt st = true) →
  xwp (run_statement st;; finish_statement impl last true)
    (λ started q, ∃ a1, next last a st = Some a1 ∧ block_is c a1 q ∧
       started = false ∧ (a1 ≠ Started ∧ a1 ≠ Implicit))
    (stmt_error c a st) p.
Proof.
  intros Ht Hb Ha Hf. pose proof (transaction_command_spec c a st (last && impl) p Ht Hb Ha Hf) as Hcmd.
  assert (xwp (run_statement st;; finish_statement impl last true)
    (λ started q, started = false ∧ ∃ a1, (∀ last, next last a st = Some a1) ∧ block_is c a1 q)
    (stmt_error c a st) p) as Hgo.
  { unfold xwp, finish_statement, mbind, X_bind, mret, X_ret in *.
    destruct (run_statement st p) as [[[]|lv msg] q]; [|done]. destruct last; cbn [andb] in Hcmd.
    - destruct (xwhen impl EndImplicitTransactionBlock q) as [[[]|lv msg] r]; [|done].
      by destruct (CommitTransactionCommand r) as [[[]|lv msg] t].
    - cbn in Hcmd. by destruct (CommitTransactionCommand q) as [[[]|lv msg] t]. }
  eapply xwp_mono; [exact Hgo| |done]. intros started q (-> & a1 & Hn & Hq). exists a1.
  destruct (next_states _ _ _ _ (Hn true)) as [Hs Hi]. split_and!; [done..|].
  intros He. by destruct (Hi He).
Qed.

(** sequences of three and two parts with a specification of their own *)
Lemma xwp_seq3 {A} (m1 m2 m3 : X unit) (k : X A) (R : proc W → Prop) Q E p :
  xwp (m1;; m2;; m3) (λ _, R) E p → (∀ q, R q → xwp k Q E q) → xwp (m1;; m2;; m3;; k) Q E p.
Proof.
  unfold xwp, mbind, X_bind. intros Hm Hk. destruct (m1 p) as [[[]|l msg] q]; [|done].
  destruct (m2 q) as [[[]|l msg] r]; [|done]. destruct (m3 r) as [[[]|l msg] s]; [|done]. by apply Hk.
Qed.
Lemma xwp_seq2 {A B} (m : X unit) (f : X A) (k : A → X B) (R : A → proc W → Prop) Q E p :
  xwp (m;; f) R E p → (∀ a q, R a q → xwp (k a) Q E q) → xwp (m;; a ← f; k a) Q E p.
Proof.
  unfold xwp, mbind, X_bind. intros Hm Hk. destruct (m p) as [[[]|l msg] q]; [|done].
  destruct (f q) as [[a|l msg] r]; [|done]. by apply Hk.
Qed.

Lemma block_aborted c a p :
  block_is c a p →
  IsAbortedTransactionBlockState (xa p) = match a with Failed _ => true | _ => false end.
Proof.
  intros (n0 & ch & Hs). unfold IsAbortedTransactionBlockState.
  destruct a as [| | |[|sp sps]|[|sp sps]]; cbn in Hs;
    by destruct (sess_read _ _ _ _ _ _ _ _ Hs) as (-> & _ & _ & _).
Qed.

(** one statement, with the end of its command *)
Lemma one_statement_spec c a st impl last p :
  statement_ok st → block_is c a p → a ≠ Idle →
  (∀ sps, a = Failed sps → IsTransactionExitStmt st = true) →
  (last = false → a ≠ Started) → (a = Implicit → impl = true) →
  xwp (run_statement st;; finish_statement impl last (IsTransactionStmt st))
    (λ started q, ∃ a1, next last a st = Some a1 ∧ block_is c a1 q ∧
       (if started : bool then a1 ≠ Idle else a1 ≠ Started ∧ a1 ≠ Implicit) ∧ (last = true → started = false) ∧
       (a1 = Implicit → impl = true))
    (stmt_error c a st) p.
Proof.
  intros Hok Hb Ha Hf Hl Hi. destruct (IsTransactionStmt st) eqn:Ht.
  - eapply xwp_mono; [by apply transaction_finish_spec| |done]. intros started q (a1 & Hn & Hq & -> & Hs).
    exists a1. split_and!; try done; try apply Hs. by intros ->; destruct Hs.
  - destruct st as [| | | | | | | | |body]; try done. cbn [run_statement].
    eapply xwp_mono; [apply other_statement_spec; [done|exact Hb|done|by intros sps He; specialize (Hf sps He)|
      exact Hl|exact Hi]| |done].
    intros started q (a1 & Hn & Hq & -> & Hs). exists a1. split_and!; [done|done| |by intros ->|].
    + destruct last; cbn; [by apply Hs|]. intros ->. specialize (Hl eq_refl). by destruct a.
    + intros ->. destruct a; try done; auto.
Qed.

(** the statements of a message, from the state [a] between two of them *)
Lemma exec_statements_spec c impl l : ∀ started a p,
  block_is c a p → (if started : bool then a ≠ Idle else a ≠ Started ∧ a ≠ Implicit) →
  (a = Implicit → impl = true) → ((1 < length l)%nat → impl = true) → Forall statement_ok l →
  xwp (exec_statements impl started l)
    (λ started' q, ∃ a', run_statements impl a l a' ∧ block_is c a' q ∧
       (l ≠ [] → started' = false ∧ a' ≠ Started ∧ a' ≠ Implicit) ∧ (l = [] → started' = started ∧ a' = a))
    (message_error c impl a l) p.
Proof.
  induction l as [|st rest IH]; intros started a p Hb Hst Hi Hlen Hok.
  { apply xwp_ret. exists a. split_and!; [constructor|done|done|done]. }
  apply Forall_cons in Hok as [Hok Hoks]. cbn [exec_statements]. apply xwp_bind, xwp_read.
  rewrite (block_aborted _ _ _ Hb).
  assert (enter impl a = Implicit → impl = true) as Hi'.
  { intros He. destruct impl; [done|]. destruct a; try done. by apply Hi. }
  destruct (_ && _) eqn:Hab.
  { apply xwp_elog. eapply stmt_message_error; [|done]. destruct a as [| | |sps|sps]; try done.
    by apply stmt_error_block. }
  assert (∀ sps, enter impl a = Failed sps → IsTransactionExitStmt st = true) as Hexit.
  { intros sps He. destruct a as [| | |?|?]; try done; [by destruct impl..|].
    cbn [andb] in Hab. by apply negb_false_iff in Hab. }
  eapply xwp_seq3.
  { eapply xwp_mono; [by eapply (before_statement_spec c a impl started st)|intros ?? Hq; exact Hq|].
    intros lv msg q He. by eapply stmt_message_error. }
  intros q Hq. eapply xwp_seq2.
  { eapply xwp_mono; [eapply (one_statement_spec c (enter impl a) st impl (bool_decide (rest = [])))|
      intros ?? Hr; exact Hr|intros lv msg r He; by eapply stmt_message_error]; try done.
    - by destruct a, impl, started.
    - intros Hr%bool_decide_eq_false. rewrite Hlen by (destruct rest; [done|cbn; lia]). by destruct a. }
  intros started' r (a1 & Hn & Hr & Hst' & Hlast & Hi1).
  eapply xwp_mono; [apply (IH started' a1 r); [done|done|done| |done]| |].
  - intros Hl. apply Hlen. cbn. lia.
  - intros s' t (a' & Hrun & Ht & Hne & Hnil). exists a'. split_and!; [by eapply run_next|done| |done].
    intros _. destruct rest as [|st' rest]; [|by apply Hne]. destruct (Hnil eq_refl) as [-> ->].
    rewrite Hlast in * by (by apply bool_decide_eq_true). done.
  - intros lv msg t. by eapply rest_message_error.
Qed.

Lemma run_from {W'} impl a a0 (l : list (statement (W := W'))) a' :
  enter impl a0 = enter impl a → l ≠ [] → run_statements impl a0 l a' → run_statements impl a l a'.
Proof.
  intros He Hl Hr. destruct Hr as [a1|a1 st rest a2 a3 Hn Hr|a1 st rest a2 Hf]; [done|..]; rewrite He in *.
  - by eapply run_next.
  - by apply run_error.
Qed.

Lemma enter_enter impl a : a ≠ Implicit → enter impl (enter false a) = enter impl a.
Proof. by destruct a. Qed.

(** the end of a message without statements *)
Lemma empty_query_spec c a p :
  block_is c (enter false a) p → a ≠ Started → a ≠ Implicit →
  xwp CommitTransactionCommand (λ _, block_is c a) (err (erring c (fail a))) p.
Proof.
  intros Hb H1 H2. destruct (Hb) as (n0 & ch & Hs). destruct a as [| | |sps|sps]; try done; cbn [enter] in *.
  - eapply CommitCommand_marked, marked_started, Hs.
  - eapply CommitCommand_marked, marked_same, Hs.
  - destruct sps as [|sp sps]; cbn in Hs; (eapply CommitCommand_at; [exact Hs|]);
      (eapply commit_command_at; [exact Hs|]); intros q Hq; by exists n0, ch.
Qed.

(** the errors of a message, before the session recovers *)
Definition query_error c a (l : list (statement (W := W))) (lv : elevel) (msg : string) p : Prop :=
  err (λ q, ∃ a2, run_message a l a2 ∧ erring c a2 q) lv msg p ∨
  (lv = FATAL ∧ msg = "DefineSavepoint: unexpected state" ∧ (1 < length l)%nat ∧
   recoverable p ∧ ∃ sp, TRANS_STMT_SAVEPOINT sp ∈ l).

Lemma run_message_error a (l : list (statement (W := W))) : a ≠ Started → a ≠ Implicit → run_message a l (fail a).
Proof.
  intros H1 H2. destruct l as [|st l]; [by right|]. apply run_error. left.
  destruct a; try done. cbn [enter]. by destruct (_ <? _).
Qed.

Lemma exec_simple_query_spec c a l p :
  block_is c a p → a ≠ Started → a ≠ Implicit → Forall statement_ok l →
  xwp (exec_simple_query l) (λ _ q, ∃ a', run_message a l a' ∧ block_is c a' q) (query_error c a l) p.
Proof.
  intros Hb H1 H2 Hok. eapply xwp_seq.
  { eapply xwp_mono; [apply StartCommand_spec; [exact Hb|by intros b <-]|intros ?? Hq; exact Hq|].
    intros lv msg q He. left. eapply err_mono; [|exact He]. intros Hq. exists (fail a).
    split; [by apply run_message_error|done]. }
  intros [] q Hq. destruct l as [|st l].
  { apply xwp_bind, xwp_ret. eapply xwp_mono; [by apply empty_query_spec| |].
    - intros ? t Ht. exists a. split; [by left|done].
    - intros lv msg t He. left. eapply err_mono; [|exact He]. intros Ht. exists (fail a). split; [by right|done]. }
  set (l' := st :: l) in *. set (impl := 1 <? Z.of_nat (length l')). apply xwp_bind.
  eapply xwp_mono; [eapply (exec_statements_spec c impl l' true (enter false a) q); [exact Hq|by destruct a|
    by destruct a| |done]| |].
  - intros Hl. apply Z.ltb_lt. lia.
  - intros started r (a' & Hrun & Hr & Hne & _). destruct (Hne ltac:(done)) as [-> _].
    apply xwp_ret. exists a'. split; [|done]. eapply run_from; [by apply enter_enter|done|exact Hrun].
  - intros lv msg r [He|(-> & -> & Himp & Hsp)].
    + left. eapply err_mono; [|exact He]. intros (a2 & Hrun & Hr). exists a2. split; [|done].
      eapply run_from; [by apply enter_enter|done|exact Hrun].
    + right. apply Z.ltb_lt in Himp. destruct Hsp as [Hd Hsp]. split_and!; [done|done|lia|done|done].
Qed.

Lemma block_status c a p : block_is c a p → TransactionBlockStatusCode (xa p) = status_code a.
Proof.
  intros (n0 & ch & Hs). unfold TransactionBlockStatusCode.
  destruct a as [| | |[|sp sps]|[|sp sps]]; cbn in Hs;
    by destruct (sess_read _ _ _ _ _ _ _ _ Hs) as (-> & _ & _ & _).
Qed.

Lemma message_spec c a l p :
  block_is c a p → a ≠ Started → a ≠ Implicit → Forall statement_ok l →
  xwp (simple_query_message l) (λ _ q, ∃ a', run_message a l a' ∧ block_is c a' q)
    (λ lv msg q, recoverable q ∧
       (qd_fatal lv msg ∨
        (lv = FATAL ∧ msg = "DefineSavepoint: unexpected state" ∧ (1 < length l)%nat ∧
         ∃ sp, TRANS_STMT_SAVEPOINT sp ∈ l))) p.
Proof.
  intros Hb H1 H2 Hok. apply xwp_try. eapply xwp_mono; [by apply exec_simple_query_spec|done|].
  intros lv msg q [[[-> (a2 & Hrun & Hq)]|Hf]|(-> & -> & Hl & Hd & Hsp)].
  - eapply xwp_mono; [by eapply (recover_spec c a2 8)| |].
    + intros ? r Hr. by exists a2.
    + intros lv' msg' r [Hf Hd]. auto.
  - destruct lv; [by apply doomed_not_error in Hf|destruct Hf; auto..].
  - split; [done|by right].
Qed.

Lemma block_recoverable c a p : block_is c a p → recoverable p.
Proof. intros (n0 & ch & Hs). by eapply sess_recoverable. Qed.

(** messages leave a session between transactions or in a block *)
Lemma fail_states a (st : statement (W := W)) a2 :
  a2 = fail a ∨ a2 = fail_late a st → a2 ≠ Started ∧ a2 ≠ Implicit.
Proof. intros [-> | ->]; destruct a, st; cbn; by try destruct (outside _ _). Qed.

Lemma run_statements_states impl a (l : list (statement (W := W))) a' :
  run_statements impl a l a' → l ≠ [] → a' ≠ Started ∧ a' ≠ Implicit.
Proof.
  induction 1 as [|a st rest a1 a2 Hn Hrun IH|a st rest a2 Ha]; intros Hne; [done| |by eapply fail_states].
  destruct rest as [|st2 rest]; [|by apply IH]. inversion Hrun; subst.
  apply next_states in Hn as [? Hi]. split; [done|]. intros ->. by destruct Hi.
Qed.

Lemma run_message_states a (l : list (statement (W := W))) a' :
  a ≠ Started → a ≠ Implicit → run_message a l a' → a' ≠ Started ∧ a' ≠ Implicit.
Proof.
  intros H1 H2. destruct l as [|st l]; [by intros [-> | ->]; [|destruct a]|].
  intros Hrun. by eapply run_statements_states.
Qed.

(** wherever a session of messages ends *)
Lemma serve_recoverable c msgs a p :
  block_is c a p → a ≠ Started → a ≠ Implicit → Forall (Forall statement_ok) msgs →
  xwp (serve_messages msgs) (λ _ q, recoverable q) (λ _ _ q, recoverable q) p.
Proof.
  revert a p. induction msgs as [|m msgs IH]; intros a p Hb H1 H2 Hok; [by eapply block_recoverable|].
  apply Forall_cons in Hok as [Hm Hok]. cbn [serve_messages]. eapply xwp_seq.
  { eapply xwp_mono; [by apply (message_spec c a)|intros ?? Hq; exact Hq|by intros ??? [? _]]. }
  intros [] q (a' & Hrun & Hq). destruct (run_message_states _ _ _ H1 H2 Hrun). by eapply IH.
Qed.

(** C2: a message of statements to a session of the coordinator does what the abstract
    machine of transaction blocks says, whichever of its statements fail and wherever
    they fail: from a state of a block (idle, open with its savepoints, failed), if the
    statements that are not about transactions keep the invariant of the transaction
    they run in, the session ends in a state that [run_message] allows; the status sent
    to the client is the status of that state; and no transaction with a status in the
    commit log has another status afterwards.  Error recovery ends after at most two
    attempts and the retry loops end, so the only other outcomes are the ends of the
    process in [qd_fatal], and FATAL for SAVEPOINT in an implicit block. *)
Theorem message_refines c a l p :
  block_is c a p → a ≠ Started → a ≠ Implicit → Forall statement_ok l →
  xwp (simple_query_message l)
    (λ _ q, (∃ a', run_message a l a' ∧ block_is c a' q ∧
             TransactionBlockStatusCode (xa q) = status_code a') ∧ c ⊆ clog (sv q))
    (λ lv msg _, qd_fatal lv msg ∨
       (lv = FATAL ∧ msg = "DefineSavepoint: unexpected state" ∧ (1 < length l)%nat ∧
        ∃ sp, TRANS_STMT_SAVEPOINT sp ∈ l)) p.
Proof.
  intros Hb H1 H2 Hok. eapply xwp_mono; [by apply (message_spec c a)| |by intros lv msg q [_ ?]].
  intros ? q (a' & Hrun & Hq). split; [exists a'; split_and!; [done|done|by eapply block_status]|].
  destruct Hq as (n0 & ch & [[_ _ _ Hc _ _ _ _ _] _]). exact Hc.
Qed.

End session_facts.

(** ** A session *)

Section writing.
Context {W : Type} `{!XactEnv W, !Segments W, !CalmEnv W} `{Backend, !QDBackend}.

(** a command that is sent to the segments and writes here too, with its own identifier *)
Definition write_command (sql : string) : X (proc W) unit :=
  _ ← GetCurrentTransactionId;
  dispatchDtxCommand sql;;
  modify_xa (set_currentCommandIdUsed true);;
  modify_xa (set_TopXactexecutorDidWriteXLog true).

Lemma write_command_ok sql : statement_ok (OtherStmt (write_command sql)).
Proof.
  intros c0 L p HL Hs. do 2 (apply xwp_bind). apply xwp_read.
  apply (xwp_seq _ _ (λ _, sess c0 L live)).
  { apply xwp_when; intros _; [by apply AssignTransactionId_spec|done]. }
  intros [] p1 Hs1. apply xwp_read. eapply xwp_seq.
  { eapply (sess_lift _ ids_live); [exact Hs1|intros Hi; by apply keeps_live_dispatchDtxCommand]. }
  intros ? p2 Hs2. eapply xwp_seq; [by eapply xwp_same_stack; [exact Hs2|]|].
  intros [] p3 Hs3. by eapply xwp_same_stack; [exact Hs3|].
Qed.
End writing.

#[local] Existing Instance coordinator.
#[local] Existing Instance coordinator_ok.

Lemma quiet_may s gid e : ¬ may quiet_world s gid e.
Proof. done. Qed.
Lemma fresh_undecided g : ¬ decided [] g.
Proof. intros (x & c & Hin). by apply not_elem_of_nil in Hin. Qed.

Lemma fresh_proto : proto (fresh_proc quiet_world).
Proof.
  split; [split|..].
  - by intros s gid ?%quiet_may.
  - by intros s g ?%fresh_undecided.
  - by intros s g ?%fresh_undecided.
  - by intros s g ?%not_elem_of_nil.
  - by intros g ?%not_elem_of_nil.
  - constructor.
  - by intros s gid e ?%quiet_may.
  - by intros g ?%fresh_undecided.
  - by intros l [_ ->%prefix_nil_inv].
  - done.
  - done.
  - by intros g ?%fresh_undecided.
Qed.

(** a new session is idle *)
Lemma fresh_idle : block_is ∅ Idle (fresh_proc quiet_world).
Proof.
  exists None, false. split; [split|]; try done; cbn.
  - by repeat constructor.
  - split; [done..|apply fresh_proto].
  - by eexists _, _.
  - split; [constructor|constructor|]. intros i st Hi. cbn in Hi. by rewrite lookup_empty in Hi.
Qed.

(** a block with a savepoint that is rolled back, committed by the next message *)
Definition example_message : list (statement (W := world)) :=
  [TRANS_STMT_BEGIN; OtherStmt (write_command "INSERT"); TRANS_STMT_SAVEPOINT "a";
   OtherStmt (write_command "DELETE"); TRANS_STMT_ROLLBACK_TO "a"].

Lemma example_message_ok : Forall statement_ok example_message.
Proof. repeat constructor; apply write_command_ok. Qed.

Lemma message_refines_witness :
  xwp (simple_query_message example_message)
    (λ _ q, (∃ a', run_message Idle example_message a' ∧ block_is ∅ a' q ∧
             TransactionBlockStatusCode (xa q) = status_code a') ∧ ∅ ⊆ clog (sv q))
    (λ lv msg _, qd_fatal lv msg ∨
       (lv = FATAL ∧ msg = "DefineSavepoint: unexpected state" ∧ (1 < length example_message)%nat ∧
        ∃ sp, TRANS_STMT_SAVEPOINT sp ∈ example_message)) (fresh_proc quiet_world).
Proof.
  apply (message_refines ∅ Idle example_message); [apply fresh_idle|done|done|apply example_message_ok].
Defined.

Definition example_session : list (list (statement (W := world))) :=
  [example_message; [TRANS_STMT_COMMIT false]].


(** the session really gets there: the first message opens the block and leaves the
    savepoint in it, the second commits it, in two phases *)
Example session_commits :
  match serve_messages example_session (fresh_proc quiet_world) with
  | (Done _, q) => blockState (TopTransactionStateData (xa q)) = TBLOCK_DEFAULT ∧
      clog (sv q) !! 100 = Some XID_COMMITTED ∧ clog (sv q) !! 101 = Some XID_ABORTED ∧
      xlog (sv q) = [XLOG_NEXTGXID 8193; XLOG_XACT_ABORT 101 []; XLOG_XACT_DISTRIBUTED_COMMIT 100 [] 1;
                     XLOG_XACT_DISTRIBUTED_FORGET 1] ∧
      drop 4 (sent (env q)) =
        [(DtxCommand DTX_PROTOCOL_COMMAND_PREPARE "1" None, [0; 1]);
         (DtxCommand DTX_PROTOCOL_COMMAND_COMMIT_PREPARED "1" None, [0; 1])]
  | _ => False
  end.
Proof. vm_compute. split_and!; reflexivity. Qed.

