(* ===== verification/RecoveryFacts.v ===== *)
(** * Facts about recovery

    Redo of the log of the coordinator rebuilds the table of distributed transactions that
    are committed and not forgotten, and the next identifier; the recovery process commits
    these on all segments and forgets them, and aborts nothing that is decided. *)
From stdpp Require Import pretty.
From S2P Require Import Prelude CLib BitUtils Bitmapset BitmapsetFacts Elog Dtm DtxInfo CdbTm TwoPhase Xact Session DtxRecovery Protocol DtmFacts DtmWorld XactFacts SessionFacts.

(** ** Redo *)

(** transactions that the log says are committed, and not forgotten since *)
Definition redo_pending (P : gset Z) (r : XLogRecord) : gset Z :=
  match r with
  | XLOG_XACT_DISTRIBUTED_COMMIT _ _ g => {[g]} ∪ P
  | XLOG_XACT_DISTRIBUTED_FORGET g => P ∖ {[g]}
  | _ => P
  end.
Definition pending_after (P : gset Z) (l : list XLogRecord) : gset Z := foldl redo_pending P l.

Lemma pending_decided P l g : g ∈ pending_after P l → g ∈ P ∨ decided l g.
Proof.
  revert P. induction l as [|r l IH]; intros P Hg; [by left|]. cbn in Hg. apply IH in Hg as [Hg|(x & c & Hd)].
  - destruct r as [|x c g'| | | | | | | |]; cbn in Hg; try (by left); [|set_solver].
    apply elem_of_union in Hg as [->%elem_of_singleton|?]; [right; exists x, c; set_solver|by left].
  - right. exists x, c. set_solver.
Qed.

Lemma pending_stays P l g : g ∈ P → ¬ forgotten l g → g ∈ pending_after P l.
Proof.
  revert P. induction l as [|r l IH]; intros P Hg Hf; [done|]. unfold forgotten in Hf. cbn.
  apply IH; [|intros ?; apply Hf; by right]. destruct r; cbn; try done; [set_solver|].
  apply elem_of_difference. split; [done|]. intros ->%elem_of_singleton. apply Hf. by left.
Qed.

Lemma decided_pending P l g : decided l g → ¬ forgotten l g → g ∈ pending_after P l.
Proof.
  intros (x & c & Hin) Hf. apply list_elem_of_split in Hin as (l1 & l2 & ->).
  unfold pending_after. rewrite foldl_app. cbn. apply pending_stays; [set_solver|].
  intros Hf2. apply Hf. unfold forgotten in *. set_solver.
Qed.

(** what the last record about the transaction says *)
Lemma pending_spec P l g :
  g ∈ pending_after P l ↔
  (g ∈ P ∧ ¬ forgotten l g) ∨
  ∃ l1 l2 x c, l = l1 ++ XLOG_XACT_DISTRIBUTED_COMMIT x c g :: l2 ∧ ¬ forgotten l2 g.
Proof.
  split.
  - induction l as [|r l IH] using rev_ind; [intros Hg; left; split; [done|apply not_elem_of_nil]|].
    unfold pending_after. rewrite foldl_app. cbn. intros Hg.
    assert (∀ l', r ≠ XLOG_XACT_DISTRIBUTED_FORGET g → ¬ forgotten l' g → ¬ forgotten (l' ++ [r]) g) as Hkeep.
    { intros l' Hr Hf [?|?%list_elem_of_singleton]%elem_of_app; [by apply Hf|congruence]. }
    assert (g ∈ pending_after P l → r ≠ XLOG_XACT_DISTRIBUTED_FORGET g →
      (g ∈ P ∧ ¬ forgotten (l ++ [r]) g) ∨
      ∃ l1 l2 x c, l ++ [r] = l1 ++ XLOG_XACT_DISTRIBUTED_COMMIT x c g :: l2 ∧ ¬ forgotten l2 g) as Hold.
    { intros [[HP Hf]|(l1 & l2 & x & c & -> & Hf)]%IH Hr; [left; auto|right].
      exists l1, (l2 ++ [r]), x, c. split; [by rewrite <- app_assoc|auto]. }
    destruct r as [|x c g'| | | | | | | |]; cbn in Hg; try (by apply Hold).
    + apply elem_of_union in Hg as [->%elem_of_singleton|?]; [right|by apply Hold].
      exists l, [], x, c. split; [done|]. apply not_elem_of_nil.
    + apply elem_of_difference in Hg as [Hg Hn]. apply Hold; [done|]. intros [= ->]. set_solver.
  - intros [[HP Hf]|(l1 & l2 & x & c & -> & Hf)]; [by apply pending_stays|]. unfold pending_after. rewrite foldl_app. cbn.
    apply pending_stays; [set_solver|done].
Qed.

Section redo_facts.
Context {W : Type} `{!XactEnv W} `{Backend, !QDBackend}.
Implicit Types p q : proc W.

(** more transactions are to be recovered than there is room for *)
Definition overflow (P : gset Z) (l : list XLogRecord) : Prop :=
  ∃ l1, l1 `prefix_of` l ∧ max_tm_gxacts < Z.of_nat (size (pending_after P l1)).

(** redo has got to a set of transactions and a next identifier *)
Record redone p0 (P : gset Z) (n : Z) p : Prop := {
  rd_xa : xa p = xa p0;
  rd_dx : dx p = dx p0;
  rd_env : env p = env p0;
  rd_xlog : xlog (sv p) = xlog (sv p0);
  rd_flushed : xlog_flushed (sv p) = xlog_flushed (sv p0);
  rd_started : DtmStarted (sv p) = DtmStarted (sv p0);
  rd_nodup : NoDup (CommittedGxidArray (sv p));
  rd_pending : list_to_set (CommittedGxidArray (sv p)) = P;
  rd_next : nextGxid (sv p) = n;
  rd_count : GxidCount (sv p) = GxidCount (sv p0);
  rd_prep : prepXacts (sv p) = [] }.

Definition limit_reached (P : Prop) (l : elevel) (msg : string) (_ : proc W) : Prop :=
  l = FATAL ∧ msg = "the limit of distributed transactions has been reached" ∧ P.

Lemma redoDistributedCommitRecord_spec g p0 P n p :
  redone p0 P n p →
  xwp (redoDistributedCommitRecord g) (λ _, redone p0 ({[g]} ∪ P) n)
    (limit_reached (max_tm_gxacts < Z.of_nat (size ({[g]} ∪ P)))) p.
Proof.
  intros Hr. pose proof (rd_nodup _ _ _ _ Hr) as Hn. pose proof (rd_pending _ _ _ _ Hr) as HP.
  apply xwp_bind, xwp_read. destruct (existsb (Z.eqb g) _) eqn:He.
  - apply existsb_exists in He as (g' & Hin & <-%Z.eqb_eq). apply list_elem_of_In in Hin. apply xwp_ret.
    replace ({[g]} ∪ P) with P; [done|]. set_solver.
  - assert (g ∉ CommittedGxidArray (sv p)) as Hg.
    { intros Hin. apply Is_true_false in He. apply He, Is_true_true, existsb_exists. exists g.
      split; [by apply list_elem_of_In|lia]. }
    destruct (max_tm_gxacts <=? _) eqn:Hm.
    + apply xwp_elog. split_and!; [done..|]. apply Z.leb_le in Hm. rewrite size_union by set_solver.
      rewrite size_singleton. rewrite <- HP, size_list_to_set by done. lia.
    + apply xwp_modify. destruct Hr. split; cbn; try done.
      * apply NoDup_app. split_and!; [done|set_solver|apply NoDup_singleton].
      * rewrite list_to_set_app_L. set_solver.
Qed.

Lemma redoDistributedForgetCommitRecord_spec g p0 P n p E :
  redone p0 P n p → xwp (redoDistributedForgetCommitRecord g) (λ _, redone p0 (P ∖ {[g]}) n) E p.
Proof.
  intros Hr. pose proof (rd_nodup _ _ _ _ Hr) as Hn. pose proof (rd_pending _ _ _ _ Hr) as HP.
  apply xwp_bind, xwp_read. destruct (list_find _ _) as [[i g']|] eqn:Hf.
  - apply list_find_Some in Hf as (Hi & <- & _). apply xwp_modify.
    destruct (remove_swap_spec i _ g Hn Hi) as [Hn' Hin]. destruct Hr. split; cbn; try done.
    apply set_eq. intros x. rewrite elem_of_list_to_set, Hin, <- HP. set_solver.
  - apply xwp_ret. replace (P ∖ {[g]}) with P; [done|]. apply list_find_None in Hf. rewrite Forall_forall in Hf.
    rewrite <- HP. apply set_eq. intros x. rewrite elem_of_difference, elem_of_list_to_set, elem_of_singleton.
    split; [|by intros [? _]]. intros Hx. split; [done|]. intros ->. by apply (Hf g).
Qed.

(** records that are about neither *)
Lemma redone_sv f p0 P n n' p :
  redone p0 P n p → xlog (f (sv p)) = xlog (sv p) → xlog_flushed (f (sv p)) = xlog_flushed (sv p) →
  DtmStarted (f (sv p)) = DtmStarted (sv p) → CommittedGxidArray (f (sv p)) = CommittedGxidArray (sv p) →
  GxidCount (f (sv p)) = GxidCount (sv p) → prepXacts (f (sv p)) = prepXacts (sv p) →
  nextGxid (f (sv p)) = n' → redone p0 P n' (upd_sv f p).
Proof. intros [] H1 H2 H3 H4 H5 H6 H7. split; cbn; congruence. Qed.

Lemma AdvanceNextFullTransactionIdPastXid_spec xid p0 P n p E :
  redone p0 P n p → xwp (AdvanceNextFullTransactionIdPastXid xid) (λ _, redone p0 P n) E p.
Proof.
  intros Hr. apply xwp_modify. pose proof (rd_next _ _ _ _ Hr). by apply (redone_sv _ p0 P n); [|case_match..].
Qed.

Lemma xact_redo_commit_spec xid subs g p0 P n p E :
  redone p0 P n p → xwp (xact_redo_commit xid subs g) (λ _, redone p0 P n) E p.
Proof.
  intros Hr. eapply xwp_seq; [by apply AdvanceNextFullTransactionIdPastXid_spec|]. intros [] p1 Hr1.
  unfold DistributedLog_SetCommittedTree. rewrite qd_content.
  apply (xwp_seq _ _ (λ _, redone p0 P n)); [by apply xwp_when; intros _; [apply xwp_ret|]|].
  intros [] p2 Hr2. apply xwp_modify. pose proof (rd_next _ _ _ _ Hr2). by apply (redone_sv _ p0 P n).
Qed.

Lemma xact_redo_abort_spec xid subs p0 P n p E :
  redone p0 P n p → xwp (xact_redo_abort xid subs) (λ _, redone p0 P n) E p.
Proof.
  intros Hr. eapply xwp_seq; [by apply AdvanceNextFullTransactionIdPastXid_spec|]. intros [] p1 Hr1.
  apply xwp_modify. pose proof (rd_next _ _ _ _ Hr1). by apply (redone_sv _ p0 P n).
Qed.

Lemma PrepareRedoRemove_spec xid p0 P n p E :
  redone p0 P n p → xwp (PrepareRedoRemove xid) (λ _, redone p0 P n) E p.
Proof. intros Hr. apply xwp_bind, xwp_read. rewrite (rd_prep _ _ _ _ Hr). by apply xwp_ret. Qed.

Lemma xact_redo_spec r p0 P n p :
  no_prepare r → redone p0 P n p →
  xwp (xact_redo r) (λ _, redone p0 (redo_pending P r) n)
    (limit_reached (max_tm_gxacts < Z.of_nat (size (redo_pending P r)))) p.
Proof.
  intros Hnp Hr. destruct r as [xid subs g|xid subs g|g|xid subs| |xid subs g|xid subs|g|c|xid]; cbn [xact_redo];
    try done; try (by apply xwp_ret).
  - by apply xact_redo_commit_spec.
  - apply (xwp_seq _ _ (λ _, redone p0 P n)); [by apply xwp_when; intros _; [apply xact_redo_commit_spec|]|].
    intros [] p1 Hr1. by apply redoDistributedCommitRecord_spec.
  - by apply redoDistributedForgetCommitRecord_spec.
  - by apply xact_redo_abort_spec.
  - eapply xwp_seq; [by apply xact_redo_commit_spec|]. intros [] p1 Hr1. by apply PrepareRedoRemove_spec.
  - eapply xwp_seq; [by apply xact_redo_abort_spec|]. intros [] p1 Hr1. by apply PrepareRedoRemove_spec.
Qed.

Lemma xlog_redo_spec r p0 P n p E :
  GxidCount (sv p0) = 0 → redone p0 P n p → xwp (xlog_redo r) (λ _, redone p0 P (redo_gxid n r)) E p.
Proof.
  intros Hc Hr. pose proof (rd_count _ _ _ _ Hr) as Hc'.
  destruct r as [| | | | | | |g|c|]; cbn [xlog_redo]; try (by apply xwp_ret).
  - apply xwp_modify. destruct Hr. split; cbn; congruence.
  - pose proof (rd_next _ _ _ _ Hr) as Hn. cbn [redo_gxid]. destruct (ckpt_shutdown c); apply xwp_modify.
    + destruct Hr. split; cbn; congruence.
    + by apply (redone_sv _ p0 P n); [|case_match..].
Qed.

Lemma redo_records_spec l p0 P n p :
  GxidCount (sv p0) = 0 → Forall no_prepare l → redone p0 P n p →
  xwp (redo_records l) (λ _, redone p0 (pending_after P l) (foldl redo_gxid n l))
    (limit_reached (overflow P l)) p.
Proof.
  intros Hc. revert P n p. induction l as [|r l IH]; intros P n p Hl Hr; [by apply xwp_ret|].
  inversion Hl as [|? ? Hnp Hl']; subst. cbn [redo_records].
  eapply xwp_seq; [by apply AdvanceNextFullTransactionIdPastXid_spec|]. intros [] p1 Hr1.
  eapply xwp_seq.
  { eapply xwp_mono; [by apply (xact_redo_spec r p0 P n)|intros ? ? Hq; exact Hq|].
    intros lv msg q (-> & -> & Ho). split_and!; [done..|]. exists [r]. split; [by apply prefix_cons, prefix_nil|done]. }
  intros [] p2 Hr2. eapply xwp_seq; [by apply (xlog_redo_spec r p0)|]. intros [] p3 Hr3.
  eapply xwp_mono; [by apply IH|intros ? ? Hq; exact Hq|].
  intros lv msg q (-> & -> & l1 & Hpre & Ho). split_and!; [done..|]. exists (r :: l1). split; [by apply prefix_cons|done].
Qed.

Lemma redoDtxCheckPoint_spec l p0 P n p :
  redone p0 P n p →
  xwp (redoDtxCheckPoint l) (λ _, redone p0 (list_to_set l ∪ P) n)
    (limit_reached (max_tm_gxacts < Z.of_nat (size (list_to_set l ∪ P : gset Z)))) p.
Proof.
  revert P p. induction l as [|g l IH]; intros P p Hr.
  { apply xwp_ret. replace (list_to_set [] ∪ P) with P by set_solver. done. }
  cbn [redoDtxCheckPoint]. replace (list_to_set (g :: l) ∪ P) with (list_to_set l ∪ ({[g]} ∪ P)) by set_solver.
  eapply xwp_seq.
  { eapply xwp_mono; [by apply redoDistributedCommitRecord_spec|intros ? ? Hq; exact Hq|].
    intros lv msg q (-> & -> & Ho). split_and!; [done..|].
    enough (size ({[g]} ∪ P) ≤ size (list_to_set l ∪ ({[g]} ∪ P)))%nat by lia.
    apply subseteq_size. set_solver. }
  intros [] p1 Hr1. by apply IH.
Qed.

(** StartupXLOG in a server that has just started *)
Definition restarted p : Prop :=
  CommittedGxidArray (sv p) = [] ∧ prepXacts (sv p) = [] ∧ Forall no_prepare (xlog (sv p)).

Lemma StartupXLOG_spec c p :
  restarted p →
  let l := drop (Z.to_nat (ckpt_redo c)) (xlog (sv p)) in
  let P := list_to_set (ckpt_committed c) in
  xwp (StartupXLOG c)
    (λ _ q, redone (upd_sv (set_GxidCount 0) p) (pending_after P l) (foldl redo_gxid (ckpt_nextGxid c) l) q)
    (limit_reached (overflow P l)) p.
Proof.
  intros (Ha & Hp & Hl) l P. apply (xwp_seq _ _ (λ _, redone p P (nextGxid (sv p)))).
  { assert (redone p ∅ (nextGxid (sv p)) p) as Hr.
    { split; try done; rewrite Ha; [constructor|done]. }
    eapply xwp_mono; [by apply redoDtxCheckPoint_spec| |].
    - intros ? q Hq. by rewrite union_empty_r_L in Hq.
    - intros lv msg q (-> & -> & Ho). split_and!; [done..|]. exists []. split; [apply prefix_nil|].
      rewrite union_empty_r_L in Ho. done. }
  intros [] p1 Hr1. set (p0 := upd_sv (set_GxidCount 0) p). apply xwp_bind, xwp_modify.
  apply xwp_bind, xwp_read. cbn [sv upd_sv xlog set_GxidCount set_nextGxid set_nextXid].
  rewrite (rd_xlog _ _ _ _ Hr1). fold l. eapply xwp_seq.
  { apply (redo_records_spec l p0 P (ckpt_nextGxid c)); [done|by apply Forall_drop|].
    destruct Hr1. split; cbn; congruence. }
  intros [] p2 Hr2. apply xwp_bind, xwp_modify. apply xwp_bind, xwp_read. cbn.
  rewrite (rd_prep _ _ _ _ Hr2). apply xwp_ret. pose proof (rd_next _ _ _ _ Hr2). by eapply redone_sv.
Qed.

(** C6: redo rebuilds the table of distributed transactions to be finished.  In a server
    that has just started with a log of a coordinator, StartupXLOG from a checkpoint ends
    with a table without repetitions that holds exactly the transactions of which the last
    word is that they are committed: those of the checkpoint that the log since then does
    not forget, and those whose commit record is followed by no forget record; the log is
    as it was, and the next identifier is the one that the last record about identifiers
    gives.  The only error is that the table would hold more than max_tm_gxacts. *)
Theorem redo_rebuilds_table c p :
  restarted p →
  let l := drop (Z.to_nat (ckpt_redo c)) (xlog (sv p)) in
  xwp (StartupXLOG c)
    (λ _ q, NoDup (CommittedGxidArray (sv q)) ∧
       (∀ g, g ∈ CommittedGxidArray (sv q) ↔
          (g ∈ ckpt_committed c ∧ ¬ forgotten l g) ∨
          ∃ l1 l2 x subs, l = l1 ++ XLOG_XACT_DISTRIBUTED_COMMIT x subs g :: l2 ∧ ¬ forgotten l2 g) ∧
       nextGxid (sv q) = foldl redo_gxid (ckpt_nextGxid c) l ∧ GxidCount (sv q) = 0 ∧
       xlog (sv q) = xlog (sv p) ∧ xlog_flushed (sv q) = xlog_flushed (sv p))
    (λ lv msg _, lv = FATAL ∧ msg = "the limit of distributed transactions has been reached" ∧
       overflow (list_to_set (ckpt_committed c)) l) p.
Proof.
  intros Hp l. eapply xwp_mono; [by apply StartupXLOG_spec| |done].
  intros ? q [_ _ _ Hx Hf _ Hn Hs Hg Hc _]. split_and!; try done. intros g.
  rewrite <- (elem_of_list_to_set (C := gset Z)), Hs. fold l. by rewrite pending_spec, elem_of_list_to_set.
Qed.
End redo_facts.

(** ** The recovery process *)

(** What the recovery process relies on: the set of segments does not change, and the
    transactions that the query lists are prepared and not committed; they were prepared
    by the protocol. *)
Class PreparedView (W : Type) `{Segments W} := {
  components_fixed (w w' : W) : cdbcomponent_getCdbComponentsList w = cdbcomponent_getCdbComponentsList w';
  view_rows n info segs w lost w1 lost' rs w2 gid :
    dispatch_send (QueryCommand (in_doubt_query n) info) segs w = ((None, lost), w1) →
    dispatch_wait w1 = ((DispatchResults (Some rs), lost'), w2) →
    gid ∈ concat (map res_rows rs) →
    ∃ s, may w s gid DidPrepare ∧ ¬ happened w s gid DidCommit }.

Section recovery_facts.
Context {W : Type} `{!XactEnv W, !Segments W, !CalmEnv W, !PreparedView W} `{Backend, !QDBackend}.
Notation X := (X (proc W)).
Implicit Types p q : proc W.

(** ** A process with a local transaction *)

(** no distributed transaction has been started *)
Definition resting (k : dtx_key) : Prop :=
  k.2 = DTX_STATE_NONE ∧ (k.1.1 = DTX_CONTEXT_LOCAL_ONLY ∨ k.1.1 = DTX_CONTEXT_QD_DISTRIBUTED_CAPABLE).

Definition keeps_local {A} (m : X A) : Prop :=
  ∀ p0 k p, resting k → inv p0 (eq k) p → xwp m (λ _, inv p0 (eq k)) (err (inv p0 (eq k))) p.

Lemma keeps_keeps_local {A} (m : X A) : keeps m → keeps_local m.
Proof. intros Hm p0 k p _. apply Hm. Qed.
Lemma keeps_local_bind {A B} (m : X A) (f : A → X B) :
  keeps_local m → (∀ a, keeps_local (f a)) → keeps_local (m ≫= f).
Proof. intros Hm Hf p0 k p Hk Hi. eapply xwp_seq; [by apply Hm|]. intros a p' Hp. by apply Hf. Qed.
Lemma keeps_local_read {A B} (g : proc W → A) (f : A → X B) :
  (∀ a, keeps_local (f a)) → keeps_local (xread g ≫= f).
Proof. intros Hf p0 k p Hk Hi. apply xwp_bind, xwp_read. by apply Hf. Qed.
Lemma keeps_local_try {A} (m : X A) h : keeps_local m → (∀ msg, keeps_local (h msg)) → keeps_local (pg_try m h).
Proof.
  intros Hm Hh p0 k p Hk Hi. apply xwp_try. eapply xwp_mono; [by apply Hm|done|].
  intros l msg s [[-> Hs]|Hf]; [by apply Hh|].
  destruct l; [by apply doomed_not_error in Hf|by right..].
Qed.

(** what the steps of recovery leave as it is *)
Record calm p p' : Prop := {
  calm_log : log_extends (sv p) (sv p');
  calm_array : CommittedGxidArray (sv p') = CommittedGxidArray (sv p);
  calm_next : nextGxid (sv p') = nextGxid (sv p);
  calm_started : DtmStarted (sv p') = DtmStarted (sv p);
  calm_prepare s gid : may (env p') s gid DidPrepare → may (env p) s gid DidPrepare }.

#[export] Instance log_extends_preorder : PreOrder log_extends.
Proof.
  split.
  - intros s. by apply log_grows_extends, log_grows_refl.
  - intros s1 s2 s3 [(l & Hl & Hp) Hd] [(l' & Hl' & Hp') Hd']. split; [|by etrans].
    exists (l ++ l'). rewrite Hl', Hl, app_assoc. split; [done|]. by apply Forall_app.
Qed.
#[export] Instance calm_preorder : PreOrder calm.
Proof.
  split.
  - intros p. by split.
  - intros p1 p2 p3 [] []. split; [by etrans|congruence..|auto].
Qed.

Lemma calm_same p p' : sv p' = sv p → env p' = env p → calm p p'.
Proof. intros Hs He. split; rewrite ?Hs, ?He; done. Qed.

Lemma calm_env {A} (f : W → A * W) : (∀ w, passes w (f w).2) → xframed calm (on_env f).
Proof.
  intros Hf p. specialize (Hf (env p)). unfold on_env. destruct (f (env p)) as [a w]. cbn in *.
  split; cbn; [done..|]. intros s gid. apply Hf.
Qed.
Lemma calm_dx f : xframed calm (modify_dx f).
Proof. intros p. by apply calm_same. Qed.
Lemma calm_xa f : xframed calm (modify_xa f).
Proof. intros p. by apply calm_same. Qed.
Lemma calm_insert r : no_outcome r → xframed calm (XLogInsert r).
Proof.
  intros Hr p. split; cbn; [|done..]. split; [exists [r]; split; [done|by constructor]|apply with_record_prefix].
Qed.
Lemma calm_flush l : xframed calm (XLogFlush l).
Proof. intros p. split; cbn; [|done..]. apply log_grows_extends, log_grows_flush. Qed.

Lemma calm_dispatcher {A} (f : W → (A * bool) * W) :
  (∀ w s gid, may (f w).2 s gid DidPrepare → may w s gid DidPrepare) → xframed calm (dispatcher_call f).
Proof.
  intros Hf p. rewrite dispatcher_call_eq. specialize (Hf (env p)). cbn.
  destruct (f (env p)) as [[a []] w]; split; cbn in *; auto; reflexivity.
Qed.
Lemma calm_wait : xframed calm (dispatcher_call dispatch_wait).
Proof. apply calm_dispatcher. intros w s gid. apply (passes_wait w). Qed.
Lemma calm_send m segs :
  (∀ gid, DidPrepare ∉ msg_causes m gid) → xframed calm (dispatcher_call (dispatch_send m segs)).
Proof. intros Hm. apply calm_dispatcher. intros w s gid [?|[_ []%Hm]]%seg_send. done. Qed.
Lemma calm_hook h : xframed calm (call_hook h).
Proof.
  apply (xframed_bind calm); [apply calm_env; intros; apply passes_hook|].
  intros [[]|]; [apply (xframed_elog calm)|apply (xframed_ret calm)].
Qed.
Lemma calm_lift_res {A} (r : res A) : xframed calm (lift_res r).
Proof. destruct r as [|[]]; [apply (xframed_ret calm)|apply (xframed_elog calm)..]. Qed.
#[local] Hint Resolve calm_dx calm_xa calm_flush calm_wait calm_hook calm_lift_res : xframed.

Lemma calm_tml f : xframed calm (modify_tml f).
Proof. apply calm_dx. Qed.
#[local] Hint Resolve calm_tml : xframed.

Lemma calm_add_segments segs : xframed calm (add_segments segs).
Proof. induction segs as [|z segs IH]; cbn [add_segments]; repeat xframe_step. Qed.
#[local] Hint Resolve calm_add_segments : xframed.
Lemma calm_addToGxactDtxSegments segs : xframed calm (addToGxactDtxSegments segs).
Proof. unfold addToGxactDtxSegments. repeat xframe_step. Qed.
#[local] Hint Resolve calm_addToGxactDtxSegments : xframed.

Lemma calm_doDispatch c gid r segs info :
  DidPrepare ∉ causes c → xframed calm (doDispatchDtxProtocolCommand c gid r segs info).
Proof.
  intros Hc. assert (xframed calm (dispatcher_call (dispatch_send (DtxCommand c gid info) segs))) as Hs.
  { apply calm_send. intros g. cbn. case_bool_decide; [done|set_solver]. }
  unfold doDispatchDtxProtocolCommand, raise_opt. repeat xframe_step.
Qed.

Lemma calm_sv f :
  (∀ s, xlog (f s) = xlog s ∧ xlog_flushed (f s) = xlog_flushed s ∧ nextGxid (f s) = nextGxid s ∧
        CommittedGxidArray (f s) = CommittedGxidArray s ∧ DtmStarted (f s) = DtmStarted s) →
  xframed calm (modify_sv f).
Proof.
  intros Hf p. destruct (Hf (sv p)) as (Hx & Hfl & Hn & Ha & Hs). split; cbn; try done.
  by apply log_grows_extends, log_grows_refl.
Qed.
Lemma calm_bumpGxid : xframed calm bumpGxid.
Proof.
  assert (∀ g, xframed calm (XLogInsert (XLOG_NEXTGXID g))) as Hi by (intros; by apply calm_insert).
  assert (∀ f, xframed calm (modify_sv (λ s, set_GxidCount (f s) s))) as Hs by (intros; by apply calm_sv).
  unfold bumpGxid, XLogPutNextGxid. cbv zeta. repeat xframe_step.
Qed.

(** ** A query to all segments *)

Definition same_outside p p' : Prop := sv p' = sv p ∧ env p' = env p.
#[local] Instance same_outside_preorder : PreOrder same_outside.
Proof. split; [done|]. intros p1 p2 p3 [] []. split; congruence. Qed.

Lemma outside_dx f : xframed same_outside (modify_dx f).
Proof. by intros p. Qed.
#[local] Hint Resolve outside_dx : xframed.
Lemma outside_options b1 b2 : xframed same_outside (mppTxnOptionsForSync b1 b2).
Proof. unfold mppTxnOptionsForSync, mppTxnOptions. repeat xframe_step. Qed.
Lemma outside_serialize c o sn : xframed same_outside (qdSerializeDtxContextInfo c o sn).
Proof. unfold qdSerializeDtxContextInfo, DtxContextInfo_CreateOnCoordinator. cbv zeta. repeat xframe_step. Qed.

Lemma keeps_options b1 b2 : keeps (mppTxnOptionsForSync b1 b2).
Proof. apply keeps_bind; [|intros; apply keeps_ret]. do 3 (apply keeps_read; intros). apply keeps_ret. Qed.
Lemma keeps_local_serialize c o sn : keeps_local (qdSerializeDtxContextInfo c o sn).
Proof.
  intros p0 k p [_ Hc] Hi. apply xwp_bind, xwp_read. pose proof (inv_key _ _ _ Hi) as Hk. subst k. cbn in Hc.
  destruct Hc as [-> | ->]; by apply keeps_CreateOnCoordinator.
Qed.

Lemma resting_inactive d : resting (key d) → isDtxExplicitBegin d = false.
Proof. intros [Hst _]. cbn in Hst. unfold isDtxExplicitBegin, isCurrentDtxActivated. by rewrite Hst. Qed.
Lemma resting_state p0 k p : resting k → inv p0 (eq k) p → my_state p = DTX_STATE_NONE.
Proof. intros [Hst _] Hi. pose proof (inv_key _ _ _ Hi) as Hk. by subst k. Qed.

(** the answers [rs], or none *)
Definition answered cmd p (rs : list pg_result) p' : Prop :=
  rs = [] ∨ ∃ info segs lost w lost',
    dispatch_send (QueryCommand cmd info) segs (env p) = ((None, lost), w) ∧
    dispatch_wait w = ((DispatchResults (Some rs), lost'), env p').

Lemma CdbDispatchCommand_spec cmd p0 k p :
  resting k → inv p0 (eq k) p →
  xwp (CdbDispatchCommand cmd false)
    (λ rs p', inv p0 (eq k) p' ∧ answered cmd p rs p') (err (inv p0 (eq k))) p.
Proof.
  intros Hk Hi. apply xwp_bind, xwp_ret. eapply xwp_seq.
  { eapply xwp_mono; [apply (xframed_xwp same_outside); [apply outside_options|by apply keeps_options]| |].
    - intros a q Hq. exact Hq.
    - by intros l msg q [? _]. }
  intros o p1 [Hi1 [_ He1]]. eapply xwp_seq.
  { eapply xwp_mono; [apply (xframed_xwp same_outside); [apply outside_serialize|by apply keeps_local_serialize]| |].
    - intros a q Hq. exact Hq.
    - by intros l msg q [? _]. }
  intros info p2 [Hi2 [_ He2]]. apply xwp_bind, xwp_read. set (segs := cdbcomponent_getCdbComponentsList (env p2)).
  pose proof (tick_send (QueryCommand cmd info) segs (env p2)) as Ht.
  pose proof (send_plain (QueryCommand cmd info) segs (env p2) ltac:(done)) as Hev.
  apply xwp_bind. unfold xwp at 1. rewrite dispatcher_call_eq.
  destruct (dispatch_send (QueryCommand cmd info) segs (env p2)) as [[sent lost] w] eqn:Hsend. cbn [fst snd] in *.
  assert (inv p0 (eq k) (mark_lost lost (with_env w p2))) as Hi3 by (by apply inv_lost, inv_env).
  apply xwp_bind. destruct sent as [[l msg]|].
  { apply xwp_elog, env_err; [by eapply send_error|done|by eapply inv_recoverable]. }
  apply xwp_ret. apply xwp_bind, xwp_bind, xwp_read. rewrite resting_inactive by (by rewrite <- (inv_key _ _ _ Hi3)).
  apply xwp_ret. apply xwp_bind. unfold xwp at 1. rewrite dispatcher_call_eq.
  assert (env (mark_lost lost (with_env w p2)) = w) as -> by (by destruct lost).
  pose proof (passes_wait w) as Hpass. pose proof (wait_error w) as Herr.
  destruct (dispatch_wait w) as [[r lost'] w2] eqn:Hwait. cbn [fst snd] in *. set (p3 := mark_lost lost' _).
  assert (inv p0 (eq k) p3) as Hi4.
  { apply inv_lost, inv_env; [|done]. by destruct lost. }
  destruct r as [l msg|msg|[rs|]].
  - apply xwp_elog, env_err; [by eapply Herr|done|by eapply inv_recoverable].
  - apply xwp_elog. auto.
  - apply xwp_ret. split; [done|]. right. exists info, segs, lost, w, lost'. rewrite <- He1, <- He2. split; [done|].
    rewrite Hwait. by destruct lost'.
  - apply xwp_ret. split; [done|by left].
Qed.

Lemma calm_CdbDispatchCommand cmd : xframed calm (CdbDispatchCommand cmd false).
Proof.
  assert (∀ info segs, xframed calm (dispatcher_call (dispatch_send (QueryCommand cmd info) segs))) as Hs.
  { intros. apply calm_send. set_solver. }
  assert (∀ b1 b2, xframed calm (mppTxnOptionsForSync b1 b2)) as Ho.
  { intros b1 b2 p. apply calm_same; apply outside_options. }
  assert (∀ c o sn, xframed calm (qdSerializeDtxContextInfo c o sn)) as Hq.
  { intros c o sn p. apply calm_same; apply outside_serialize. }
  unfold CdbDispatchCommand, raise_opt. repeat xframe_step.
Qed.

(** ** Aborting what is prepared and not decided *)

Definition undecided_gid p (gid : string) : Prop :=
  ∃ g, gid = dtxFormGid g ∧ 0 ≤ g < nextGxid (sv p) ∧ ¬ decided (xlog (sv p)) g.

Definition all_forgotten (s : server) : Prop := ∀ g, decided (xlog s) g → forgotten (xlog s) g.

(** a listed transaction is not decided, once everything decided is forgotten *)
Lemma listed_undecided n p rs q gid :
  proto p → all_forgotten (sv p) → answered (in_doubt_query n) p rs q → gid ∈ concat (map res_rows rs) →
  undecided_gid p gid.
Proof.
  intros Hpr Hall Ha Hin. destruct Ha as [->|(info & segs & lost & w & lost' & Hsend & Hwait)]; [cbn in Hin; set_solver|].
  destruct (view_rows _ _ _ _ _ _ _ _ _ _ Hsend Hwait Hin) as (s & Hm & Hn).
  destruct (pr_may _ Hpr _ _ _ Hm) as (g & Hg & ->).
  exists g. split; [done|]. split; [done|]. intros Hd. apply Hn.
  by apply (du_forget _ (pr_durable _ Hpr)); [apply Hall|].
Qed.

Lemma in_doubt_entries gids : Forall (λ gid, (String.length gid < 21)%nat) gids →
  ∀ h, foldl add_in_doubt h gids ⊆ h ++ gids.
Proof.
  induction gids as [|gid gids IH]; intros Hl h; [by rewrite app_nil_r|]. inversion Hl; subst. cbn.
  etrans; [by apply IH|]. unfold add_in_doubt. case_match; [set_solver|]. rewrite substring_all by lia. set_solver.
Qed.

Lemma undecided_calm p q gid : calm p q → undecided_gid p gid → undecided_gid q gid.
Proof.
  intros [Hl _ Hn _ _] (g & -> & Hg & Hd). exists g. rewrite Hn, (log_extends_decided _ _ g Hl). done.
Qed.
Lemma undecided_length p gid : dtm_ok p → undecided_gid p gid → (String.length gid < 21)%nat.
Proof.
  intros Hok (g & -> & Hg & _). destruct (ok_next _ Hok). pose proof (dtxFormGid_length g ltac:(lia)) as Hl.
  unfold TMGIDSIZE in Hl. lia.
Qed.

(** specifications in which only [calm] steps are made, also when there is an error *)
Definition calmly {A} p0 k p (Q : A → proc W → Prop) (m : X A) : Prop :=
  xwp m (λ a q, inv p0 (eq k) q ∧ calm p q ∧ Q a q) (λ lv msg q, err (inv p0 (eq k)) lv msg q ∧ calm p q) p.

Lemma calmly_seq {A B} p0 k p (Q : A → proc W → Prop) (R : B → proc W → Prop) m (f : A → X B) :
  calmly p0 k p Q m → (∀ a q, inv p0 (eq k) q → calm p q → Q a q → calmly p0 k q R (f a)) →
  calmly p0 k p R (m ≫= f).
Proof.
  intros Hm Hf. eapply xwp_seq; [exact Hm|]. intros a q (Hi & Hc & HQ).
  eapply xwp_mono; [by apply Hf| |].
  - intros b r (Hr & Hc' & HR). split_and!; [done|by etrans|done].
  - intros lv msg r [He Hc']. split; [done|by etrans].
Qed.
Lemma calmly_ret {A} p0 k p (Q : A → proc W → Prop) a : inv p0 (eq k) p → Q a p → calmly p0 k p Q (mret a).
Proof. intros Hi HQ. by apply xwp_ret. Qed.
Lemma calmly_keeps {A} p0 k p (m : X A) :
  resting k → keeps_local m → xframed calm m → inv p0 (eq k) p → calmly p0 k p (λ _ _, True) m.
Proof.
  intros Hk Hm Hc Hi. eapply xwp_mono; [by eapply (xframed_xwp calm), Hm| |]; [|done]. intros a q [? ?]. by split_and!.
Qed.

Lemma gather_spec n raise p0 k p :
  resting k → inv p0 (eq k) p → all_forgotten (sv p) →
  calmly p0 k p (λ h q, ∀ l, h = Some l → ∀ gid, gid ∈ l → undecided_gid q gid)
    (gatherRMInDoubtTransactions n raise).
Proof.
  intros Hk Hi Hall. eapply (calmly_seq _ _ _ (λ rs q, ∀ gid, gid ∈ concat (map res_rows rs) → undecided_gid q gid)).
  - apply xwp_try. eapply xwp_mono.
    + apply (xframed_xwp calm); [apply calm_CdbDispatchCommand|]. by apply (CdbDispatchCommand_spec _ p0 k).
    + intros rs q [[Hq Ha] Hc]. split_and!; [done|done|]. intros gid Hin.
      eapply undecided_calm; [exact Hc|]. eapply listed_undecided; [apply Hi|done..].
    + intros lv msg q [He Hc]. destruct He as [[-> Hq]|Hd].
      * destruct raise; [apply xwp_elog; split; [by left|done]|].
        assert (calmly p0 k q (λ _ _, True) (destroy_gangs (W := W) true)) as Hg.
        { apply calmly_keeps; [done|apply keeps_keeps_local, keeps_env|apply calm_env|done]; intros; apply passes_destroy. }
        unfold calmly in Hg. eapply xwp_seq; [eapply xwp_mono; [exact Hg|intros ? ? Hq'; exact Hq'|]|].
        -- intros lv' msg' r [He' Hc']. split; [done|by etrans].
        -- intros [] r (Hr & Hc' & _). apply xwp_ret. split_and!; [done|by etrans|]. cbn. set_solver.
      * destruct lv; [by apply doomed_not_error in Hd|by split; [right|]..].
  - intros rs q Hq Hc Hu. apply calmly_ret; [done|]. intros l Hl gid Hgid.
    assert (foldl add_in_doubt [] (concat (map res_rows rs)) = l) as Hf by (by case_match; simplify_eq). subst l.
    apply Hu. apply (in_doubt_entries (concat (map res_rows rs))) in Hgid; [done|].
    apply Forall_forall. intros g Hg. eapply undecided_length; [apply Hq|by apply Hu].
Qed.

Lemma doAbortInDoubt_spec gid p0 k p :
  resting k → inv p0 (eq k) p → undecided_gid p gid → calmly p0 k p (λ _ _, True) (doAbortInDoubt gid).
Proof.
  intros Hk Hi Hu. pose proof (undecided_length _ _ (inv_ok _ _ _ Hi) Hu) as Hlen. destruct Hu as (g & -> & Hg & Hd).
  pose proof (resting_state _ _ _ Hk Hi) as Hst. destruct (inv_ok _ _ _ Hi) as [_ _ _ _ Hpr].
  apply xwp_bind, xwp_read. eapply (calmly_seq _ _ _ (λ _ _, True)).
  - eapply xwp_mono.
    + apply (xframed_xwp calm); [apply calm_doDispatch; cbn; set_solver|].
      apply (doDispatch_spec _ _ _ _ _ p0 (eq k)); [unfold TMGIDSIZE; lia|done| |right; by rewrite Hst].
      by apply (proto_outside DTX_PROTOCOL_COMMAND_RECOVERY_ABORT_PREPARED None g _ p Hpr).
    + intros ok q [(Hq & _ & _) Hcalm]. by split_and!.
    + intros lv msg q [He Hcalm]. by split.
  - intros ok q Hq Hc _. destruct (negb ok); [|by apply calmly_ret].
    apply calmly_keeps; [done|apply keeps_keeps_local, keeps_reset_gangs|apply calm_env; intros; apply passes_reset|done].
Qed.

Lemma abort_entries_spec gids p0 k p :
  resting k → inv p0 (eq k) p → (∀ gid, gid ∈ gids → undecided_gid p gid) →
  calmly p0 k p (λ _ _, True) (abort_entries gids).
Proof.
  intros Hk. revert p. induction gids as [|gid gids IH]; intros p Hi Hu; [by apply calmly_ret|]. cbn [abort_entries].
  eapply calmly_seq; [apply doAbortInDoubt_spec; [done..|apply Hu; by left]|]. intros [] q Hq Hc _.
  apply IH; [done|]. intros gid' Hin. eapply undecided_calm; [exact Hc|]. apply Hu. by right.
Qed.

(** the table holds what is to be finished, and only decided transactions *)
Definition tabled (s : server) : Prop :=
  settled s ∧ ∀ g, g ∈ CommittedGxidArray s → decided (on_disk s) g.

Lemma tabled_calm p q : calm p q → tabled (sv p) → tabled (sv q).
Proof.
  intros [Hl Ha _ _ _] [Hs Hd]. split.
  - intros g Hg. rewrite (log_extends_decided _ _ g Hl) in Hg. rewrite (log_extends_forgotten _ _ g Hl), Ha. by apply Hs.
  - intros g Hg. rewrite Ha in Hg. eapply decided_mono; [by apply log_extends_disk|auto].
Qed.

(** ** The state of the recovery process

    [st] says that recovery is done, [b] is its block state, [A] the table of committed transactions, of which [l] are left
    to be finished. *)
Definition local_only : dtx_key := (DTX_CONTEXT_LOCAL_ONLY, LOCALDISTRIBXACT_STATE_NONE, DTX_STATE_NONE).
Lemma local_only_resting : resting local_only.
Proof. split; [done|by left]. Qed.

Context (st : bool).

Record recovering (b : TBlockState) (A l : list Z) p : Prop := {
  rv_ok : dtm_ok p;
  rv_started : DtmStarted (sv p) = st;
  rv_key : local_only = key (dx p);
  rv_subs : subtransactions (xa p) = [];
  rv_top : XactTopFullTransactionId (xa p) = InvalidTransactionId;
  rv_block : blockState (TopTransactionStateData (xa p)) = b;
  rv_array : CommittedGxidArray (sv p) = A;
  rv_decided g : g ∈ A → decided (on_disk (sv p)) g;
  rv_table g : g ∈ l → g ∈ A;
  rv_left g : decided (xlog (sv p)) g → forgotten (xlog (sv p)) g ∨ g ∈ l;
  rv_known s gid : may (env p) s gid DidPrepare → s ∈ cdbcomponent_getCdbComponentsList (env p) }.

(** an error leaves it to be done again *)
Definition fails (lv : elevel) (msg : string) p : Prop := recoverable p ∧ tabled (sv p).

Lemma recovering_recoverable b A l p : recovering b A l p → recoverable p.
Proof. intros Hr. apply dtm_ok_recoverable, Hr. Qed.
Lemma recovering_fails b A l lv msg p : recovering b A l p → fails lv msg p.
Proof.
  intros Hr. split; [by eapply recovering_recoverable|]. destruct Hr as [Hok ? ? ? ? ? Ha Hd Ht Hleft ?].
  split; [|by rewrite Ha]. intros g Hg. rewrite Ha. destruct (Hleft g Hg); auto.
Qed.
Lemma recovering_state b A l p : recovering b A l p → my_state p = DTX_STATE_NONE.
Proof. intros Hr. pose proof (rv_key _ _ _ _ Hr) as Hk. unfold my_state. by injection Hk as _ _ <-. Qed.

Lemma recovering_calm b b' A l p p' :
  recovering b A l p → calm p p' → dtm_ok p' → local_only = key (dx p') → subtransactions (xa p') = [] →
  XactTopFullTransactionId (xa p') = InvalidTransactionId →
  blockState (TopTransactionStateData (xa p')) = b' → recovering b' A l p'.
Proof.
  intros [] [Hl Ha _ Hs Hp] ?????. split; try done.
  - congruence.
  - congruence.
  - intros g Hg. eapply decided_mono; [by apply log_extends_disk|auto].
  - intros g Hd. rewrite (log_extends_decided _ _ g Hl) in Hd. rewrite (log_extends_forgotten _ _ g Hl). auto.
  - intros s gid Hm. rewrite (components_fixed (env p') (env p)). by eapply rv_known0, Hp.
Qed.

Lemma recovering_inv b A l p p' :
  recovering b A l p → calm p p' → inv p (eq local_only) p' → recovering b A l p'.
Proof.
  intros Hr Hc [[Hx _ _ _] _ Hok Hk]. eapply recovering_calm; [done|done|done|done|..]; rewrite Hx; destruct Hr;
    by destruct (xa p).
Qed.
Lemma recovering_refl b A l p : recovering b A l p → inv p (eq local_only) p.
Proof. intros Hr. by apply inv_refl; destruct Hr. Qed.

Lemma err_fails b A l p K lv msg q :
  recovering b A l p → calm p q → err (inv p K) lv msg q → fails lv msg q.
Proof.
  intros Hr Hc He. split; [destruct He as [[_ ?]|[_ ?]]; [by eapply inv_recoverable|done]|].
  eapply tabled_calm; [exact Hc|]. by eapply (recovering_fails b A l ERROR EmptyString).
Qed.

Lemma recovering_step {B} (m : X B) b A l p :
  keeps_local m → xframed calm m → recovering b A l p → xwp m (λ _, recovering b A l) fails p.
Proof.
  intros Hm Hc Hr. eapply xwp_mono; [by eapply (xframed_xwp calm), (Hm p), recovering_refl; [|apply local_only_resting|]| |].
  - intros a q [Hi Hq]. by eapply recovering_inv.
  - intros lv msg q [He Hcalm]. by eapply err_fails.
Qed.

Lemma recovering_calmly {B} (m : X B) Q b A l p :
  calmly p local_only p Q m → recovering b A l p → xwp m (λ a q, recovering b A l q ∧ Q a q) fails p.
Proof.
  intros Hm Hr. eapply xwp_mono; [exact Hm| |].
  - intros a q (Hi & Hc & HQ). split; [by eapply recovering_inv|done].
  - intros lv msg q [He Hc]. by eapply err_fails.
Qed.

Lemma recovering_hook h b A l p : recovering b A l p → xwp (call_hook h) (λ _, recovering b A l) fails p.
Proof. apply recovering_step; [apply keeps_keeps_local, keeps_hook|apply calm_hook]. Qed.

Lemma recovering_xa f b b' A l p :
  recovering b A l p → subtransactions (f (xa p)) = [] →
  XactTopFullTransactionId (f (xa p)) = InvalidTransactionId →
  blockState (TopTransactionStateData (f (xa p))) = b' → xwp (modify_xa f) (λ _, recovering b' A l) fails p.
Proof.
  intros Hr H1 H2 H3. apply xwp_modify. destruct (Hr). eapply recovering_calm; [done|by apply calm_same| |done..].
  by apply (dtm_ok_step p).
Qed.

Lemma recovering_current f b b' A l p :
  recovering b A l p → blockState (f (TopTransactionStateData (xa p))) = b' →
  xwp (modify_current f) (λ _, recovering b' A l) fails p.
Proof.
  intros Hr Hf. pose proof (rv_subs _ _ _ _ Hr) as Hs. eapply recovering_xa; [done|..];
    unfold upd_current; rewrite Hs; [done|apply Hr|done].
Qed.

(** ** Its transaction *)

Lemma start_command_spec A l p :
  recovering TBLOCK_DEFAULT A l p → st = false →
  xwp StartTransactionCommand (λ _, recovering TBLOCK_STARTED A l) fails p.
Proof.
  intros Hr Hst. pose proof (rv_key _ _ _ _ Hr) as Hk. injection Hk as Hctx _ _.
  pose proof (rv_started _ _ _ _ Hr) as Hsd. unfold StartTransactionCommand. rewrite qd_dispatch. cbn [xwhen]. apply xwp_bind, xwp_bind, xwp_read. rewrite <- Hctx.
  do 2 (apply xwp_bind). apply xwp_read, xwp_ret. rewrite Hsd, Hst, andb_false_r. apply xwp_ret.
  apply xwp_bind, xwp_read. unfold CurrentTransactionState. rewrite (rv_subs _ _ _ _ Hr), (rv_block _ _ _ _ Hr).
  apply (xwp_seq _ _ (λ _, recovering TBLOCK_DEFAULT A l)).
  2: { intros [] q Hq. apply xwp_bind, xwp_read. pose proof (rv_key _ _ _ _ Hq) as Hkq. injection Hkq as <- _ _.
       rewrite bool_decide_false by done. by eapply recovering_current. }
  eapply xwp_seq; [eapply recovering_xa; [exact Hr|done|apply Hr|apply Hr]|]. intros [] p1 Hr1.
  do 3 (eapply xwp_seq; [eapply recovering_xa; [exact Hr1|apply Hr1..]|]; clear p1 Hr1; intros [] p1 Hr1).
  eapply xwp_seq; [eapply recovering_current; [exact Hr1|apply Hr1]|]. intros [] p2 Hr2.
  apply (xwp_seq _ _ (λ _, recovering TBLOCK_DEFAULT A l)).
  { apply xwp_bind, xwp_read. pose proof (rv_key _ _ _ _ Hr2) as Hk2. injection Hk2 as <- _ _.
    rewrite qd_not_utility. by apply xwp_ret. }
  intros [] p3 Hr3. eapply xwp_seq; [by apply recovering_hook|]. intros [] p4 Hr4.
  eapply xwp_seq; [eapply recovering_current; [exact Hr4|apply Hr4]|]. intros [] p5 Hr5. by apply recovering_hook.
Qed.

Lemma record_commit_spec b A l p :
  recovering b A l p → xwp RecordTransactionCommit (λ _, recovering b A l) fails p.
Proof.
  intros Hr. pose proof (rv_key _ _ _ _ Hr) as Hk. injection Hk as Hctx Hl Hst.
  apply xwp_bind, xwp_read, xwp_bind, xwp_read, xwp_bind, xwp_read. rewrite <- Hctx. cbv zeta.
  rewrite (rv_top _ _ _ _ Hr). do 3 (apply xwp_bind, xwp_read).
  assert (isPreparedDtxTransaction (dx p) = false) as ->.
  { unfold isPreparedDtxTransaction. by rewrite <- Hst. }
  do 2 (apply xwp_bind, xwp_read). change (TransactionIdIsValid InvalidTransactionId) with false. cbn [negb andb orb].
  destruct (pending_deletes (env p)); [by apply xwp_elog; eapply recovering_fails|].
  apply (xwp_seq _ _ (λ _, recovering b A l)).
  { apply xwp_when; [intros _|done]. apply (xwp_seq _ _ (λ _, recovering b A l)); [|intros ? q Hq; by apply xwp_ret].
    apply recovering_step; [apply keeps_keeps_local, keeps_quiet, quiet_XLogInsert|apply calm_insert|]; done. }
  intros [] p1 Hr1. case_match; [by apply xwp_ret|]. eapply xwp_seq.
  { apply xwp_bind, xwp_read.
    apply recovering_step; [apply keeps_keeps_local, keeps_quiet, quiet_XLogFlush|apply calm_flush|exact Hr1]. }
  intros [] p2 Hr2. eapply xwp_seq; [eapply recovering_xa; [exact Hr2|apply Hr2..]|]. intros [] p3 Hr3. by apply xwp_ret.
Qed.

Lemma end_gxact_spec xid b A l p :
  recovering b A l p → xwp (ProcArrayEndTransaction xid) (λ _, recovering b A l) fails p.
Proof.
  intros Hr. pose proof (rv_key _ _ _ _ Hr) as Hk. injection Hk as Hctx Hl Hst. destruct (rv_ok _ _ _ _ Hr).
  apply xwp_bind, xwp_read. destruct (negb _); cbn [xwhen].
  - apply xwp_bind, xwp_bind, xwp_read, xwp_bind, xwp_modify, xwp_modify, xwp_bind, xwp_modify, xwp_modify.
    eapply recovering_calm; [exact Hr| | |unfold key; cbn; by rewrite <- Hctx, <- Hl|apply Hr..].
    + split; cbn; [|by destruct (_ && _)..|done]. by apply log_grows_extends, log_grows_refl; destruct (_ && _).
    + split; cbn; [done|by destruct (_ && _)|by destruct (_ && _)|done|].
      apply (proto_none p); cbn; [done|done|by destruct (_ && _)..|unfold my_state; rewrite <- Hst; solve_settled|done].
  - apply xwp_bind, xwp_ret, xwp_bind, xwp_modify, xwp_modify.
    eapply recovering_calm; [exact Hr|by apply calm_same| |unfold key; cbn; by rewrite <- Hctx, <- Hl|apply Hr..].
    split; cbn; [done..|]. apply (proto_none p); try done. unfold my_state. rewrite <- Hst. solve_settled.
Qed.

Lemma commit_command_spec A l p :
  recovering TBLOCK_STARTED A l p → xwp CommitTransactionCommand (λ _, recovering TBLOCK_DEFAULT A l) fails p.
Proof.
  intros Hr. apply xwp_bind, xwp_read. cbn [commit_command].
  eapply xwp_seq; [eapply recovering_xa; [exact Hr|apply Hr..]|]. intros [] p1 Hr1.
  assert (blockState (CurrentTransactionState (xa p1)) = TBLOCK_STARTED) as Hb.
  { unfold CurrentTransactionState. rewrite (rv_subs _ _ _ _ Hr1). apply Hr1. }
  apply xwp_bind, xwp_read. rewrite Hb.
  apply (xwp_seq _ _ (λ _, recovering TBLOCK_STARTED A l)); [|intros [] q Hq; by eapply recovering_current].
  apply xwp_bind, xwp_read. rewrite bool_decide_false by (by rewrite Hb). apply xwp_bind, xwp_ret.
  eapply xwp_seq; [by apply recovering_hook|]. intros [] p2 Hr2.
  apply (xwp_seq _ _ (λ _, recovering TBLOCK_STARTED A l)).
  { apply xwp_bind, xwp_read. pose proof (rv_key _ _ _ _ Hr2) as Hk. injection Hk as <- _ _. by apply xwp_ret. }
  intros [] p3 Hr3. eapply xwp_seq; [by apply recovering_hook|]. intros [] p4 Hr4.
  eapply xwp_seq; [eapply recovering_current; [exact Hr4|apply Hr4]|]. intros [] p5 Hr5.
  apply (xwp_seq _ _ (λ _, recovering TBLOCK_STARTED A l)); [by apply record_commit_spec|]. intros xid p6 Hr6. apply xwp_bind, xwp_read.
  assert (notifyCommittedDtxTransactionIsNeeded (dx p6) = false) as ->.
  { pose proof (rv_key _ _ _ _ Hr6) as Hk. injection Hk as Hc _ _. unfold notifyCommittedDtxTransactionIsNeeded.
    by rewrite <- Hc. }
  apply xwp_bind, xwp_ret. eapply xwp_seq; [by apply end_gxact_spec|]. intros [] p7 Hr7.
  apply (xwp_seq _ _ (λ _, recovering TBLOCK_STARTED A l)).
  { apply xwp_bind, xwp_read. pose proof (rv_key _ _ _ _ Hr7) as Hk. injection Hk as _ <- _. by apply xwp_ret. }
  intros [] p8 Hr8. pose proof (rv_key _ _ _ _ Hr8) as Hk. injection Hk as Hctx Hl Hst.
  apply (xwp_seq _ _ (λ _, recovering TBLOCK_STARTED A l)).
  { do 2 (apply xwp_bind, xwp_read). unfold isCurrentDtxActivated. rewrite <- Hst. apply xwp_bind, xwp_modify, xwp_modify.
    destruct (Hr8). eapply recovering_calm; [exact Hr8|by apply calm_same|by apply (dtm_ok_step p8)|..]; try done.
    unfold key. cbn. by rewrite <- Hl, <- Hst. }
  intros [] p9 Hr9. eapply xwp_seq; [eapply recovering_current; [exact Hr9|apply Hr9]|]. intros [] p10 Hr10.
  eapply xwp_seq; [eapply recovering_xa; [exact Hr10|apply Hr10|done|apply Hr10]|]. intros [] p11 Hr11.
  eapply recovering_current; [exact Hr11|apply Hr11].
Qed.

(** ** Finishing committed transactions *)

Definition committed_everywhere p (g : Z) : Prop :=
  ∀ s, may (env p) s (dtxFormGid g) DidPrepare → happened (env p) s (dtxFormGid g) DidCommit.

Lemma doNotifyCommittedInDoubt_spec g b A l p :
  recovering b A l p → g ∈ l →
  xwp (doNotifyCommittedInDoubt (dtxFormGid g)) (λ _ q, recovering b A l q ∧ committed_everywhere q g) fails p.
Proof.
  intros Hr Hg. pose proof (rv_decided _ _ _ _ Hr g (rv_table _ _ _ _ Hr g Hg)) as Hd. pose proof (recovering_state _ _ _ _ Hr) as Hst.
  destruct (rv_ok _ _ _ _ Hr) as [_ _ _ _ Hpr]. pose proof (decided_mono _ _ g (on_disk_log _) Hd) as Hdl.
  pose proof (pr_log _ Hpr g Hdl) as Hgr. pose proof (pr_limit _ Hpr) as Hlim.
  pose proof (ok_count _ (rv_ok _ _ _ _ Hr)) as Hc. pose proof qd_prefetch as Hpf.
  apply xwp_bind, xwp_read.
  apply (xwp_seq _ _ (λ ok q, recovering b A l q ∧ (ok = true → committed_everywhere q g))).
  - eapply xwp_mono.
    + apply (xframed_xwp calm); [apply calm_doDispatch; cbn; set_solver|].
      apply (doDispatch_spec _ _ _ _ _ p (eq local_only));
        [apply dtxFormGid_length; lia|by eapply recovering_refl| |right; by rewrite Hst].
      by apply (proto_outside DTX_PROTOCOL_COMMAND_RECOVERY_COMMIT_PREPARED None g _ p Hpr).
    + intros ok q [(Hi & _ & Ha) Hcalm]. split; [by eapply recovering_inv|]. intros Hok s Hm.
      apply (calm_prepare _ _ Hcalm) in Hm. destruct (pr_durable _ Hpr) as [_ H2 H3 _ _ _].
      apply (Ha Hok s); [by eapply rv_known|by apply H3|by apply H2].
    + intros lv msg q [He Hcalm]. by eapply err_fails.
  - intros [] q [Hq Hok]; [apply xwp_ret; auto|]. apply xwp_elog. by eapply recovering_fails.
Qed.

Lemma forget_spec g b A l p :
  recovering b A (g :: l) p → committed_everywhere p g →
  xwp (RecordDistributedForgetCommitted g) (λ _, recovering b A l) fails p.
Proof.
  intros Hr Hall. apply xwp_bind. unfold xwp at 1. cbn. set (p' := upd_xa _ _).
  pose proof (recovering_state _ _ _ _ Hr) as Hst. destruct (Hr) as [[] ? ? ? ? ? ? Hd Ht Hleft ?].
  assert (proto (with_record (XLOG_XACT_DISTRIBUTED_FORGET g) p)) as Hpr.
  { apply proto_forget_any; [done|apply Hd, Ht; by left|done|]. unfold phase.
    change (my_state (with_record _ p)) with (my_state p). by rewrite Hst. }
  split; try done.
  - split; [done..|]. apply (proto_none (with_record (XLOG_XACT_DISTRIBUTED_FORGET g) p)); try done.
    change (¬ unsettled (my_state p)). rewrite Hst. solve_settled.
  - intros g' Hg'. eapply decided_mono; [apply with_record_disk|by apply Hd].
  - intros g' Hg'. apply Ht. by right.
  - intros g' (x & c & [Hin|[=]%list_elem_of_singleton]%elem_of_app). unfold forgotten. cbn. rewrite elem_of_app.
    destruct (Hleft g' ltac:(by exists x, c)) as [?|[->|?]%elem_of_cons]; [left; by left|left; right; by left|by right].
Qed.

Lemma recover_committed_spec l b A p :
  recovering b A l p → xwp (recover_committed l) (λ _, recovering b A []) fails p.
Proof.
  revert p. induction l as [|g l IH]; intros p Hr; [by apply xwp_ret|]. cbn [recover_committed].
  eapply xwp_seq; [apply doNotifyCommittedInDoubt_spec; [exact Hr|by left]|]. intros ? p1 [Hr1 Hall].
  eapply xwp_seq; [by apply forget_spec|]. intros [] p2 Hr2. by apply IH.
Qed.

Lemma TerminateMppBackends_spec b A l p :
  recovering b A l p → xwp TerminateMppBackends (λ _, recovering b A l) fails p.
Proof.
  assert (keeps (destroy_gangs true)) as Hd by (apply keeps_env; intros; apply passes_destroy).
  assert (xframed calm (destroy_gangs true)) as Hc by (apply calm_env; intros; apply passes_destroy).
  apply recovering_step.
  - apply keeps_local_try; [|intros; by apply keeps_keeps_local].
    apply keeps_local_bind; [|intros; apply keeps_keeps_local, keeps_ret].
    intros p0 k q Hk Hi. eapply xwp_mono; [by apply (CdbDispatchCommand_spec _ p0 k)| |done]. by intros rs r [? _].
  - pose proof (calm_CdbDispatchCommand "select * from gp_terminate_mpp_backends()"). unfold TerminateMppBackends. repeat xframe_step.
Qed.

(** ** The whole recovery *)

Context (hash_seq : list string → list string) (Hseq : ∀ h, hash_seq h ≡ₚ h).

Lemma recovering_clear b A p :
  recovering b A [] p → recovering b [] [] (upd_sv (set_CommittedGxidArray []) p).
Proof.
  intros [[? ? ? ? Hpr]]. split; try done; [|by intros g ?%not_elem_of_nil]. split; [done..|].
  destruct Hpr as [H1 H2 H3 H5 H6 H7 _]. split; try done; [by destruct H1|].
  intros g Hd. destruct (rv_left0 g Hd) as [?|?%not_elem_of_nil]; [by left|done].
Qed.

Lemma recoverInDoubtTransactions_spec b A p :
  recovering b A A p → xwp (recoverInDoubtTransactions hash_seq) (λ _, recovering b [] []) fails p.
Proof.
  intros Hr. apply xwp_bind, xwp_read. rewrite (rv_array _ _ _ _ Hr).
  eapply xwp_seq; [by apply recover_committed_spec|]. intros [] p1 Hr1.
  apply (xwp_seq _ _ (λ _, recovering b [] [])); [apply xwp_modify; by eapply recovering_clear|].
 
  intros [] p2 Hr2. eapply xwp_seq.
  { eapply recovering_calmly; [|exact Hr2]. apply gather_spec; [apply local_only_resting|by eapply recovering_refl|].
    intros g Hd. destruct (rv_left _ _ _ _ Hr2 g Hd) as [?|?%not_elem_of_nil]; done. }
  intros [l|] p3 [Hr3 Hu]; [|by apply xwp_ret].
  eapply xwp_mono; [eapply recovering_calmly; [|exact Hr3]|by intros ? ? [? _]|done].
  apply abort_entries_spec; [apply local_only_resting|by eapply recovering_refl|].
  intros gid Hin. apply (Hu l); [done|]. by rewrite <- (Hseq l).
Qed.

End recovery_facts.

Section recovery_process.
Context {W : Type} `{!XactEnv W, !Segments W, !CalmEnv W, !PreparedView W} `{Backend, !QDBackend}.
Implicit Types p q : proc W.
Context (hash_seq : list string → list string) (Hseq : ∀ h, hash_seq h ≡ₚ h).

Lemma recoverTM_spec cleanup b A p :
  recovering false b A A p → xwp (recoverTM hash_seq cleanup) (λ _, recovering true b [] []) fails p.
Proof.
  intros Hr. apply (xwp_seq _ _ (λ _, recovering false b A A)).
  { apply xwp_when; [intros _; by apply TerminateMppBackends_spec|done]. }
  intros [] p1 Hr1. eapply xwp_seq; [by eapply recoverInDoubtTransactions_spec|]. intros [] p2 Hr2.
  apply xwp_modify. destruct Hr2. split; cbn; try done. by apply (dtm_ok_step p2).
Qed.

(** recovery is complete *)
Record recovered p : Prop := {
  rd_recoverable : recoverable p;
  rd_table : CommittedGxidArray (sv p) = [];
  rd_done : DtmStarted (sv p) = true;
  rd_forgotten g : decided (xlog (sv p)) g → forgotten (xlog (sv p)) g;
  rd_committed g : decided (xlog (sv p)) g → committed_everywhere p g }.

Lemma DtxRecovery_start_spec cleanup A p :
  recovering false TBLOCK_DEFAULT A A p → xwp (DtxRecovery_start hash_seq cleanup) (λ _, recovered) fails p.
Proof.
  intros Hr. apply xwp_bind, xwp_read. rewrite (rv_started _ _ _ _ _ Hr). cbn [negb xwhen].
  apply (xwp_seq _ _ (λ _, recovering true TBLOCK_DEFAULT [] [])).
  - eapply xwp_seq; [by apply start_command_spec|]. intros [] p1 Hr1.
    eapply xwp_seq; [by eapply recoverTM_spec|]. intros [] p2 Hr2.
    eapply xwp_seq; [by apply commit_command_spec|]. intros [] p3 Hr3.
    apply recovering_step; [apply keeps_keeps_local, keeps_env|apply calm_env|done]; intros; apply passes_destroy.
  - intros [] q Hq. eapply xwp_mono; [eapply recovering_step; [|apply calm_bumpGxid|exact Hq]| |done].
    + intros p0 k r _ Hi. eapply xwp_mono; [by apply bumpGxid_spec|by intros ? ? [? _]|done].
    + intros ? r Hr'. assert (∀ g, decided (xlog (sv r)) g → forgotten (xlog (sv r)) g) as Hf.
      { intros g Hd. destruct (rv_left _ _ _ _ _ Hr' g Hd); [done|set_solver]. }
      split; [eapply recovering_recoverable, Hr'|apply Hr'..|done|]. intros g Hd s Hm.
      by apply (du_forget _ (pr_durable _ (ok_proto _ (rv_ok _ _ _ _ _ Hr')))), Hm; apply Hf.
Qed.

(** ** Orphaned transactions *)

Context (allTmGxact : W → list Z) (gp_dtx_recovery_prepared_period : Z).

(** between the statements of a session nothing is half committed *)
Lemma block_forgotten c a p : block_is c a p → all_forgotten (sv p).
Proof.
  intros (n0 & ch & [Hp _]) g Hd. destruct Hp as [_ _ _ _ _ _ Hsv [_ _ _ _ Hpr] Hk]. injection Hsv as _ Ha.
  assert (¬ unsettled (my_state p)) as Hu.
  { unfold my_state. destruct a as [| | |sps|[|sp sps]]; cbn in Hk;
      first [destruct Hk as (? & ? & Hk & _)|destruct Hk as [Hk|Hk]]; injection Hk as _ _ ->; solve_settled. }
  destruct (proto_settled _ Hpr Hu g Hd) as [?|Hin]; [done|]. rewrite Ha in Hin. by apply not_elem_of_nil in Hin.
Qed.

Definition same_state p q : Prop := my_state q = my_state p.
#[local] Instance same_state_preorder : PreOrder same_state.
Proof. split; [done|]. intros p1 p2 p3. unfold same_state. congruence. Qed.

Lemma state_xa f : xframed same_state (modify_xa f).
Proof. by intros p. Qed.
Lemma state_current f : xframed same_state (modify_current f).
Proof. by intros p. Qed.
Lemma state_tm f : xframed same_state (modify_tm f).
Proof. by intros p. Qed.
Lemma state_dx f :
  (∀ d, MyTmGxactLocal (f d) = MyTmGxactLocal d) → xframed same_state (modify_dx f).
Proof. intros Hf p. unfold same_state, my_state. cbn. by rewrite Hf. Qed.
Lemma state_hook h : xframed same_state (call_hook h).
Proof.
  apply (xframed_bind same_state); [intros p; unfold on_env; by destruct (run_hook h (env p))|].
  intros [[]|]; [apply (xframed_elog same_state)|apply (xframed_ret same_state)].
Qed.
#[local] Hint Resolve state_xa state_current state_tm state_hook : xframed.

Lemma state_start : xframed same_state StartTransactionCommand.
Proof.
  assert (∀ f, (∀ d, MyTmGxactLocal (f d) = MyTmGxactLocal d) → xframed same_state (modify_dx f)) as Hd by apply state_dx.
  assert (∀ i, xframed same_state (mppTxOptions_IsoLevel i)) as Hm.
  { intros i. unfold mppTxOptions_IsoLevel. repeat xframe_step. }
  unfold StartTransactionCommand, setupRegularDtxContext, isDtxQueryDispatcher, StartTransaction, start_dtx_context,
    assume_characteristics, assume_gxid, set_trans, set_block, unexpected_block.
  repeat first [xframe_step|apply Hd; done].
Qed.

Lemma erring_recoverable c a p : erring c a p → recoverable p.
Proof.
  intros [ch J sps n0 q _ Hs|ch J b t n0 q _ _ _ Hs|ch b t n0 q _ _ Hs|ch t n0 q _ _ Hs|ch n0 q Hs|ch n0 q Hs|a' q Hb|a' q Hi];
    [by eapply sess_recoverable..|by eapply block_recoverable|].
  destruct Hi; by eapply sess_recoverable.
Qed.
Lemma erring_fails c a lv msg p : err (erring c a) lv msg p → recoverable p.
Proof. intros [[_ ?]|[_ ?]]; [by eapply erring_recoverable|done]. Qed.

Lemma abort_orphans_spec gids p0 k p :
  resting k → inv p0 (eq k) p → (∀ gid, gid ∈ gids → undecided_gid p gid) →
  calmly p0 k p (λ _ _, True) (abort_orphans allTmGxact gids).
Proof.
  intros Hk. revert p. induction gids as [|gid gids IH]; intros p Hi Hu; [by apply calmly_ret|]. cbn [abort_orphans].
  eapply calmly_seq.
  { apply calmly_keeps; [done| | |exact Hi].
    - apply keeps_keeps_local. unfold dtxDeformGid. repeat case_match; first [apply keeps_ret|apply keeps_error].
    - unfold dtxDeformGid. repeat xframe_step. }
  intros g q Hq Hc _. apply xwp_bind, xwp_read. eapply (calmly_seq _ _ _ (λ _ _, True)).
  { destruct (negb _); [|by apply calmly_ret]. apply doAbortInDoubt_spec; [done|done|].
    eapply undecided_calm; [exact Hc|]. apply Hu. by left. }
  intros [] r Hr Hc' _. apply IH; [done|]. intros gid' Hin. eapply undecided_calm; [exact Hc'|].
  eapply undecided_calm; [exact Hc|]. apply Hu. by right.
Qed.

Lemma AbortOrphaned_spec c p :
  block_is c Idle p →
  xwp (AbortOrphanedPreparedTransactions hash_seq allTmGxact gp_dtx_recovery_prepared_period)
    (λ _, block_is c Idle) (λ _ _, recoverable) p.
Proof.
  intros Hb. assert (my_state p = DTX_STATE_NONE) as Hst.
  { destruct Hb as (n0 & ch & [Hp _]). destruct (po_key _ _ _ _ Hp) as (? & ? & Hk & _). unfold my_state. by injection Hk as _ _ ->. }
  eapply xwp_seq.
  { eapply xwp_mono; [eapply (xframed_xwp same_state), (StartCommand_spec c Idle); [apply state_start|done|by intros b <-]| |].
    - intros a q Hq. exact Hq.
    - intros lv msg q [He _]. by eapply erring_fails. }
  intros [] q [Hq Hsq]. cbn [enter] in Hq. pose proof (block_forgotten _ _ _ Hq) as Hall.
  destruct Hq as (n0 & ch & Hs). cbn in Hs. unfold same_state in Hsq. rewrite Hst in Hsq.
  assert (resting (key (dx q))) as Hk.
  { split; [exact Hsq|]. right. destruct (po_key _ _ _ _ (proj1 Hs)) as [Hk|Hk]; by injection Hk. }
  assert (inv q (eq (key (dx q))) q) as Hi by (by apply inv_refl; [apply Hs|]).
  assert (∀ r, inv q (eq (key (dx q))) r → sess (c, ch) [(TBLOCK_STARTED, TRANS_INPROGRESS, n0)] live r) as Hback.
  { intros r Hr. eapply sessF_key; [|by eapply sessF_inv; [exact Hs|]]. intros k <-. apply (po_key _ _ _ _ (proj1 Hs)). }
  eapply xwp_seq.
  { eapply xwp_mono; [by apply (gather_spec _ false q (key (dx q)) q)|intros ? ? Hq; exact Hq|].
    intros lv msg r [[[_ ?]|[_ ?]] _]; [by eapply inv_recoverable|done]. }
  intros h r (Hr & _ & Hu). apply (xwp_seq _ _ (λ _, inv q (eq (key (dx q))))).
  { destruct h as [l|]; [|by apply xwp_ret].
    eapply xwp_mono; [apply (abort_orphans_spec _ q (key (dx q)) r); [done|done|]|by intros ? ? (? & _)|].
    - intros gid Hin. apply (Hu l); [done|]. by rewrite <- (Hseq l).
    - intros lv msg t [[[_ ?]|[_ ?]] _]; [by eapply inv_recoverable|done]. }
  intros [] t Ht. eapply xwp_seq.
  { eapply xwp_mono; [eapply (CommitCommand_marked c Idle Idle), marked_started, Hback, Ht|intros ? ? Hq; exact Hq|].
    intros lv msg u. apply erring_fails. }
  intros [] u (n1 & ch1 & Hu1). eapply xwp_mono; [eapply sess_lift_quiet; [exact Hu1|]| |by intros lv msg v [_ ?]].
  - intros Hi1. apply quiet_env; [intros; apply passes_destroy|exact Hi1].
  - intros ? v Hv. by exists n1, ch1.
Qed.

(** a round of the main loop *)
Lemma round_spec c p :
  block_is c Idle p →
  xwp (DtxRecovery_round hash_seq allTmGxact gp_dtx_recovery_prepared_period) (λ _, block_is c Idle)
    (λ _ _, recoverable) p.
Proof.
  intros (n0 & ch & Hs). assert (∀ B (m : Elog.X (proc W) B) q, keeps m → sess (c, ch) (stack_of Idle n0) idle q →
    xwp m (λ _, sess (c, ch) (stack_of Idle n0) idle) (λ _ _, recoverable) q) as Hgo.
  { intros B m q Hm Hq. eapply xwp_mono; [eapply sess_lift; [exact Hq|apply Hm]|done|].
    intros lv msg r [[_ ?]|[_ ?]]; [by eapply sess_recoverable|done]. }
  assert (keeps bumpGxid) as Hbump.
  { intros p0 K q Hi. eapply xwp_mono; [by apply bumpGxid_spec|by intros ? ? [? _]|done]. }
  eapply xwp_seq; [by apply Hgo; [apply keeps_hook|]|]. intros [] p1 Hs1. apply xwp_bind, xwp_read.
  apply (xwp_seq _ _ (λ _, sess (c, ch) (stack_of Idle n0) idle)).
  { apply xwp_when; [intros _|done]. apply Hgo; [|done]. apply keeps_bind; [done|intros _].
    intros p0 K q Hi. apply xwp_modify, inv_sv; [done..|by apply log_grows_refl|done]. }
  intros [] p2 Hs2. apply xwp_when; intros _; [apply AbortOrphaned_spec|]; by exists n0, ch.
Qed.
End recovery_process.
