(* ===== verification/Lifetime.v ===== *)
(** * The life of a coordinator

    Sessions, crashes, redo and recovery, in any order: a crash leaves a part of the log
    that holds at least what was flushed, the segments act on commands when they get to
    it, redo starts from a checkpoint that fits the log, and the recovery process may
    fail and run again.  Two-phase commit stays atomic over all of it, and a recovery
    that completes leaves nothing half committed. *)
From stdpp Require Import relations.
From S2P Require Import Prelude CLib BitUtils Bitmapset BitmapsetFacts Elog Dtm DtxInfo CdbTm TwoPhase Xact Session DtxRecovery Protocol DtmFacts DtmWorld XactFacts SessionFacts RecoveryFacts.

Lemma forgotten_or_not l g : forgotten l g ∨ ¬ forgotten l g.
Proof.
  induction l as [|r l [Hf|Hf]]; [right; apply not_elem_of_nil|left; by right|].
  assert (r = XLOG_XACT_DISTRIBUTED_FORGET g ∨ r ≠ XLOG_XACT_DISTRIBUTED_FORGET g) as [->|Hr].
  { destruct r as [| |g'| | | | | | |]; try (by right). destruct (decide (g' = g)); [left|right]; congruence. }
  - left. by left.
  - right. intros [?|?]%elem_of_cons; [congruence|done].
Qed.

(** ** A crash *)

(** the server after a crash that has left the log [l] and the commit log [m] *)
Definition crashed (l : list XLogRecord) (m : gmap Z XidStatus) : server :=
  mkServer l (Z.of_nat (length l)) m ∅ [] 0 0 0 0 0 false [].

(** a checkpoint from which redo of the log gives what redo of the whole log gives *)
Record fits (c : CheckPoint) (l : list XLogRecord) : Prop := {
  fits_pending g : decided l g → ¬ forgotten l g →
    g ∈ pending_after (list_to_set (ckpt_committed c)) (drop (Z.to_nat (ckpt_redo c)) l);
  fits_decided g :
    g ∈ pending_after (list_to_set (ckpt_committed c)) (drop (Z.to_nat (ckpt_redo c)) l) → decided l g;
  fits_gxid : foldl redo_gxid (ckpt_nextGxid c) (drop (Z.to_nat (ckpt_redo c)) l) = gxid_after l }.

(** the first checkpoint, made by BootStrapXLOG *)
Definition first_checkpoint (nextXid : Z) : CheckPoint :=
  mkCheckPoint true 0 nextXid FirstDistributedTransactionId [].

Lemma first_fits n l : fits (first_checkpoint n) l.
Proof.
  split; cbn; [by intros; apply decided_pending| |done].
  intros g Hg. by apply pending_decided in Hg as [?|?]; [set_solver|].
Qed.

Section lifetime.
Context {W : Type} `{!XactEnv W, !Segments W, !CalmEnv W, !PreparedView W} `{Backend, !QDBackend}.
Implicit Types (p q : proc W) (w : W).

(** a process that starts *)
Definition new_process (s : server) w : proc W := mkProc fresh_xact fresh_dtx s w.

Definition clog_ok (s : server) : Prop := ∀ i st, clog s !! i = Some st → i < nextXid s.

(** the server takes sessions *)
Definition accepts (s : server) : Prop := serving s = (true, []) ∧ all_forgotten s ∧ clog_ok s.

(** segments that prepare are those of the cluster *)
Definition known w : Prop :=
  ∀ seg gid, may w seg gid DidPrepare → seg ∈ cdbcomponent_getCdbComponentsList w.

Lemma recoverable_same p q : sv q = sv p → env q = env p → recoverable p → recoverable q.
Proof. intros Hs He [[] H2 H3 H4 H5 H6]. split; [split|..]; by rewrite ?Hs, ?He. Qed.

(** ** Restarting *)

Lemma survives_exact s l : xlog s = l → xlog_flushed s = Z.of_nat (length l) → ∀ l', survives s l' → l' = l.
Proof.
  intros Hx Hf l' [H1 H2]. unfold on_disk in H1. rewrite Hx, Hf, Nat2Z.id, take_ge in H1 by lia. rewrite Hx in H2.
  by apply (anti_symm prefix).
Qed.

Lemma restart_recoverable p q l :
  recoverable p → survives (sv p) l → env q = env p → xlog (sv q) = l →
  xlog_flushed (sv q) = Z.of_nat (length l) → nextGxid (sv q) = gxid_after l → GxidCount (sv q) = 0 → recoverable q.
Proof.
  intros [[H1 H2 H3 H4 H5 H6] Hm Hl Hlog Hn Hc] Hsu He Hx Hf Hg Hc0. destruct (Hlog l Hsu) as [Hlt Hlim].
  assert (on_disk (sv q) = l) as Hd by (unfold on_disk; rewrite Hx, Hf; apply take_ge; lia).
  destruct Hsu as [Hpre Hpost]. pose proof (prefix_of_subseteq _ _ Hpre) as Hs1. pose proof (prefix_of_subseteq _ _ Hpost) as Hs2.
  pose proof qd_prefetch as Hpf. split.
  - split; rewrite ?He, ?Hx, ?Hd.
    + intros s gid Hc1. destruct (H1 _ _ Hc1) as (g & -> & Hdg). exists g. split; [done|]. by eapply decided_mono.
    + intros s g Hdg. apply H2. by eapply decided_mono.
    + intros s g Hdg. apply H3. by eapply decided_mono.
    + intros s g Hfg. apply H4. by apply Hs2.
    + intros g Hfg. eapply decided_mono; [exact Hs1|]. by apply H5, Hs2.
    + rewrite Forall_forall in *. auto.
  - intros s gid e Hma. rewrite He in Hma. destruct (Hm _ _ _ Hma) as (g & ? & ->). exists g. split; [lia|done].
  - intros g Hdg. rewrite Hx in Hdg. assert (0 ≤ g < nextGxid (sv p)) by (eapply Hl, decided_mono; done). lia.
  - intros l' Hs'. rewrite (survives_exact _ l Hx Hf l' Hs'). lia.
  - lia.
  - rewrite Hc0. lia.
Qed.

Lemma StartupXLOG_ready p c l m :
  recoverable p → survives (sv p) l → fits c l →
  xwp (StartupXLOG c)
    (λ _ q, recoverable q ∧ tabled (sv q) ∧ DtmStarted (sv q) = false ∧ env q = env p ∧ xlog (sv q) = l ∧
            nextGxid (sv p) + GxidCount (sv p) ≤ nextGxid (sv q))
    (limit_reached (overflow (list_to_set (ckpt_committed c)) (drop (Z.to_nat (ckpt_redo c)) l)))
    (new_process (crashed l m) (env p)).
Proof.
  intros Hp Hsu [Hf1 Hf2 Hf3]. assert (Forall no_prepare l) as Hnp.
  { pose proof (prefix_of_subseteq _ _ (proj2 Hsu)) as Hs. pose proof (du_local _ (rc_durable _ Hp)) as Hl.
    rewrite Forall_forall in *. auto. }
  eapply xwp_mono; [by apply StartupXLOG_spec| |done].
  intros ? q [Hxa Hdx Henv Hx Hfl Hst Hnd Hpe Hnx Hc _]. cbn in *. rewrite Hf3 in Hnx.
  assert (on_disk (sv q) = l) as Hd by (unfold on_disk; rewrite Hx, Hfl; apply take_ge; lia).
  destruct (rc_logged _ Hp l Hsu) as [Hle _]. split_and!; [by eapply restart_recoverable| |done..|lia].
  split.
  - intros g Hg. rewrite Hx in *. destruct (decide (g ∈ CommittedGxidArray (sv q))) as [?|Hn]; [by right|left].
    destruct (forgotten_or_not l g) as [?|Hnf]; [done|]. exfalso. apply Hn.
    apply (elem_of_list_to_set (C := gset Z)). rewrite Hpe. by apply Hf1.
  - intros g Hg. rewrite Hd. apply Hf2. rewrite <- Hpe. by apply elem_of_list_to_set.
Qed.

Lemma restart_ready s w l m c q :
  recoverable (new_process s w) → survives s l → fits c l →
  StartupXLOG c (new_process (crashed l m) w) = (Done tt, q) → tabled (sv q) ∧ recoverable q.
Proof.
  intros Hr Hsu Hf Hrun. pose proof (StartupXLOG_ready _ c l m Hr Hsu Hf) as Hs.
  by destruct (xwp_Done _ _ _ _ _ _ Hs Hrun) as (? & ? & _).
Qed.

(** ** Processes that start *)

Lemma new_process_ok s w : recoverable (new_process s w) → settled s → dtm_ok (new_process s w).
Proof.
  intros Hr Hs. destruct (Hr). split; [done..|done|]. by apply recoverable_proto.
Qed.

Lemma new_process_recovering s w :
  recoverable (new_process s w) → DtmStarted s = false → tabled s → known w →
  recovering false TBLOCK_DEFAULT (CommittedGxidArray s) (CommittedGxidArray s) (new_process s w).
Proof.
  intros Hr Hst [Hse Hd] Hk. split; try done. by apply new_process_ok.
Qed.

Lemma new_process_idle s w :
  recoverable (new_process s w) → accepts s → block_is (clog s) Idle (new_process s w).
Proof.
  intros Hr (Hsv & Hall & Hc). exists None, false. split; [split|]; try done; cbn.
  - by repeat constructor.
  - apply new_process_ok; [done|]. intros g Hg. left. by apply Hall.
  - by eexists _, _.
  - by split; [constructor|constructor|].
Qed.

Lemma block_accepts c a p : block_is c a p → accepts (sv p).
Proof.
  intros Hb. pose proof (block_forgotten _ _ _ Hb). destruct Hb as (n0 & ch & [Hp [_ _ Hx]]).
  split_and!; [apply Hp|done|]. intros i st Hi. by eapply Hx.
Qed.

(** ** Runs *)

Context (hash_seq : list string → list string) (Hseq : ∀ h, hash_seq h ≡ₚ h).
Context (allTmGxact : W → list Z) (gp_dtx_recovery_prepared_period : Z).

Inductive step : server * W → server * W → Prop :=
  (** segments act on commands that they were sent *)
  | step_segments s w w' : evolves w w' → step (s, w) (s, w')
  (** a session, to its end or to an error that ends it *)
  | step_session s w msgs o q :
      accepts s → Forall (Forall statement_ok) msgs →
      serve_messages msgs (new_process s w) = (o, q) → step (s, w) (sv q, env q)
  (** a crash, and redo *)
  | step_crash s w l m c q :
      survives s l → fits c l → StartupXLOG c (new_process (crashed l m) w) = (Done tt, q) →
      step (s, w) (sv q, env q)
  (** the recovery process, which may fail *)
  | step_recovery s w cleanup o q :
      DtmStarted s = false → tabled s → known w →
      DtxRecovery_start hash_seq cleanup (new_process s w) = (o, q) → step (s, w) (sv q, env q)
  (** its main loop *)
  | step_round s w o q :
      accepts s → DtxRecovery_round hash_seq allTmGxact gp_dtx_recovery_prepared_period (new_process s w) = (o, q) →
      step (s, w) (sv q, env q).

Lemma xwp_outcome {A} (m : X (proc W) A) (P : proc W → Prop) p o q :
  xwp m (λ _, P) (λ _ _, P) p → m p = (o, q) → P q.
Proof. unfold xwp. intros Hm Heq. rewrite Heq in Hm. by destruct o. Qed.

Lemma step_recoverable s w s' w' :
  step (s, w) (s', w') → recoverable (new_process s w) → recoverable (new_process s' w').
Proof.
  intros Hst Hr. inversion Hst as [? ? ? Hev|? ? msgs o q Ha Hok Hrun|? ? l m c q Hsu Hf Hrun|? ? cl o q Hd Ht Hk Hrun|? ? o q Ha Hrun];
    subst; [|eapply (recoverable_same q); [done|done|]..].
  - destruct Hr as [? Hm Hl Hlog Hn Hc]. split; try done.
    + by apply (durable_step (new_process s' w)).
    + intros seg gid e Hma%(ev_may _ _ Hev). by eapply Hm.
  - eapply xwp_outcome; [|exact Hrun]. eapply (serve_recoverable (clog s)); [by apply new_process_idle|done..].
  - pose proof (StartupXLOG_ready _ c l m Hr Hsu Hf) as Hx. apply (xwp_Done _ _ _ _ _ _ Hx Hrun).
  - eapply xwp_outcome; [|exact Hrun]. eapply xwp_mono; [by eapply DtxRecovery_start_spec, new_process_recovering| |].
    + by intros ? ? [].
    + by intros lv msg r [? _].
  - eapply xwp_outcome; [|exact Hrun]. eapply xwp_mono; [by eapply round_spec, new_process_idle| |done].
    intros ? r Hb. eapply block_recoverable, Hb.
Qed.

Lemma run_recoverable x y :
  rtc step x y → recoverable (new_process x.1 x.2) → recoverable (new_process y.1 y.2).
Proof.
  induction 1 as [x|[s w] [s1 w1] y Hst _ IH]; [done|]. intros Hr. apply IH. by eapply step_recoverable.
Qed.

(** ** Sessions leave nothing half committed *)

Lemma serve_spec c msgs a p :
  block_is c a p → a ≠ Started → a ≠ Implicit → Forall (Forall statement_ok) msgs →
  xwp (serve_messages msgs) (λ _ q, ∃ a', block_is c a' q)
    (λ lv msg q, recoverable q ∧ (lv = FATAL ∨ lv = PANIC)) p.
Proof.
  revert a p. induction msgs as [|m msgs IH]; intros a p Hb H1 H2 Hok; [by exists a|].
  apply Forall_cons in Hok as [Hm Hok]. cbn [serve_messages]. eapply xwp_seq.
  { eapply xwp_mono; [by apply (message_spec c a)|intros ?? Hq; exact Hq|].
    intros lv msg q [? Hq]. split; [done|]. destruct Hq as [[[-> _]|[[-> _]|[[-> _]|[-> _]]]]|[-> _]]; auto. }
  intros [] q (a' & Hrun & Hq). destruct (run_message_states _ _ _ H1 H2 Hrun). by eapply IH.
Qed.

(** C7: a transaction that is decided is finished before the client is told.  When a
    session of the coordinator has answered the messages of its client, in whatever
    state it leaves the transaction block, every transaction whose decision is in the log
    is forgotten and committed on all segments that were asked to prepare it, and the
    server takes the next session; the only other outcomes are FATAL and PANIC, in a state
    from which transactions can be recovered. *)
Theorem sessions_settle c msgs p :
  block_is c Idle p → Forall (Forall statement_ok) msgs →
  xwp (serve_messages msgs)
    (λ _ q, accepts (sv q) ∧
       ∀ g, decided (xlog (sv q)) g → forgotten (xlog (sv q)) g ∧
         ∀ seg, may (env q) seg (dtxFormGid g) DidPrepare → happened (env q) seg (dtxFormGid g) DidCommit)
    (λ lv msg q, recoverable q ∧ (lv = FATAL ∨ lv = PANIC)) p.
Proof.
  intros Hb Hok. eapply xwp_mono; [by apply (serve_spec c msgs Idle)| |done].
  intros ? q (a' & Hq). split; [by eapply block_accepts|]. intros g Hd.
  pose proof (block_forgotten _ _ _ Hq g Hd) as Hf. split; [done|]. intros seg Hm.
  by apply (du_forget _ (rc_durable _ (block_recoverable _ _ _ Hq))).
Qed.

(** ** Atomicity over the life of the server *)


(** C4: after a crash, redo and the recovery process finish what was decided.  In a server
    that any run has led to, with any log that a crash can leave and a checkpoint that
    fits it: redo ends, unless more transactions are to be recovered than the table holds,
    and gives out no identifier that was in use.  If then the recovery process completes,
    every transaction that the log says is decided is committed on all segments that were
    asked to prepare it and is forgotten, the table is empty and sessions can start; if it
    fails, it can be run again. *)
Theorem recovery_completes s w s' w' l m c cleanup :
  recoverable (new_process s w) → rtc step (s, w) (s', w') → known w' → survives s' l → fits c l →
  xwp (StartupXLOG c)
    (λ _ q, nextGxid s' + GxidCount s' ≤ nextGxid (sv q) ∧
       xwp (DtxRecovery_start hash_seq cleanup)
         (λ _ r, serving (sv r) = (true, []) ∧
            ∀ g, decided (xlog (sv r)) g → forgotten (xlog (sv r)) g ∧
              ∀ seg, may (env r) seg (dtxFormGid g) DidPrepare → happened (env r) seg (dtxFormGid g) DidCommit)
         (λ _ _ r, recoverable r ∧ tabled (sv r)) (new_process (sv q) (env q)))
    (λ lv msg _, lv = FATAL ∧ msg = "the limit of distributed transactions has been reached" ∧
       overflow (list_to_set (ckpt_committed c)) (drop (Z.to_nat (ckpt_redo c)) l))
    (new_process (crashed l m) w').
Proof.
  intros Hr Hrun Hk Hsu Hf. pose proof (run_recoverable _ _ Hrun Hr) as Hr'. cbn in Hr'.
  eapply xwp_mono; [by apply (StartupXLOG_ready (new_process s' w') c l m Hr')| |by intros].
  intros [] q (Hq & Ht & Hst & He & Hx & Hn). split; [done|].
  eapply xwp_mono; [eapply DtxRecovery_start_spec, new_process_recovering| |by intros].
  - done.
  - by apply (recoverable_same q).
  - done.
  - done.
  - rewrite He. intros seg gid Hm. by eapply Hk.
  - intros [] r [_ Ha Hs Hfg Hco]. split; [unfold serving; congruence|]. intros g Hd. split; [auto|]. by apply Hco.
Qed.
End lifetime.

(** ** A life *)

#[export] Instance world_view : PreparedView world.
Proof.
  split; [done|]. intros n info segs w lost w1 lost' rs w2 gid Hsend Hwait Hin.
  pose proof (acted_send (QueryCommand (in_doubt_query n) info) segs w) as Hsub.
  assert (acted w1 ⊆ sent w ++ [(QueryCommand (in_doubt_query n) info, segs)]) as Hsent.
  { pose proof (acted_sent w1) as Hs. cbn in Hsend. by injection Hsend as _ <-. }
  rewrite Hsend in Hsub. cbn [snd] in Hsub. cbn in Hsend. injection Hsend as _ <-. cbn in Hwait.
  rewrite last_snoc in Hwait. destruct (last_lost _); [done|]. injection Hwait as <- _ _.
  apply list_elem_of_In, in_concat in Hin as (rows & Hr & Hg%list_elem_of_In).
  apply in_map_iff in Hr as (res & <- & (s & -> & _)%list_elem_of_In%list_elem_of_fmap). cbn in Hg.
  apply list_elem_of_filter in Hg as [(Hp & Hc & _) _]. exists s. split.
  - apply (caused_mono _ _ _ _ _ Hsent), caused_spec in Hp as (m & segs' & Hin & Hs & He). apply caused_spec.
    apply elem_of_app in Hin as [Hin|[= -> ->]%list_elem_of_singleton]; [by exists m, segs'|]. cbn in He. set_solver.
  - intros Hh. apply (caused_mono _ _ _ _ _ Hsub) in Hh. enough (true = false) by done. rewrite <- Hh. exact Hc.
Qed.

#[local] Existing Instance coordinator.
#[local] Existing Instance coordinator_ok.

(** The segments are lost after they have prepared: the decision is on disk and the second
    phase fails, so the server goes down; the segments come back, and the server starts
    again.  The commands that were lost stay lost. *)
Definition losing_world : world := mkWorld 0 [] None 5 1000.
Definition went_down : proc world := (serve_messages example_session (new_process fresh_server losing_world)).2.
Definition come_back (w : world) : world :=
  mkWorld (clock w) (sent w) (fail_on w) (lost_from w) (length (sent w)).
Definition back_again : world := come_back (env went_down).
Definition restarted_server : proc world :=
  (StartupXLOG (first_checkpoint 3) (new_process (crashed (xlog (sv went_down)) ∅) back_again)).2.
Definition after_recovery : proc world :=
  (DtxRecovery_start id true (new_process (sv restarted_server) (env restarted_server))).2.
Definition next_session : proc world :=
  (serve_messages example_session (new_process (sv after_recovery) (env after_recovery))).2.

Example life_outcomes :
  (serve_messages example_session (new_process fresh_server losing_world)).1 =
    Raised PANIC "unable to complete 'Commit Prepared' broadcast" ∧
  (StartupXLOG (first_checkpoint 3) (new_process (crashed (xlog (sv went_down)) ∅) back_again)).1 = Done tt ∧
  CommittedGxidArray (sv restarted_server) = [1] ∧
  (DtxRecovery_start id true (new_process (sv restarted_server) (env restarted_server))).1 = Done tt ∧
  caused (acted (env restarted_server)) 0 "1" DidCommit = false ∧
  caused (acted (env after_recovery)) 0 "1" DidCommit = true ∧
  caused (acted (env after_recovery)) 1 "1" DidCommit = true ∧
  (serve_messages example_session (new_process (sv after_recovery) (env after_recovery))).1 = Done tt ∧
  caused (acted (env next_session)) 1 "8193" DidCommit = true.
Proof. vm_compute. split_and!; reflexivity. Qed.

Lemma losing_recoverable : recoverable (new_process fresh_server losing_world).
Proof.
  destruct (dtm_ok_recoverable (fresh_proc quiet_world)) as [[] ? ? ? ? ?]; [by split; [..|apply fresh_proto]|].
  by split; [split|..].
Qed.

Lemma accepts_intro s :
  serving s = (true, []) → all_forgotten s → bool_decide (map_Forall (λ i _, i < nextXid s) (clog s)) = true → accepts s.
Proof.
  intros Hs Ha Hc%bool_decide_eq_true. split_and!; [done|done|]. intros i st Hi. by apply (Hc i st).
Qed.
Lemma fresh_accepts : accepts fresh_server.
Proof. apply accepts_intro; [done| |done]. by intros g ?%fresh_undecided. Qed.

Lemma example_session_ok : Forall (Forall statement_ok) example_session.
Proof. apply Forall_cons. split; [apply example_message_ok|]. by repeat constructor. Qed.

Lemma known_intro w :
  forallb (λ x, bool_decide (x.2 = [0; 1])) (sent w) = true → known w.
Proof.
  intros Hf seg gid (m & segs & Hin & Hs & _)%caused_spec. cbn. rewrite forallb_forall in Hf.
  apply list_elem_of_In, Hf, bool_decide_eq_true in Hin. cbn in Hin. by subst segs.
Qed.

Lemma come_back_evolves w : (length (sent w) <=? lost_to w)%nat = true → evolves w (come_back w).
Proof.
  intros Hl%Nat.leb_le. split; [done|]. intros s gid e. apply caused_mono.
  intros x [Hx|Hx]%elem_of_app; apply elem_of_app; [by left|]. rewrite drop_ge in Hx by lia. set_solver.
Qed.
Lemma back_evolves : evolves (env went_down) back_again.
Proof. apply come_back_evolves. vm_compute. reflexivity. Qed.

#[local] Notation example_step := (step id (λ _, []) 0).

Lemma run_eq {A} (m : X (proc world) A) p o : (m p).1 = o → m p = (o, (m p).2).
Proof. intros <-. apply surjective_pairing. Qed.

Lemma down_eq :
  serve_messages example_session (new_process fresh_server losing_world) =
  (Raised PANIC "unable to complete 'Commit Prepared' broadcast", went_down).
Proof. unfold went_down. apply run_eq. vm_compute. reflexivity. Qed.
Lemma restart_eq :
  StartupXLOG (first_checkpoint 3) (new_process (crashed (xlog (sv went_down)) ∅) back_again) = (Done tt, restarted_server).
Proof. unfold restarted_server. apply run_eq. vm_compute. reflexivity. Qed.
Lemma recovery_eq :
  DtxRecovery_start id true (new_process (sv restarted_server) (env restarted_server)) = (Done tt, after_recovery).
Proof. unfold after_recovery. apply run_eq. vm_compute. reflexivity. Qed.
Lemma next_eq :
  serve_messages example_session (new_process (sv after_recovery) (env after_recovery)) = (Done tt, next_session).
Proof. unfold next_session. apply run_eq. vm_compute. reflexivity. Qed.
Lemma restarted_known : DtmStarted (sv restarted_server) = false ∧ known (env restarted_server).
Proof. split; [vm_compute; reflexivity|]. apply known_intro. vm_compute. reflexivity. Qed.
Lemma back_known : known back_again.
Proof. apply known_intro. vm_compute. reflexivity. Qed.
Lemma recovered_serving :
  serving (sv after_recovery) = (true, []) ∧
  bool_decide (map_Forall (λ i _, i < nextXid (sv after_recovery)) (clog (sv after_recovery))) = true.
Proof. split; vm_compute; reflexivity. Qed.
#[local] Opaque went_down back_again restarted_server after_recovery next_session.

Lemma example_down : rtc example_step (fresh_server, losing_world) (sv went_down, back_again).
Proof.
  eapply (rtc_l _ _ (sv went_down, env went_down)); [|apply rtc_once, step_segments, back_evolves].
  eapply step_session; [apply fresh_accepts|apply example_session_ok|apply down_eq].
Qed.
Lemma example_ready : tabled (sv restarted_server) ∧ recoverable restarted_server.
Proof.
  apply (restart_ready (sv went_down) back_again (xlog (sv went_down)) ∅ (first_checkpoint 3));
    [|apply survives_whole|apply first_fits|apply restart_eq].
  apply (run_recoverable id (λ _, reflexivity _) (λ _, []) 0 _ _ example_down), losing_recoverable.
Qed.
Lemma example_recovered : all_forgotten (sv after_recovery).
Proof.
  destruct example_ready as [Ht Hr], restarted_known as [Hst Hk].
  assert (recoverable (new_process (sv restarted_server) (env restarted_server))) as Hr' by (by apply (recoverable_same restarted_server)).
  pose proof (new_process_recovering _ _ Hr' Hst Ht Hk) as Hp.
  apply (DtxRecovery_start_spec id (λ _, reflexivity _) true) in Hp. unfold xwp in Hp. rewrite recovery_eq in Hp.
  intros g. apply Hp.
Qed.

(** down, up again, recovered, and the next session *)
Lemma example_life : rtc example_step (fresh_server, losing_world) (sv next_session, env next_session).
Proof.
  etrans; [apply example_down|]. destruct example_ready as [Ht _], restarted_known as [Hst Hk], recovered_serving as [Hsv Hc].
  eapply rtc_l; [eapply step_crash; [apply survives_whole|apply (first_fits 3)|apply restart_eq]|].
  eapply rtc_l; [eapply step_recovery; [done..|apply recovery_eq]|].
  apply rtc_once. eapply step_session; [|apply example_session_ok|apply next_eq].
  apply accepts_intro; [done|apply example_recovered|done].
Qed.


Lemma recovery_completes_witness :
  xwp (StartupXLOG (first_checkpoint 3))
    (λ _ q, nextGxid (sv went_down) + GxidCount (sv went_down) ≤ nextGxid (sv q) ∧
       xwp (DtxRecovery_start id true)
         (λ _ r, serving (sv r) = (true, []) ∧
            ∀ g, decided (xlog (sv r)) g → forgotten (xlog (sv r)) g ∧
              ∀ seg, may (env r) seg (dtxFormGid g) DidPrepare → happened (env r) seg (dtxFormGid g) DidCommit)
         (λ _ _ r, recoverable r ∧ tabled (sv r)) (new_process (sv q) (env q)))
    (λ lv msg _, lv = FATAL ∧ msg = "the limit of distributed transactions has been reached" ∧
       overflow (list_to_set (ckpt_committed (first_checkpoint 3)))
         (drop (Z.to_nat (ckpt_redo (first_checkpoint 3))) (xlog (sv went_down))))
    (new_process (crashed (xlog (sv went_down)) ∅) back_again).
Proof.
  apply (recovery_completes id (λ _, reflexivity _) (λ _, []) 0 fresh_server losing_world (sv went_down) back_again);
    [apply losing_recoverable|apply example_down|apply back_known|apply survives_whole|apply first_fits].
Defined.

Lemma sessions_settle_witness :
  xwp (serve_messages example_session)
    (λ _ q, accepts (sv q) ∧
       ∀ g, decided (xlog (sv q)) g → forgotten (xlog (sv q)) g ∧
         ∀ seg, may (env q) seg (dtxFormGid g) DidPrepare → happened (env q) seg (dtxFormGid g) DidCommit)
    (λ lv msg q, recoverable q ∧ (lv = FATAL ∨ lv = PANIC)) (fresh_proc quiet_world).
Proof. apply (sessions_settle ∅ example_session); [apply fresh_idle|apply example_session_ok]. Defined.

(** a table of two, of which one is forgotten *)
Definition example_log : list XLogRecord :=
  [XLOG_NEXTGXID 100; XLOG_XACT_DISTRIBUTED_COMMIT 5 [6] 1; XLOG_XACT_DISTRIBUTED_COMMIT 7 [] 2;
   XLOG_XACT_DISTRIBUTED_FORGET 1; XLOG_XACT_ABORT 8 []].

Lemma redo_rebuilds_table_witness :
  let p := new_process (crashed example_log ∅) quiet_world in
  let l := drop (Z.to_nat (ckpt_redo (first_checkpoint 3))) (xlog (sv p)) in
  xwp (StartupXLOG (first_checkpoint 3))
    (λ _ q, NoDup (CommittedGxidArray (sv q)) ∧
       (∀ g, g ∈ CommittedGxidArray (sv q) ↔
          (g ∈ ckpt_committed (first_checkpoint 3) ∧ ¬ forgotten l g) ∨
          ∃ l1 l2 x subs, l = l1 ++ XLOG_XACT_DISTRIBUTED_COMMIT x subs g :: l2 ∧ ¬ forgotten l2 g) ∧
       nextGxid (sv q) = foldl redo_gxid (ckpt_nextGxid (first_checkpoint 3)) l ∧ GxidCount (sv q) = 0 ∧
       xlog (sv q) = xlog (sv p) ∧ xlog_flushed (sv q) = xlog_flushed (sv p))
    (λ lv msg _, lv = FATAL ∧ msg = "the limit of distributed transactions has been reached" ∧
       overflow (list_to_set (ckpt_committed (first_checkpoint 3))) l) p.
Proof. apply (redo_rebuilds_table (first_checkpoint 3)). by split_and!; [..|repeat constructor]. Defined.

Example redo_example :
  let q := (StartupXLOG (first_checkpoint 3) (new_process (crashed example_log ∅) quiet_world)).2 in
  CommittedGxidArray (sv q) = [2] ∧ nextGxid (sv q) = 100 ∧ nextXid (sv q) = 9.
Proof. vm_compute. split_and!; reflexivity. Qed.
