(* ===== verification/DtxCheckpoint.v ===== *)
(** * Checkpoints of the coordinator

    A checkpoint runs while sessions commit: it fixes the redo pointer, waits for the
    commits that are under way, collects the distributed transactions whose second phase
    is not over, and writes its record much later.  The steps of the committing sessions
    (RecordTransactionCommit of [src/backend/access/transam/xact.c],
    [src/backend/cdb/cdbtm.c]), of the process that recovers, of the assignment of
    identifiers and of the checkpointer (CreateCheckPoint of [xlog.c],
    getDtxCheckPointInfo of [src/backend/storage/ipc/procarray.c]) are interleaved in
    [ckpt_step].  Every checkpoint fits every log that a later crash can leave. *)
From S2P Require Import Prelude CLib BitUtils Bitmapset Elog Dtm DtxInfo CdbTm TwoPhase Xact DtxRecovery Protocol RecoveryFacts Lifetime.

(** ** The shared state *)

(** where a session is on its way through a commit *)
Inductive commit_point :=
  | NoCommit
  | DelaySet
  | CommitInserted
  | IncludeSet
  | DelayCleared
  | ForgetInserted.

#[export] Instance commit_point_eq_dec : EqDecision commit_point.
Proof. solve_decision. Defined.

(** of an entry of the proc array: gxid and includeInCkpt of its TMGXACT, delayChkpt of its
    PGXACT, and the local part of its virtual transaction id *)
Record slot := mkSlot {
  slot_gxid : Z;
  slot_lxid : Z;
  slot_delayChkpt : bool;
  slot_includeInCkpt : bool;
  slot_at : commit_point }.

Inductive checkpointer :=
  | CkptNone
  | CkptRedo (redo : nat)
  | CkptInfo (redo : nat) (nextGxid : Z)
  | CkptVxids (redo : nat) (nextGxid : Z) (i : nat) (vxids : list (nat * Z))
  | CkptWait (redo : nat) (nextGxid : Z) (i : nat) (vxids : list (nat * Z))
  | CkptCopy (redo : nat) (nextGxid : Z) (i : nat) (gxid_array : list Z)
  | CkptScan (redo : nat) (nextGxid : Z) (i : nat) (gxid_array : list Z).

(** [c_bump] is the new limit while bumpGxid holds GxidBumpLock *)
Record shared := mkShared {
  c_log : list XLogRecord;
  c_flushed : nat;
  c_slots : list slot;
  c_table : list Z;
  c_nextGxid : Z;
  c_count : Z;
  c_bump : option Z;
  c_ckpt : checkpointer }.

Definition set_log (l : list XLogRecord) (s : shared) : shared :=
  mkShared l (c_flushed s) (c_slots s) (c_table s) (c_nextGxid s) (c_count s) (c_bump s) (c_ckpt s).
Definition set_ckpt (c : checkpointer) (s : shared) : shared :=
  mkShared (c_log s) (c_flushed s) (c_slots s) (c_table s) (c_nextGxid s) (c_count s) (c_bump s) c.
Definition set_slot (i : nat) (t : slot) (s : shared) : shared :=
  mkShared (c_log s) (c_flushed s) (<[i := t]> (c_slots s)) (c_table s) (c_nextGxid s) (c_count s) (c_bump s) (c_ckpt s).
Definition append (r : XLogRecord) (s : shared) : shared := set_log (c_log s ++ [r]) s.
Definition flush_log (s : shared) : shared :=
  mkShared (c_log s) (length (c_log s)) (c_slots s) (c_table s) (c_nextGxid s) (c_count s) (c_bump s) (c_ckpt s).

(** ** The steps *)

Definition holds_gxid (g : Z) (l : list slot) : bool :=
  existsb (λ t, negb (bool_decide (slot_at t = NoCommit)) && (slot_gxid t =? g)) l.

(** a session that commits *)
Inductive session_step (s : shared) : shared → Prop :=
  (** a prepared transaction enters its commit critical section: delayChkpt = true.  Its
      identifier is its own. *)
  | step_delay i t g lxid :
      c_slots s !! i = Some t → slot_at t = NoCommit → slot_lxid t < lxid →
      ¬ decided (c_log s) g → holds_gxid g (c_slots s) = false →
      session_step s (set_slot i (mkSlot g lxid true false DelaySet) s)
  (** XactLogCommitRecord *)
  | step_commit i t xid subs :
      c_slots s !! i = Some t → slot_at t = DelaySet →
      session_step s
        (append (XLOG_XACT_DISTRIBUTED_COMMIT xid subs (slot_gxid t))
          (set_slot i (mkSlot (slot_gxid t) (slot_lxid t) (slot_delayChkpt t) (slot_includeInCkpt t) CommitInserted) s))
  (** insertedDistributedCommitted: includeInCkpt = true *)
  | step_include i t :
      c_slots s !! i = Some t → slot_at t = CommitInserted →
      session_step s
        (set_slot i (mkSlot (slot_gxid t) (slot_lxid t) (slot_delayChkpt t) true IncludeSet) s)
  (** XLogFlush, and the end of the critical section: delayChkpt = false *)
  | step_end i t :
      c_slots s !! i = Some t → slot_at t = IncludeSet →
      session_step s
        (flush_log (set_slot i (mkSlot (slot_gxid t) (slot_lxid t) false (slot_includeInCkpt t) DelayCleared) s))
  (** doInsertForgetCommitted, the record: the segments have committed *)
  | step_forget i t :
      c_slots s !! i = Some t → slot_at t = DelayCleared →
      session_step s
        (append (XLOG_XACT_DISTRIBUTED_FORGET (slot_gxid t))
          (set_slot i (mkSlot (slot_gxid t) (slot_lxid t) (slot_delayChkpt t) (slot_includeInCkpt t) ForgetInserted) s))
  (** and includeInCkpt = false *)
  | step_exclude i t :
      c_slots s !! i = Some t → slot_at t = ForgetInserted →
      session_step s
        (set_slot i (mkSlot (slot_gxid t) (slot_lxid t) (slot_delayChkpt t) false NoCommit) s).

(** the recovery process, other writers of the log, the assignment of identifiers *)
Inductive system_step (prefetch : Z) (s : shared) : shared → Prop :=
  (** the recovery process: a transaction of the table is committed everywhere *)
  | step_recover g : g ∈ c_table s → system_step prefetch s (append (XLOG_XACT_DISTRIBUTED_FORGET g) s)
  | step_recovered :
      (∀ g, g ∈ c_table s → forgotten (c_log s) g) →
      system_step prefetch s
        (mkShared (c_log s) (c_flushed s) (c_slots s) [] (c_nextGxid s) (c_count s) (c_bump s) (c_ckpt s))
  (** other records, and flushes *)
  | step_other r : plain r → system_step prefetch s (append r s)
  | step_flush : system_step prefetch s (flush_log s)
  (** an identifier is taken *)
  | step_take :
      0 < c_count s →
      system_step prefetch s
        (mkShared (c_log s) (c_flushed s) (c_slots s) (c_table s) (c_nextGxid s + 1) (c_count s - 1) (c_bump s) (c_ckpt s))
  (** bumpGxid: XLogPutNextGxid, then the counter *)
  | step_bump :
      c_bump s = None →
      system_step prefetch s
        (let n := c_nextGxid s + (c_count s + prefetch) in
         flush_log (append (XLOG_NEXTGXID n)
           (mkShared (c_log s) (c_flushed s) (c_slots s) (c_table s) (c_nextGxid s) (c_count s) (Some n) (c_ckpt s))))
  | step_bumped n :
      c_bump s = Some n →
      system_step prefetch s
        (mkShared (c_log s) (c_flushed s) (c_slots s) (c_table s) (c_nextGxid s) (c_count s + prefetch) None (c_ckpt s)).

(** the checkpointer *)
Inductive checkpointer_step (s : shared) : shared → Prop :=
  (** CreateCheckPoint: the redo pointer, *)
  | step_redo : c_ckpt s = CkptNone → checkpointer_step s (set_ckpt (CkptRedo (length (c_log s))) s)
  (** the next identifier, with GxidBumpLock, *)
  | step_info redo :
      c_ckpt s = CkptRedo redo → c_bump s = None →
      checkpointer_step s (set_ckpt (CkptInfo redo (c_nextGxid s + c_count s)) s)
  (** the commits under way (GetVirtualXIDsDelayingChkpt), *)
  | step_vxids redo n :
      c_ckpt s = CkptInfo redo n → checkpointer_step s (set_ckpt (CkptVxids redo n 0 []) s)
  | step_vxid redo n i vs t :
      c_ckpt s = CkptVxids redo n i vs → c_slots s !! i = Some t →
      checkpointer_step s
        (set_ckpt (CkptVxids redo n (S i) (if slot_delayChkpt t then vs ++ [(i, slot_lxid t)] else vs)) s)
  | step_wait redo n i vs :
      c_ckpt s = CkptVxids redo n i vs → c_slots s !! i = None →
      checkpointer_step s (set_ckpt (CkptWait redo n 0 vs) s)
  (** and their end: a pass of HaveVirtualXIDsDelayingChkpt starts again at the first
      that still delays *)
  | step_pass redo n i vs t :
      c_ckpt s = CkptWait redo n i vs → c_slots s !! i = Some t →
      checkpointer_step s
        (set_ckpt (CkptWait redo n (if slot_delayChkpt t && bool_decide ((i, slot_lxid t) ∈ vs) then 0 else S i) vs) s)
  | step_waited redo n i vs :
      c_ckpt s = CkptWait redo n i vs → c_slots s !! i = None →
      checkpointer_step s (set_ckpt (CkptCopy redo n 0 []) s)
  (** getDtxCheckPointInfo: the table of committed transactions, *)
  | step_copy redo n i a g :
      c_ckpt s = CkptCopy redo n i a → c_table s !! i = Some g →
      checkpointer_step s (set_ckpt (CkptCopy redo n (S i) (a ++ [g])) s)
  | step_copied redo n i a :
      c_ckpt s = CkptCopy redo n i a → c_table s !! i = None →
      checkpointer_step s (set_ckpt (CkptScan redo n 0 a) s)
  (** and the proc array *)
  | step_scan redo n i a t :
      c_ckpt s = CkptScan redo n i a → c_slots s !! i = Some t →
      checkpointer_step s
        (set_ckpt (CkptScan redo n (S i) (if slot_includeInCkpt t then a ++ [slot_gxid t] else a)) s)
  (** the record of the checkpoint, flushed *)
  | step_record redo n i a nextXid :
      c_ckpt s = CkptScan redo n i a → c_slots s !! i = None →
      checkpointer_step s
        (set_ckpt CkptNone
          (flush_log (append (XLOG_CHECKPOINT (mkCheckPoint false (Z.of_nat redo) nextXid n a)) s))).

Definition ckpt_step (prefetch : Z) (s s' : shared) : Prop :=
  session_step s s' ∨ system_step prefetch s s' ∨ checkpointer_step s s'.

(** ** The invariant *)

(** the checkpoint [c], whose record follows the log [l], is right about [l] *)
Record ckpt_right (c : CheckPoint) (l : list XLogRecord) : Prop := {
  right_redo : (Z.to_nat (ckpt_redo c) ≤ length l)%nat;
  right_pending g :
    decided (take (Z.to_nat (ckpt_redo c)) l) g → g ∈ ckpt_committed c ∨ forgotten l g;
  right_decided g : g ∈ ckpt_committed c → decided l g;
  right_gxid : foldl redo_gxid (ckpt_nextGxid c) (drop (Z.to_nat (ckpt_redo c)) l) = gxid_after l }.

Lemma decided_app l l' g : decided (l ++ l') g ↔ decided l g ∨ decided l' g.
Proof. unfold decided. set_solver. Qed.
Lemma forgotten_app l l' g : forgotten (l ++ l') g ↔ forgotten l g ∨ forgotten l' g.
Proof. unfold forgotten. set_solver. Qed.

(** the log that a crash leaves starts with the records before the checkpoint's and its own *)
Lemma ckpt_right_fits c l l' : ckpt_right c l → fits c (l ++ l').
Proof.
  intros [Hr Hp Hd Hg]. rewrite <- (take_drop (Z.to_nat (ckpt_redo c)) l) in Hp, Hd. split.
  - intros g Hdec Hf. rewrite forgotten_app in Hf. rewrite drop_app_le by done.
    rewrite <- (take_drop (Z.to_nat (ckpt_redo c)) l), <- app_assoc, decided_app in Hdec.
    assert (¬ forgotten (drop (Z.to_nat (ckpt_redo c)) l ++ l') g) as Hf'.
    { rewrite forgotten_app. intros [H|H]; apply Hf; [left|by right].
      rewrite <- (take_drop (Z.to_nat (ckpt_redo c)) l). apply forgotten_app. by right. }
    destruct Hdec as [He|?]; [|by apply decided_pending]. destruct (Hp g) as [Hin|?].
    { rewrite take_app_le, take_take, Nat.min_id by (rewrite length_take; lia). done. }
    + apply pending_stays; [by apply elem_of_list_to_set|done].
    + destruct Hf. left. by rewrite take_drop in H.
  - intros g [Hin%elem_of_list_to_set|Hin]%pending_decided; apply decided_app.
    + apply Hd in Hin. rewrite take_drop in Hin. by left.
    + rewrite drop_app_le in Hin by done. apply decided_app in Hin as [H|?]; [left|by right].
      rewrite <- (take_drop (Z.to_nat (ckpt_redo c)) l). apply decided_app. by right.
  - rewrite drop_app_le, foldl_app, Hg by done. unfold gxid_after. by rewrite foldl_app.
Qed.

(** a session whose commit record is in the log, and the record's session that has not
    left its critical section *)
Definition inserted (t : slot) : bool :=
  match slot_at t with NoCommit | DelaySet => false | _ => true end.
Definition inside (t : slot) : bool :=
  match slot_at t with CommitInserted | IncludeSet => true | _ => false end.

Definition flags_of (a : commit_point) : bool * bool :=
  match a with
  | NoCommit => (false, false)
  | DelaySet | CommitInserted => (true, false)
  | IncludeSet => (true, true)
  | DelayCleared | ForgetInserted => (false, true)
  end.

Record slot_ok (l : list XLogRecord) (t : slot) : Prop := {
  so_flags : (slot_delayChkpt t, slot_includeInCkpt t) = flags_of (slot_at t);
  so_commit : inserted t = true → decided l (slot_gxid t);
  so_fresh : slot_at t = DelaySet → ¬ decided l (slot_gxid t);
  so_forget : slot_at t = ForgetInserted → forgotten l (slot_gxid t) }.

(** the commits before the redo pointer that the checkpointer may still miss: none but
    those of the slots [P] *)
Definition early_in (s : shared) (redo : nat) (P : nat → slot → Prop) : Prop :=
  ∀ i t, c_slots s !! i = Some t → inside t = true → decided (take redo (c_log s)) (slot_gxid t) → P i t.

(** a commit before the redo pointer is collected, or over, or still to be met: in the
    table at [i] or later, or in the proc array at [j] or later *)
Definition collected (s : shared) (redo i j : nat) (a : list Z) : Prop :=
  (∀ g, decided (take redo (c_log s)) g →
     forgotten (c_log s) g ∨ g ∈ a ∨ (∃ k, (i ≤ k)%nat ∧ c_table s !! k = Some g) ∨
     ∃ k t, (j ≤ k)%nat ∧ c_slots s !! k = Some t ∧ slot_includeInCkpt t = true ∧ inserted t = true ∧ slot_gxid t = g) ∧
  (∀ g, g ∈ a → decided (c_log s) g).

Definition limit_ok (s : shared) (redo : nat) (n : Z) : Prop :=
  (redo ≤ length (c_log s))%nat ∧ foldl redo_gxid n (drop redo (c_log s)) = gxid_after (c_log s).

Definition checkpointer_ok (s : shared) : Prop :=
  match c_ckpt s with
  | CkptNone => True
  | CkptRedo redo => (redo ≤ length (c_log s))%nat
  | CkptInfo redo n => limit_ok s redo n
  | CkptVxids redo n i vs => limit_ok s redo n ∧ early_in s redo (λ k t, (i ≤ k)%nat ∨ (k, slot_lxid t) ∈ vs)
  | CkptWait redo n i vs =>
      limit_ok s redo n ∧ early_in s redo (λ k t, (i ≤ k)%nat ∧ (k, slot_lxid t) ∈ vs)
  | CkptCopy redo n i a => limit_ok s redo n ∧ early_in s redo (λ _ _, False) ∧ collected s redo i 0 a
  | CkptScan redo n j a =>
      limit_ok s redo n ∧ early_in s redo (λ _ _, False) ∧ collected s redo (length (c_table s)) j a
  end.

(** no two sessions commit the same transaction *)
Definition own_gxids (l : list slot) : Prop :=
  ∀ i j t u, l !! i = Some t → l !! j = Some u → slot_at t ≠ NoCommit → slot_at u ≠ NoCommit →
    slot_gxid t = slot_gxid u → i = j.
(** the limit that is in the log *)
Definition limit_right (prefetch : Z) (s : shared) : Prop :=
  c_nextGxid s + c_count s + (if c_bump s then prefetch else 0) = gxid_after (c_log s).

Record ckpt_ok (prefetch : Z) (s : shared) : Prop := {
  co_slots i t : c_slots s !! i = Some t → slot_ok (c_log s) t;
  co_own : own_gxids (c_slots s);
  co_covered g : decided (c_log s) g →
    forgotten (c_log s) g ∨ g ∈ c_table s ∨
    ∃ k t, c_slots s !! k = Some t ∧ inserted t = true ∧ slot_gxid t = g;
  co_table g : g ∈ c_table s → decided (c_log s) g;
  co_limit : limit_right prefetch s;
  co_records k c : c_log s !! k = Some (XLOG_CHECKPOINT c) → ckpt_right c (take k (c_log s));
  co_ckpt : checkpointer_ok s }.

(** ** What the steps of the sessions keep *)

(** a step of the sessions: the log grows by [ext], sessions move on *)
Record moves (s s' : shared) (ext : list XLogRecord) : Prop := {
  mv_log : c_log s' = c_log s ++ ext;
  mv_ckpt : c_ckpt s' = c_ckpt s;
  mv_records k c : ext !! k = Some (XLOG_CHECKPOINT c) → k = 0%nat ∧ ckpt_right c (c_log s);
  mv_table : c_table s' = c_table s ∨ (c_table s' = [] ∧ ∀ g, g ∈ c_table s → forgotten (c_log s) g);
  mv_decided g : decided ext g → ∃ k t, c_slots s' !! k = Some t ∧ inserted t = true ∧ slot_gxid t = g;
  mv_back k t' : c_slots s' !! k = Some t' →
    slot_ok (c_log s') t' ∧
    (inside t' = true →
       (∃ t, c_slots s !! k = Some t ∧ inside t = true ∧ slot_gxid t' = slot_gxid t ∧ slot_lxid t' = slot_lxid t) ∨
       ¬ decided (c_log s) (slot_gxid t'));
  mv_forth k t : c_slots s !! k = Some t → inserted t = true →
    forgotten (c_log s') (slot_gxid t) ∨
    ∃ t', c_slots s' !! k = Some t' ∧ inserted t' = true ∧ slot_gxid t' = slot_gxid t ∧
          (slot_includeInCkpt t = true → slot_includeInCkpt t' = true) }.

Lemma decided_take_app r l l' g : (r ≤ length l)%nat → decided (take r (l ++ l')) g ↔ decided (take r l) g.
Proof. intros ?. by rewrite take_app_le. Qed.
Lemma decided_take r l g : decided (take r l) g → decided l g.
Proof. intros H. rewrite <- (take_drop r l). apply decided_app. by left. Qed.

Lemma moves_limit s s' ext redo n : moves s s' ext → limit_ok s redo n → limit_ok s' redo n.
Proof.
  intros Hm [Hr Hn]. unfold limit_ok. rewrite (mv_log _ _ _ Hm), length_app, drop_app_le, foldl_app, Hn by done.
  split; [lia|]. unfold gxid_after. by rewrite foldl_app.
Qed.

Lemma moves_early s s' ext redo (P : nat → slot → Prop) :
  moves s s' ext → (redo ≤ length (c_log s))%nat →
  (∀ k t t', slot_lxid t' = slot_lxid t → P k t → P k t') → early_in s redo P → early_in s' redo P.
Proof.
  intros Hm Hr HP He k t' Hk Hi Hd. rewrite (mv_log _ _ _ Hm), decided_take_app in Hd by done.
  destruct (mv_back _ _ _ Hm _ _ Hk) as [_ Hb]. destruct (Hb Hi) as [(t & Ht & Hin & Hg & Hl)|Hn].
  - apply (HP k t); [done|]. apply He; [done|done|]. by rewrite <- Hg.
  - by apply decided_take in Hd.
Qed.

Lemma moves_collected s s' ext redo i i' j a :
  moves s s' ext → (redo ≤ length (c_log s))%nat →
  (∀ k g, (i ≤ k)%nat → c_table s !! k = Some g → c_table s' = c_table s → (i' ≤ k)%nat) →
  collected s redo i j a → collected s' redo i' j a.
Proof.
  intros Hm Hr Hi [Hc Ha]. split.
  - intros g Hd. rewrite (mv_log _ _ _ Hm), decided_take_app in Hd by done.
    assert (∀ g, forgotten (c_log s) g → forgotten (c_log s') g) as Hf.
    { intros g'. rewrite (mv_log _ _ _ Hm), forgotten_app. by left. }
    destruct (Hc g Hd) as [?|[?|[(k & Hk & Hg)|(k & t & Hj & Hk & Hin & Hins & <-)]]]; [by left; auto|by right; left| |].
    + destruct (mv_table _ _ _ Hm) as [He|[_ Hall]].
      * right; right; left. exists k. rewrite He. eauto.
      * left. apply Hf, Hall. by eapply list_elem_of_lookup_2.
    + destruct (mv_forth _ _ _ Hm _ _ Hk Hins) as [?|(t' & ? & ? & ? & ?)]; [by left|].
      right; right; right. exists k, t'. auto.
  - intros g Hg. rewrite (mv_log _ _ _ Hm). apply decided_app. left. auto.
Qed.

Lemma moves_checkpointer s s' ext : moves s s' ext → checkpointer_ok s → checkpointer_ok s'.
Proof.
  intros Hm. unfold checkpointer_ok. rewrite (mv_ckpt _ _ _ Hm). destruct (c_ckpt s) as [|r|r n|r n i vs|r n i vs|r n i a|r n j a]; [done| | | | | |].
  - rewrite (mv_log _ _ _ Hm), length_app. lia.
  - by apply moves_limit with (ext := ext).
  - intros [Hl He]. split; [by eapply moves_limit|]. eapply moves_early; [done|apply Hl| |done].
    intros k t t' ->. done.
  - intros [Hl He]. split; [by eapply moves_limit|]. eapply moves_early; [done|apply Hl| |done].
    intros k t t' ->. done.
  - intros (Hl & He & Hc). split_and!; [by eapply moves_limit|by eapply moves_early; [done|apply Hl| |]|].
    eapply moves_collected; [done|apply Hl| |done]. done.
  - intros (Hl & He & Hc). split_and!; [by eapply moves_limit|by eapply moves_early; [done|apply Hl| |]|].
    eapply moves_collected; [done|apply Hl| |done]. intros k g Hle Hk%lookup_lt_Some _. lia.
Qed.

Lemma moves_ok prefetch s s' ext :
  moves s s' ext → own_gxids (c_slots s') → limit_right prefetch s' → ckpt_ok prefetch s → ckpt_ok prefetch s'.
Proof.
  intros Hm Hown Hlim H. assert (c_log s' = c_log s ++ ext) as Hlog by apply Hm. split.
  - intros k t' Hk. by destruct (mv_back _ _ _ Hm _ _ Hk).
  - done.
  - intros g Hd. rewrite Hlog in Hd. apply decided_app in Hd as [Hd|Hd]; [|right; right; by apply (mv_decided _ _ _ Hm)].
    assert (∀ g, forgotten (c_log s) g → forgotten (c_log s') g) as Hf.
    { intros g'. rewrite Hlog, forgotten_app. by left. }
    destruct (co_covered _ _ H g Hd) as [?|[Ht|(k & t & Hk & Hi & <-)]]; [by left; auto| |].
    + destruct (mv_table _ _ _ Hm) as [->|[_ Hall]]; [by right; left|left; auto].
    + destruct (mv_forth _ _ _ Hm _ _ Hk Hi) as [?|(t' & ? & ? & ? & _)]; [by left|]. right; right. eauto.
  - intros g Hg. rewrite Hlog. apply decided_app. left. apply (co_table _ _ H).
    destruct (mv_table _ _ _ Hm) as [He|[He _]]; rewrite He in Hg; [done|by apply not_elem_of_nil in Hg].
  - done.
  - intros k c Hk. rewrite Hlog in *. apply lookup_app_Some in Hk as [Hk|[Hle Hk]].
    + rewrite take_app_le by (apply lookup_lt_Some in Hk; lia). by apply (co_records _ _ H).
    + apply (mv_records _ _ _ Hm) in Hk as [? ?]. replace k with (length (c_log s)) by lia. by rewrite take_app_length.
  - eapply moves_checkpointer; [done|]. by apply (co_ckpt _ _ H).
Qed.

(** a step that moves no session *)
Lemma moves_none s s' ext :
  c_log s' = c_log s ++ ext → c_ckpt s' = c_ckpt s → c_slots s' = c_slots s →
  (c_table s' = c_table s ∨ (c_table s' = [] ∧ ∀ g, g ∈ c_table s → forgotten (c_log s) g)) →
  (∀ k c, ext !! k = Some (XLOG_CHECKPOINT c) → k = 0%nat ∧ ckpt_right c (c_log s)) →
  (∀ g, ¬ decided ext g) → (∀ i t, c_slots s !! i = Some t → slot_ok (c_log s) t) → moves s s' ext.
Proof.
  intros Hl Hc Hs Ht Hr Hd Hok. split; try done.
  - intros g Hg. by apply Hd in Hg.
  - intros k t Hk. rewrite Hs in Hk. destruct (Hok _ _ Hk) as [? Hco Hfr Hfo]. split; [|by left; exists t].
    rewrite Hl. split; [done|intros; apply decided_app; left; auto| |intros; apply forgotten_app; left; auto].
    intros Ha [?|Hg]%decided_app; [by apply Hfr|by apply Hd in Hg].
  - intros k t Hk Hi. right. exists t. by rewrite Hs.
Qed.

(** a step of one session *)
Lemma moves_one s s' ext i t t' :
  c_log s' = c_log s ++ ext → c_ckpt s' = c_ckpt s → c_slots s !! i = Some t → c_slots s' = <[i := t']> (c_slots s) →
  c_table s' = c_table s → (∀ k c, ext !! k ≠ Some (XLOG_CHECKPOINT c)) →
  (∀ i t, c_slots s !! i = Some t → slot_ok (c_log s) t) →
  slot_ok (c_log s') t' →
  (∀ g, decided ext g → g = slot_gxid t' ∧ inserted t' = true) →
  (∀ k u, c_slots s !! k = Some u → k ≠ i → slot_at u = DelaySet → ¬ decided ext (slot_gxid u)) →
  (inside t' = true → (inside t = true ∧ slot_gxid t' = slot_gxid t ∧ slot_lxid t' = slot_lxid t) ∨
     ¬ decided (c_log s) (slot_gxid t')) →
  (inserted t = true → forgotten (c_log s') (slot_gxid t) ∨
     (inserted t' = true ∧ slot_gxid t' = slot_gxid t ∧ (slot_includeInCkpt t = true → slot_includeInCkpt t' = true))) →
  moves s s' ext.
Proof.
  intros Hl Hc Hi Hs Ht Hr Hok Ht' Hd Hfresh Hin Hins. assert (c_slots s' !! i = Some t') as Hi'.
  { rewrite Hs. apply list_lookup_insert_eq. by eapply lookup_lt_Some. }
  split; try done.
  - intros k c Hk. by apply Hr in Hk.
  - by left.
  - intros g Hg. exists i, t'. apply Hd in Hg as [-> ?]. done.
  - intros k u Hk. destruct (decide (k = i)) as [->|Hne].
    + assert (u = t') as -> by congruence. split; [done|]. intros Hu. destruct (Hin Hu) as [?|?]; [left; exists t|right]; done.
    + rewrite Hs, list_lookup_insert_ne in Hk by done. destruct (Hok _ _ Hk) as [? Hco Hfr Hfo].
      split; [|by left; exists u]. rewrite Hl.
      split; [done|intros; apply decided_app; left; auto| |intros; apply forgotten_app; left; auto].
      intros Ha [?|Hg]%decided_app; [by apply Hfr|by eapply Hfresh].
  - intros k u Hk Hu. destruct (decide (k = i)) as [->|Hne].
    + assert (u = t) as -> by congruence. destruct (Hins Hu) as [?|?]; [by left|right; exists t'; done].
    + right. exists u. by rewrite Hs, list_lookup_insert_ne.
Qed.

(** sessions keep their identifiers apart *)
Lemma own_insert l i t t' :
  own_gxids l → l !! i = Some t →
  (slot_at t' ≠ NoCommit → (slot_gxid t' = slot_gxid t ∧ slot_at t ≠ NoCommit) ∨ holds_gxid (slot_gxid t') l = false) →
  own_gxids (<[i := t']> l).
Proof.
  intros Hown Hi Ht'.
  assert (∀ k u, l !! k = Some u → k ≠ i → slot_at u ≠ NoCommit → slot_at t' ≠ NoCommit → slot_gxid u ≠ slot_gxid t') as Hne.
  { intros k u Hk Hki Hu Hat He. destruct (Ht' Hat) as [[Hg Ha]|Hh].
    - apply Hki. apply (Hown k i u t); congruence.
    - unfold holds_gxid in Hh. apply not_true_iff_false in Hh. apply Hh, existsb_exists. exists u.
      split; [by apply list_elem_of_In, list_elem_of_lookup_2 with k|]. rewrite bool_decide_false by done. cbn.
      by apply Z.eqb_eq. }
  intros j k u v Hj Hk Hu Hv He.
  apply list_lookup_insert_Some in Hj as [(<- & <- & _)|[Hij Hj]]; apply list_lookup_insert_Some in Hk as [(<- & <- & _)|[Hik Hk]].
  - done.
  - by destruct (Hne _ _ Hk (not_eq_sym Hik) Hv Hu).
  - by destruct (Hne _ _ Hj (not_eq_sym Hij) Hu Hv).
  - by apply (Hown j k u v).
Qed.

(** a session moves on: the conditions of the steps, on its slot alone *)
Lemma session_ok prefetch s s' ext i t t' :
  ckpt_ok prefetch s → c_slots s !! i = Some t →
  (c_log s', c_slots s', c_table s', c_ckpt s') = (c_log s ++ ext, <[i := t']> (c_slots s), c_table s, c_ckpt s) →
  (c_nextGxid s', c_count s', c_bump s') = (c_nextGxid s, c_count s, c_bump s) →
  (∀ n, foldl redo_gxid n ext = n) → (∀ k c, ext !! k ≠ Some (XLOG_CHECKPOINT c)) →
  slot_ok (c_log s') t' →
  (∀ g, decided ext g → g = slot_gxid t ∧ slot_at t = DelaySet ∧ slot_gxid t' = slot_gxid t ∧ inserted t' = true) →
  (slot_at t' ≠ NoCommit →
     (slot_gxid t' = slot_gxid t ∧ slot_at t ≠ NoCommit) ∨ holds_gxid (slot_gxid t') (c_slots s) = false) →
  (inside t' = true → (inside t = true ∧ slot_gxid t' = slot_gxid t ∧ slot_lxid t' = slot_lxid t) ∨
     ¬ decided (c_log s) (slot_gxid t')) →
  (inserted t = true → forgotten (c_log s') (slot_gxid t) ∨
     (inserted t' = true ∧ slot_gxid t' = slot_gxid t ∧ (slot_includeInCkpt t = true → slot_includeInCkpt t' = true))) →
  ckpt_ok prefetch s'.
Proof.
  intros H Hi [= Hl Hs Ht Hc] [= Hn Hcnt Hb] Hx Hr Hok Hd Hown Hin Hins.
  assert (moves s s' ext) as Hm.
  { eapply (moves_one s s' ext i t t'); try done; [by apply H| |].
    - intros g Hg. destruct (Hd g Hg) as (-> & _ & -> & ->). done.
    - intros k u Hk Hne Ha Hg. destruct (Hd _ Hg) as (He & Hat & _). apply Hne.
      by eapply (co_own _ _ H k i u t); try done; rewrite ?Ha, ?Hat. }
  eapply moves_ok; [done| | |done].
  - rewrite Hs. eapply own_insert; [apply H|done|done].
  - unfold limit_right. rewrite Hn, Hcnt, Hb, Hl. unfold gxid_after. rewrite foldl_app, Hx. apply H.
Qed.

(** the log grows, and no session moves *)
Lemma others_ok prefetch s s' ext :
  ckpt_ok prefetch s → (c_log s', c_slots s', c_ckpt s') = (c_log s ++ ext, c_slots s, c_ckpt s) →
  (c_table s' = c_table s ∨ (c_table s' = [] ∧ ∀ g, g ∈ c_table s → forgotten (c_log s) g)) →
  (∀ k c, ext !! k = Some (XLOG_CHECKPOINT c) → k = 0%nat ∧ ckpt_right c (c_log s)) →
  (∀ g, ¬ decided ext g) → limit_right prefetch s' → ckpt_ok prefetch s'.
Proof.
  intros H [= Hl Hs Hc] Ht Hr Hd Hlim. eapply moves_ok; [|rewrite Hs; apply H|done|done].
  eapply moves_none; try done. apply H.
Qed.

Lemma decided_nil g : ¬ decided [] g.
Proof. intros (x & c & Hin). by apply not_elem_of_nil in Hin. Qed.
Lemma decided_one x c g g' : decided [XLOG_XACT_DISTRIBUTED_COMMIT x c g] g' → g' = g.
Proof. intros (x' & c' & Hin%list_elem_of_singleton). congruence. Qed.
Lemma undecided_one r g : no_outcome r → ¬ decided [r] g.
Proof. intros Hr (x & c & <-%list_elem_of_singleton). done. Qed.
Lemma undecided_forget g g' : ¬ decided [XLOG_XACT_DISTRIBUTED_FORGET g] g'.
Proof. by intros (x & c & ?%list_elem_of_singleton). Qed.

(** the log of a step of a session, with the rest that stays *)
Ltac session ext :=
  eapply (session_ok _ _ _ ext);
  [eassumption|eassumption|cbn; rewrite ?app_nil_r; reflexivity|reflexivity|done|by intros [|?] ?|..];
  unfold inserted, inside; cbn.

Lemma session_step_ok prefetch s s' : ckpt_ok prefetch s → session_step s s' → ckpt_ok prefetch s'.
Proof.
  intros H Hstep. destruct Hstep as [i t g lxid Hi Ha Hl Hd Hh|i t xid subs Hi Ha|i t Hi Ha|i t Hi Ha|i t Hi Ha|i t Hi Ha];
    destruct (co_slots _ _ H _ _ Hi) as [Hfl Hco Hfr Hfo]; unfold inserted in Hco; rewrite Ha in *;
    injection Hfl as Hdl Hic.
  - session (@nil XLogRecord); rewrite ?Ha; try done; [intros g' []%decided_nil|by right].
  - session [XLOG_XACT_DISTRIBUTED_COMMIT xid subs (slot_gxid t)]; rewrite ?Ha; try done.
    + split; cbn; try congruence. intros _. apply decided_app. right. exists xid, subs. by left.
    + intros g ->%decided_one. done.
    + by left.
    + right. by apply Hfr.
  - session (@nil XLogRecord); rewrite ?Ha; try done; [|intros g' []%decided_nil|by left|by left|].
    + split; cbn; try congruence. by auto.
    + by right.
  - session (@nil XLogRecord); rewrite ?Ha; try done; [|intros g' []%decided_nil|by left|by right].
    split; cbn; try congruence. by auto.
  - session [XLOG_XACT_DISTRIBUTED_FORGET (slot_gxid t)]; rewrite ?Ha; try done; [|intros g []%undecided_forget|by left|by right].
    split; cbn; try congruence; [intros; apply decided_app; left; auto|].
    intros _. apply forgotten_app. right. by left.
  - session (@nil XLogRecord); rewrite ?Ha; try done; [|intros g' []%decided_nil|by left; auto].
    split; cbn; congruence.
Qed.

Lemma limit_same prefetch s s' ext :
  limit_right prefetch s → c_log s' = c_log s ++ ext → (∀ n, foldl redo_gxid n ext = n) →
  (c_nextGxid s' + c_count s', c_bump s') = (c_nextGxid s + c_count s, c_bump s) → limit_right prefetch s'.
Proof.
  unfold limit_right, gxid_after. intros H -> Hx [= -> ->]. by rewrite foldl_app, Hx.
Qed.

Lemma system_step_ok prefetch s s' : ckpt_ok prefetch s → system_step prefetch s s' → ckpt_ok prefetch s'.
Proof.
  intros H Hstep. pose proof (co_limit _ _ H) as Hlim.
  destruct Hstep as [g Hg|Hall|r Hr| |Hc|Hb|n Hb].
  - eapply (others_ok _ s _ [_]); [done|done|by left|by intros [|?] ?|intros g' []%undecided_forget|].
    by eapply limit_same.
  - eapply (others_ok _ s _ []); [done|by cbn; rewrite app_nil_r|by right|done|intros g []%decided_nil|done].
  - eapply (others_ok _ s _ [r]); [done|done|by left| |intros g; apply undecided_one, plain_no_outcome, Hr|].
    + intros [|?] c Hk; [|done]. injection Hk as ->. done.
    + eapply limit_same; [done|done| |done]. intros n. by destruct r.
  - eapply (others_ok _ s _ []); [done|by cbn; rewrite app_nil_r|by left|done|intros g []%decided_nil|done].
  - eapply (others_ok _ s _ []); [done|by cbn; rewrite app_nil_r|by left|done|intros g []%decided_nil|].
    unfold limit_right in *. cbn [c_nextGxid c_count c_bump c_log]. destruct (c_bump s); lia.
  - eapply (others_ok _ s _ [_]); [done|done|by left|by intros [|?] ?|intros g; by apply undecided_one|].
    unfold limit_right, gxid_after. cbn. rewrite foldl_app. cbn. lia.
  - eapply (others_ok _ s _ []); [done|by cbn; rewrite app_nil_r|by left|done|intros g []%decided_nil|].
    unfold limit_right in *. rewrite Hb in Hlim. cbn [c_nextGxid c_count c_bump c_log] in *. lia.
Qed.

(** ** What the steps of the checkpointer keep *)

Lemma set_ckpt_ok prefetch s c :
  ckpt_ok prefetch s → checkpointer_ok (set_ckpt c s) → ckpt_ok prefetch (set_ckpt c s).
Proof. intros [] ?. by split. Qed.

(** a session that has left its critical section is to be included, or over *)
Lemma outside_includes l t : slot_ok l t → inserted t = true → inside t = false → slot_includeInCkpt t = true.
Proof.
  intros [Hf _ _ _]. unfold inserted, inside. destruct (slot_at t); cbn in Hf; try done; by injection Hf as _ ->.
Qed.

Lemma waited_collected prefetch s redo :
  ckpt_ok prefetch s → early_in s redo (λ _ _, False) → collected s redo 0 0 [].
Proof.
  intros H He. split; [|intros g []%not_elem_of_nil].
  intros g Hd. destruct (co_covered _ _ H g) as [?|[[k Hk]%list_elem_of_lookup|(k & t & Hk & Hi & <-)]];
    [by eapply decided_take|by left|right; right; left; exists k; split; [lia|done]|].
  right; right; right. exists k, t. split_and!; [lia|done| |done|done].
  eapply outside_includes; [by eapply H|done|]. destruct (inside t) eqn:Hin; [|done]. by destruct (He k t Hk Hin).
Qed.

Lemma scanned_collected prefetch s redo i j t a :
  ckpt_ok prefetch s → c_slots s !! j = Some t → collected s redo i j a →
  collected s redo i (S j) (if slot_includeInCkpt t then a ++ [slot_gxid t] else a).
Proof.
  intros H Hj [Hc Ha]. split.
  - intros g Hd. destruct (Hc g Hd) as [?|[?|[?|(k & u & Hk & Hu & Hin & Hins & <-)]]];
      [by left|right; left; case_match; set_solver|by right; right; left|].
    destruct (decide (k = j)) as [->|]; [|right; right; right; exists k, u; split; [lia|done]].
    assert (u = t) as -> by congruence. rewrite Hin. right; left. set_solver.
  - destruct (slot_includeInCkpt t) eqn:Hin; [|done]. intros g [?| ->%list_elem_of_singleton]%elem_of_app; [auto|].
    destruct (co_slots _ _ H _ _ Hj) as [Hf Hco _ _]. apply Hco. unfold inserted. rewrite Hin in Hf.
    by destruct (slot_at t).
Qed.

Lemma copied_collected prefetch s redo i j a g :
  ckpt_ok prefetch s → c_table s !! i = Some g → collected s redo i j a → collected s redo (S i) j (a ++ [g]).
Proof.
  intros H Hi [Hc Ha]. split.
  - intros g' Hd. destruct (Hc g' Hd) as [?|[?|[(k & Hk & Hg)|?]]]; [by left|right; left; set_solver| |by right; right; right].
    destruct (decide (k = i)) as [->|]; [|right; right; left; exists k; split; [lia|done]].
    right; left. assert (g' = g) as -> by congruence. set_solver.
  - intros g' [?| ->%list_elem_of_singleton]%elem_of_app; [auto|]. eapply co_table; [done|]. by eapply list_elem_of_lookup_2.
Qed.

(** what is collected at the end of the scan is right *)
Lemma collected_right s redo n nextXid j a :
  limit_ok s redo n → collected s redo (length (c_table s)) j a → c_slots s !! j = None →
  ckpt_right (mkCheckPoint false (Z.of_nat redo) nextXid n a) (c_log s).
Proof.
  intros [Hr Hn] [Hc Ha] Hj%lookup_ge_None. split; cbn; rewrite ?Nat2Z.id; [done| |done|done].
  intros g Hd. destruct (Hc g Hd) as [?|[?|[(k & Hk & Hg%lookup_lt_Some)|(k & t & Hk & Ht%lookup_lt_Some & _)]]];
    [by right|by left|lia|lia].
Qed.

(** redo of the log sets the limit or leaves it *)
Lemma redo_gxid_cases l : (∀ n, foldl redo_gxid n l = n) ∨ (∀ n m, foldl redo_gxid n l = foldl redo_gxid m l).
Proof.
  induction l as [|r l [Hl|Hl]]; [by left| |right; cbn; auto].
  destruct r as [| | | | | | | |c|]; cbn; auto. destruct (ckpt_shutdown c); auto.
Qed.

Lemma info_limit prefetch s redo :
  ckpt_ok prefetch s → c_bump s = None → (redo ≤ length (c_log s))%nat → limit_ok s redo (c_nextGxid s + c_count s).
Proof.
  intros H Hb Hr. split; [done|]. pose proof (co_limit _ _ H) as Hl. unfold limit_right in Hl.
  rewrite Hb, Z.add_0_r in Hl. rewrite Hl. unfold gxid_after.
  destruct (redo_gxid_cases (drop redo (c_log s))) as [Hc|Hc]; [apply Hc|].
  rewrite <- (take_drop redo (c_log s)) at 3. rewrite foldl_app. apply Hc.
Qed.

(** a commit under way delays the checkpoint *)
Lemma inside_delays l t : slot_ok l t → inside t = true → slot_delayChkpt t = true.
Proof. intros [Hf _ _ _]. unfold inside. destruct (slot_at t); cbn in Hf; try done; by injection Hf as -> _. Qed.

Lemma checkpointer_step_ok prefetch s s' : ckpt_ok prefetch s → checkpointer_step s s' → ckpt_ok prefetch s'.
Proof.
  intros H Hstep. pose proof (co_ckpt _ _ H) as Hck. unfold checkpointer_ok in Hck.
  assert (∀ k t, c_slots s !! k = Some t → inside t = true → slot_delayChkpt t = true) as Hdelay.
  { intros k t Hk. eapply inside_delays. by eapply H. }
  destruct Hstep as [Hc|redo Hc Hb|redo n Hc|redo n i vs t Hc Hi|redo n i vs Hc Hi|redo n i vs t Hc Hi|redo n i vs Hc Hi
    |redo n i a g Hc Hi|redo n i a Hc Hi|redo n i a t Hc Hi|redo n i a nextXid Hc Hi]; rewrite Hc in Hck;
    [apply set_ckpt_ok; [done|]; cbn..|].
  - done.
  - exact (info_limit _ s _ H Hb Hck).
  - split; [done|]. intros k t _ _ _. left. lia.
  - destruct Hck as [Hl He]. split; [done|]. intros k u Hk Hin Hd. cbn [c_slots c_log set_ckpt] in Hk, Hd.
    destruct (He k u Hk Hin Hd) as [Hle|?]; [|right; case_match; set_solver].
    destruct (decide (k = i)) as [->|]; [|left; lia]. right. assert (u = t) as -> by congruence.
    rewrite (Hdelay i t Hk Hin). set_solver.
  - destruct Hck as [Hl He]. split; [done|]. intros k u Hk Hin Hd. cbn [c_slots c_log set_ckpt] in Hk, Hd. apply lookup_ge_None in Hi.
    pose proof (lookup_lt_Some _ _ _ Hk). destruct (He k u Hk Hin Hd) as [Hle|?]; [lia|split; [lia|done]].
  - destruct Hck as [Hl He]. split; [done|]. intros k u Hk Hin Hd. cbn [c_slots c_log set_ckpt] in Hk, Hd. destruct (He k u Hk Hin Hd) as [Hle Hv].
    split; [|done]. case_match eqn:Hb; [lia|]. destruct (decide (k = i)) as [->|]; [|lia].
    assert (u = t) as -> by congruence. by rewrite (Hdelay i t Hk Hin), bool_decide_true in Hb.
  - destruct Hck as [Hl He]. assert (early_in s redo (λ _ _, False)) as Hn.
    { intros k u Hk Hin Hd. destruct (He k u Hk Hin Hd) as [Hle _]. apply lookup_ge_None in Hi.
      apply lookup_lt_Some in Hk. lia. }
    split_and!; [done|done|]. exact (waited_collected _ s _ H Hn).
  - destruct Hck as (Hl & He & Hcol). split_and!; [done|done|]. exact (copied_collected _ s _ _ _ _ _ H Hi Hcol).
  - destruct Hck as (Hl & He & Hcol & Ha). split_and!; [done|done|]. split; [|done]. intros g Hd.
    destruct (Hcol g Hd) as [?|[?|[(k & Hk & Hg%lookup_lt_Some)|?]]]; [by left|by right; left| |by right; right; right].
    apply lookup_ge_None in Hi. lia.
  - destruct Hck as (Hl & He & Hcol). split_and!; [done|done|]. exact (scanned_collected _ s _ _ _ _ _ H Hi Hcol).
  - destruct Hck as (Hl & He & Hcol).
    eapply (others_ok _ (set_ckpt CkptNone s) _ [_]); [by apply set_ckpt_ok|done|by left| | |].
    + intros [|?] c Hk; [|done]. injection Hk as <-. split; [done|]. by eapply collected_right.
    + intros g. by apply undecided_one.
    + eapply (limit_same _ s); [apply H|done|done|done].
Qed.

(** every step keeps the invariant *)
Lemma ckpt_steps_ok prefetch s s' : rtc (ckpt_step prefetch) s s' → ckpt_ok prefetch s → ckpt_ok prefetch s'.
Proof.
  induction 1 as [|s1 s2 s3 [Hs|[Hs|Hs]] _ IH]; intros H; [done|..]; apply IH;
    [by eapply session_step_ok|by eapply system_step_ok|by eapply checkpointer_step_ok].
Qed.

(** C5: whatever the interleaving of the commits, of recovery, of the assignment of
    identifiers and of the checkpointer, a checkpoint whose record reached the log fits
    every log that a later crash can leave (any log that starts with the records up to the
    checkpoint's): redo from its redo pointer finds every distributed transaction that is
    committed and not forgotten, only committed ones, and the same next identifier as redo
    of the whole log. *)
Theorem checkpoint_fits prefetch s s' k c l :
  ckpt_ok prefetch s → rtc (ckpt_step prefetch) s s' →
  c_log s' !! k = Some (XLOG_CHECKPOINT c) →
  take (S k) (c_log s') `prefix_of` l → fits c l.
Proof.
  intros H Hs Hk [l' ->]. rewrite (take_S_r _ _ _ Hk), <- app_assoc.
  apply ckpt_right_fits. eapply co_records; [|done]. by eapply ckpt_steps_ok.
Qed.

(** ** A coordinator that starts *)

Definition free_slot : slot := mkSlot 0 0 false false NoCommit.

(** no session commits yet, the table holds the committed transactions that are not
    forgotten, and the counter starts at the limit of the log *)
Definition started (l : list XLogRecord) (slots : nat) (table : list Z) : shared :=
  mkShared l (length l) (replicate slots free_slot) table (gxid_after l) 0 None CkptNone.

Lemma started_ok prefetch l slots table :
  (∀ g, decided l g → ¬ forgotten l g → g ∈ table) → (∀ g, g ∈ table → decided l g) →
  (∀ k c, l !! k = Some (XLOG_CHECKPOINT c) → ckpt_right c (take k l)) →
  ckpt_ok prefetch (started l slots table).
Proof.
  intros Hp Hd Hr. split; try done; cbn.
  - intros i t [-> _]%lookup_replicate. by split.
  - intros i j t u [-> _]%lookup_replicate _ Hn. done.
  - intros g Hg. destruct (forgotten_or_not l g); [by left|right; left; auto].
  - unfold limit_right. cbn [c_nextGxid c_count c_bump c_log started]. lia.
Qed.

(** ** An example: the redo pointer falls between the commit record of a transaction and
    the flag that includes it *)

Definition busy_slot : slot := mkSlot 1 7 false true DelayCleared.
Definition example_checkpoint : CheckPoint := mkCheckPoint false 2 100 8193 [1].
Definition example_log : list XLogRecord :=
  [XLOG_NEXTGXID 8193; XLOG_XACT_DISTRIBUTED_COMMIT 5 [] 1; XLOG_CHECKPOINT example_checkpoint].
Definition example_end : shared :=
  mkShared example_log 3 [busy_slot; free_slot] [] 2 8191 None CkptNone.

Ltac session_does := eapply rtc_l; [left|].
Ltac system_does := eapply rtc_l; [right; left|].
Ltac checkpointer_does := eapply rtc_l; [right; right|].

Lemma example_checkpoint_run : rtc (ckpt_step 8192) (started [] 2 []) example_end.
Proof.
  system_does; [by apply step_bump|]. system_does; [by eapply step_bumped|]. system_does; [by apply step_take|].
  session_does.
  { eapply (step_delay _ 0 free_slot 1 7); [done|done|done| |done]. intros (x & c & Hin). cbn in Hin. set_solver. }
  session_does; [by eapply (step_commit _ 0 _ 5 [])|]. checkpointer_does; [by apply step_redo|].
  checkpointer_does; [by eapply step_info|]. checkpointer_does; [by eapply step_vxids|].
  checkpointer_does; [by eapply step_vxid|]. checkpointer_does; [by eapply step_vxid|].
  checkpointer_does; [by eapply step_wait|]. checkpointer_does; [by eapply step_pass|].
  session_does; [by eapply (step_include _ 0)|]. session_does; [by eapply (step_end _ 0)|].
  checkpointer_does; [by eapply step_pass|]. checkpointer_does; [by eapply step_pass|].
  checkpointer_does; [by eapply step_waited|]. checkpointer_does; [by eapply step_copied|].
  checkpointer_does; [by eapply step_scan|]. checkpointer_does; [by eapply step_scan|].
  checkpointer_does; [by eapply (step_record _ _ _ _ _ 100)|]. apply rtc_refl.
Qed.

Lemma checkpoint_fits_witness :
  fits example_checkpoint (example_log ++ [XLOG_OTHER 9]) ∧
  1 ∈ pending_after (list_to_set [1]) (drop 2 (example_log ++ [XLOG_OTHER 9])).
Proof.
  assert (fits example_checkpoint (example_log ++ [XLOG_OTHER 9])) as Hf.
  { apply (checkpoint_fits 8192 (started [] 2 []) example_end 2).
    - apply started_ok; [intros g []%decided_nil|intros g []%not_elem_of_nil|done].
    - apply example_checkpoint_run.
    - reflexivity.
    - by exists [XLOG_OTHER 9]. }
  split; [exact Hf|]. apply (fits_pending _ _ Hf); [exists 5, []; apply elem_of_app; left; right; left|].
  unfold forgotten. cbn. intros Hin. by repeat (apply elem_of_cons in Hin as [Hin|Hin]; [done|]); apply not_elem_of_nil in Hin.
Defined.
